(* ===== verification/_CoqProject ===== *)
-Q . S2P
Prelude.v
GoStrings.v
Values.v
Json.v
JsonDecode.v
FieldPath.v
FieldPathNotation.v
FieldPathUpdate.v
FieldPathDelete.v
FieldPathRoundTrip.v
FieldPathPresence.v
FieldPathSpec.v
Sha256.v
ApiTypes.v
Conditions.v
Identity.v
Scope.v
Kube.v
Containment.v
TrackerNames.v
Render.v
RenderSpec.v
Client.v
ProgramLogic.v
Conflict.v
Applier.v
CsaSpec.v
CsaSettles.v
CsaCompose.v
SsaSpec.v
Memory.v
MemorySpec.v
MemoryWrites.v
MemoryPlan.v
MemoryContent.v
TrackerLogic.v
TrackerSpec.v
Controller.v
Traces.v
Promotion.v
PromotionSpec.v
ContributorReconciler.v
ContributorSpec.v
TrackerReconciler.v
TrackerTraces.v
TrackerReconcilerSpec.v
TrackerGuarantees.v
TrackerOutcomes.v
ContributorGuarantees.v
Webhook.v
WebhookSpec.v
TargetCache.v
World.v
Impersonation.v
StatusSchema.v
StatusTyping.v
TrackerStore.v
StatusGuarantees.v
Handover.v
HandoverSpec.v
HandoverGuarantees.v
Scene.v
TrackerSettles.v
ContributorSettles.v
HandoverCompletes.v
Lifecycle.v
Wakeups.v
Races.v
Divergences.v
