(* ===== verification/Prelude.v ===== *)
(** * patch-operator: a verification development

    patch-operator is a Kubernetes operator.  Contributors ([ResourcePatch], namespaced, and
    [ClusterResourcePatch]) each say how some object of the cluster should be patched, and the
    operator applies all of their patches to that object, arbitrates where they disagree, and
    withdraws each one when its contributor leaves.  This development models the operator's own
    logic, in Go under src/internal and src/api, and proves what makes it safe to run.

    ** The program

    - A contributor's reconcile ([ContributorReconciler]) validates its spec, resolves the objects it
      reaches, and makes sure that for each of them there is a tracker ([SharedResource],
      [ClusterSharedResource]) that knows about it.  It never writes a target.
    - A tracker's reconcile ([TrackerReconciler]) owns one target object.  It lists the contributors
      that claim the target, renders their patches, finds the contested paths, orders contributors
      by priority, applies those not superseded, reverts those leaving, deletes the target when its
      creator leaves and asked for that, and keeps all bookkeeping (who applied what, which paths,
      which values were there before) in its status.
    - When a cluster contributor joins a target held by a namespaced tracker, the tracker is
      promoted ([Promotion], [finishPromotion]): the old one is fenced, a cluster tracker inherits
      its status, and the old one retires.
    - Rendering ([Render]) turns a declared patch into a concrete contribution, over a small language
      of field paths ([FieldPath]).  Two appliers ([Applier]) write it: server-side apply, which leaves
      ownership to the API server, and client-side apply, which records prior values itself.
    - Admission ([Webhook]) reviews whether the writer of a contributor could do what the operator
      will do for it, and records who wrote it.  [Scope] is the containment rule, used at admission
      and again in every reconcile.  [TargetCache] bounds the kinds of object watched.

    The parts meet in three places.  Contributor and tracker communicate only through objects of the
    cluster: the tracker object (its finalizer, its fence and its status) and the contributor's
    status.  The tracker calls the appliers, which call the target client under an impersonated
    identity.  Contributor, tracker and webhook all call [Scope] and so agree on targets and names.

    ** Files and sources

    Shared: [Prelude] (results, automation, lists); [GoStrings] (strings, strconv); [Values]
    (unstructured trees and how Go prints them); [Json] (the text of a value) and [JsonDecode] (reading
    it back); [Sha256].

    - src/api/v1alpha1: [ApiTypes] (the four kinds, specs and statuses, helpers of interfaces.go) and
      [Identity] (identity.go, with the encoding and decoding of its record).  [StatusSchema] is the
      schema of the stored statuses, as the kubebuilder markers of the types give it.
    - src/internal/scope/scope.go: [Scope]; proofs in [Containment] and [TrackerNames].
    - src/internal/render/fieldpath.go: [FieldPath]; proofs in [FieldPathNotation] (printing and
      parsing), [FieldPathUpdate], [FieldPathDelete], [FieldPathPresence] (lemmas),
      [FieldPathRoundTrip] and [FieldPathSpec] (what callers rely on).
    - src/internal/render/render.go: [Render]; proofs in [RenderSpec].
    - src/internal/apply: [Conflict] (conflict.go), [Applier] (applier.go, csa.go, ssa.go); proofs in
      [CsaSpec], [CsaSettles], [CsaCompose] (several contributors of one target) and [SsaSpec].
    - src/internal/impersonate/impersonate.go: the last part of [Controller] is what a reconcile sees of
      it, one call; [Impersonation] is the factory itself, with its lock and cache, and its proofs.
    - src/internal/controller: [TrackerLogic] (the tracker's pure decisions and helpers.go),
      [Controller] (calls, results, retry), [Promotion] (promotion.go, the contributor's side),
      [ContributorReconciler] (contributor_controller.go, index.go), [TrackerReconciler]
      (tracker_controller.go, and finishPromotion).  Proofs in [TrackerSpec], [PromotionSpec],
      [ContributorSpec], [ContributorGuarantees] and [ContributorSettles], [TrackerTraces], [TrackerReconcilerSpec],
      [TrackerGuarantees], [TrackerOutcomes] and [TrackerSettles]; [Conditions] (lemmas of
      SetCondition) and [Scene] (one tracker, its target and a server); [StatusTyping] and [StatusGuarantees] (both
      reconciles keep to the schema); [Handover], [HandoverSpec], [HandoverGuarantees] and
      [HandoverCompletes] (promotion under concurrency, and after crashes).
    - Both reconciles of the controller package together: [Lifecycle], one contributor from its creation to
      its removal.
    - fieldpath.go, the deep copies of render.go and the appliers' plans as they work on memory: [Memory];
      proofs in [MemorySpec] (reading and copying), [MemoryWrites] (writing), [MemoryPlan] (client-side
      update and revert) and [MemoryContent] (new objects).
    - src/internal/webhook: [Webhook] (sar.go, validator.go, mutator.go); proofs in [WebhookSpec].
    - src/internal/targetcache/targetcache.go: [TargetCache], with its proofs; [Wakeups] has
      [ensureTargetWatch] and the function it registers, and what wakes a tracker.
    - [Divergences] and [Races] show, on concrete inputs and interleavings, where the code and what is
      said of it differ.

    [Client] and [ProgramLogic] are the framework for code that talks to the API server, [World] for
    several such programs at once, [TrackerStore] the API server's store of trackers, [Kube] what the
    code takes from Kubernetes libraries, [Traces] what can be read off a trace.

    ** How code is modelled

    - A function that makes API calls is a [Client.prog]: it returns, or issues a call and continues
      with the reply.  A reconcile is the whole handler: every read, write, early return and requeue.
      [exec] relates it to every trace some server can give rise to: any reply to any call, so stale
      caches, lost races, partial failures and writes of other actors between two calls are all
      included.  [run] and [behaviour] execute it against a given server; witnesses use them.
    - Traces are reasoned about with [ProgramLogic.wp]: a policy says which call may follow which
      trace, [wp] that a program keeps to the policy and returns with a postcondition, and
      [wp_exec] turns that into a statement about every trace.  The policies are
      [TrackerTraces.acts_on] inside a tracker's pass and [TrackerReconcilerSpec.reconcile_policy]
      around it, and [ContributorSpec.contributor_policy].  Where what matters is the shape of the
      objects passed around, a program is [ProgramLogic.typed]: its calls are well formed as long as
      the answers it gets are.
    - Concurrency is a [World]: threads, each a program with the calls it has made, and the state of a
      server that serves one call at a time.  A thread that is never scheduled again has crashed.
      [World.consistent_reachable] is rely-guarantee reasoning over it and
      [World.simulation_reachable] refinement of an abstract machine.  Two servers are modelled: the
      store of trackers, with resource versions, separate status writes, finalizers, caches that
      return any version there ever was and writes whose reply is lost; and the memory of the
      impersonation factory, whose lock blocks.
    - Go objects are values.  The code mutates trees and statuses in place; a definition returns what
      the caller sees afterwards, on error returns too, and deep copies are the identity.  Where this
      is not evident, for the objects that client-side apply edits, it is proved: [Memory] has the same
      code on maps and slices that are references, with arrays that [append] may share, and
      [MemoryPlan] shows that it computes what the functions on values say and changes nothing
      that others hold.  The status mutation passed to a conflict retry is a function, applied to
      each fresh read.
    - A Go map is a finite map.  Where the code ranges over one and the order shows, the order is an
      argument: each range of each pass of a tracker has an order of its own
      ([TrackerReconciler.ranging]), and theorems hold for all of them.
    - Strings are byte strings.  Enumerations stay strings, as the API server stores them.  Integers
      are [Z]; Go's int is 64 bits wide and its bound appears where a number is parsed.  Counts,
      which are converted to int32, are lengths of lists far below that width.  Durations are
      milliseconds.
    - A raw extension is its decoded value, or absent, or not decodable.  Numbers decoded by
      [encoding/json] are decimal floats with Go's rounding and printing ([Values]); those of live
      objects are integers.  The difference is visible to users; see [Divergences].
    - Errors keep what the code tests: reason, causes and wrapping of API errors, and the format
      and arguments of the messages the code makes.

    Interfaces to libraries are type classes, and the theorems hold for every instance:
    [Render.JsonPatch] (RFC 6902) and [Kube.KubeLib] (group versions, selectors, REST mapping, semantic
    equality).

    ** Bounds and fuel

    - [FieldPath.parse_loop] has the length of its input as fuel; every iteration consumes at least
      one byte, and [Parse_stable] shows that the fuel is never what stops it.
    - [Controller.retry_on_conflict] makes [backoff_retries] + 1 = 4 attempts: client-go's
      DefaultBackoff has four steps.
    - [JsonDecode.parse_json] has as fuel twice the length of its input and two; reading an element or a member
      consumes at least a byte, and [JsonDecode.parse_value_fuel] shows more fuel changes nothing.
    - [GoStrings.dec_digits], [Sha256.blocks] and [Values.shortest] take as fuel a bound on the
      number of digits or blocks they produce; the hash is checked on published vectors and the
      printing of numbers on examples.
    - [Memory.load], [Memory.deep_copy] and [Memory.deep_merge] have as fuel one more than the number of
      cells there are, which no object is nested deeper than; [runs_deep_copy] and [content_in_memory]
      show that it is enough.
    - Every other function is structurally recursive, so every program here terminates; the loops of
      the code are over lists it has read.

    ** What is shown

    - Containment ([Containment], [ResourcePatch_contained], [Validate_iff]): a namespaced contributor
      reaches only its own namespace, under its own service accounts, whatever its spec says; and
      validation accepts exactly a declarative table.
    - Tracker safety ([TrackerGuarantees]): against any server, a tracker touches its target only when it holds its
      finalizer and is not fenced; only as a listed contributor; deletes it only for its recorded
      creator and when nobody stays; and never drops a contributor it cannot account for.
    - Tracker outcomes ([TrackerOutcomes]): a call that fails makes a reconcile return an error, unless the
      answer is one it acts on (not found, already there, changed meanwhile) or one of two failures it
      absorbs: building a client, which a status reports, and registering a watch, which is only
      logged; and a reconcile that leaves its tracker waiting asks to run again.
    - Stored statuses ([StatusGuarantees]): in every interleaving of reconciles, every tracker about to be
      written keeps to the schema but for the bound on a message's length: phases, states and condition
      fields from their enumerations and patterns, conditions one of a type, the count that of the
      list; and every tracker stored keeps to all of it, when the API server refuses long messages.
    - Tracker decisions ([TrackerSpec]): conflicts are exactly the paths claimed with different values;
      a contributor is superseded exactly when its policy is Priority and it is outranked on one of them;
      the order is deterministic;
      the status write is idempotent, so that it may be retried.
    - Promotion ([PromotionSpec], [contributor_no_second_writer]): each write of a promotion is of the object it is
      meant for, the successor's only behind a committed fence and with everything a revert needs, the
      flag's only behind a committed succession; adopting twice is adopting once.  [HandoverGuarantees]: any
      interleaving of promotions and passes of the fenced tracker refines a protocol of five moves in
      which whoever has handed over has a successor that took over.  [HandoverCompletes]: from every
      state that crashed promotions and passes can leave, an undisturbed promotion and pass finish.
    - Wake-ups ([Wakeups]): a tracker is created where the watch of its target, the events of its
      contributor and its own listing meet, and every move of a handover passes the event filter.
    - Impersonation ([Impersonation]): racing goroutines build each user's client once, hand out only
      clients that act as that user and read past the shared cache, and never race on the map.
    - Arrival and departure ([Lifecycle]), with whole reconciles of a contributor and of its tracker, one
      after the other in any order and number, each reading what is stored: a contributor that arrives at
      an untracked target ends up ready, its claims on the target and nothing else changed; deleted after
      any of these reconciles, it is withdrawn, and the target and the trackers are as if it had never been
      there.  Reconciles that overlap, or read a cache that lags behind, are not covered, and
      [Divergences] has one that does leave something behind.
    - Memory ([MemoryWrites], [MemoryPlan], [MemoryContent]): setting and deleting in place come to the functions on trees
      and write nothing outside their object; a client-side update leaves the live object, the
      contribution and the recorded priors as they were, and shares nothing with what it captured; a
      new object is built without a write to the base or the contribution ([MemoryContent]).
    - Convergence, against a server that answers faithfully: once a contributor with one target has been
      reconciled, further reconciles at any later times only re-check its recorded identity when that
      is due, and touch no tracker ([ContributorSettles]); once two reconciles of a tracker have been
      quiet, every further one, with its maps ranged over in any order, leaves the target alone, and the
      status but for the conflicts it reports where several paths are contested ([TrackerSettles]).
    - Contributor safety ([ContributorGuarantees]): it neither reads nor writes a target, of which it only
      lists names when it selects by label; it changes trackers and lists only when valid, live and
      holding its finalizer, drops the finalizer last, reports ready exactly when every target is
      applied, and reaches exactly the objects its spec resolves to.
    - Appliers ([CsaSpec], [SsaSpec]): a client-side apply and its revert restore the object; an update
      writes its claims and nothing else; prior values are captured once; applying again writes
      nothing and captures nothing, even with the bookkeeping lost ([CsaSettles]); contributors whose
      claims lie apart come, are applied again and go in any order, each as if it were alone
      ([CsaCompose]); server-side apply forces only against our own managers or on request; neither
      creates unless asked to.
    - Rendering and paths ([RenderSpec], the FieldPath files): leaf paths address exactly what is set;
      reading, writing and deleting are each other's inverses where they should be; printing and
      parsing of paths are inverse, and parsing terminates.
    - Admission ([WebhookSpec]): the validator fails closed, the checks are the table's questions on the
      target, on both of them when an update changes it, of those that print alike one; the recorder names the last writer of the spec, and what it
      records is read back ([Identity]).
    - Names and caps ([TrackerNames], [FieldManagerFor_ok], [TargetCache]): derived names fit their
      limits and are distinct up to a hash collision; the number of watched kinds is capped.

    Each property is a theorem with a claim number; a property with hypotheses is followed by a
    witness that applies it to a concrete input or to the trace of a run against a sample server.

    ** What is not modelled

    src/cmd/main.go (flags and wiring), rbac.go (generation markers), groupversion_info.go (scheme
    registration) and the generated deep copies have no logic of their own.  SetupWithManager and
    SetupIndexes register handlers and indexes with the controller runtime; the filters and mapping
    functions they register are modelled, the runtime's queues are not.  Starting informers is the
    runtime's, so [TargetCache] takes its outcome as an argument; client.New is a library's, so
    [Impersonation] asks the memory for its result.  How long a condition's message is when it is
    formatted is an argument of the schema's clause about it.  Logging, metrics and
    event texts do not affect behaviour and are left out.

    ** Plan

    Next: several contributors of one target coming and going through the reconciles themselves, as
    [Lifecycle] has it for one and [CsaCompose] for the applier's part; reconciles of a contributor and
    of its tracker that overlap. *)
From stdpp Require Import base list strings.
From stdpp Require Import sorting.
From Stdlib Require Import Permutation Sorted.

Declare Scope go_scope.
Delimit Scope go_scope with go.

(** ** Results of fallible Go functions

    A Go function returning [(T, error)] whose callers look at the value only when the error is nil
    is a function into [res]. *)

Inductive res (E A : Type) : Type :=
| Ok (a : A)
| Err (e : E).
Arguments Ok {E A} a.
Arguments Err {E A} e.

Definition res_bind {E A B} (r : res E A) (k : A -> res E B) : res E B :=
  match r with
  | Ok a => k a
  | Err e => Err e
  end.

Notation "'let!' x ':=' r 'in' k" := (res_bind r (fun x => k))
  (at level 200, x pattern, r at level 100, k at level 200,
   format "'let!'  x  ':='  r  'in' '//' k") : go_scope.

Definition is_ok {E A} (r : res E A) : bool := match r with Ok _ => true | Err _ => false end.

Lemma res_bind_ok {E A B} (r : res E A) (k : A -> res E B) b :
  res_bind r k = Ok b <-> exists a, r = Ok a /\ k a = Ok b.
Proof. destruct r; cbn; naive_solver. Qed.

Lemma is_ok_inv {E A} (r : res E A) : is_ok r = true -> exists a, r = Ok a.
Proof. destruct r; [by eexists|done]. Qed.

(** ** Automation *)

(** Case analysis on the scrutinee of a [match] in the goal or in a hypothesis. *)
Ltac case_goal :=
  match goal with
  | |- context [match ?x with _ => _ end] => let E := fresh "E" in destruct x eqn:E
  end.
Ltac case_hyp H :=
  match type of H with
  | context [match ?x with _ => _ end] => let E := fresh "E" in destruct x eqn:E
  end.

(** Boolean facts to propositions. *)
Ltac bool_simpl :=
  repeat match goal with
  | H : (_ && _)%bool = true |- _ => apply andb_prop in H as [? ?]
  | H : (_ || _)%bool = false |- _ => apply orb_false_elim in H as [? ?]
  | H : negb _ = true |- _ => apply negb_true_iff in H
  | H : negb _ = false |- _ => apply negb_false_iff in H
  | H : String.eqb _ _ = true |- _ => apply String.eqb_eq in H
  | H : String.eqb _ _ = false |- _ => apply String.eqb_neq in H
  | H : Z.leb _ _ = true |- _ => apply Z.leb_le in H
  | H : Z.leb _ _ = false |- _ => apply Z.leb_gt in H
  | H : Z.ltb _ _ = true |- _ => apply Z.ltb_lt in H
  | H : Z.ltb _ _ = false |- _ => apply Z.ltb_ge in H
  end.

(** Closed equations between computed values, by evaluation. *)
Ltac vm_refl := match goal with |- _ = ?y => vm_cast_no_check (@eq_refl _ y) end.

Create HintDb patchop discriminated.

(** ** Sorting

    [sort.Strings], [sort.Slice] and [sort.SliceStable] over a comparison [less].  Insertion from
    the right keeps equal elements in their original order, so this is the stable sort; for
    [sort.Slice], which promises no order among equal elements, it is one admissible outcome. *)

Section Sorting.
Context {A : Type} (less : A -> A -> bool).

Fixpoint insert_sorted (x : A) (l : list A) : list A :=
  match l with
  | [] => [x]
  | y :: l' => if less y x then y :: insert_sorted x l' else x :: l
  end.

Definition sort (l : list A) : list A := foldr insert_sorted [] l.

Lemma insert_sorted_perm x l : insert_sorted x l ≡ₚ x :: l.
Proof.
  induction l as [|y l IH]; cbn; [done|].
  destruct (less y x); [|done]. rewrite IH. apply Permutation_swap.
Qed.

Lemma sort_perm l : sort l ≡ₚ l.
Proof. induction l as [|x l IH]; cbn; [done|]. by rewrite insert_sorted_perm, IH. Qed.

Lemma elem_of_sort x l : x ∈ sort l <-> x ∈ l.
Proof. by rewrite sort_perm. Qed.

(** [less_le a b]: [b] does not precede [a]. *)
Definition less_le (a b : A) : Prop := less b a = false.

Lemma insert_sorted_sorted `{!Transitive less_le} x l :
  (forall a b, less a b = true -> less b a = false) ->
  StronglySorted less_le l -> StronglySorted less_le (insert_sorted x l).
Proof.
  intros Hasym. induction 1 as [|y l Hl IH Hy]; cbn; [repeat constructor|].
  destruct (less y x) eqn:E.
  - constructor; [done|]. rewrite insert_sorted_perm. constructor; [|done]. by apply Hasym.
  - constructor; [by constructor|]. constructor; [done|].
    eapply Forall_impl; [exact Hy|]. intros z Hz. by transitivity y.
Qed.

Lemma sort_sorted `{!Transitive less_le} l :
  (forall a b, less a b = true -> less b a = false) -> StronglySorted less_le (sort l).
Proof. intros Hasym. induction l; cbn; [constructor|]. by apply insert_sorted_sorted. Qed.

(** Two permutations of the same elements sort to the same list as soon as [less] separates
    distinct elements: the outcome is a function of the set, not of arrival order. *)
Lemma sort_perm_eq `{!Transitive less_le} l1 l2 :
  (forall a b, less a b = true -> less b a = false) ->
  (forall a b, a ∈ l1 -> b ∈ l1 -> less a b = false -> less b a = false -> a = b) ->
  l1 ≡ₚ l2 -> sort l1 = sort l2.
Proof.
  intros Hasym Hanti Hp.
  assert (forall a b, a ∈ sort l1 -> b ∈ sort l1 -> less_le a b -> less_le b a -> a = b) as H.
  { intros a b Ha Hb. rewrite elem_of_sort in Ha, Hb. unfold less_le. eauto. }
  assert (Hq : sort l1 ≡ₚ sort l2) by by rewrite !sort_perm.
  pose proof (sort_sorted l1 Hasym) as S1. pose proof (sort_sorted l2 Hasym) as S2.
  revert H S1 S2 Hq. generalize (sort l1) (sort l2). clear.
  induction l as [|x l IH]; intros l2 Hanti S1 S2 Hq.
  { by apply Permutation_nil in Hq as ->. }
  destruct l2 as [|y l2]; [by apply Permutation_nil_r in Hq|].
  apply StronglySorted_inv in S1 as [S1 F1]. apply StronglySorted_inv in S2 as [S2 F2].
  assert (x = y) as ->.
  { assert (y ∈ x :: l) as Hy by (rewrite Hq; left).
    assert (x ∈ y :: l2) as Hx by (rewrite <- Hq; left).
    apply elem_of_cons in Hy as [->|Hy]; [done|]. apply elem_of_cons in Hx as [->|Hx]; [done|].
    apply Hanti; [left|by right|by eapply Forall_forall in F1|by eapply Forall_forall in F2]. }
  f_equal. apply IH; [|done|done|by apply Permutation_cons_inv in Hq].
  intros a b Ha Hb. apply Hanti; by right.
Qed.
End Sorting.

Lemma NoDup_map_inj {A B} (f : A -> B) l a b : NoDup (map f l) -> a ∈ l -> b ∈ l -> f a = f b -> a = b.
Proof.
  induction l as [|x l IH]; cbn; intros Hnd Ha Hb E; [by apply elem_of_nil in Ha|].
  apply NoDup_cons in Hnd as [Hx Hnd]. apply elem_of_cons in Ha, Hb.
  destruct Ha as [->|Ha], Hb as [->|Hb]; [done| | |by apply IH].
  - destruct Hx. rewrite E. by apply list_elem_of_fmap_2.
  - destruct Hx. rewrite <- E. by apply list_elem_of_fmap_2.
Qed.

(** Sorting what a function makes of a list, when it keeps the comparison. *)
Lemma sort_map {A B} (less : A -> A -> bool) (less' : B -> B -> bool) (f : A -> B) l :
  (forall a b, less' (f a) (f b) = less a b) -> sort less' (map f l) = map f (sort less l).
Proof.
  intros H. induction l as [|x l IH]; [done|]. cbn [map]. change (sort less' (f x :: map f l)) with (insert_sorted less' (f x) (sort less' (map f l))).
  rewrite IH. change (sort less (x :: l)) with (insert_sorted less x (sort less l)). generalize (sort less l). clear l IH.
  induction l as [|y l IH]; [done|]. cbn. rewrite H. destruct (less y x); [|done]. cbn. by rewrite IH.
Qed.
