(* ===== verification/GoStrings.v ===== *)
(** The part of Go's [strings] and [strconv] packages that the operator uses.

    A Go string is a sequence of bytes; so is [String.string] (its characters are 8-bit [ascii]).
    Case mapping is modelled on ASCII, which is all that Kubernetes kinds and names contain. *)
From stdpp Require Import base list strings.
From Stdlib Require Import Ascii NArith ZArith Lia OrderedTypeEx.
From S2P Require Import Prelude.

#[global] Arguments String.append : simpl nomatch.
Local Open Scope string_scope.

Module GoStrings.

(** ** Slicing and searching *)

(** [i := strings.IndexByte(s, c)], returning [s[:i]] and [s[i+1:]]; [None] when [i < 0]. *)
Fixpoint cut (c : ascii) (s : string) : option (string * string) :=
  match s with
  | "" => None
  | String a s' =>
      if Ascii.eqb a c then Some ("", s')
      else match cut c s' with Some (x, y) => Some (String a x, y) | None => None end
  end.

(** The longest prefix of bytes satisfying [f], and the rest. *)
Fixpoint span (f : ascii -> bool) (s : string) : string * string :=
  match s with
  | "" => ("", "")
  | String a s' => if f a then let '(x, y) := span f s' in (String a x, y) else ("", s)
  end.

Fixpoint sdrop (n : nat) (s : string) : string :=
  match n, s with
  | 0, _ => s
  | S n', String _ s' => sdrop n' s'
  | S _, "" => ""
  end.

Fixpoint stake (n : nat) (s : string) : string :=
  match n, s with
  | S n', String a s' => String a (stake n' s')
  | _, _ => ""
  end.

Definition has_prefix (s prefix : string) : bool := String.prefix prefix s.

Definition trim_prefix (s prefix : string) : string :=
  if has_prefix s prefix then sdrop (String.length prefix) s else s.

Definition has_suffix (s suffix : string) : bool :=
  (String.length suffix <=? String.length s)%nat &&
  String.eqb (sdrop (String.length s - String.length suffix) s) suffix.

Definition trim_suffix (s suffix : string) : string :=
  if has_suffix s suffix then stake (String.length s - String.length suffix) s else s.

Fixpoint forall_bytes (f : ascii -> bool) (s : string) : bool :=
  match s with "" => true | String a s' => f a && forall_bytes f s' end.

Definition no_byte (c : ascii) (s : string) : bool := forall_bytes (fun a => negb (Ascii.eqb a c)) s.

(** [strings.Split(s, sep)] for a one-byte separator. *)
Fixpoint split (c : ascii) (s : string) : list string :=
  match s with
  | "" => [""]
  | String a s' =>
      if Ascii.eqb a c then "" :: split c s'
      else match split c s' with
           | x :: rest => String a x :: rest
           | [] => [String a ""]
           end
  end.

(** [strings.ReplaceAll(s, String a (String b ""), r)] for a two-byte pattern. *)
Fixpoint replace2 (a b : ascii) (r : string) (s : string) : string :=
  match s with
  | String x ((String y s'') as s') =>
      if Ascii.eqb x a && Ascii.eqb y b then r +:+ replace2 a b r s''
      else String x (replace2 a b r s')
  | _ => s
  end.

(** [strings.ReplaceAll(s, String a "", r)] for a one-byte pattern. *)
Fixpoint replace1 (a : ascii) (r : string) (s : string) : string :=
  match s with
  | String x s' => if Ascii.eqb x a then r +:+ replace1 a r s' else String x (replace1 a r s')
  | "" => ""
  end.

Definition in_range (lo hi : ascii) (c : ascii) : bool :=
  (N_of_ascii lo <=? N_of_ascii c)%N && (N_of_ascii c <=? N_of_ascii hi)%N.

Definition is_upper (c : ascii) : bool := in_range "A" "Z" c.
Definition is_lower (c : ascii) : bool := in_range "a" "z" c.
Definition is_digit (c : ascii) : bool := in_range "0" "9" c.

Definition lower (c : ascii) : ascii :=
  if is_upper c then ascii_of_N (N_of_ascii c + 32) else c.

Fixpoint to_lower (s : string) : string :=
  match s with "" => "" | String a s' => String (lower a) (to_lower s') end.

(** [strings.Trim(s, cutset)]. *)
Definition trim_left (f : ascii -> bool) (s : string) : string := snd (span f s).

Fixpoint trim_right (f : ascii -> bool) (s : string) : string :=
  match s with
  | "" => ""
  | String a s' =>
      match trim_right f s' with
      | "" => if f a then "" else String a ""
      | t => String a t
      end
  end.

Definition trim (f : ascii -> bool) (s : string) : string := trim_right f (trim_left f s).

(** ** Decimal integers *)

Definition digit (n : N) : ascii := ascii_of_N (48 + n).
Definition digit_val (c : ascii) : N := N_of_ascii c - 48.

Fixpoint dec_digits (fuel : nat) (n : N) (acc : string) : string :=
  match fuel with
  | O => acc
  | S f =>
      let acc' := String (digit (n mod 10)) acc in
      if (n <? 10)%N then acc' else dec_digits f (n / 10) acc'
  end.

Definition utoa (n : N) : string := dec_digits (S (N.to_nat (N.log2 n))) n "".

(** [strconv.Itoa], [strconv.FormatInt(z, 10)]. *)
Definition itoa (z : Z) : string :=
  if (z <? 0)%Z then "-" +:+ utoa (Z.abs_N z) else utoa (Z.abs_N z).

Fixpoint dec_val (a : N) (s : string) : N :=
  match s with "" => a | String c s' => dec_val (10 * a + digit_val c) s' end.

Definition max_int : Z := 9223372036854775807.
Definition min_int : Z := -9223372036854775808.

(** [strconv.Atoi] on a 64-bit platform: an optional sign, at least one digit, nothing else, and in
    range of [int]. *)
Definition atoi (s : string) : option Z :=
  let '(neg, ds) :=
    match s with
    | String c s' =>
        if Ascii.eqb c "-" then (true, s') else if Ascii.eqb c "+" then (false, s') else (false, s)
    | "" => (false, "")
    end in
  if String.eqb ds "" then None
  else if forall_bytes is_digit ds then
    let z := if neg : bool then (- Z.of_N (dec_val 0 ds))%Z else Z.of_N (dec_val 0 ds) in
    if (min_int <=? z)%Z && (z <=? max_int)%Z then Some z else None
  else None.

(** ** Lemmas *)

Lemma str_app_nil_r s : s +:+ "" = s.
Proof. induction s; cbn; congruence. Qed.

Lemma str_app_assoc s1 s2 s3 : (s1 +:+ s2) +:+ s3 = s1 +:+ (s2 +:+ s3).
Proof. induction s1; cbn; congruence. Qed.

(** Normalise a concatenation to right-nested form with literal prefixes exposed. *)
Ltac str_norm := repeat first [progress cbn [String.append] | rewrite str_app_assoc].

Lemma str_length_app s1 s2 : String.length (s1 +:+ s2) = String.length s1 + String.length s2.
Proof. induction s1; cbn; congruence. Qed.

Lemma str_app_eq_nil s1 s2 : s1 +:+ s2 = "" -> s1 = "" /\ s2 = "".
Proof. destruct s1; cbn; [done|discriminate]. Qed.

Lemma str_app_inj_r s s1 s2 : s +:+ s1 = s +:+ s2 -> s1 = s2.
Proof. induction s; cbn; [done|]. intros [= ?]. auto. Qed.

Lemma no_byte_cons c a s : no_byte c (String a s) = true <-> a <> c /\ no_byte c s = true.
Proof. unfold no_byte; cbn. rewrite andb_true_iff, negb_true_iff, Ascii.eqb_neq. done. Qed.

Lemma forall_bytes_app f s1 s2 :
  forall_bytes f (s1 +:+ s2) = (forall_bytes f s1 && forall_bytes f s2)%bool.
Proof. induction s1; cbn; [done|]. by rewrite IHs1, andb_assoc. Qed.

Lemma no_byte_app c s1 s2 : no_byte c (s1 +:+ s2) = (no_byte c s1 && no_byte c s2)%bool.
Proof. apply forall_bytes_app. Qed.

Lemma cut_app c s1 s2 : no_byte c s1 = true -> cut c (s1 +:+ String c s2) = Some (s1, s2).
Proof.
  induction s1 as [|a s1 IH]; cbn; intros H; [by rewrite Ascii.eqb_refl|].
  apply no_byte_cons in H as [Ha H]. apply Ascii.eqb_neq in Ha. by rewrite Ha, IH.
Qed.

Lemma cut_none c s : no_byte c s = true -> cut c s = None.
Proof.
  induction s as [|a s IH]; [done|]. intros [Ha H]%no_byte_cons. cbn.
  apply Ascii.eqb_neq in Ha. by rewrite Ha, IH.
Qed.

Lemma cut_some c s x y : cut c s = Some (x, y) -> s = x +:+ String c y /\ no_byte c x = true.
Proof.
  revert x y. induction s as [|a s IH]; cbn; [done|]. intros x y.
  destruct (Ascii.eqb_spec a c) as [->|Hne]; [intros [= <- <-]; done|].
  destruct (cut c s) as [[x' y']|]; [|done]. intros [= <- <-].
  destruct (IH x' y' eq_refl) as [-> Hn]. split; [done|]. by apply no_byte_cons.
Qed.

Lemma cut_length c s x y : cut c s = Some (x, y) -> String.length y < String.length s.
Proof. intros [-> _]%cut_some. rewrite str_length_app. cbn. lia. Qed.

Lemma span_app f s1 s2 :
  forall_bytes f s1 = true ->
  match s2 with "" => True | String a _ => f a = false end ->
  span f (s1 +:+ s2) = (s1, s2).
Proof.
  intros H Hs. induction s1 as [|a s1 IH]; cbn in *.
  - destruct s2; cbn; [done|]. by rewrite Hs.
  - apply andb_prop in H as [-> H]. by rewrite IH.
Qed.

Lemma span_eq f s : fst (span f s) +:+ snd (span f s) = s.
Proof.
  induction s as [|a s IH]; cbn; [done|]. destruct (f a); cbn; [|done].
  destruct (span f s); cbn in *. congruence.
Qed.

Lemma prefix_app p s : String.prefix p (p +:+ s) = true.
Proof. induction p as [|a p IH]; cbn; [by destruct s|]. destruct (ascii_dec a a); done. Qed.

Lemma prefix_spec p s : String.prefix p s = true <-> exists t, s = p +:+ t.
Proof.
  split; [|intros [t ->]; apply prefix_app].
  revert s. induction p as [|a p IH]; intros s; cbn; [by exists s|].
  destruct s as [|b s]; cbn; [done|]. destruct (ascii_dec a b) as [->|]; [|done].
  intros [t ->]%IH. by exists t.
Qed.

Lemma stake_sdrop n s : stake n s +:+ sdrop n s = s.
Proof. revert s. induction n as [|n IH]; intros [|a s]; cbn; congruence. Qed.

Lemma length_stake n s : String.length (stake n s) = Nat.min n (String.length s).
Proof. revert s. induction n as [|n IH]; intros [|a s]; cbn; auto. Qed.

Lemma stake_app n s1 s2 : n <= String.length s1 -> stake n (s1 +:+ s2) = stake n s1.
Proof. revert s1. induction n as [|n IH]; intros [|a s1]; cbn; intros; try lia; [done..|]. f_equal. apply IH. lia. Qed.

Lemma stake_le_app n s1 s2 :
  String.length s1 <= n -> stake n (s1 +:+ s2) = s1 +:+ stake (n - String.length s1) s2.
Proof.
  revert n. induction s1 as [|a s1 IH]; intros n; cbn; intros; [by rewrite Nat.sub_0_r|].
  destruct n; [lia|]. cbn. f_equal. apply IH. lia.
Qed.

Lemma sdrop_app_length s1 s2 : sdrop (String.length s1) (s1 +:+ s2) = s2.
Proof. induction s1; cbn; done. Qed.

Lemma trim_prefix_app p s : trim_prefix (p +:+ s) p = s.
Proof. unfold trim_prefix, has_prefix. rewrite prefix_app. apply sdrop_app_length. Qed.

(** *** Digits *)

Lemma digit_val_digit n : (n < 10)%N -> digit_val (digit n) = n.
Proof. intros. unfold digit_val, digit. rewrite N_ascii_embedding by lia. lia. Qed.

Lemma is_digit_digit n : (n < 10)%N -> is_digit (digit n) = true.
Proof.
  intros. unfold is_digit, in_range, digit. rewrite N_ascii_embedding by lia.
  apply andb_true_intro; split; apply N.leb_le; cbn; lia.
Qed.

Lemma dec_val_digits f n acc :
  (n < 2 ^ N.of_nat f)%N -> dec_val 0 (dec_digits f n acc) = dec_val n acc.
Proof.
  revert n acc. induction f as [|f IH]; intros n acc Hn.
  { cbn in *. by replace n with 0%N by lia. }
  cbn [dec_digits]. destruct (N.ltb_spec n 10).
  - cbn. rewrite digit_val_digit by (apply N.mod_lt; lia). by rewrite N.mod_small.
  - rewrite IH.
    + cbn. rewrite digit_val_digit by (apply N.mod_lt; lia). f_equal. symmetry.
      apply N.div_mod. lia.
    + rewrite Nat2N.inj_succ, N.pow_succ_r' in Hn.
      apply N.Div0.div_lt_upper_bound; lia.
Qed.

Lemma dec_digits_digits f n acc :
  forall_bytes is_digit acc = true -> forall_bytes is_digit (dec_digits f n acc) = true.
Proof.
  revert n acc. induction f as [|f IH]; intros n acc H; [done|]. cbn [dec_digits].
  assert (forall_bytes is_digit (String (digit (n mod 10)) acc) = true) as H'.
  { cbn. rewrite is_digit_digit, H; [done|]. apply N.mod_lt. lia. }
  destruct (n <? 10)%N; auto.
Qed.

Lemma dec_digits_nonempty f n acc : dec_digits (S f) n acc <> "".
Proof.
  revert n acc. induction f as [|f IH]; intros n acc; cbn [dec_digits]; [by destruct (n <? 10)%N|].
  destruct (n <? 10)%N; [done|]. apply IH.
Qed.

Lemma utoa_digits n : forall_bytes is_digit (utoa n) = true.
Proof. by apply dec_digits_digits. Qed.

Lemma utoa_val n : dec_val 0 (utoa n) = n.
Proof.
  unfold utoa. rewrite dec_val_digits; [done|].
  rewrite Nat2N.inj_succ, N2Nat.id. destruct (N.eq_dec n 0) as [->|]; [done|].
  apply N.log2_spec. lia.
Qed.

Lemma utoa_inj n m : utoa n = utoa m -> n = m.
Proof. intros H. rewrite <- (utoa_val n), H. apply utoa_val. Qed.

Lemma digits_no_byte c s : is_digit c = false -> forall_bytes is_digit s = true -> no_byte c s = true.
Proof.
  intros Hc. induction s as [|a s IH]; cbn; [done|]. intros [Ha H]%andb_prop.
  apply no_byte_cons. split; [congruence|auto].
Qed.

(** [Atoi] inverts [Itoa] on every non-negative [int]. *)
Lemma atoi_itoa z : (0 <= z <= max_int)%Z -> atoi (itoa z) = Some z.
Proof.
  intros Hz. unfold itoa. destruct (Z.ltb_spec z 0); [lia|].
  pose proof (utoa_digits (Z.abs_N z)) as Hd. pose proof (utoa_val (Z.abs_N z)) as Hv.
  unfold atoi. destruct (utoa (Z.abs_N z)) as [|c s] eqn:E; [exfalso; revert E; apply dec_digits_nonempty|].
  assert (is_digit c = true) as Hc by (cbn in Hd; by apply andb_prop in Hd as [? _]).
  destruct (Ascii.eqb_spec c "-") as [->|_]; [done|].
  destruct (Ascii.eqb_spec c "+") as [->|_]; [done|].
  cbn [String.eqb]. rewrite Hd, Hv, N2Z.inj_abs_N, Z.abs_eq by lia.
  unfold min_int, max_int in *.
  replace ((-9223372036854775808 <=? z)%Z && (z <=? 9223372036854775807)%Z)%bool with true; [done|].
  symmetry. apply andb_true_intro. split; apply Z.leb_le; lia.
Qed.

(** *** The byte order on strings *)

Definition sltb (a b : string) : bool := String.ltb a b.

Lemma sltb_lt a b : sltb a b = true <-> String_as_OT.lt a b.
Proof.
  unfold sltb, String.ltb. rewrite <- String_as_OT.cmp_lt. unfold String_as_OT.cmp.
  assert (String_as_OT.cmp a b = String.compare a b) as H; [|].
  { done. }
  destruct (String.compare a b) eqn:E; split; intros; congruence || done.
Qed.

Lemma sltb_irrefl a : sltb a a = false.
Proof. destruct (sltb a a) eqn:E; [|done]. apply sltb_lt in E. by apply String_as_OT.lt_not_eq in E. Qed.

Lemma sltb_trans a b c : sltb a b = true -> sltb b c = true -> sltb a c = true.
Proof. rewrite !sltb_lt. apply String_as_OT.lt_trans. Qed.

Lemma sltb_asym a b : sltb a b = true -> sltb b a = false.
Proof.
  intros H. destruct (sltb b a) eqn:E; [|done].
  pose proof (sltb_trans _ _ _ H E) as F. by rewrite sltb_irrefl in F.
Qed.

Lemma sltb_total a b : sltb a b = false -> sltb b a = false -> a = b.
Proof.
  intros H1 H2. destruct (String_as_OT.compare a b) as [H|H|H]; [|done|].
  - apply sltb_lt in H. congruence.
  - apply sltb_lt in H. congruence.
Qed.

#[export] Instance sltb_le_trans : Transitive (less_le sltb).
Proof.
  intros a b c. unfold less_le. intros H1 H2. destruct (sltb c a) eqn:E; [|done].
  destruct (sltb a b) eqn:Eab.
  - pose proof (sltb_trans _ _ _ E Eab). congruence.
  - pose proof (sltb_total _ _ Eab H1) as ->. congruence.
Qed.

(** [sort.Strings]. *)
Definition sort_strings (l : list string) : list string := sort sltb l.

Lemma sort_strings_perm l1 l2 : l1 ≡ₚ l2 -> sort_strings l1 = sort_strings l2.
Proof.
  intros Hp. apply (sort_perm_eq _ _ _ sltb_asym); [|done]. intros; by apply sltb_total.
Qed.

End GoStrings.
