(* ===== verification/Values.v ===== *)
(** Unstructured values: what [map[string]any] trees hold, and how Go prints and encodes them.

    A Kubernetes object the operator handles is a tree of the types [encoding/json] and
    [unstructured] produce: nil, bool, int64, float64, string, [[]any], [map[string]any].  Maps are
    finite maps with extensional equality, so two Go maps with the same entries are the same model
    value and iteration order is not observable except where the code leaks it. *)
From stdpp Require Import strings base list gmap fin_maps sorting.
From Stdlib Require Import Ascii NArith ZArith Lia.
From S2P Require Import Prelude GoStrings.
Local Open Scope string_scope.
Local Open Scope list_scope.

Module Values.
Import GoStrings.

(** ** Floating-point numbers

    A finite float64 is represented by its sign and the shortest decimal digits that identify it,
    the [decimalSlice] that [strconv] computes before printing: the value is
    [0.d1d2..dn * 10^dp], the last digit is not 0, and zero has no digits. *)
Record flt := mkFlt { f_neg : bool; f_digits : string; f_dp : Z }.

#[export] Instance flt_eq_dec : EqDecision flt.
Proof. solve_decision. Defined.

Fixpoint zeros (n : nat) : string :=
  match n with O => "" | S n' => String "0" (zeros n') end.

(** [strconv.fmtE] with the shortest precision: [d.ddde+XX], at least two exponent digits. *)
Definition fmtE (f : flt) : string :=
  let exp := if String.eqb (f_digits f) "" then 0%Z else (f_dp f - 1)%Z in
  let mant :=
    match f_digits f with
    | "" => "0"
    | String d "" => String d ""
    | String d ds => String d (String "." ds)
    end in
  let e := utoa (Z.abs_N exp) in
  let e2 := if (String.length e <? 2)%nat then String "0" e else e in
  (if f_neg f then "-" else "") +:+ mant +:+ "e" +:+ (if (exp <? 0)%Z then "-" else "+") +:+ e2.

(** [strconv.fmtF] with the shortest precision. *)
Definition fmtF (f : flt) : string :=
  let nd := String.length (f_digits f) in
  let intpart :=
    if (0 <? f_dp f)%Z then
      let k := Z.to_nat (f_dp f) in stake k (f_digits f) +:+ zeros (k - nd)
    else "0" in
  let frac :=
    if (f_dp f <? Z.of_nat nd)%Z then
      if (f_dp f <=? 0)%Z then zeros (Z.to_nat (- f_dp f)) +:+ f_digits f
      else sdrop (Z.to_nat (f_dp f)) (f_digits f)
    else "" in
  (if f_neg f then "-" else "") +:+ intpart +:+
  (if String.eqb frac "" then "" else String "." frac).

(** [strconv.FormatFloat(f, 'g', -1, 64)], which [fmt] uses for [%v]. *)
Definition fmtG (f : flt) : string :=
  let exp := (f_dp f - 1)%Z in
  if (exp <? -4)%Z || (6 <=? exp)%Z then
    if String.eqb (f_digits f) "" then fmtF f else fmtE f
  else fmtF f.

(** [encoding/json]'s float encoder: [%f] between 1e-6 and 1e21, else [%e] with [e-09] shortened to
    [e-9]. *)
Definition json_float (f : flt) : string :=
  if String.eqb (f_digits f) "" then fmtF f
  else if (f_dp f - 1 <? -6)%Z || (21 <=? f_dp f - 1)%Z then
    let s := fmtE f in
    let n := String.length s in
    if String.eqb (stake 2 (sdrop (n - 4) s)) "e-" && String.eqb (stake 1 (sdrop (n - 2) s)) "0"
    then stake (n - 2) s +:+ sdrop (n - 1) s else s
  else fmtF f.

(** *** Integers as float64: what decoding an integer literal with [encoding/json] yields *)

(** Round a magnitude to 53 significant bits, ties to even. *)
Definition round53 (z : N) : N :=
  if (N.log2 z <? 53)%N then z
  else
    let k := (N.log2 z - 52)%N in
    let q := (z / 2 ^ k)%N in
    let r := (z mod 2 ^ k)%N in
    let half := (2 ^ (k - 1))%N in
    let q' := if (half <? r)%N then (q + 1)%N
              else if (r =? half)%N && N.odd q then (q + 1)%N else q in
    (q' * 2 ^ k)%N.

(** The closest of the two [p]-multiples around [x] that still rounds to [x], if any. *)
Definition shorter (x p : N) : option N :=
  let lo := (x / p * p)%N in
  let hi := (lo + p)%N in
  let okl := (round53 lo =? x)%N in
  let okh := (round53 hi =? x)%N in
  if okl && (negb okh || (x - lo <=? hi - x)%N) then Some lo else if okh then Some hi else None.

(** Fewest significant digits first: [n] counts how many low-order digits may be dropped. *)
Fixpoint shortest (n : nat) (x : N) : N :=
  match n with
  | O => x
  | S n' =>
      match shorter x (10 ^ N.of_nat n) with
      | Some y => if (y =? 0)%N then shortest n' x else y
      | None => shortest n' x
      end
  end.

Definition strip_zeros (s : string) : string := trim_right (fun c => Ascii.eqb c "0") s.

Definition flt_of_Z (z : Z) : flt :=
  let x := round53 (Z.abs_N z) in
  if (x =? 0)%N then mkFlt false "" 0
  else
    let ds := if (N.log2 x <? 53)%N then utoa x
              else utoa (shortest (String.length (utoa x)) x) in
    mkFlt (z <? 0)%Z (strip_zeros ds) (Z.of_nat (String.length ds)).

Example flt_small : fmtG (flt_of_Z 8080) = "8080" /\ fmtG (flt_of_Z 1000000) = "1e+06" /\
  fmtG (flt_of_Z 1234567) = "1.234567e+06" /\ json_float (flt_of_Z 1000000) = "1000000".
Proof. by vm_compute. Qed.


Example flt_big :
  json_float (flt_of_Z 9007199254740993) = "9007199254740992" /\
  fmtG (flt_of_Z 9223372036854775807) = "9.223372036854776e+18" /\
  fmtG (mkFlt false "15" (-4)) = "1.5e-05" /\ json_float (mkFlt false "15" (-6)) = "1.5e-7".
Proof. by vm_compute. Qed.

(** ** Values *)
Inductive value :=
| VNil
| VBool (b : bool)
| VInt (z : Z)
| VFloat (f : flt)
| VStr (s : string)
| VList (l : list value)
| VMap (m : gmap string value).

#[export] Instance value_eq_dec : EqDecision value.
Proof.
  refine (fix go v1 v2 :=
    let eqd : EqDecision value := go in
    match v1, v2 with
    | VNil, VNil => left _
    | VBool a, VBool b => cast_if (decide (a = b))
    | VInt a, VInt b => cast_if (decide (a = b))
    | VFloat a, VFloat b => cast_if (decide (a = b))
    | VStr a, VStr b => cast_if (decide (a = b))
    | VList a, VList b => cast_if (decide (a = b))
    | VMap a, VMap b => cast_if (decide (a = b))
    | _, _ => right _
    end); clear eqd go; abstract congruence.
Defined.

Fixpoint vsize (v : value) : nat :=
  match v with
  | VList l => S (foldr (fun v n => vsize v + n) 0 l)
  | VMap m => S (map_fold (fun _ v n => vsize v + n) 0 m)
  | _ => 1
  end.

Lemma vsize_lookup (m : gmap string value) k v : m !! k = Some v -> vsize v < vsize (VMap m).
Proof. intros H. cbn. rewrite (map_fold_delete_L _ 0 k v m); [lia| |done]. intros; lia. Qed.

Lemma vsize_elem l v : v ∈ l -> vsize v < vsize (VList l).
Proof.
  induction l as [|w l IH]; [by intros ?%elem_of_nil|].
  intros [->|H]%elem_of_cons; cbn in *; [lia|]. specialize (IH H). lia.
Qed.

(** The induction principle with hypotheses for the elements of lists and maps. *)
Lemma value_rec_ind (P : value -> Prop)
  (Hn : P VNil) (Hb : forall b, P (VBool b)) (Hi : forall z, P (VInt z))
  (Hf : forall f, P (VFloat f)) (Hs : forall s, P (VStr s))
  (Hl : forall l, Forall P l -> P (VList l))
  (Hm : forall m : gmap string value, map_Forall (fun _ => P) m -> P (VMap m)) :
  forall v, P v.
Proof.
  intros v. remember (vsize v) as n eqn:E. revert v E.
  induction n as [n IH] using lt_wf_ind. intros [| | | | |l|m] ->; auto.
  - apply Hl, Forall_forall. intros x Hx. eapply IH; [|done]. by apply vsize_elem.
  - apply Hm. intros k x Hx. eapply IH; [|done]. by eapply vsize_lookup.
Qed.

(** The entries of a map in increasing key order, each value mapped by [f]: what ranging over the
    sorted keys visits. *)
Definition key_less {B} (a b : string * B) : bool := sltb a.1 b.1.

(** [fmt.Sprintf("%v", v)]. *)
Fixpoint sprint_v (v : value) : string :=
  match v with
  | VNil => "<nil>"
  | VBool b => if b then "true" else "false"
  | VInt z => itoa z
  | VFloat f => fmtG f
  | VStr s => s
  | VList l => "[" +:+ String.concat " " (map sprint_v l) +:+ "]"
  | VMap m =>
      let kvs := sort key_less (map_fold (fun k v acc => (k, sprint_v v) :: acc) [] m) in
      "map[" +:+ String.concat " " (map (fun kv => kv.1 +:+ ":" +:+ kv.2) kvs) +:+ "]"
  end.

Definition as_map (v : value) : option (gmap string value) :=
  match v with VMap m => Some m | _ => None end.
Definition as_list (v : value) : option (list value) :=
  match v with VList l => Some l | _ => None end.
Definition as_str (v : value) : option string :=
  match v with VStr s => Some s | _ => None end.

Definition is_nil (v : value) : bool := match v with VNil => true | _ => false end.

(** [m[key]] read as an expression: the zero value nil when the key is absent. *)
Definition map_get (m : gmap string value) (k : string) : value := default VNil (m !! k).

End Values.
