(* ===== verification/Json.v ===== *)
(** The part of [encoding/json] the program uses: the text [json.Marshal] produces for an
    unstructured value, and the lookup of a struct field in a decoded object. *)
From stdpp Require Import strings base list gmap fin_maps.
From Stdlib Require Import Ascii NArith ZArith Lia.
From S2P Require Import Prelude GoStrings Values.
Local Open Scope string_scope.
Local Open Scope list_scope.

Module Json.
Import GoStrings Values.

Definition byte_in (lo hi : N) (c : ascii) : bool := (lo <=? N_of_ascii c)%N && (N_of_ascii c <=? hi)%N.

(** The length of the UTF-8 sequence [c :: s] starts with, if it is one. *)
Definition utf8_len (c : ascii) (s : string) : option nat :=
  let cont := byte_in 128 191 in
  if byte_in 194 223 c then
    match s with String c1 _ => if cont c1 then Some 2 else None | _ => None end
  else if byte_in 224 239 c then
    match s with
    | String c1 (String c2 _) =>
        let lo := if byte_in 224 224 c then 160%N else 128%N in
        let hi := if byte_in 237 237 c then 159%N else 191%N in
        if byte_in lo hi c1 && cont c2 then Some 3 else None
    | _ => None
    end
  else if byte_in 240 244 c then
    match s with
    | String c1 (String c2 (String c3 _)) =>
        let lo := if byte_in 240 240 c then 144%N else 128%N in
        let hi := if byte_in 244 244 c then 143%N else 191%N in
        if byte_in lo hi c1 && cont c2 && cont c3 then Some 4 else None
    | _ => None
    end
  else None.

Definition hex_char (n : N) : ascii := if (n <? 10)%N then ascii_of_N (48 + n) else ascii_of_N (87 + n).

(** The escape of an ASCII byte that may not stand for itself, HTML escaping included. *)
Definition escape (c : ascii) : string :=
  match N_of_ascii c with
  | 34%N => String "\" (String (ascii_of_N 34) "")
  | 92%N => "\\"
  | 8%N => "\b"
  | 9%N => "\t"
  | 10%N => "\n"
  | 12%N => "\f"
  | 13%N => "\r"
  | n => "\u00" +:+ String (hex_char (n / 16)) (String (hex_char (n mod 16)) "")
  end.

Definition json_safe (c : ascii) : bool :=
  byte_in 32 127 c &&
  negb (byte_in 34 34 c || byte_in 38 38 c || byte_in 60 60 c || byte_in 62 62 c || byte_in 92 92 c).

(** U+2028 and U+2029 are escaped for JavaScript's sake. *)
Definition line_separator (c : ascii) (s : string) : option string :=
  match s with
  | String c1 (String c2 _) =>
      if byte_in 226 226 c && byte_in 128 128 c1 && byte_in 168 169 c2
      then Some ("\u202" +:+ String (hex_char (N_of_ascii c2 - 160)) "") else None
  | _ => None
  end.

(** [skip] counts the continuation bytes of the sequence being copied or replaced; [copy] tells
    which. *)
Fixpoint json_escape (skip : nat) (copy : bool) (s : string) : string :=
  match s with
  | "" => ""
  | String c rest =>
      match skip with
      | S k => if copy then String c (json_escape k copy rest) else json_escape k copy rest
      | O =>
          if byte_in 0 127 c then
            if json_safe c then String c (json_escape 0 true rest)
            else escape c +:+ json_escape 0 true rest
          else
            match utf8_len c rest with
            | None => "\ufffd" +:+ json_escape 0 true rest
            | Some n =>
                match line_separator c rest with
                | Some e => e +:+ json_escape (n - 1) false rest
                | None => String c (json_escape (n - 1) true rest)
                end
            end
      end
  end.

Definition quote : string := String (ascii_of_N 34) "".

Definition json_string (s : string) : string := quote +:+ json_escape 0 true s +:+ quote.

(** [json.Marshal] of an unstructured value: no spaces, object keys in increasing order.  Every
    such value can be encoded, so there is no error. *)
Fixpoint marshal (v : value) : string :=
  match v with
  | VNil => "null"
  | VBool b => if b then "true" else "false"
  | VInt z => itoa z
  | VFloat f => json_float f
  | VStr s => json_string s
  | VList l => "[" +:+ String.concat "," (map marshal l) +:+ "]"
  | VMap m =>
      let kvs := sort key_less (map_fold (fun k v acc => (k, marshal v) :: acc) [] m) in
      "{" +:+ String.concat "," (map (fun kv => json_string kv.1 +:+ ":" +:+ kv.2) kvs) +:+ "}"
  end.

Example marshal_ex :
  marshal (VMap {["b" := VList [VFloat (flt_of_Z 3); VNil]; "a" := VStr "x<y\"; "c" := VMap ∅]}) =
  "{" +:+ quote +:+ "a" +:+ quote +:+ ":" +:+ quote +:+ "x\u003cy\\" +:+ quote +:+ "," +:+
  quote +:+ "b" +:+ quote +:+ ":[3,null]," +:+ quote +:+ "c" +:+ quote +:+ ":{}}".
Proof. by vm_compute. Qed.

(** The member of a decoded object that fills a struct field: the exact name, else one that differs
    from it in case only. *)
Definition json_field (m : gmap string value) (name : string) : value :=
  match m !! name with
  | Some v => v
  | None =>
      match filter (fun kv => String.eqb (to_lower kv.1) name) (sort key_less (map_to_list m)) with
      | kv :: _ => kv.2
      | [] => VNil
      end
  end.

End Json.
