(* ===== verification/JsonDecode.v ===== *)
(** Decoding: the part of [encoding/json] that [json.Unmarshal] needs to read a document - the
    scanner's grammar and the unquoting of strings - and that it inverts the quoting of [Json]. *)
From stdpp Require Import strings base list.
From Stdlib Require Import Ascii NArith ZArith Lia.
From S2P Require Import Prelude GoStrings Values Json.
Local Open Scope string_scope.
Local Open Scope list_scope.

Module JsonDecode.
Import GoStrings Values Json.

(** ** Strings *)

Definition hex_val (c : ascii) : option N :=
  if byte_in 48 57 c then Some (N_of_ascii c - 48)%N
  else if byte_in 97 102 c then Some (N_of_ascii c - 87)%N
  else if byte_in 65 70 c then Some (N_of_ascii c - 55)%N
  else None.

(** Four hexadecimal digits. *)
Definition hex4 (a b c d : ascii) : option N :=
  match hex_val a, hex_val b, hex_val c, hex_val d with
  | Some a, Some b, Some c, Some d => Some (4096 * a + 256 * b + 16 * c + d)%N
  | _, _, _, _ => None
  end.

Definition byte (n : N) : ascii := ascii_of_N n.

(** [utf8.AppendRune]. *)
Definition encode_rune (r : N) : string :=
  if (r <? 128)%N then String (byte r) ""
  else if (r <? 2048)%N then String (byte (192 + r / 64)) (String (byte (128 + r mod 64)) "")
  else if (r <? 65536)%N then
    String (byte (224 + r / 4096)) (String (byte (128 + r / 64 mod 64)) (String (byte (128 + r mod 64)) ""))
  else
    String (byte (240 + r / 262144)) (String (byte (128 + r / 4096 mod 64))
      (String (byte (128 + r / 64 mod 64)) (String (byte (128 + r mod 64)) ""))).

Definition replacement : N := 65533.
Definition high_surrogate (r : N) : bool := (55296 <=? r)%N && (r <=? 56319)%N.
Definition low_surrogate (r : N) : bool := (56320 <=? r)%N && (r <=? 57343)%N.

(** The rune of an escape whose value is [r], followed by [s], and whether the escape that follows is
    its second half. *)
Definition escaped_rune (r : N) (s : string) : N * bool :=
  if high_surrogate r then
    match s with
    | String "\" (String "u" (String a (String b (String c (String d _))))) =>
        match hex4 a b c d with
        | Some r2 => if low_surrogate r2 then (65536 + (r - 55296) * 1024 + (r2 - 56320), true)%N else (replacement, false)
        | None => (replacement, false)
        end
    | _ => (replacement, false)
    end
  else if low_surrogate r then (replacement, false) else (r, false).

Definition simple_escape (c : ascii) : option string :=
  match N_of_ascii c with
  | 34%N | 92%N | 47%N => Some (String c "")
  | 98%N => Some (String (byte 8) "")
  | 102%N => Some (String (byte 12) "")
  | 110%N => Some (String (byte 10) "")
  | 114%N => Some (String (byte 13) "")
  | 116%N => Some (String (byte 9) "")
  | _ => None
  end.

Definition prepend (x : string) (o : option (string * string)) : option (string * string) :=
  match o with Some (y, rest) => Some (x +:+ y, rest) | None => None end.

(** The contents of a string up to its closing quote, and what follows it.  [skip] counts the bytes of
    a sequence being copied or dropped. *)
Fixpoint unquote (skip : nat) (copy : bool) (s : string) : option (string * string) :=
  match s with
  | "" => None
  | String c rest =>
      match skip with
      | S k => if copy then prepend (String c "") (unquote k copy rest) else unquote k copy rest
      | O =>
          if byte_in 34 34 c then Some ("", rest)
          else if byte_in 92 92 c then
            match rest with
            | String "u" (String h1 (String h2 (String h3 (String h4 rest')))) =>
                match hex4 h1 h2 h3 h4 with
                | None => None
                | Some r =>
                    let '(rune, second) := escaped_rune r rest' in
                    prepend (encode_rune rune) (if second then unquote 6 false rest' else unquote 0 true rest')
                end
            | String e rest' =>
                match simple_escape e with
                | Some x => prepend x (unquote 0 true rest')
                | None => None
                end
            | "" => None
            end
          else if byte_in 0 31 c then None
          else if byte_in 0 127 c then prepend (String c "") (unquote 0 true rest)
          else
            match utf8_len c rest with
            | None => prepend (encode_rune replacement) (unquote 0 true rest)
            | Some n => prepend (String c "") (unquote (n - 1) true rest)
            end
      end
  end.

(** ** Numbers and literals *)

Definition digits (s : string) : string * string := span is_digit s.

(** An optional fraction or exponent: what is left, if the text is well formed. *)
Definition skip_frac (s : string) : option string :=
  match s with
  | String "." rest => let '(ds, rest') := digits rest in if String.eqb ds "" then None else Some rest'
  | _ => Some s
  end.

Definition skip_exp (s : string) : option string :=
  match s with
  | String e rest =>
      if byte_in 69 69 e || byte_in 101 101 e then
        let rest := match rest with
          | String c rest' => if byte_in 43 43 c || byte_in 45 45 c then rest' else rest | "" => rest end in
        let '(ds, rest') := digits rest in if String.eqb ds "" then None else Some rest'
      else Some s
  | "" => Some s
  end.

(** A number, of which nothing the operator decodes keeps the value. *)
Definition skip_number (s : string) : option string :=
  let s := match s with String "-" rest => rest | _ => s end in
  let '(ds, rest) := digits s in
  match ds with
  | "" => None
  | String "0" (String _ _) => None
  | _ => match skip_frac rest with Some rest' => skip_exp rest' | None => None end
  end.

Definition is_space (c : ascii) : bool := byte_in 32 32 c || byte_in 9 10 c || byte_in 13 13 c.

Definition skip_ws (s : string) : string := snd (span is_space s).

(** ** Documents *)

Inductive json :=
| JNull
| JBool (b : bool)
| JNumber
| JString (s : string)
| JArray (l : list json)
| JObject (l : list (string * json)).

(** Deeper nesting is an error of the scanner. *)
Definition maxNestingDepth : N := 10000.

(** A value, the elements of an array after the first bracket, and the members of an object after
    the first brace, with what follows.  [depth] counts the open brackets. *)
Fixpoint parse_value (fuel : nat) (depth : N) (s : string) : option (json * string) :=
  match fuel with
  | O => None
  | S f =>
      let s := skip_ws s in
      match s with
      | "" => None
      | String c rest =>
          if byte_in 34 34 c then
            match unquote 0 true rest with Some (x, rest) => Some (JString x, rest) | None => None end
          else if byte_in 91 91 c then
            if (maxNestingDepth <=? depth)%N then None
            else match skip_ws rest with
                 | String "]" rest' => Some (JArray [], rest')
                 | _ => match parse_elems f (depth + 1) rest with
                        | Some (l, rest) => Some (JArray l, rest) | None => None end
                 end
          else if byte_in 123 123 c then
            if (maxNestingDepth <=? depth)%N then None
            else match skip_ws rest with
                 | String "}" rest' => Some (JObject [], rest')
                 | _ => match parse_members f (depth + 1) rest with
                        | Some (l, rest) => Some (JObject l, rest) | None => None end
                 end
          else if String.prefix "null" s then Some (JNull, sdrop 4 s)
          else if String.prefix "true" s then Some (JBool true, sdrop 4 s)
          else if String.prefix "false" s then Some (JBool false, sdrop 5 s)
          else match skip_number s with Some rest => Some (JNumber, rest) | None => None end
      end
  end
with parse_elems (fuel : nat) (depth : N) (s : string) : option (list json * string) :=
  match fuel with
  | O => None
  | S f =>
      match parse_value f depth s with
      | None => None
      | Some (v, rest) =>
          match skip_ws rest with
          | String "]" rest => Some ([v], rest)
          | String "," rest =>
              match parse_elems f depth rest with Some (l, rest) => Some (v :: l, rest) | None => None end
          | _ => None
          end
      end
  end
with parse_members (fuel : nat) (depth : N) (s : string) : option (list (string * json) * string) :=
  match fuel with
  | O => None
  | S f =>
      match skip_ws s with
      | String q rest =>
          if negb (byte_in 34 34 q) then None
          else
            match unquote 0 true rest with
            | None => None
            | Some (k, rest) =>
                match skip_ws rest with
                | String ":" rest =>
                    match parse_value f depth rest with
                    | None => None
                    | Some (v, rest) =>
                        match skip_ws rest with
                        | String "}" rest => Some ([(k, v)], rest)
                        | String "," rest =>
                            match parse_members f depth rest with
                            | Some (l, rest) => Some ((k, v) :: l, rest) | None => None end
                        | _ => None
                        end
                    end
                | _ => None
                end
            end
      | "" => None
      end
  end.

(** Enough for any document of the length: each call that opens a value, an element or a member is
    followed by at least one byte of it. *)
Definition parse_fuel (s : string) : nat := 2 * String.length s + 2.

(** A document: one value, and nothing but white space around it. *)
Definition parse_json (s : string) : option json :=
  match parse_value (parse_fuel s) 0 s with
  | Some (v, rest) => if String.eqb (skip_ws rest) "" then Some v else None
  | None => None
  end.

Example parse_ex :
  parse_json (" {" +:+ quote +:+ "a\u00e9\ud83d\ude00\n" +:+ quote +:+ ": [1.5e3, true ,null], " +:+ quote +:+ quote +:+ ":{}} ") =
  Some (JObject [("aé😀" +:+ String (byte 10) "", JArray [JNumber; JBool true; JNull]); ("", JObject [])]) /\
  parse_json "01" = None /\ parse_json "[1,]" = None /\ parse_json "[] []" = None.
Proof. by vm_compute. Qed.

(** ** Quoting and unquoting *)

(** The string is UTF-8; [skip] counts continuation bytes already checked. *)
Fixpoint valid_utf8 (skip : nat) (s : string) : bool :=
  match s with
  | "" => Nat.eqb skip 0
  | String c rest =>
      match skip with
      | S k => valid_utf8 k rest
      | O =>
          if byte_in 0 127 c then valid_utf8 0 rest
          else match utf8_len c rest with Some n => valid_utf8 (n - 1) rest | None => false end
      end
  end.

Definition ValidString (s : string) : bool := valid_utf8 0 s.

Lemma prepend_some x y rest : prepend x (Some (y, rest)) = Some (x +:+ y, rest).
Proof. done. Qed.

(** An escaped byte unquotes to the byte. *)
Lemma unquote_escaped c t :
  byte_in 0 127 c = true -> json_safe c = false ->
  unquote 0 true (escape c +:+ t) = prepend (String c "") (unquote 0 true t).
Proof. destruct c as [[] [] [] [] [] [] [] []]; try done; reflexivity. Qed.

Lemma unquote_plain c t :
  byte_in 0 127 c = true -> json_safe c = true ->
  unquote 0 true (String c t) = prepend (String c "") (unquote 0 true t).
Proof. destruct c as [[] [] [] [] [] [] [] []]; try done; reflexivity. Qed.

Lemma unquote_separator c s e t :
  line_separator c s = Some e ->
  exists c1 c2 s', s = String c1 (String c2 s') /\ utf8_len c s = Some 3 /\
    unquote 0 true (e +:+ t) = prepend (String c (String c1 (String c2 ""))) (unquote 0 true t).
Proof.
  destruct s as [|c1 [|c2 s']]; try done. cbn [line_separator].
  destruct (byte_in 226 226 c && byte_in 128 128 c1 && byte_in 168 169 c2) eqn:E; [|done].
  intros [= <-]. exists c1, c2, s'. bool_simpl. unfold byte_in in H, H1, H0.
  rewrite !andb_true_iff, !N.leb_le in H, H1, H0.
  assert (c = byte 226) as -> by (rewrite <- (ascii_N_embedding c); unfold byte; f_equal; lia).
  assert (c1 = byte 128) as -> by (rewrite <- (ascii_N_embedding c1); unfold byte; f_equal; lia).
  assert (c2 = byte 168 \/ c2 = byte 169) as [-> | ->].
  { rewrite <- (ascii_N_embedding c2). unfold byte.
    assert (N_of_ascii c2 = 168 \/ N_of_ascii c2 = 169)%N as [-> | ->] by lia; auto. }
  all: split; [done|]; split; reflexivity.
Qed.

(** A copied multi-byte sequence is recognised again. *)
Lemma utf8_len_copied c s n t :
  utf8_len c s = Some n -> utf8_len c (json_escape (n - 1) true s +:+ t) = Some n.
Proof.
  unfold utf8_len. destruct (byte_in 194 223 c).
  { destruct s as [|c1 s]; [done|]. destruct (byte_in 128 191 c1) eqn:E; [|done]. intros [= <-]. cbn.
    by rewrite E. }
  destruct (byte_in 224 239 c).
  { destruct s as [|c1 [|c2 s]]; try done. destruct (_ && _) eqn:E; [|done]. intros [= <-]. cbn -[byte_in].
    by rewrite E. }
  destruct (byte_in 240 244 c); [|done].
  destruct s as [|c1 [|c2 [|c3 s]]]; try done. destruct (_ && _) eqn:E; [|done]. intros [= <-]. cbn -[byte_in].
  by rewrite E.
Qed.

Lemma json_escape_copy s : json_escape 0 false s = json_escape 0 true s.
Proof. by destruct s. Qed.

Lemma utf8_len_high c s n : utf8_len c s = Some n -> byte_in 0 127 c = false.
Proof.
  unfold utf8_len. intros H. unfold byte_in in *. apply not_true_iff_false. rewrite andb_true_iff, !N.leb_le. intros [_ Hc].
  assert (forall lo hi, (127 < lo)%N -> (lo <=? N_of_ascii c)%N && (N_of_ascii c <=? hi)%N = false) as Hr.
  { intros lo hi Hlo. apply andb_false_iff. left. apply N.leb_gt. lia. }
  by rewrite !Hr in H.
Qed.

Lemma unquote_high c s n :
  utf8_len c s = Some n -> unquote 0 true (String c s) = prepend (String c "") (unquote (n - 1) true s).
Proof.
  intros H. pose proof (utf8_len_high _ _ _ H) as Hc. cbn [unquote].
  assert (forall lo hi, (hi <= 127)%N -> byte_in lo hi c = false) as Hr.
  { intros lo hi Hhi. unfold byte_in in *. apply andb_false_iff in Hc. rewrite !N.leb_gt in Hc.
    apply andb_false_iff. right. apply N.leb_gt. lia. }
  rewrite !Hr by lia. by rewrite H.
Qed.

(** Unquoting inverts quoting on UTF-8. *)
Lemma unquote_escape n : forall s k t, String.length s <= n -> valid_utf8 k s = true ->
  unquote k true (json_escape k true s +:+ quote +:+ t) = Some (s, t).
Proof.
  induction n as [|n IH]; intros s k t Hn Hv.
  { destruct s; [|cbn in Hn; lia]. cbn in Hv. apply Nat.eqb_eq in Hv as ->. reflexivity. }
  destruct s as [|c s]; [cbn in Hv; apply Nat.eqb_eq in Hv as ->; reflexivity|]. cbn in Hn.
  destruct k as [|k]; cbn [valid_utf8] in Hv.
  2: { cbn [json_escape String.append unquote]. rewrite IH by (done || lia). done. }
  cbn [json_escape]. destruct (byte_in 0 127 c) eqn:Hc.
  - destruct (json_safe c) eqn:Hs; str_norm.
    + rewrite unquote_plain, IH by (done || lia). done.
    + rewrite unquote_escaped, IH by (done || lia). done.
  - destruct (utf8_len c s) as [l|] eqn:Hl; [|done].
    destruct (line_separator c s) as [e|] eqn:He.
    + destruct (unquote_separator c s e (json_escape (l - 1) false s +:+ quote +:+ t) He) as (c1 & c2 & s' & -> & Hl' & E).
      rewrite Hl in Hl'. injection Hl' as ->. str_norm. rewrite E. cbn [Nat.sub json_escape].
      rewrite json_escape_copy. cbn [Nat.sub valid_utf8] in Hv. cbn in Hn. rewrite IH by (done || lia). done.
    + cbn [String.append]. rewrite (unquote_high _ _ l) by by apply utf8_len_copied.
      rewrite IH by (done || lia). done.
Qed.

Lemma unquote_string s t : ValidString s = true -> unquote 0 true (json_escape 0 true s +:+ quote +:+ t) = Some (s, t).
Proof. intros H. by eapply unquote_escape. Qed.

(** ** The fuel is enough

    What is left of the input gets shorter, so more fuel than [parse_fuel] changes nothing. *)

Lemma span_length f s x y : span f s = (x, y) -> String.length s = String.length x + String.length y.
Proof. intros E. rewrite <- str_length_app. pose proof (span_eq f s) as H. rewrite E in H. by rewrite <- H. Qed.

Lemma skip_ws_length s : String.length (skip_ws s) <= String.length s.
Proof. unfold skip_ws. destruct (span is_space s) as [x y] eqn:E. apply span_length in E. cbn. lia. Qed.

Lemma prepend_inv x o y rest : prepend x o = Some (y, rest) -> exists z, o = Some (z, rest).
Proof. destruct o as [[z r]|]; cbn; [|done]. intros [= _ <-]. by exists z. Qed.

Lemma unquote_length n : forall s k copy x rest, String.length s <= n ->
  unquote k copy s = Some (x, rest) -> String.length rest < String.length s.
Proof.
  induction n as [|n IH]; intros s k copy x rest Hn Hu; (destruct s as [|c s]; [done|]); cbn in Hn; [lia|].
  assert (forall s' k' copy' x', String.length s' <= String.length s -> unquote k' copy' s' = Some (x', rest) ->
    String.length rest < String.length (String c s)) as Hrec.
  { intros s' k' copy' x' Hl H. apply IH in H; [cbn; lia|lia]. }
  assert (forall a s' k' copy', String.length s' <= String.length s -> prepend a (unquote k' copy' s') = Some (x, rest) ->
    String.length rest < String.length (String c s)) as Hrec'.
  { intros a s' k' copy' Hl [z H]%prepend_inv. by eapply Hrec. }
  cbn [unquote] in Hu. destruct k as [|k]; [|destruct copy; eauto with lia].
  destruct (byte_in 34 34 c); [injection Hu as <- <-; cbn; lia|].
  destruct (byte_in 92 92 c).
  2: { destruct (byte_in 0 31 c); [done|]. destruct (byte_in 0 127 c); [by eapply Hrec'|].
       destruct (utf8_len c s); by eapply Hrec'. }
  assert (forall e s', s = String e s' -> match simple_escape e with
      | Some x => prepend x (unquote 0 true s') | None => None end = Some (x, rest) ->
      String.length rest < String.length (String c s)) as Hsimple.
  { intros e s' -> H. destruct (simple_escape e); [|done]. eapply Hrec'; [|exact H]. cbn. lia. }
  destruct s as [|e s]; [done|]. destruct (Ascii.eqb_spec e "u") as [->|Hne].
  - destruct s as [|h1 [|h2 [|h3 [|h4 s]]]]; try (by eapply Hsimple).
    destruct (hex4 h1 h2 h3 h4); [|done]. destruct (escaped_rune _ s) as [rune []];
      (eapply Hrec'; [|exact Hu]); cbn; lia.
  - apply (Hsimple e s eq_refl). revert Hu. destruct e as [[] [] [] [] [] [] [] []]; done.
Qed.

Lemma skip_frac_length s rest : skip_frac s = Some rest -> String.length rest <= String.length s.
Proof.
  unfold skip_frac. intros H. destruct s as [|c s]; [by injection H as <-|].
  destruct (Ascii.eqb_spec c "."); [subst c|by destruct c as [[] [] [] [] [] [] [] []]; first [done|injection H as <-]].
  unfold digits in H. destruct (span is_digit s) as [ds r] eqn:E. apply span_length in E.
  destruct (String.eqb ds ""); [done|]. injection H as <-. cbn. lia.
Qed.

Lemma skip_exp_length s rest : skip_exp s = Some rest -> String.length rest <= String.length s.
Proof.
  unfold skip_exp. destruct s as [|e s]; [by intros [= <-]|]. destruct (_ || _); [|by intros [= <-]].
  set (s' := match s with String c rest' => _ | "" => s end).
  assert (String.length s' <= String.length s) as Hl by (unfold s'; destruct s as [|c s2]; [done|]; destruct (_ || _); cbn; lia).
  clearbody s'. unfold digits. destruct (span is_digit s') as [ds r] eqn:E. apply span_length in E.
  destruct (String.eqb ds ""); [done|]. intros [= <-]. cbn. lia.
Qed.

Lemma skip_number_length s rest : skip_number s = Some rest -> String.length rest < String.length s.
Proof.
  unfold skip_number. set (s' := match s with String "-" rest => rest | _ => s end).
  assert (String.length s' <= String.length s) as Hl.
  { unfold s'. destruct s as [|c s2]; [done|]. destruct c as [[] [] [] [] [] [] [] []]; cbn; lia. }
  clearbody s'. unfold digits. destruct (span is_digit s') as [ds r] eqn:E. apply span_length in E.
  destruct ds as [|d ds]; [done|]. cbn [String.length] in E.
  intros H.
  assert (exists r1, skip_frac r = Some r1 /\ skip_exp r1 = Some rest) as (r1 & H1 & H2).
  { destruct (skip_frac r) as [r1|] eqn:Er.
    - exists r1. split; [done|]. destruct ds; destruct d as [[] [] [] [] [] [] [] []]; done.
    - destruct ds; destruct d as [[] [] [] [] [] [] [] []]; done. }
  apply skip_frac_length in H1. apply skip_exp_length in H2. lia.
Qed.

Lemma sdrop_length n s : String.length (sdrop n s) = String.length s - n.
Proof. revert s. induction n as [|n IH]; intros [|c s]; cbn; [done..|]. by rewrite IH. Qed.

Definition shortens {A} (p : nat -> N -> string -> option (A * string)) (f : nat) : Prop :=
  forall d s x rest, p f d s = Some (x, rest) -> String.length rest < String.length s.

(** Use what is known of the parts. *)
Ltac shorter :=
  repeat case_match; simplify_eq;
  repeat match goal with
  | H : unquote _ _ _ = Some _ |- _ => apply (unquote_length _ _ _ _ _ _ (le_n _)) in H
  | IH : (forall d s x rest, ?p ?f d s = Some (x, rest) -> _), H : ?p ?f _ _ = Some _ |- _ => apply IH in H
  end; cbn in *; lia.

Lemma parse_shortens f : shortens parse_value f /\ shortens parse_elems f /\ shortens parse_members f.
Proof.
  induction f as [|f (IHv & IHe & IHm)]; [by repeat split|]. unfold shortens in *. split; [|split]; intros d s x rest.
  - cbn [parse_value]. pose proof (skip_ws_length s) as Hws. destruct (skip_ws s) as [|c s'] eqn:Es; [done|]. cbn in Hws.
    pose proof (skip_ws_length s') as Hws'.
    destruct (byte_in 34 34 c); [intros H; shorter|].
    destruct (byte_in 91 91 c); [intros H; shorter|].
    destruct (byte_in 123 123 c); [intros H; shorter|].
    assert (forall n, String.length (sdrop (S n) (String c s')) < String.length s) as Hdrop
      by (intros n; rewrite sdrop_length; cbn; lia).
    destruct (String.prefix "null" _); [intros [= _ <-]; apply (Hdrop 3)|].
    destruct (String.prefix "true" _); [intros [= _ <-]; apply (Hdrop 3)|].
    destruct (String.prefix "false" _); [intros [= _ <-]; apply (Hdrop 4)|].
    destruct (skip_number _) as [r|] eqn:E; [|done]. intros [= <- <-]. apply skip_number_length in E. cbn in *. lia.
  - cbn [parse_elems]. destruct (parse_value f d s) as [[v r]|] eqn:Ev; [|done].
    pose proof (skip_ws_length r) as Hws. destruct (skip_ws r) as [|c r2]; [done|]. intros H. shorter.
  - cbn [parse_members]. pose proof (skip_ws_length s) as Hws. destruct (skip_ws s) as [|q s']; [done|]. cbn in Hws.
    destruct (negb _); [done|]. destruct (unquote 0 true s') as [[k r]|] eqn:Eu; [|done].
    pose proof (skip_ws_length r) as Hws1. destruct (skip_ws r) as [|c r2]; [done|]. intros H.
    destruct (parse_value f d r2) as [[v r1]|] eqn:Ev; [|repeat case_match; simplify_eq].
    pose proof (skip_ws_length r1) as Hws2. destruct (skip_ws r1) as [|c' r4]; [repeat case_match; simplify_eq|].
    shorter.
Qed.

Definition agree (f g : nat) : Prop := forall d s,
  (2 * String.length s + 1 <= f -> parse_value g d s = parse_value f d s) /\
  (2 * String.length s + 2 <= f -> parse_elems g d s = parse_elems f d s) /\
  (2 * String.length s + 1 <= f -> parse_members g d s = parse_members f d s).

Lemma agree_step f g : agree f g -> agree (S f) (S g).
Proof.
  intros IH d s. destruct (parse_shortens f) as (Lv & Le & Lm). pose proof (skip_ws_length s) as Hws.
  split; [|split]; intros Hf.
  - cbn [parse_value]. destruct (skip_ws s) as [|c s'] eqn:Es; [done|]. cbn in Hws.
    destruct (IH (d + 1)%N s') as (_ & He & Hm). by rewrite He, Hm by lia.
  - cbn [parse_elems]. destruct (IH d s) as (Hv & _ & _). rewrite Hv by lia.
    destruct (parse_value f d s) as [[v r]|] eqn:Ev; [|done]. apply Lv in Ev.
    pose proof (skip_ws_length r) as Hr. destruct (skip_ws r) as [|c r2]; [done|]. cbn in Hr.
    destruct (IH d r2) as (_ & He & _). by rewrite He by lia.
  - cbn [parse_members]. destruct (skip_ws s) as [|q s']; [done|]. cbn in Hws. destruct (negb _); [done|].
    destruct (unquote 0 true s') as [[k r]|] eqn:Eu; [|done]. apply (unquote_length _ _ _ _ _ _ (le_n _)) in Eu.
    pose proof (skip_ws_length r) as Hr. destruct (skip_ws r) as [|c r2]; [done|]. cbn in Hr.
    destruct (IH d r2) as (Hv & _ & _). rewrite Hv by lia.
    destruct (parse_value f d r2) as [[v r1]|] eqn:Ev; [|done]. apply Lv in Ev.
    pose proof (skip_ws_length r1) as Hr1. destruct (skip_ws r1) as [|c' r3]; [done|]. cbn in Hr1.
    destruct (IH d r3) as (_ & _ & Hm). by rewrite Hm by lia.
Qed.

Lemma agree_more f : agree f (S f).
Proof. induction f as [|f IH]; [intros d s; repeat split; lia|by apply agree_step]. Qed.

(** Any fuel from the bound on gives the same result. *)
Lemma parse_value_fuel f d s : 2 * String.length s + 1 <= f -> parse_value f d s = parse_value (2 * String.length s + 1) d s.
Proof.
  intros Hf. replace f with (f - (2 * String.length s + 1) + (2 * String.length s + 1)) by lia.
  generalize (f - (2 * String.length s + 1)) as k. induction k as [|k IH]; [done|]. rewrite <- IH.
  apply agree_more. lia.
Qed.

(** ** Reading what was written

    [t] is read as [v] in any context that leaves [n] levels of nesting, with enough fuel. *)
Definition parses (n : N) (v : json) (t : string) : Prop :=
  exists f0, forall f d rest, f0 <= f -> (d + n <= maxNestingDepth)%N -> parse_value f d (t +:+ rest) = Some (v, rest).

Definition array_text (ts : list string) : string := "[" +:+ String.concat "," ts +:+ "]".

Definition member_text (m : string * string) : string := json_string m.1 +:+ ":" +:+ m.2.
Definition object_text (ms : list (string * string)) : string := "{" +:+ String.concat "," (map member_text ms) +:+ "}".

Lemma skip_ws_solid c s : is_space c = false -> skip_ws (String c s) = String c s.
Proof. intros H. unfold skip_ws. cbn [span]. by rewrite H. Qed.

Lemma parses_string s : ValidString s = true -> parses 0 (JString s) (json_string s).
Proof.
  intros Hs. exists 1. intros [|f] d rest Hf _; [lia|]. unfold json_string. str_norm. cbn [parse_value].
  change (skip_ws (quote +:+ json_escape 0 true s +:+ quote +:+ rest)) with (String (byte 34) (json_escape 0 true s +:+ quote +:+ rest)).
  cbn iota. change (byte_in 34 34 (byte 34)) with true. cbn iota. by rewrite unquote_string.
Qed.

Lemma concat_cons sep x y l : String.concat sep (x :: y :: l) = x +:+ sep +:+ String.concat sep (y :: l).
Proof. done. Qed.

Lemma parse_elems_written n v vs t ts :
  parses n v t -> Forall2 (parses n) vs ts ->
  exists f0, forall f d rest, f0 <= f -> (d + n <= maxNestingDepth)%N ->
    parse_elems f d (String.concat "," (t :: ts) +:+ String "]" rest) = Some (v :: vs, rest).
Proof.
  intros Hv H. revert v t Hv. induction H as [|v' t' vs ts Hv' _ IH]; intros v t [f1 Hv].
  - exists (S f1). intros [|f] d rest Hf Hd; [lia|]. cbn [String.concat parse_elems]. by rewrite Hv by lia.
  - destruct (IH v' t' Hv') as [f2 H2]. exists (S (Nat.max f1 f2)). intros [|f] d rest Hf Hd; [lia|].
    rewrite concat_cons. str_norm. cbn [parse_elems]. rewrite Hv by lia.
    rewrite skip_ws_solid by done. cbn iota. by rewrite H2 by lia.
Qed.

(** The text does not begin with white space or a closing bracket. *)
Definition opens (t : string) : Prop := exists c s, t = String c s /\ is_space c = false /\ c <> "]"%char.

Lemma parses_array n vs ts : Forall2 (parses n) vs ts -> Forall opens ts -> parses (n + 1) (JArray vs) (array_text ts).
Proof.
  intros H Ho. unfold array_text. destruct H as [|v t vs ts Hv H].
  - exists 1. intros [|f] d rest Hf Hd; [lia|]. cbn. destruct (N.leb_spec maxNestingDepth d); [lia|done].
  - destruct (parse_elems_written n v vs t ts Hv H) as [f0 H0]. exists (S f0). intros [|f] d rest Hf Hd; [lia|].
    str_norm. cbn [parse_value]. rewrite skip_ws_solid by done. cbn iota.
    change (byte_in 34 34 "[") with false. change (byte_in 91 91 "[") with true. cbn iota.
    destruct (N.leb_spec maxNestingDepth d); [lia|].
    rewrite H0 by lia. inversion_clear Ho as [|? ? Hopen _]. destruct Hopen as (c & s & -> & Hc & Hne).
    assert (exists z, String.concat "," (String c s :: ts) +:+ String "]" rest = String c z) as [z ->].
    { destruct ts; cbn [String.concat]; str_norm; by eexists. }
    rewrite skip_ws_solid by done. by destruct c as [[] [] [] [] [] [] [] []].
Qed.

Lemma json_string_opens s : opens (json_string s).
Proof. exists (byte 34), (json_escape 0 true s +:+ quote). done. Qed.

Lemma parse_members_written n k v ms t ts :
  ValidString k = true -> parses n v t ->
  Forall2 (fun kv kt => kv.1 = kt.1 /\ ValidString kv.1 = true /\ parses n kv.2 kt.2) ms ts ->
  exists f0, forall f d rest, f0 <= f -> (d + n <= maxNestingDepth)%N ->
    parse_members f d (String.concat "," (map member_text ((k, t) :: ts)) +:+ String "}" rest) = Some ((k, v) :: ms, rest).
Proof.
  intros Hk Hv H. revert k v t Hk Hv. induction H as [|[k' v'] [k'' t'] ms ts (E & Hk' & Hv') _ IH]; intros k v t Hk [f1 Hv].
  - exists (S f1). intros [|f] d rest Hf Hd; [lia|]. cbn [map String.concat]. unfold member_text, json_string. cbn [fst snd]. str_norm.
    cbn [parse_members]. change (quote +:+ ?x) with (String (byte 34) x) at 1. rewrite skip_ws_solid by done. cbn iota.
    change (byte_in 34 34 (byte 34)) with true. cbn [negb].
    rewrite unquote_string by done. rewrite skip_ws_solid by done. cbn iota. by rewrite Hv by lia.
  - cbn [fst snd] in E, Hk', Hv'. subst k''. destruct (IH k' v' t' Hk' Hv') as [f2 H2].
    exists (S (Nat.max f1 f2)). intros [|f] d rest Hf Hd; [lia|]. cbn [map]. rewrite concat_cons.
    unfold member_text at 1. unfold json_string at 1. cbn [fst snd]. str_norm.
    cbn [parse_members]. change (quote +:+ ?x) with (String (byte 34) x) at 1. rewrite skip_ws_solid by done. cbn iota.
    change (byte_in 34 34 (byte 34)) with true. cbn [negb].
    rewrite unquote_string by done. rewrite skip_ws_solid by done. cbn iota. rewrite Hv by lia.
    rewrite skip_ws_solid by done. cbn iota. by rewrite H2 by lia.
Qed.

Lemma parses_object n ms ts :
  Forall2 (fun kv kt => kv.1 = kt.1 /\ ValidString kv.1 = true /\ parses n kv.2 kt.2) ms ts ->
  parses (n + 1) (JObject ms) (object_text ts).
Proof.
  intros H. unfold object_text. destruct H as [|[k v] [k' t] ms ts (E & Hk & Hv) H].
  - exists 1. intros [|f] d rest Hf Hd; [lia|]. cbn. destruct (N.leb_spec maxNestingDepth d); [lia|done].
  - cbn [fst snd] in E, Hk, Hv. subst k'. destruct (parse_members_written n k v ms t ts Hk Hv H) as [f0 H0].
    exists (S f0). intros [|f] d rest Hf Hd; [lia|].
    str_norm. cbn [parse_value]. rewrite skip_ws_solid by done. cbn iota.
    change (byte_in 34 34 "{") with false. change (byte_in 91 91 "{") with false. change (byte_in 123 123 "{") with true. cbn iota.
    destruct (N.leb_spec maxNestingDepth d); [lia|].
    rewrite H0 by lia.
    assert (exists z, String.concat "," (map member_text ((k, t) :: ts)) +:+ String "}" rest = String (byte 34) z) as [z ->].
    { destruct ts; cbn [map String.concat]; unfold member_text at 1, json_string at 1; cbn [fst]; str_norm; by eexists. }
    rewrite skip_ws_solid by done. reflexivity.
Qed.

Lemma parse_json_written n v t : (n <= maxNestingDepth)%N -> parses n v t -> parse_json t = Some v.
Proof.
  intros Hn [f0 H]. unfold parse_json, parse_fuel. rewrite (parse_value_fuel _ 0 t) by lia.
  rewrite <- (parse_value_fuel (Nat.max f0 (2 * String.length t + 1))) by lia.
  rewrite <- (str_app_nil_r t) at 2. rewrite H by lia. done.
Qed.

End JsonDecode.
