(* ===== verification/FieldPath.v ===== *)
(** Field paths into unstructured objects: [internal/render/fieldpath.go].

    Paths and their notation ([Segment], [Path_String], [Parse]), and reading, writing and deleting
    at a path ([Get], [SetPath], [DeletePath]).  Go mutates the tree in place; the definitions
    return the tree as the caller sees it afterwards, also when an error is reported midway. *)
From stdpp Require Import strings base list gmap fin_maps.
From Stdlib Require Import Ascii NArith ZArith Lia.
From S2P Require Import Prelude GoStrings Values.
Local Open Scope string_scope.
Local Open Scope list_scope.

Module FieldPath.
Import GoStrings Values.

(** ** Segments and paths *)

Record Segment := mkSegment {
  Field : string;
  Index : Z;
  Key : string;
  Value : string;
}.

#[export] Instance Segment_eq_dec : EqDecision Segment.
Proof. solve_decision. Defined.

Definition IsField (s : Segment) : bool := negb (String.eqb (Field s) "").
Definition IsIndex (s : Segment) : bool :=
  String.eqb (Field s) "" && String.eqb (Key s) "" && (0 <=? Index s)%Z.
Definition IsKeyMatch (s : Segment) : bool := negb (String.eqb (Key s) "").

Abbreviation Path := (list Segment).

Definition FieldSegment (name : string) : Segment := mkSegment name (-1) "" "".
Definition IndexSegment (i : Z) : Segment := mkSegment "" i "" "".
Definition KeySegment (key value : string) : Segment := mkSegment "" (-1) key value.

(** One iteration of the loop of [Path.String]; [b] is the builder's content. *)
Definition write_segment (b : string) (s : Segment) : string :=
  if IsField s then (if String.eqb b "" then b else b +:+ ".") +:+ Field s
  else if IsKeyMatch s then b +:+ "[" +:+ Key s +:+ "=" +:+ Value s +:+ "]"
  else if IsIndex s then b +:+ "[" +:+ itoa (Index s) +:+ "]"
  else b.

Definition Path_String (p : Path) : string := foldl write_segment "" p.

Definition Segment_String (s : Segment) : string :=
  if IsField s then Field s
  else if IsKeyMatch s then "[" +:+ Key s +:+ "=" +:+ Value s +:+ "]"
  else if IsIndex s then "[" +:+ itoa (Index s) +:+ "]"
  else "<empty>".

Fixpoint Path_Equal (p other : Path) : bool :=
  match p, other with
  | [], [] => true
  | a :: p', b :: other' => bool_decide (a = b) && Path_Equal p' other'
  | _, _ => false
  end.

Definition Child (p : Path) (s : Segment) : Path := p ++ [s].

(** ** Parsing *)

Inductive parse_error :=
| EmptyPath
| UnterminatedBracket (rest : string)
| EmptyBracket
| EmptyKey (inner : string)
| NotIndexNorKey (inner : string)
| NegativeIndex (n : Z)
| TrailingDot
| NoSegments
| OutOfFuel.

(** The text between brackets. *)
Definition parse_bracket (inner : string) : res parse_error Segment :=
  if String.eqb inner "" then Err EmptyBracket
  else
    match cut "=" inner with
    | Some (key, val) => if String.eqb key "" then Err (EmptyKey inner) else Ok (KeySegment key val)
    | None =>
        match atoi inner with
        | None => Err (NotIndexNorKey inner)
        | Some n => if (n <? 0)%Z then Err (NegativeIndex n) else Ok (IndexSegment n)
        end
    end.

Definition is_name_byte (c : ascii) : bool := negb (Ascii.eqb c ".") && negb (Ascii.eqb c "[").

(** The loop of [Parse]: [s] is the part of the input from offset [i] on, [out] the segments so far.
    Every iteration consumes at least a byte, so the length of [s] is enough fuel. *)
Fixpoint parse_loop (fuel : nat) (s : string) (out : Path) : res parse_error Path :=
  match s with
  | "" => Ok out
  | String c rest =>
      match fuel with
      | O => Err OutOfFuel
      | S fuel' =>
          if Ascii.eqb c "[" then
            match cut "]" rest with
            | None => Err (UnterminatedBracket s)
            | Some (inner, rest') =>
                match parse_bracket inner with
                | Err e => Err e
                | Ok seg => parse_loop fuel' rest' (out ++ [seg])
                end
            end
          else if Ascii.eqb c "." then
            if String.eqb rest "" then Err TrailingDot else parse_loop fuel' rest out
          else
            let '(name, rest') := span is_name_byte s in
            parse_loop fuel' rest' (out ++ [FieldSegment name])
      end
  end.

Definition Parse (s : string) : res parse_error Path :=
  if String.eqb s "" then Err EmptyPath
  else
    match parse_loop (String.length s) s [] with
    | Err e => Err e
    | Ok [] => Err NoSegments
    | Ok out => Ok out
    end.

(** ** Reading *)

Definition elem_matches (key val : string) (e : value) : bool :=
  match e with
  | VMap m => String.eqb (sprint_v (map_get m key)) val
  | _ => false
  end.

Fixpoint findByKey (l : list value) (key val : string) : option nat :=
  match l with
  | [] => None
  | e :: l' => if elem_matches key val e then Some 0 else S <$> findByKey l' key val
  end.

Fixpoint Get (cur : value) (p : Path) : option value :=
  match p with
  | [] => Some cur
  | seg :: p' =>
      if IsField seg then
        match cur with
        | VMap m => match m !! Field seg with Some v => Get v p' | None => None end
        | _ => None
        end
      else if IsIndex seg then
        match cur with
        | VList l => match l !! Z.to_nat (Index seg) with Some v => Get v p' | None => None end
        | _ => None
        end
      else if IsKeyMatch seg then
        match cur with
        | VList l =>
            match findByKey l (Key seg) (Value seg) with
            | Some i => match l !! i with Some v => Get v p' | None => None end
            | None => None
            end
        | _ => None
        end
      else Get cur p'
  end.

(** ** Writing *)

Inductive set_error :=
| EmptySetPath
| MustStartWithField (p : Path)
| ExpectedMap (field : string)
| ListSegmentInSetIn (s : Segment)
| UnhandledSegment (s : Segment)
| ExpectedListSegment (s : Segment)
| IndexPanic.

Definition emptyFor (next : Segment) : value :=
  if IsIndex next || IsKeyMatch next then VList [] else VMap ∅.

(** The list [setInList] works on and the position it addresses: padded with empty maps up to an
    index, or extended with a fresh element carrying the key. *)
Definition locate (l : list value) (seg : Segment) : option (list value * nat) :=
  if IsIndex seg then
    let i := Z.to_nat (Index seg) in
    Some (l ++ replicate (S i - length l) (VMap ∅), i)
  else if IsKeyMatch seg then
    match findByKey l (Key seg) (Value seg) with
    | Some i => Some (l, i)
    | None => Some (l ++ [VMap {[Key seg := VStr (Value seg)]}], length l)
    end
  else None.

(** [setIn] returns the container as its holder sees it afterwards.  [setInList] returns the list
    as its holder sees it when the updated list is not written back (writes to existing elements
    show through the shared backing array, appended elements do not), and the updated list or the
    error. *)
Fixpoint setIn (container : value) (p : Path) (v : value) {struct p} : value * option set_error :=
  match p with
  | [] => (container, Some IndexPanic)
  | seg :: rest =>
      if IsField seg then
        match container with
        | VMap m =>
            match rest with
            | [] => (VMap (<[Field seg := v]> m), None)
            | next :: _ =>
                let child :=
                  match m !! Field seg with
                  | Some c => if is_nil c then emptyFor next else c
                  | None => emptyFor next
                  end in
                match child with
                | VList l =>
                    match setInList l rest v with
                    | (seen, Err e) => (VMap (<[Field seg := VList seen]> m), Some e)
                    | (_, Ok updated) => (VMap (<[Field seg := VList updated]> m), None)
                    end
                | _ =>
                    let '(child', e) := setIn child rest v in
                    (VMap (<[Field seg := child']> m), e)
                end
            end
        | _ => (container, Some (ExpectedMap (Field seg)))
        end
      else if IsIndex seg || IsKeyMatch seg then (container, Some (ListSegmentInSetIn seg))
      else (container, Some (UnhandledSegment seg))
  end
with setInList (l : list value) (p : Path) (v : value) {struct p}
    : list value * res set_error (list value) :=
  match p with
  | [] => (l, Err IndexPanic)
  | seg :: rest =>
      match locate l seg with
      | None => (l, Err (ExpectedListSegment seg))
      | Some (l1, idx) =>
          let seen (e : value) := if (idx <? length l)%nat then <[idx := e]> l else l in
          match rest with
          | [] => (seen v, Ok (<[idx := v]> l1))
          | next :: _ =>
              let elem :=
                match l1 !! idx with
                | Some e => if is_nil e then emptyFor next else e
                | None => VNil
                end in
              match elem with
              | VList l2 =>
                  match setInList l2 rest v with
                  | (seen2, Err e) => (seen (VList seen2), Err e)
                  | (_, Ok updated) => (seen (VList updated), Ok (<[idx := VList updated]> l1))
                  end
              | _ =>
                  match setIn elem rest v with
                  | (elem', Some e) => (seen elem', Err e)
                  | (elem', None) => (seen elem', Ok (<[idx := elem']> l1))
                  end
              end
          end
      end
  end.

Definition obj_of (v : value) (old : gmap string value) : gmap string value :=
  match v with VMap m => m | _ => old end.

(** [Set]: the object afterwards and the error, nil as [None]. *)
Definition SetPath (obj : gmap string value) (p : Path) (v : value)
    : gmap string value * option set_error :=
  match p with
  | [] => (obj, Some EmptySetPath)
  | seg :: _ =>
      if IsField seg then let '(obj', e) := setIn (VMap obj) p v in (obj_of obj' obj, e)
      else (obj, Some (MustStartWithField p))
  end.

(** ** Deleting *)

Fixpoint deleteIn (container : value) (p : Path) {struct p} : value * bool :=
  match p with
  | [] => (container, false)
  | seg :: rest =>
      if IsField seg then
        match container with
        | VMap m =>
            match m !! Field seg with
            | None => (container, false)
            | Some child =>
                match rest with
                | [] => (VMap (delete (Field seg) m), true)
                | _ :: _ =>
                    match child with
                    | VList l =>
                        let '(updated, removed) := deleteInList l rest in
                        (VMap (<[Field seg := VList updated]> m), removed)
                    | _ =>
                        let '(child', removed) := deleteIn child rest in
                        (VMap (<[Field seg := child']> m), removed)
                    end
                end
            end
        | _ => (container, false)
        end
      else (container, false)
  end
with deleteInList (l : list value) (p : Path) {struct p} : list value * bool :=
  match p with
  | [] => (l, false)
  | seg :: rest =>
      let at_ :=
        if IsIndex seg then
          let i := Z.to_nat (Index seg) in if (i <? length l)%nat then Some i else None
        else if IsKeyMatch seg then findByKey l (Key seg) (Value seg)
        else None in
      match at_ with
      | None => (l, false)
      | Some idx =>
          match rest with
          | [] => (base.delete idx l, true)
          | _ :: _ =>
              match l !! idx with
              | Some (VList next) =>
                  let '(updated, removed) := deleteInList next rest in
                  (<[idx := VList updated]> l, removed)
              | Some e =>
                  let '(e', removed) := deleteIn e rest in (<[idx := e']> l, removed)
              | None => (l, false)
              end
          end
      end
  end.

(** The loop of [pruneEmpty], [i] counting down. *)
Fixpoint prune_loop (i : nat) (obj : gmap string value) (p : Path) : gmap string value :=
  match i with
  | O => obj
  | S i' =>
      let prefix := firstn i p in
      match Get (VMap obj) prefix with
      | None => prune_loop i' obj p
      | Some (VMap m) =>
          if bool_decide (m = ∅) then
            match deleteIn (VMap obj) prefix with
            | (obj', true) => prune_loop i' (obj_of obj' obj) p
            | (_, false) => obj
            end
          else obj
      | Some _ => obj
      end
  end.

Definition pruneEmpty (obj : gmap string value) (p : Path) : gmap string value :=
  prune_loop (length p - 1) obj p.

Definition DeletePath (obj : gmap string value) (p : Path) : gmap string value * bool :=
  match p with
  | [] => (obj, false)
  | _ :: _ =>
      match deleteIn (VMap obj) p with
      | (obj', true) => (pruneEmpty (obj_of obj' obj) p, true)
      | (_, false) => (obj, false)
      end
  end.

End FieldPath.
