(* ===== verification/FieldPathNotation.v ===== *)
(** The path notation: [Path.String] and [Parse] of [internal/render/fieldpath.go] are inverse on
    the paths the notation can express, and [Parse] always terminates with such a path or an
    error. *)
From stdpp Require Import strings base list gmap.
From Stdlib Require Import Ascii NArith ZArith Lia.
From S2P Require Import Prelude GoStrings Values FieldPath.
Local Open Scope string_scope.
Local Open Scope list_scope.

Module FieldPathNotation.
Import GoStrings FieldPath.

(** The segments the notation expresses: a field name without ['.'] and ['['], an index in the range
    of [int], a key without ['='] and []] whose value has no []]. *)
Definition expressible (s : Segment) : bool :=
  if IsField s then
    bool_decide (s = FieldSegment (Field s)) && forall_bytes is_name_byte (Field s)
  else if IsKeyMatch s then
    bool_decide (s = KeySegment (Key s) (Value s)) &&
    no_byte "=" (Key s) && no_byte "]" (Key s) && no_byte "]" (Value s)
  else bool_decide (s = IndexSegment (Index s)) && (0 <=? Index s)%Z && (Index s <=? max_int)%Z.

(** Case analysis on an expressible segment, by shape. *)
Lemma expressible_inv s :
  expressible s = true ->
  (exists f, s = FieldSegment f /\ f <> "" /\ forall_bytes is_name_byte f = true) \/
  (exists k v, s = KeySegment k v /\ k <> "" /\ no_byte "=" k = true /\ no_byte "]" k = true /\
     no_byte "]" v = true) \/
  (exists i, s = IndexSegment i /\ (0 <= i <= max_int)%Z).
Proof.
  unfold expressible, IsField, IsKeyMatch.
  destruct (String.eqb_spec (Field s) "") as [_|Hf]; cbn [negb].
  - destruct (String.eqb_spec (Key s) "") as [_|Hk]; cbn [negb]; intros H; bool_simpl.
    + right; right. exists (Index s). split; [by eapply bool_decide_eq_true|lia].
    + right; left. exists (Key s), (Value s). repeat split; try done. by eapply bool_decide_eq_true.
  - intros H; bool_simpl. left. exists (Field s). repeat split; try done. by eapply bool_decide_eq_true.
Qed.

(** *** The printed form, without the builder *)

Definition segment_text (first : bool) (s : Segment) : string :=
  if IsField s then (if first then "" else ".") +:+ Field s
  else if IsKeyMatch s then "[" +:+ Key s +:+ "=" +:+ Value s +:+ "]"
  else "[" +:+ itoa (Index s) +:+ "]".

Fixpoint path_text (first : bool) (p : Path) : string :=
  match p with
  | [] => ""
  | s :: p' => segment_text first s +:+ path_text false p'
  end.

Lemma write_segment_text b s :
  expressible s = true ->
  write_segment b s = b +:+ segment_text (String.eqb b "") s /\ write_segment b s <> "".
Proof.
  intros [(f & -> & Hf & _)|[(k & v & -> & Hk & _)|(i & -> & Hi)]]%expressible_inv;
    unfold write_segment, segment_text, IsField, IsKeyMatch, IsIndex; cbn.
  - apply String.eqb_neq in Hf as Hf'. rewrite Hf'. cbn.
    destruct (String.eqb_spec b "") as [->|Hb]; cbn; [done|].
    rewrite str_app_assoc. cbn. split; [done|]. by intros [? ?]%str_app_eq_nil.
  - apply String.eqb_neq in Hk as Hk'. rewrite Hk'. cbn. split; [done|].
    by intros [? ?]%str_app_eq_nil.
  - replace (0 <=? i)%Z with true by (symmetry; apply Z.leb_le; lia). cbn. split; [done|].
    by intros [? ?]%str_app_eq_nil.
Qed.

Lemma Path_String_text p :
  Forall (fun s => expressible s = true) p -> Path_String p = path_text true p.
Proof.
  assert (forall b, Forall (fun s => expressible s = true) p ->
            foldl write_segment b p = b +:+ path_text (String.eqb b "") p) as H.
  { induction p as [|s p IH]; cbn; intros b Hp; [by rewrite str_app_nil_r|].
    inversion_clear Hp as [|? ? Hs Hp']. destruct (write_segment_text b s Hs) as [E Hne].
    rewrite IH by done. apply String.eqb_neq in Hne. rewrite Hne, E. apply str_app_assoc. }
  intros Hp. unfold Path_String. by rewrite H.
Qed.

(** A printed tail starts with a separator, so the name before it ends there. *)
Lemma path_text_boundary p :
  Forall (fun s => expressible s = true) p ->
  match path_text false p with "" => True | String a _ => is_name_byte a = false end.
Proof.
  destruct p as [|s p]; cbn; [done|]. intros Hp. inversion_clear Hp as [|? ? Hs _].
  apply expressible_inv in Hs as [(f & -> & Hf & _)|[(k & v & -> & Hk & _)|(i & -> & Hi)]];
    unfold segment_text, IsField, IsKeyMatch; cbn; [|apply String.eqb_neq in Hk; rewrite Hk; done|done].
  apply String.eqb_neq in Hf. by rewrite Hf.
Qed.

Lemma parse_bracket_key k v :
  k <> "" -> no_byte "=" k = true -> parse_bracket (k +:+ "=" +:+ v) = Ok (KeySegment k v).
Proof.
  intros Hk Hn. unfold parse_bracket.
  destruct (String.eqb_spec (k +:+ "=" +:+ v) "") as [E|_].
  { apply str_app_eq_nil in E as [_ E]. discriminate. }
  change ("=" +:+ v) with (String "=" v). rewrite cut_app by done.
  apply String.eqb_neq in Hk. by rewrite Hk.
Qed.

Lemma itoa_no_byte c i :
  is_digit c = false -> (0 <= i)%Z -> no_byte c (itoa i) = true.
Proof.
  intros Hc Hi. unfold itoa. destruct (Z.ltb_spec i 0); [lia|].
  apply digits_no_byte; [done|apply utoa_digits].
Qed.

Lemma parse_bracket_index i :
  (0 <= i <= max_int)%Z -> parse_bracket (itoa i) = Ok (IndexSegment i).
Proof.
  intros Hi. unfold parse_bracket. pose proof (atoi_itoa i Hi) as Ha.
  destruct (String.eqb_spec (itoa i) "") as [E|_]; [rewrite E in Ha; discriminate|].
  rewrite cut_none by (apply itoa_no_byte; [done|lia]). rewrite Ha.
  by destruct (Z.ltb_spec i 0); [lia|].
Qed.

(** The text between the brackets of a key or index segment. *)
Definition inner_text (s : Segment) : string :=
  if IsKeyMatch s then Key s +:+ "=" +:+ Value s else itoa (Index s).

Lemma parse_loop_bracket fuel s rest out :
  expressible s = true -> IsField s = false ->
  parse_loop (S fuel) (segment_text false s +:+ rest) out = parse_loop fuel rest (out ++ [s]).
Proof.
  intros Hs Hf.
  assert (segment_text false s +:+ rest = String "[" (inner_text s +:+ String "]" rest)) as ->.
  { unfold segment_text, inner_text. rewrite Hf. by destruct (IsKeyMatch s); str_norm. }
  cbn [parse_loop]. rewrite Ascii.eqb_refl.
  apply expressible_inv in Hs as [(f & -> & Hn & _)|[(k & v & -> & Hk & H1 & H2 & H3)|(i & -> & Hi)]].
  - unfold IsField in Hf. cbn in Hf. apply negb_false_iff, String.eqb_eq in Hf. done.
  - unfold inner_text, IsKeyMatch; cbn [Key Value KeySegment].
    apply String.eqb_neq in Hk as Hk'. rewrite Hk'. cbn [negb].
    rewrite cut_app, parse_bracket_key; [done..|].
    rewrite !no_byte_app, H2, H3. done.
  - change (inner_text (IndexSegment i)) with (itoa i).
    rewrite cut_app; [|by apply itoa_no_byte; [|lia]].
    by rewrite parse_bracket_index.
Qed.

Lemma parse_loop_name fuel f rest out :
  f <> "" -> forall_bytes is_name_byte f = true ->
  match rest with "" => True | String a _ => is_name_byte a = false end ->
  parse_loop (S fuel) (f +:+ rest) out = parse_loop fuel rest (out ++ [FieldSegment f]).
Proof.
  intros Hf Hb Hr. pose proof (span_app is_name_byte f rest Hb Hr) as Hspan.
  destruct f as [|c f]; [done|]. cbn in Hb. apply andb_prop in Hb as [Hc _].
  unfold is_name_byte in Hc. apply andb_prop in Hc as [Hd Hl].
  apply negb_true_iff in Hd, Hl. cbn [String.append parse_loop] in *.
  by rewrite Hl, Hd, Hspan.
Qed.

Lemma parse_loop_dot fuel rest out :
  rest <> "" -> parse_loop (S fuel) (String "." rest) out = parse_loop fuel rest out.
Proof. intros H. cbn. by rewrite (proj2 (String.eqb_neq _ _) H). Qed.

Lemma parse_loop_text fuel first p out :
  Forall (fun s => expressible s = true) p ->
  String.length (path_text first p) <= fuel ->
  parse_loop fuel (path_text first p) out = Ok (out ++ p).
Proof.
  revert fuel first out. induction p as [|s p IH]; intros fuel first out Hp Hfuel.
  { cbn. rewrite (right_id_L [] (++)). by destruct fuel. }
  inversion_clear Hp as [|? ? Hs Hp']. cbn [path_text] in *.
  rewrite str_length_app in Hfuel.
  destruct (IsField s) eqn:EF.
  - apply expressible_inv in Hs as Hs'.
    destruct Hs' as [(f & -> & Hf & Hb)|[(k & v & -> & _)|(i & -> & _)]]; [|done..].
    unfold segment_text in *. rewrite EF in *. cbn [Field FieldSegment] in *.
    assert (0 < String.length f) by (destruct f; cbn; [done|lia]).
    pose proof (path_text_boundary p Hp') as Hbd.
    destruct first; cbn [String.append] in *.
    + destruct fuel as [|fuel]; [cbn in Hfuel; lia|].
      rewrite parse_loop_name, IH by (done || lia). by rewrite <- (assoc_L (++)).
    + cbn [String.length] in Hfuel. destruct fuel as [|[|fuel]]; [lia..|].
      rewrite parse_loop_dot by (by intros [? _]%str_app_eq_nil).
      rewrite parse_loop_name, IH by (done || lia). by rewrite <- (assoc_L (++)).
  - assert (1 <= String.length (segment_text first s)) as Hl.
    { unfold segment_text. rewrite EF. destruct (IsKeyMatch s); cbn; lia. }
    assert (segment_text first s = segment_text false s) as E.
    { unfold segment_text. by rewrite EF. }
    rewrite E in *. destruct fuel as [|fuel]; [lia|].
    rewrite parse_loop_bracket, IH by (done || lia). by rewrite <- (assoc_L (++)).
Qed.

(** Printing then parsing an expressible path gives it back. *)
Lemma Parse_text p :
  p <> [] -> Forall (fun s => expressible s = true) p -> Parse (Path_String p) = Ok p.
Proof.
  intros Hne Hp. unfold Parse. rewrite Path_String_text by done.
  pose proof (parse_loop_text _ true p [] Hp (le_n _)) as H.
  destruct (String.eqb_spec (path_text true p) "") as [E|_].
  - rewrite E in H. cbn in H. congruence.
  - rewrite H. by destruct p.
Qed.

(** *** What the parser accepts *)

Lemma span_forall f s : forall_bytes f (fst (span f s)) = true.
Proof.
  induction s as [|a s IH]; cbn; [done|]. destruct (f a) eqn:E; cbn; [|done].
  destruct (span f s); cbn in *. by rewrite E, IH.
Qed.

Lemma atoi_bounds s n : atoi s = Some n -> (min_int <= n <= max_int)%Z.
Proof.
  unfold atoi. repeat (case_match; try discriminate); intros [= <-]; bool_simpl; lia.
Qed.

Lemma parse_bracket_expressible inner seg :
  no_byte "]" inner = true -> parse_bracket inner = Ok seg -> expressible seg = true.
Proof.
  intros Hn. unfold parse_bracket. destruct (String.eqb inner ""); [done|].
  destruct (cut "=" inner) as [[k v]|] eqn:E.
  - apply cut_some in E as [-> Hk]. rewrite no_byte_app in Hn. apply andb_prop in Hn as [H1 H2].
    apply no_byte_cons in H2 as [_ H2].
    destruct (String.eqb_spec k "") as [|Hne]; [done|]. intros [= <-].
    apply String.eqb_neq in Hne.
    unfold expressible, IsField, IsKeyMatch; cbn [Field Key Value KeySegment].
    rewrite Hne. cbn [negb String.eqb]. by rewrite bool_decide_true, Hk, H1, H2.
  - destruct (atoi inner) as [n|] eqn:Ea; [|done]. destruct (Z.ltb_spec n 0); [done|].
    intros [= <-]. apply atoi_bounds in Ea. unfold expressible, IsField, IsKeyMatch; cbn.
    rewrite bool_decide_true by done. cbn. apply andb_true_intro; split; apply Z.leb_le; lia.
Qed.

Lemma parse_loop_expressible fuel s out p :
  parse_loop fuel s out = Ok p -> Forall (fun s => expressible s = true) out ->
  Forall (fun s => expressible s = true) p.
Proof.
  revert s out. induction fuel as [|fuel IH]; intros [|c rest] out; cbn [parse_loop];
    try (intros [= <-]; done); try done.
  destruct (Ascii.eqb_spec c "[") as [->|Hb].
  - destruct (cut "]" rest) as [[inner rest']|] eqn:Ec; [|done].
    destruct (parse_bracket inner) as [seg|e] eqn:Ep; [|done]. intros H Ho.
    apply cut_some in Ec as [_ Hn]. eapply IH; [exact H|].
    apply Forall_app; split; [done|]. constructor; [by eapply parse_bracket_expressible|done].
  - destruct (Ascii.eqb_spec c ".") as [->|Hd].
    + destruct (String.eqb rest ""); [done|]. apply IH.
    + destruct (span is_name_byte (String c rest)) as [name rest'] eqn:Es. intros H Ho.
      eapply IH; [exact H|]. apply Forall_app; split; [done|]. constructor; [|done].
      pose proof (span_forall is_name_byte (String c rest)) as Hf. rewrite Es in Hf. cbn [fst] in Hf.
      assert (name <> "") as Hne.
      { intros ->. cbn in Es. unfold is_name_byte at 1 in Es.
        apply Ascii.eqb_neq in Hb, Hd. rewrite Hb, Hd in Es. cbn in Es.
        by destruct (span is_name_byte rest). }
      apply String.eqb_neq in Hne. unfold expressible, IsField; cbn [Field FieldSegment].
      rewrite Hne. cbn [negb]. by rewrite bool_decide_true, Hf.
Qed.

Lemma Parse_expressible s p :
  Parse s = Ok p -> p <> [] /\ Forall (fun s => expressible s = true) p.
Proof.
  unfold Parse. destruct (String.eqb s ""); [done|].
  destruct (parse_loop (String.length s) s []) as [[|seg q]|e] eqn:E; [done| |done].
  intros [= <-]. split; [done|]. by eapply parse_loop_expressible.
Qed.

Lemma parse_loop_fuel fuel s out :
  String.length s <= fuel -> parse_loop fuel s out <> Err OutOfFuel.
Proof.
  revert s out. induction fuel as [|fuel IH]; intros [|c rest] out Hl; cbn [parse_loop];
    try (cbn in Hl; lia); try done.
  cbn in Hl. destruct (Ascii.eqb c "[") eqn:Eb.
  - destruct (cut "]" rest) as [[inner rest']|] eqn:Ec; [|done].
    apply cut_length in Ec.
    destruct (parse_bracket inner) as [seg|e] eqn:Ep; [apply IH; lia|].
    intros [= ->]. unfold parse_bracket in Ep. repeat (case_match; try discriminate).
  - destruct (Ascii.eqb c ".") eqn:Ed.
    + destruct (String.eqb rest ""); [done|]. apply IH; lia.
    + destruct (span is_name_byte (String c rest)) as [name rest'] eqn:Es.
      apply IH. pose proof (span_eq is_name_byte (String c rest)) as Heq. rewrite Es in Heq.
      cbn [fst snd] in Heq. apply (f_equal String.length) in Heq. rewrite str_length_app in Heq.
      cbn in Heq. destruct name as [|a name]; [|cbn in Heq; lia].
      cbn in Es. unfold is_name_byte at 1 in Es. rewrite Eb, Ed in Es. cbn in Es.
      by destruct (span is_name_byte rest).
Qed.

(** ** Properties *)

(** (C39) The path notation round-trips: a path whose segments the notation can express is printed by
    [Path.String] to a string that [Parse] reads back to the same path. *)
Theorem Parse_Path_String (p : Path) :
  p <> [] -> Forall (fun s => expressible s = true) p -> Parse (Path_String p) = Ok p.
Proof. apply Parse_text. Qed.

Lemma Parse_Path_String_witness :
  let p := [FieldSegment "spec"; FieldSegment "rules"; KeySegment "host" "a.example.com";
            FieldSegment "paths"; IndexSegment 0] in
  p <> [] /\ Parse (Path_String p) = Ok p.
Proof.
  intros p. split; [done|]. apply Parse_Path_String; [done|].
  repeat (constructor; [vm_compute; reflexivity|]). constructor.
Defined.

(** (C40) [Parse] always terminates with a path or a reported error, and what it accepts is stable:
    printing the parsed path and parsing it again yields the same path. *)
Theorem Parse_stable (s : string) :
  match Parse s with
  | Ok p => p <> [] /\ Forall (fun s => expressible s = true) p /\ Parse (Path_String p) = Ok p
  | Err e => e <> OutOfFuel
  end.
Proof.
  destruct (Parse s) as [p|e] eqn:E.
  - apply Parse_expressible in E as [Hne Hp]. auto using Parse_text.
  - revert E. unfold Parse. destruct (String.eqb s ""); [by intros [= <-]|].
    pose proof (parse_loop_fuel (String.length s) s [] (le_n _)) as H.
    destruct (parse_loop (String.length s) s []) as [[|seg q]|e']; intros [= <-]; [done|].
    intros ->. done.
Qed.

End FieldPathNotation.
