(* ===== verification/FieldPathUpdate.v ===== *)
(** Reading after writing: what [Set] of [internal/render/fieldpath.go] establishes at the written
    path and what it leaves alone everywhere else. *)
From stdpp Require Import strings base list gmap fin_maps.
From Stdlib Require Import Ascii NArith ZArith Lia.
From S2P Require Import Prelude GoStrings Values FieldPath.
Local Open Scope string_scope.
Local Open Scope list_scope.

Module FieldPathUpdate.
Import GoStrings Values FieldPath.

(** A segment of exactly one of the three kinds. *)
Definition proper (s : Segment) : bool :=
  if IsField s then String.eqb (Key s) "" else IsIndex s || IsKeyMatch s.

(** The path enters a list element selected by its key through another field than that key. *)
Fixpoint avoids_keys (p : Path) : bool :=
  match p with
  | s :: (next :: _) as rest =>
      negb (IsKeyMatch s && String.eqb (Field next) (Key s)) && avoids_keys rest
  | _ => true
  end.

(** A value written over a whole list element selected by its key carries that key. *)
Fixpoint carries_key (p : Path) (v : value) : bool :=
  match p with
  | [] => true
  | [s] => if IsKeyMatch s then elem_matches (Key s) (Value s) v else true
  | _ :: rest => carries_key rest v
  end.

(** Writing [v] at [p] leaves the identifying key of every list element it goes through alone. *)
Definition keys_kept (p : Path) (v : value) : bool := avoids_keys p && carries_key p v.

(** Two paths that part at a map key, or at the key of a list element. *)
Fixpoint diverge (p q : Path) : bool :=
  match p, q with
  | a :: p', b :: q' =>
      if bool_decide (a = b) then diverge p' q'
      else if IsField a && IsField b then negb (String.eqb (Field a) (Field b))
      else negb (IsField a) && negb (IsField b) && IsKeyMatch a && IsKeyMatch b &&
           String.eqb (Key a) (Key b) && negb (String.eqb (Value a) (Value b))
  | _, _ => false
  end.

(** *** Equations for [Get] by kind of segment *)

Lemma proper_field s : proper s = true -> IsField s = true -> IsKeyMatch s = false /\ IsIndex s = false.
Proof.
  unfold proper, IsIndex, IsKeyMatch, IsField. intros H Hf. rewrite Hf in H.
  apply negb_true_iff in Hf. by rewrite H, Hf.
Qed.

Lemma proper_list s :
  proper s = true -> IsField s = false ->
  (IsIndex s = true /\ IsKeyMatch s = false) \/ (IsIndex s = false /\ IsKeyMatch s = true).
Proof.
  unfold proper, IsIndex, IsKeyMatch. intros H Hf. rewrite Hf in H.
  destruct (String.eqb (Key s) ""), (String.eqb (Field s) ""), (0 <=? Index s)%Z; cbn in *;
    try discriminate; auto.
Qed.

Lemma Get_field m s p :
  IsField s = true -> Get (VMap m) (s :: p) = m !! Field s ≫= fun v => Get v p.
Proof. intros H. cbn. rewrite H. by destruct (m !! Field s). Qed.

(** The position a list segment reads. *)
Definition read_at (l : list value) (s : Segment) : option nat :=
  if IsIndex s then Some (Z.to_nat (Index s)) else findByKey l (Key s) (Value s).

Lemma Get_list l s p :
  proper s = true -> IsField s = false ->
  Get (VList l) (s :: p) = read_at l s ≫= fun i => l !! i ≫= fun v => Get v p.
Proof.
  intros Hp Hf. cbn. rewrite Hf. unfold read_at.
  destruct (proper_list s Hp Hf) as [[-> _]|[-> ->]]; [|destruct (findByKey _ _ _)]; cbn;
    try (by destruct (l !! _)); done.
Qed.

Lemma Get_scalar v s p :
  proper s = true -> as_map v = None -> as_list v = None -> Get v (s :: p) = None.
Proof.
  intros Hp Hm Hl. cbn. destruct v; try discriminate; unfold proper in Hp;
    destruct (IsField s); try done; destruct (IsIndex s), (IsKeyMatch s); done.
Qed.

Lemma Get_map_list m s p :
  proper s = true -> IsField s = false -> Get (VMap m) (s :: p) = None.
Proof.
  intros Hp Hf. cbn. rewrite Hf. unfold proper in Hp. rewrite Hf in Hp.
  destruct (IsIndex s), (IsKeyMatch s); done.
Qed.

Lemma Get_list_field l s p : IsField s = true -> Get (VList l) (s :: p) = None.
Proof. intros Hf. cbn. by rewrite Hf. Qed.

(** An empty container holds nothing. *)
Lemma Get_emptyFor next s p : proper s = true -> Get (emptyFor next) (s :: p) = None.
Proof.
  intros Hp. unfold emptyFor. destruct (IsIndex next || IsKeyMatch next).
  - destruct (IsField s) eqn:Hf; [by apply Get_list_field|]. rewrite Get_list by done.
    unfold read_at. by destruct (IsIndex s); cbn; rewrite ?lookup_nil.
  - destruct (IsField s) eqn:Hf; [|by apply Get_map_list]. by rewrite Get_field, lookup_empty.
Qed.

(** *** [findByKey] *)

Lemma findByKey_spec l k v i :
  findByKey l k v = Some i <->
  (exists e, l !! i = Some e /\ elem_matches k v e = true) /\
  forall j e, j < i -> l !! j = Some e -> elem_matches k v e = false.
Proof.
  revert i. induction l as [|x l IH]; intros i; cbn [findByKey].
  { split; [done|]. intros [(e & He & _) _]. done. }
  destruct (elem_matches k v x) eqn:E.
  - split.
    + intros [= <-]. split; [by exists x|]. intros; lia.
    + intros [_ H]. destruct i as [|i]; [done|].
      specialize (H 0 x ltac:(lia) eq_refl). congruence.
  - rewrite fmap_Some. split.
    + intros (j & [[e [He Hm]] Hlt]%IH & ->). split; [by exists e|].
      intros [|j'] e' Hj He'; [simplify_eq/=; congruence|]. eapply Hlt; [|done]. lia.
    + intros [(e & He & Hm) Hlt]. destruct i as [|i]; [simplify_eq/=; congruence|].
      exists i. split; [|done]. apply IH. split; [by exists e|].
      intros j e' Hj He'. apply (Hlt (S j)); [lia|done].
Qed.

Lemma findByKey_none l k v :
  findByKey l k v = None <-> forall e, e ∈ l -> elem_matches k v e = false.
Proof.
  induction l as [|x l IH]; cbn [findByKey].
  { split; [|done]. by intros _ e ?%elem_of_nil. }
  destruct (elem_matches k v x) eqn:E.
  - split; [done|]. intros H. specialize (H x ltac:(left)). congruence.
  - rewrite fmap_None, IH. split.
    + intros H e [->|He]%elem_of_cons; auto.
    + intros H e He. apply H. by right.
Qed.

Lemma elem_matches_unique k v1 v2 e :
  elem_matches k v1 e = true -> elem_matches k v2 e = true -> v1 = v2.
Proof. unfold elem_matches. destruct e; try done. intros; bool_simpl. congruence. Qed.

Lemma findByKey_lt l k v i : findByKey l k v = Some i -> i < length l.
Proof. intros [(e & He & _) _]%findByKey_spec. by eapply lookup_lt_Some. Qed.

(** Replacing the element at [i], the first that matches [v], by one that matches [v]. *)
Lemma findByKey_insert_same l k v i e :
  findByKey l k v = Some i -> elem_matches k v e = true -> findByKey (<[i := e]> l) k v = Some i.
Proof.
  intros H He. pose proof (findByKey_lt _ _ _ _ H). apply findByKey_spec in H as [_ H].
  apply findByKey_spec. split; [exists e; by rewrite list_lookup_insert_eq|].
  intros j e' Hj. rewrite list_lookup_insert_ne by lia. by apply H.
Qed.

(** Replacing an element by one that matches another value is not seen by [findByKey]. *)
Lemma findByKey_insert_other l k v w i e e0 :
  l !! i = Some e0 -> elem_matches k v e0 = false -> elem_matches k v e = false ->
  v <> w -> findByKey (<[i := e]> l) k v = findByKey l k v.
Proof.
  intros Hi H0 He _. revert i Hi. induction l as [|x l IH]; intros [|i] Hi; simplify_eq/=; try done.
  - by rewrite H0, He.
  - destruct (elem_matches k v x); [done|]. by rewrite IH.
Qed.

Lemma findByKey_app_other l k v e :
  elem_matches k v e = false -> findByKey (l ++ [e]) k v = findByKey l k v.
Proof. intros He. induction l as [|x l IH]; cbn; [by rewrite He|]. by rewrite IH. Qed.

Lemma findByKey_app_same l k v e :
  findByKey l k v = None -> elem_matches k v e = true -> findByKey (l ++ [e]) k v = Some (length l).
Proof.
  intros Hn He. induction l as [|x l IH]; cbn in *; [by rewrite He|].
  destruct (elem_matches k v x); [done|]. apply fmap_None in Hn. by rewrite IH.
Qed.

(** *** The shape of a successful write *)

(** The value a child position holds before the recursive write. *)
Definition child_of (o : option value) (next : Segment) : value :=
  match o with
  | Some c => if is_nil c then emptyFor next else c
  | None => emptyFor next
  end.

(** The recursive write into a child, whichever of the two functions performs it. *)
Definition set_child (c : value) (p : Path) (v : value) : option value :=
  match c with
  | VList l => match setInList l p v with (_, Ok l') => Some (VList l') | (_, Err _) => None end
  | _ => match setIn c p v with (c', None) => Some c' | (_, Some _) => None end
  end.

Lemma setIn_ok c s rest v c' :
  setIn c (s :: rest) v = (c', None) ->
  IsField s = true /\ exists m x,
    c = VMap m /\ c' = VMap (<[Field s := x]> m) /\
    match rest with
    | [] => x = v
    | next :: _ => set_child (child_of (m !! Field s) next) rest v = Some x
    end.
Proof.
  cbn [setIn]. destruct (IsField s) eqn:Hf.
  2: { destruct (IsIndex s || IsKeyMatch s); intros [=]. }
  destruct c as [| | | | | |m]; try (intros [=]; fail).
  destruct rest as [|next rest].
  { intros [= <-]. split; [done|]. by exists m, v. }
  fold (child_of (m !! Field s) next). intros H. split; [done|].
  enough (exists x, c' = VMap (<[Field s := x]> m) /\
            set_child (child_of (m !! Field s) next) (next :: rest) v = Some x)
    as (x & -> & Hx) by (by exists m, x).
  unfold set_child. destruct (child_of (m !! Field s) next) as [| | | | |l|m'];
    try (destruct (setIn _ (next :: rest) v) as [x e]; simplify_eq; by eexists).
  destruct (setInList l (next :: rest) v) as [seen [l'|e]]; simplify_eq. by eexists.
Qed.

Lemma setInList_ok l s rest v seen l' :
  setInList l (s :: rest) v = (seen, Ok l') ->
  exists l1 i x,
    locate l s = Some (l1, i) /\ l' = <[i := x]> l1 /\
    match rest with
    | [] => x = v
    | next :: _ => set_child (child_of (l1 !! i) next) rest v = Some x
    end.
Proof.
  cbn [setInList]. destruct (locate l s) as [[l1 i]|] eqn:El; [|intros [=]].
  destruct rest as [|next rest]; [intros [= _ <-]; by exists l1, i, v|].
  assert (i < length l1) as Hi.
  { unfold locate in El. destruct (IsIndex s).
    - simplify_eq. rewrite length_app, length_replicate. lia.
    - destruct (IsKeyMatch s); [|done]. destruct (findByKey _ _ _) eqn:Ef; simplify_eq.
      + by eapply findByKey_lt.
      + rewrite length_app. cbn. lia. }
  apply lookup_lt_is_Some in Hi as [e He]. rewrite He. intros H.
  enough (exists x, l' = <[i := x]> l1 /\
            set_child (child_of (Some e) next) (next :: rest) v = Some x)
    as (x & -> & Hx) by (exists l1, i, x; by rewrite He).
  unfold child_of, set_child.
  destruct (if is_nil e then emptyFor next else e) as [| | | | |l2|m'];
    try (destruct (setIn _ (next :: rest) v) as [x [err|]]; simplify_eq; by eexists).
  destruct (setInList l2 (next :: rest) v) as [seen2 [l2'|err]]; simplify_eq. by eexists.
Qed.

(** *** The element a list write addresses *)

Lemma locate_field l s : proper s = true -> IsField s = true -> locate l s = None.
Proof. intros Hp Hf. unfold locate. by destruct (proper_field s Hp Hf) as [-> ->]. Qed.

Lemma locate_index l s l1 i :
  IsIndex s = true -> locate l s = Some (l1, i) ->
  i = Z.to_nat (Index s) /\ i < length l1 /\ (l1 !! i = l !! i \/ l !! i = None /\ l1 !! i = Some (VMap ∅)).
Proof.
  unfold locate. intros -> [= <- <-]. rewrite length_app, length_replicate.
  repeat split; [lia|]. destruct (decide (Z.to_nat (Index s) < length l)).
  - left. by apply lookup_app_l.
  - right. split; [apply lookup_ge_None; lia|].
    rewrite lookup_app_r by lia. apply lookup_replicate. split; [done|lia].
Qed.

Lemma fresh_matches k v : elem_matches k v (VMap {[k := VStr v]}) = true.
Proof. cbn. unfold map_get. rewrite lookup_singleton_eq. apply String.eqb_refl. Qed.

Lemma locate_key l s l1 i :
  IsIndex s = false -> locate l s = Some (l1, i) ->
  findByKey l1 (Key s) (Value s) = Some i /\
  ((findByKey l (Key s) (Value s) = Some i /\ l1 = l) \/
   (findByKey l (Key s) (Value s) = None /\ i = length l /\
    l1 = l ++ [VMap {[Key s := VStr (Value s)]}])).
Proof.
  unfold locate. intros ->. destruct (IsKeyMatch s); [|done].
  destruct (findByKey l _ _) as [j|] eqn:E; intros [= <- <-]; [by auto|].
  split; [|by auto]. apply findByKey_app_same; [done|apply fresh_matches].
Qed.

(** A write below an element through another field keeps the element's key. *)
Lemma set_child_matches k w e next rest v x :
  elem_matches k w e = true -> Field next <> k ->
  set_child e (next :: rest) v = Some x -> elem_matches k w x = true.
Proof.
  intros Hm Hk. destruct e as [| | | | |l|m]; try done. cbn [set_child].
  destruct (setIn (VMap m) (next :: rest) v) as [x' [?|]] eqn:E; [done|]. intros [= <-].
  apply setIn_ok in E as (_ & m0 & y & [= <-] & -> & _).
  cbn in *. unfold map_get in *. by rewrite lookup_insert_ne.
Qed.

Lemma child_of_matches k w e next : elem_matches k w e = true -> child_of (Some e) next = e.
Proof. by destruct e. Qed.

(** The element written by a key write still carries the key. *)
Lemma written_matches l1 i s rest v x :
  IsKeyMatch s = true -> findByKey l1 (Key s) (Value s) = Some i ->
  keys_kept (s :: rest) v = true ->
  match rest with
  | [] => x = v
  | next :: _ => set_child (child_of (l1 !! i) next) rest v = Some x
  end ->
  elem_matches (Key s) (Value s) x = true.
Proof.
  intros Hk Hf Hkeep Hx. apply findByKey_spec in Hf as [(e & He & Hm) _].
  unfold keys_kept in Hkeep. destruct rest as [|next rest].
  - subst x. cbn in Hkeep. by rewrite Hk in Hkeep.
  - cbn in Hkeep. rewrite Hk in Hkeep. bool_simpl. rewrite He in Hx.
    erewrite child_of_matches in Hx by done.
    eapply set_child_matches; [done| |done]. cbn in *.
    match goal with H : String.eqb _ _ = false |- _ => by apply String.eqb_neq in H | _ => done end.
Qed.

Lemma keys_kept_cons s next rest v :
  keys_kept (s :: next :: rest) v = true -> keys_kept (next :: rest) v = true.
Proof. unfold keys_kept. cbn [avoids_keys carries_key]. intros; bool_simpl. by apply andb_true_intro. Qed.

(** *** Reading the written path *)

Lemma set_child_get p : forall c v c',
  p <> [] -> Forall (fun s => proper s = true) p -> keys_kept p v = true ->
  set_child c p v = Some c' -> Get c' p = Some v.
Proof.
  induction p as [|s rest IH]; [done|]. intros c v c' _ Hp Hk Hs.
  inversion_clear Hp as [|? ? Hps Hpr].
  assert (forall o x, match rest with
            | [] => x = v
            | next :: _ => set_child (child_of o next) rest v = Some x
            end -> Get x rest = Some v) as Hrec.
  { intros o x Hx. destruct rest as [|next rest]; [by subst|].
    eapply IH; [done|done|by eapply keys_kept_cons|done]. }
  assert (forall d, setIn d (s :: rest) v = (c', None) -> Get c' (s :: rest) = Some v) as Hin.
  { intros d (Hf & m & x & -> & -> & Hx)%setIn_ok.
    rewrite Get_field, lookup_insert_eq by done. cbn. by eapply Hrec. }
  unfold set_child in Hs.
  destruct c as [| | | | |l|m];
    try (destruct (setIn _ (s :: rest) v) as [y [?|]] eqn:E; simplify_eq; by eapply Hin).
  destruct (setInList l (s :: rest) v) as [seen [l'|]] eqn:E; simplify_eq.
  apply setInList_ok in E as (l1 & i & x & El & -> & Hx).
  destruct (IsField s) eqn:Hf; [by rewrite locate_field in El|].
  rewrite Get_list by done.
  assert (read_at (<[i := x]> l1) s = Some i /\ i < length l1) as [-> Hi].
  { destruct (proper_list s Hps Hf) as [[Hi _]|[Hi Hm]]; unfold read_at; rewrite Hi.
    - apply locate_index in El as (-> & ? & _); done.
    - apply locate_key in El as [Hfk _]; [|done]. split; [|by eapply findByKey_lt].
      apply findByKey_insert_same; [done|]. by eapply written_matches. }
  cbn. rewrite list_lookup_insert_eq by done. cbn. by eapply Hrec.
Qed.

(** *** Reading a diverging path *)

Lemma diverge_nonempty p q : diverge p q = true -> p <> [] /\ q <> [].
Proof. destruct p, q; try done. Qed.

Lemma Get_child_of o next q :
  q <> [] -> Forall (fun s => proper s = true) q ->
  Get (child_of o next) q = o ≫= fun v => Get v q.
Proof.
  destruct q as [|s q]; [done|]. intros _ Hq. inversion_clear Hq as [|? ? Hs _].
  destruct o as [c|]; cbn [child_of mbind option_bind].
  - destruct c; cbn [is_nil]; try done. rewrite Get_emptyFor by done.
    by rewrite Get_scalar.
  - by apply Get_emptyFor.
Qed.

Lemma set_child_field_frame m s q x :
  IsField s = true ->
  Get x q = (m !! Field s) ≫= (fun c => Get c q) ->
  Get (VMap (<[Field s := x]> m)) (s :: q) = Get (VMap m) (s :: q).
Proof. intros. rewrite !Get_field, lookup_insert_eq by done. cbn. done. Qed.

(** Reading the same list element through a diverging rest. *)
Lemma list_frame_same l s l1 i x q rest v :
  proper s = true -> IsField s = false -> locate l s = Some (l1, i) ->
  keys_kept (s :: rest) v = true -> avoids_keys (s :: q) = true ->
  q <> [] -> Forall (fun s => proper s = true) q ->
  match rest with
  | [] => x = v
  | next :: _ => set_child (child_of (l1 !! i) next) rest v = Some x
  end ->
  Get x q = (l1 !! i) ≫= (fun c => Get c q) ->
  Get (VList (<[i := x]> l1)) (s :: q) = Get (VList l) (s :: q).
Proof.
  intros Hps Hf El Hk Hav Hq Hpq Hx Hrec. rewrite !Get_list by done. unfold read_at.
  destruct (proper_list s Hps Hf) as [[Hi _]|[Hi Hm]]; rewrite Hi.
  - apply locate_index in El as (-> & Hlt & Hl); [|done]. cbn.
    rewrite list_lookup_insert_eq by done. cbn. rewrite Hrec.
    destruct Hl as [->|[-> ->]]; [done|]. cbn.
    destruct q as [|b q]; [done|]. inversion_clear Hpq.
    destruct (IsField b) eqn:Hb; [by rewrite Get_field, lookup_empty|by apply Get_map_list].
  - apply locate_key in El as [Hfk Hl]; [|done].
    rewrite findByKey_insert_same; [|done|by eapply written_matches]. cbn.
    rewrite list_lookup_insert_eq by (by eapply findByKey_lt). cbn. rewrite Hrec.
    destruct Hl as [[-> ->]|(-> & -> & ->)]; [done|]. cbn.
    rewrite list_lookup_middle by done. cbn.
    destruct q as [|b q]; [done|]. inversion_clear Hpq.
    destruct (IsField b) eqn:Hb; [|by apply Get_map_list].
    rewrite Get_field by done. rewrite lookup_singleton_ne; [done|].
    cbn in Hav. rewrite Hm in Hav. bool_simpl. cbn in *. bool_simpl. congruence.
Qed.

(** Reading another element of the same keyed list. *)
Lemma list_frame_other l a b l1 i x q :
  proper a = true -> proper b = true -> IsField a = false -> IsField b = false ->
  IsKeyMatch a = true -> IsKeyMatch b = true -> Key a = Key b -> Value a <> Value b ->
  locate l a = Some (l1, i) -> elem_matches (Key a) (Value a) x = true ->
  Get (VList (<[i := x]> l1)) (b :: q) = Get (VList l) (b :: q).
Proof.
  intros Ha Hb Hfa Hfb Hka Hkb Hkey Hval El Hx. rewrite !Get_list by done. unfold read_at.
  destruct (proper_list a Ha Hfa) as [[_ ?]|[Hia _]]; [congruence|].
  destruct (proper_list b Hb Hfb) as [[_ ?]|[Hib _]]; [congruence|]. rewrite Hib, <- Hkey.
  assert (forall e, elem_matches (Key a) (Value a) e = true ->
            elem_matches (Key a) (Value b) e = false) as Hno.
  { intros e He. destruct (elem_matches _ (Value b) e) eqn:E; [|done].
    by destruct Hval; eapply elem_matches_unique. }
  apply locate_key in El as [Hfk Hl]; [|done].
  pose proof (proj1 (findByKey_spec _ _ _ _) Hfk) as [(e & He & Hm) _].
  rewrite (findByKey_insert_other _ _ _ (Value a) _ _ e) by auto.
  assert (findByKey l1 (Key a) (Value b) = findByKey l (Key a) (Value b)) as ->.
  { destruct Hl as [[_ ->]|(_ & -> & ->)]; [done|].
    apply findByKey_app_other, Hno, fresh_matches. }
  destruct (findByKey l (Key a) (Value b)) as [j|] eqn:Ej; [|done]. cbn.
  pose proof (findByKey_lt _ _ _ _ Ej) as Hj.
  apply findByKey_spec in Ej as [(e' & He' & Hm') _].
  assert (l1 !! j = l !! j) as Hlj.
  { destruct Hl as [[_ ->]|(_ & -> & ->)]; [done|]. by apply lookup_app_l. }
  rewrite list_lookup_insert_ne; [by rewrite Hlj|].
  intros ->. rewrite Hlj, He' in He. injection He as ->. by rewrite Hno in Hm'.
Qed.

Lemma set_child_frame p : forall c q v c',
  Forall (fun s => proper s = true) p -> Forall (fun s => proper s = true) q ->
  keys_kept p v = true -> avoids_keys q = true -> diverge p q = true ->
  set_child c p v = Some c' -> Get c' q = Get c q.
Proof.
  induction p as [|a rest IH]; [done|]. intros c [|b q] v c' Hp Hq Hk Hav Hd Hs; [done|].
  inversion_clear Hp as [|? ? Hpa Hpr]. inversion_clear Hq as [|? ? Hpb Hpq].
  cbn [diverge] in Hd. case_bool_decide as Hab.
  - (* the same first segment *)
    subst b. destruct (diverge_nonempty _ _ Hd) as [Hr Hqn].
    assert (forall o x, match rest with
              | [] => x = v
              | next :: _ => set_child (child_of o next) rest v = Some x
              end -> Get x q = o ≫= fun c => Get c q) as Hrec.
    { intros o x Hx. destruct rest as [|next rest]; [done|].
      rewrite <- (Get_child_of o next) by done.
      eapply IH; [done|done|by eapply keys_kept_cons| |done|done].
      destruct q; [done|]. cbn in Hav. bool_simpl. done. }
    assert (forall d, setIn d (a :: rest) v = (c', None) -> Get c' (a :: q) = Get d (a :: q)) as Hin.
    { intros d (Hf & m & x & -> & -> & Hx)%setIn_ok.
      apply set_child_field_frame; auto. }
    unfold set_child in Hs.
    destruct c as [| | | | |l|m];
      try (destruct (setIn _ (a :: rest) v) as [y [?|]] eqn:E; simplify_eq; by eapply Hin).
    destruct (setInList l (a :: rest) v) as [seen [l'|]] eqn:E; simplify_eq.
    apply setInList_ok in E as (l1 & i & x & El & -> & Hx).
    destruct (IsField a) eqn:Hf; [by rewrite locate_field in El|].
    eapply list_frame_same; eauto.
  - destruct (IsField a && IsField b) eqn:Hff; bool_simpl.
    + (* two fields of one map *)
      assert (forall d, setIn d (a :: rest) v = (c', None) -> Get c' (b :: q) = Get d (b :: q)) as Hin.
      { intros d (_ & m & x & -> & -> & _)%setIn_ok. rewrite !Get_field by done.
        by rewrite lookup_insert_ne. }
      unfold set_child in Hs.
      destruct c as [| | | | |l|m];
        try (destruct (setIn _ (a :: rest) v) as [y [?|]] eqn:E; simplify_eq; by eapply Hin).
      destruct (setInList l (a :: rest) v) as [seen [l'|]] eqn:E; simplify_eq.
      apply setInList_ok in E as (l1 & i & x & El & _). by rewrite locate_field in El.
    + (* two elements of one keyed list *)
      unfold set_child in Hs.
      destruct c as [| | | | |l|m];
        try (destruct (setIn _ (a :: rest) v) as [y [?|]] eqn:E; simplify_eq;
             apply setIn_ok in E as (? & _); congruence).
      destruct (setInList l (a :: rest) v) as [seen [l'|]] eqn:E; simplify_eq.
      apply setInList_ok in E as (l1 & i & x & El & -> & Hx).
      apply (list_frame_other l a b l1 i x q); try done.
      destruct (proper_list a Hpa ltac:(done)) as [[_ ?]|[Hi _]]; [congruence|].
      apply locate_key in El as [Hfk _]; [|done]. by eapply written_matches.
Qed.

(** *** The two facts about [Set] *)

Lemma SetPath_child obj p v obj' :
  SetPath obj p v = (obj', None) -> p <> [] /\ set_child (VMap obj) p v = Some (VMap obj').
Proof.
  unfold SetPath. destruct p as [|s rest]; [done|]. destruct (IsField s); [|done].
  destruct (setIn (VMap obj) (s :: rest) v) as [c [?|]] eqn:E; [done|]. intros [= <-].
  split; [done|]. unfold set_child. rewrite E.
  apply setIn_ok in E as (_ & m & x & _ & -> & _). done.
Qed.

Lemma SetPath_get obj p v obj' :
  Forall (fun s => proper s = true) p -> keys_kept p v = true ->
  SetPath obj p v = (obj', None) -> Get (VMap obj') p = Some v.
Proof. intros Hp Hk [Hne H]%SetPath_child. by eapply set_child_get. Qed.

Lemma SetPath_frame obj p q v obj' :
  Forall (fun s => proper s = true) p -> Forall (fun s => proper s = true) q ->
  keys_kept p v = true -> avoids_keys q = true -> diverge p q = true ->
  SetPath obj p v = (obj', None) -> Get (VMap obj') q = Get (VMap obj) q.
Proof. intros Hp Hq Hk Hav Hd [_ H]%SetPath_child. exact (set_child_frame p _ q v _ Hp Hq Hk Hav Hd H). Qed.

End FieldPathUpdate.
