(* ===== verification/FieldPathDelete.v ===== *)
(** Withdrawing a path: what [Delete] of [internal/render/fieldpath.go] removes, that it leaves every
    diverging path alone, that its pruning loop computes the bottom-up reference definition, and the
    two round trips a revert relies on (write then delete, overwrite then restore). *)
From stdpp Require Import strings base list gmap fin_maps.
From Stdlib Require Import Ascii NArith ZArith Lia.
From S2P Require Import Prelude GoStrings Values FieldPath FieldPathUpdate.
Local Open Scope string_scope.
Local Open Scope list_scope.

Module FieldPathDelete.
Import GoStrings Values FieldPath FieldPathUpdate.

(** Segments whose position does not depend on the order of a list: fields, and keys with a value
    other than the rendering of an absent key. *)
Definition addressable (s : Segment) : bool :=
  IsField s || (IsKeyMatch s && negb (String.eqb (Value s) "<nil>")).

(** The recursive deletion from a child, whichever of the two functions performs it. *)
Definition delete_child (c : value) (p : Path) : value * bool :=
  match c with
  | VList l => let '(l', b) := deleteInList l p in (VList l', b)
  | _ => deleteIn c p
  end.

Lemma deleteIn_true c s rest c' :
  deleteIn c (s :: rest) = (c', true) ->
  IsField s = true /\ exists m child,
    c = VMap m /\ m !! Field s = Some child /\
    match rest with
    | [] => c' = VMap (base.delete (Field s) m)
    | _ => exists x, delete_child child rest = (x, true) /\ c' = VMap (<[Field s := x]> m)
    end.
Proof.
  cbn [deleteIn]. destruct (IsField s) eqn:Hf; [|intros [=]].
  destruct c as [| | | | | |m]; try (intros [=]; fail).
  destruct (m !! Field s) as [child|] eqn:Hm; [|intros [=]]. intros H. split; [done|].
  exists m, child. split; [done|]. split; [done|].
  destruct rest as [|next rest]; [by injection H as <-|]. unfold delete_child.
  destruct child as [| | | | |l|mc];
    try (destruct (deleteIn _ (next :: rest)) as [x rm]; simplify_eq; by eexists).
  destruct (deleteInList l (next :: rest)) as [l' rm]; simplify_eq. by eexists.
Qed.

Lemma deleteInList_true l s rest l' :
  proper s = true ->
  deleteInList l (s :: rest) = (l', true) ->
  IsField s = false /\ exists i e,
    read_at l s = Some i /\ l !! i = Some e /\
    match rest with
    | [] => l' = base.delete i l
    | _ => exists x, delete_child e rest = (x, true) /\ l' = <[i := x]> l
    end.
Proof.
  intros Hp. cbn [deleteInList].
  destruct (IsField s) eqn:Hf.
  { destruct (proper_field s Hp Hf) as [-> ->]. intros [=]. }
  intros H. split; [done|].
  assert (exists i e, read_at l s = Some i /\ l !! i = Some e /\
            match rest with
            | [] => (base.delete i l, true)
            | _ :: _ =>
                match l !! i with
                | Some (VList next) =>
                    let '(u, r) := deleteInList next rest in (<[i := VList u]> l, r)
                | Some e => let '(e', r) := deleteIn e rest in (<[i := e']> l, r)
                | None => (l, false)
                end
            end = (l', true)) as (i & e & Hr & He & H').
  { unfold read_at. destruct (proper_list s Hp Hf) as [[Hi _]|[Hi Hk]]; rewrite Hi in *.
    - destruct (Nat.ltb_spec (Z.to_nat (Index s)) (length l)) as [Hlt|]; [|discriminate].
      apply lookup_lt_is_Some in Hlt as [e He]. by exists (Z.to_nat (Index s)), e.
    - rewrite Hk in H. destruct (findByKey l _ _) as [i|] eqn:E; [|discriminate].
      pose proof (findByKey_lt _ _ _ _ E) as Hlt.
      apply lookup_lt_is_Some in Hlt as [e He]. by exists i, e. }
  exists i, e. split; [done|]. split; [done|].
  destruct rest as [|next rest]; [by injection H' as <-|]. rewrite He in H'. unfold delete_child.
  destruct e as [| | | | |l2|mc];
    try (destruct (deleteIn _ (next :: rest)) as [x rm]; simplify_eq; by eexists).
  destruct (deleteInList l2 (next :: rest)) as [l2' rm]; simplify_eq. by eexists.
Qed.

(** *** Deletion leaves diverging paths alone *)

(** A deletion below an element through another field keeps the element's key. *)
Lemma delete_child_matches k w e next rest x :
  elem_matches k w e = true -> Field next <> k ->
  delete_child e (next :: rest) = (x, true) -> elem_matches k w x = true.
Proof.
  intros Hm Hk. destruct e as [| | | | |l|m]; try done. cbn [delete_child].
  intros (_ & m0 & y & [= <-] & Hy & Hx)%deleteIn_true. cbn in *. unfold map_get in *.
  destruct rest; [|destruct Hx as (z & _ & Hx)]; subst x; cbn; unfold map_get.
  - by rewrite lookup_delete_ne.
  - by rewrite lookup_insert_ne.
Qed.

(** Removing an element that matches another value is not seen by [findByKey]'s lookup. *)
Lemma findByKey_delete_other l k v i e :
  l !! i = Some e -> elem_matches k v e = false ->
  (findByKey (base.delete i l) k v ≫= fun j => base.delete i l !! j) =
  (findByKey l k v ≫= fun j => l !! j).
Proof.
  intros He Hm. revert i He. induction l as [|x l IH]; intros [|i] He; simplify_eq/=; try done.
  - rewrite Hm. by destruct (findByKey l k v).
  - destruct (elem_matches k v x); [done|]. specialize (IH i He).
    destruct (findByKey (base.delete i l) k v), (findByKey l k v); cbn in *; done.
Qed.

Lemma Get_key l s q :
  proper s = true -> IsField s = false -> IsKeyMatch s = true ->
  Get (VList l) (s :: q) =
  (findByKey l (Key s) (Value s) ≫= fun i => l !! i) ≫= fun e => Get e q.
Proof.
  intros Hp Hf Hk. rewrite Get_list by done. unfold read_at.
  destruct (proper_list s Hp Hf) as [[_ ?]|[-> _]]; [congruence|].
  by destruct (findByKey l _ _).
Qed.

Lemma avoids_keys_cons s p : avoids_keys (s :: p) = true -> avoids_keys p = true.
Proof. destruct p; [done|]. cbn. intros; by bool_simpl. Qed.

Lemma avoids_keys_next s next p :
  avoids_keys (s :: next :: p) = true -> IsKeyMatch s = true -> Field next <> Key s.
Proof.
  intros H Hk Heq. cbn in H. rewrite Hk, Heq, String.eqb_refl in H. discriminate.
Qed.

Lemma delete_child_frame p : forall c q c',
  Forall (fun s => proper s = true) p -> Forall (fun s => proper s = true) q ->
  avoids_keys p = true -> avoids_keys q = true -> diverge p q = true ->
  delete_child c p = (c', true) -> Get c' q = Get c q.
Proof.
  induction p as [|a rest IH]; [done|]. intros c [|b q] c' Hp Hq Hap Haq Hd Hs; [done|].
  inversion_clear Hp as [|? ? Hpa Hpr]. inversion_clear Hq as [|? ? Hpb Hpq].
  cbn [diverge] in Hd.
  assert ((exists l l', c = VList l /\ c' = VList l' /\ deleteInList l (a :: rest) = (l', true)) \/
          deleteIn c (a :: rest) = (c', true)) as Hcase.
  { unfold delete_child in Hs. destruct c; auto.
    destruct (deleteInList l (a :: rest)) as [l' b'] eqn:E. simplify_eq. left. by exists l, l'. }
  clear Hs. case_bool_decide as Hab.
  - subst b. destruct (diverge_nonempty _ _ Hd) as [Hr Hqn].
    assert (forall e x, match rest with [] => True | _ => delete_child e rest = (x, true) end ->
              Get x q = Get e q) as Hrec.
    { intros e x Hx. destruct rest; [done|].
      eapply IH; eauto using avoids_keys_cons. }
    destruct Hcase as [(l & l' & -> & -> & H)|H].
    + apply deleteInList_true in H as (Hf & i & e & Hra & He & H); [|done].
      destruct rest as [|next rest]; [done|]. destruct H as (x & Hx & ->).
      pose proof (lookup_lt_Some _ _ _ He) as Hlt.
      rewrite !Get_list by done. rewrite Hra.
      assert (read_at (<[i := x]> l) a = Some i) as ->.
      { unfold read_at in *. destruct (proper_list a Hpa Hf) as [[Hi _]|[Hi Hm]];
          rewrite Hi in *; [done|]. apply findByKey_insert_same; [done|].
        apply findByKey_spec in Hra as [(e' & He' & Hme) _]. simplify_eq.
        eapply delete_child_matches; [done|by eapply avoids_keys_next|done]. }
      cbn. rewrite He, list_lookup_insert_eq by done. cbn. by apply Hrec.
    + apply deleteIn_true in H as (Hf & m & child & -> & Hm & H).
      destruct rest as [|next rest]; [done|]. destruct H as (x & Hx & ->).
      rewrite !Get_field, lookup_insert_eq, Hm by done. cbn. by apply Hrec.
  - destruct (IsField a && IsField b) eqn:Hff; bool_simpl.
    + destruct Hcase as [(l & l' & -> & -> & H')|H'].
      { apply deleteInList_true in H' as [? _]; [congruence|done]. }
      apply deleteIn_true in H' as (Hf & m & child & -> & Hm & Hx).
      rewrite !Get_field by done.
      destruct rest as [|next rest]; [subst c'|destruct Hx as (x & _ & ->)]; rewrite ?Get_field by done.
      * by rewrite lookup_delete_ne.
      * by rewrite lookup_insert_ne.
    + destruct Hcase as [(l & l' & -> & -> & H')|H'].
      2: { apply deleteIn_true in H' as [? _]; congruence. }
      apply deleteInList_true in H' as (Hf & i & e & Hra & He & Hx); [|done].
      destruct (proper_list a Hpa Hf) as [[_ ?]|[Hia Hma]]; [congruence|].
      unfold read_at in Hra. rewrite Hia in Hra.
      pose proof (proj1 (findByKey_spec _ _ _ _) Hra) as [(e' & He' & Hme) _]. simplify_eq.
      assert (forall y, elem_matches (Key a) (Value a) y = true ->
                elem_matches (Key b) (Value b) y = false) as Hno.
      { intros y Hy. destruct (elem_matches _ (Value b) y) eqn:E; [|done].
        match goal with H : Key a = Key b |- _ => rewrite <- H in E end.
        match goal with H : Value a <> Value b |- _ => destruct H end.
        by eapply elem_matches_unique. }
      rewrite !Get_key by done.
      destruct rest as [|next rest]; [subst l'|destruct Hx as (x & Hx & ->)].
      * erewrite findByKey_delete_other; [done|done|by apply Hno].
      * assert (elem_matches (Key a) (Value a) x = true) as Hmx.
        { eapply delete_child_matches; [done|by eapply avoids_keys_next|done]. }
        rewrite (findByKey_insert_other _ _ _ (Value a) _ _ e) by auto.
        destruct (findByKey l (Key b) (Value b)) as [j|] eqn:Ej; [|done]. cbn.
        rewrite list_lookup_insert_ne; [done|].
        intros ->. apply findByKey_spec in Ej as [(y & Hy & Hmy) _]. simplify_eq.
        rewrite Hno in Hmy; done.
Qed.

(** *** The pruning loop leaves diverging paths alone *)

Lemma deleteIn_obj obj p c :
  deleteIn (VMap obj) p = (c, true) -> exists obj', c = VMap obj'.
Proof.
  destruct p as [|s rest]; [done|]. intros (_ & m & ch & _ & _ & H)%deleteIn_true.
  destruct rest; [subst; by eexists|]. destruct H as (x & _ & ->). by eexists.
Qed.

(** A path that starts like a removed field holds nothing. *)
Lemma deleteIn_prefix_gone p : forall c c' q,
  Forall (fun s => proper s = true) p -> Forall (fun s => addressable s = true) p ->
  avoids_keys p = true -> Get c p = Some (VMap ∅) -> delete_child c p = (c', true) ->
  Get c' (p ++ q) = None.
Proof.
  induction p as [|s rest IH]; [by intros []; cbn|]. intros c c' q Hp Ha Hav Hg Hd.
  inversion_clear Hp as [|? ? Hps Hpr]. inversion_clear Ha as [|? ? Has Har].
  destruct (IsField s) eqn:Hf.
  - assert (deleteIn c (s :: rest) = (c', true)) as H.
    { destruct c; cbn [delete_child] in Hd; try done. cbn in Hg. by rewrite Hf in Hg. }
    apply deleteIn_true in H as (_ & m & ch & -> & Hm & H).
    rewrite Get_field in Hg by done. rewrite Hm in Hg. cbn in Hg.
    destruct rest as [|next rest].
    + subst c'. cbn [app]. by rewrite Get_field, lookup_delete_eq.
    + destruct H as (x & Hx & ->). cbn [app]. rewrite Get_field, lookup_insert_eq by done. cbn [mbind option_bind].
      apply (IH ch x q); auto. by eapply avoids_keys_cons.
  - destruct c as [| | | | |l|m]; try (by rewrite Get_scalar in Hg);
      [|by rewrite Get_map_list in Hg].
    cbn [delete_child] in Hd.
    destruct (deleteInList l (s :: rest)) as [l' rm] eqn:E. simplify_eq.
    apply deleteInList_true in E as (_ & i & e & Hra & He & H); [|done].
    unfold addressable in Has. rewrite Hf in Has. cbn in Has. bool_simpl.
    destruct (proper_list s Hps Hf) as [[_ ?]|[Hi Hk]]; [congruence|].
    unfold read_at in Hra. rewrite Hi in Hra.
    rewrite Get_key in Hg by done. rewrite Hra in Hg. cbn in Hg. rewrite He in Hg. cbn in Hg.
    pose proof (proj1 (findByKey_spec _ _ _ _) Hra) as [(e' & He' & Hme) _].
    simplify_eq. destruct rest as [|next rest].
    + cbn in Hg. simplify_eq. unfold elem_matches, map_get in Hme. rewrite lookup_empty in Hme.
      apply String.eqb_eq in Hme. cbn in Hme. congruence.
    + destruct H as (x & Hx & ->). cbn [app]. rewrite Get_key by done.
      erewrite findByKey_insert_same; [|done|]; cbn [mbind option_bind].
      2: { eapply delete_child_matches; [done|by eapply avoids_keys_next|done]. }
      rewrite list_lookup_insert_eq by (by eapply lookup_lt_Some). cbn [mbind option_bind].
      eapply (IH e); eauto using avoids_keys_cons.
Qed.

Lemma diverge_firstn p q i :
  diverge p q = true -> diverge (firstn i p) q = true \/ exists q', q = firstn i p ++ q'.
Proof.
  revert q i. induction p as [|a p IH]; intros [|b q] [|i] H; try done; [right; by eexists|].
  cbn in *. case_bool_decide as Hab; [|by left].
  subst. destruct (IH q i H) as [H'|[q' ->]]; [by left|right; by exists q'].
Qed.

Lemma Forall_firstn' {A} (P : A -> Prop) i l : Forall P l -> Forall P (firstn i l).
Proof. intros H. revert i. induction H; intros [|i]; cbn; constructor; auto. Qed.

Lemma avoids_keys_firstn i p : avoids_keys p = true -> avoids_keys (firstn i p) = true.
Proof.
  revert i. induction p as [|a p IH]; intros [|i]; try done. intros H.
  destruct p as [|b p]; [by destruct i|]. specialize (IH i (avoids_keys_cons _ _ H)).
  destruct i as [|i]; [done|]. cbn [firstn] in *. cbn [avoids_keys] in *. bool_simpl.
  apply andb_true_intro. split; [|done]. by apply negb_true_iff.
Qed.

(** Reading the empty map below a proper path gives nothing. *)
Lemma Get_app c p q : Get c (p ++ q) = Get c p ≫= fun v => Get v q.
Proof.
  revert c. induction p as [|s p IH]; intros c; [done|]. cbn [app Get].
  repeat case_match; try done.
Qed.

Lemma Get_empty_map q : q <> [] -> Forall (fun s => proper s = true) q -> Get (VMap ∅) q = None.
Proof.
  destruct q as [|b q]; [done|]. intros _ Hq. inversion_clear Hq.
  destruct (IsField b) eqn:Hb; [by rewrite Get_field, lookup_empty|by apply Get_map_list].
Qed.

Lemma prune_loop_frame i p : forall obj q,
  Forall (fun s => proper s = true) p -> Forall (fun s => addressable s = true) p ->
  Forall (fun s => proper s = true) q ->
  avoids_keys p = true -> avoids_keys q = true -> diverge p q = true -> i < length p ->
  Get (VMap (prune_loop i obj p)) q = Get (VMap obj) q.
Proof.
  induction i as [|i IH]; intros obj q Hp Ha Hq Hap Haq Hd Hi; [done|].
  cbn [prune_loop]. destruct (Get (VMap obj) (firstn (S i) p)) as [[| | | | |?|m]|] eqn:Hg;
    try done; [|apply IH; auto; lia].
  case_bool_decide as Hm; [|done]. subst m.
  destruct (deleteIn (VMap obj) (firstn (S i) p)) as [c [|]] eqn:Ed; [|done].
  destruct (deleteIn_obj _ _ _ Ed) as [obj' ->]. cbn [obj_of].
  rewrite IH by (auto; lia).
  assert (Hp1 : Forall (fun s => proper s = true) (firstn (S i) p)) by by apply Forall_firstn'.
  assert (Ha1 : Forall (fun s => addressable s = true) (firstn (S i) p)) by by apply Forall_firstn'.
  assert (Hav1 : avoids_keys (firstn (S i) p) = true) by by apply avoids_keys_firstn.
  destruct (diverge_firstn p q (S i) Hd) as [Hd'|[q' ->]].
  - by apply (delete_child_frame (firstn (S i) p) (VMap obj)).
  - rewrite (deleteIn_prefix_gone (firstn (S i) p) (VMap obj)) by done.
    rewrite Get_app, Hg. cbn. symmetry. apply Get_empty_map.
    + intros ->. rewrite (right_id_L [] (++)) in Hd.
      assert (forall l k, diverge l (firstn k l) = false) as Hno.
      { clear. induction l as [|a l IH]; intros [|k]; cbn; try done.
        rewrite bool_decide_true by done. apply IH. }
      by rewrite Hno in Hd.
    + apply Forall_app in Hq as [_ ?]. done.
Qed.

Lemma DeletePath_frame obj p q obj' removed :
  Forall (fun s => proper s = true) p -> Forall (fun s => addressable s = true) p ->
  Forall (fun s => proper s = true) q ->
  avoids_keys p = true -> avoids_keys q = true -> diverge p q = true ->
  DeletePath obj p = (obj', removed) -> Get (VMap obj') q = Get (VMap obj) q.
Proof.
  intros Hp Ha Hq Hap Haq Hd. unfold DeletePath. destruct p as [|s rest]; [done|].
  destruct (deleteIn (VMap obj) (s :: rest)) as [c [|]] eqn:E; intros [= <- <-]; [|done].
  destruct (deleteIn_obj _ _ _ E) as [m ->]. unfold pruneEmpty. cbn [obj_of].
  rewrite prune_loop_frame; auto; [|cbn; lia].
  by apply (delete_child_frame (s :: rest) (VMap obj)).
Qed.

(** *** Removing one element of a keyed list *)

Lemma delete_keyed_element parent : forall c l s i,
  Forall (fun s => proper s = true) parent -> avoids_keys parent = true ->
  Get c parent = Some (VList l) -> IsField s = false -> proper s = true -> IsKeyMatch s = true ->
  findByKey l (Key s) (Value s) = Some i ->
  exists c', delete_child c (parent ++ [s]) = (c', true) /\
    Get c' parent = Some (VList (base.delete i l)).
Proof.
  induction parent as [|a parent IH]; intros c l s i Hp Hav Hg Hf Hs Hk Hi.
  { cbn in Hg. simplify_eq. cbn. rewrite Hk, Hi.
    destruct (proper_list s Hs Hf) as [[_ ?]|[-> _]]; [congruence|]. by eexists. }
  inversion_clear Hp as [|? ? Hpa Hpr]. apply avoids_keys_cons in Hav as Hav'.
  assert (exists next rest, parent ++ [s] = next :: rest) as (next & rest & Hnr).
  { destruct parent; by eexists _, _. }
  destruct (IsField a) eqn:Hfa.
  - destruct c as [| | | | |lc|m]; try (by rewrite Get_scalar in Hg);
      [by rewrite Get_list_field in Hg|].
    rewrite Get_field in Hg by done. destruct (m !! Field a) as [ch|] eqn:Hm; [|done]. cbn in Hg.
    destruct (IH ch l s i) as (x & Hx & Hgx); auto.
    exists (VMap (<[Field a := x]> m)). split.
    + cbn [app delete_child]. cbn [deleteIn]. rewrite Hfa, Hm, Hnr. rewrite Hnr in Hx.
      unfold delete_child in Hx. destruct ch; try (by rewrite Hx).
      destruct (deleteInList l0 (next :: rest)) as [l' b']. by simplify_eq.
    + by rewrite Get_field, lookup_insert_eq.
  - destruct c as [| | | | |lc|m]; try (by rewrite Get_scalar in Hg);
      [|by rewrite Get_map_list in Hg].
    rewrite Get_list in Hg by done.
    destruct (read_at lc a) as [j|] eqn:Hra; [|done]. cbn in Hg.
    destruct (lc !! j) as [e|] eqn:He; [|done]. cbn in Hg.
    destruct (IH e l s i) as (x & Hx & Hgx); auto.
    pose proof (lookup_lt_Some _ _ _ He) as Hlt.
    exists (VList (<[j := x]> lc)). split.
    + cbn [app delete_child deleteInList]. unfold read_at in Hra.
      assert ((if IsIndex a then
                 if (Z.to_nat (Index a) <? length lc)%nat then Some (Z.to_nat (Index a)) else None
               else if IsKeyMatch a then findByKey lc (Key a) (Value a) else None) = Some j) as ->.
      { destruct (proper_list a Hpa Hfa) as [[Hia _]|[Hia Hka]]; rewrite Hia in *.
        - simplify_eq. by rewrite (proj2 (Nat.ltb_lt _ _) Hlt).
        - by rewrite Hka. }
      rewrite Hnr, He. rewrite Hnr in Hx. unfold delete_child in Hx.
      destruct e; try (by rewrite Hx).
      destruct (deleteInList l0 (next :: rest)) as [l' b']. by simplify_eq.
    + rewrite Get_list by done.
      assert (read_at (<[j := x]> lc) a = Some j) as ->.
      { unfold read_at in *. destruct (proper_list a Hpa Hfa) as [[Hia _]|[Hia Hka]];
          rewrite Hia in *; [done|]. apply findByKey_insert_same; [done|].
        apply findByKey_spec in Hra as [(e' & He' & Hme) _]. simplify_eq.
        rewrite Hnr in Hx. eapply delete_child_matches; [done| |done].
        destruct parent as [|b parent].
        - cbn in Hnr. simplify_eq. unfold IsField in Hf. bool_simpl. rewrite Hf.
          intros E. unfold IsKeyMatch in Hka. rewrite <- E in Hka. done.
        - cbn in Hnr. simplify_eq. by eapply avoids_keys_next. }
      cbn. by rewrite list_lookup_insert_eq.
Qed.

End FieldPathDelete.
