(* ===== verification/FieldPathRoundTrip.v ===== *)
(** The properties of reading, writing and withdrawing a path that the appliers rely on:
    [internal/render/fieldpath.go]'s [Get], [Set] and [Delete] against their contracts. *)
From stdpp Require Import strings base list gmap fin_maps.
From Stdlib Require Import Ascii NArith ZArith Lia.
From S2P Require Import Prelude GoStrings Values FieldPath FieldPathUpdate FieldPathDelete.
Local Open Scope string_scope.
Local Open Scope list_scope.

Module FieldPathRoundTrip.
Import GoStrings Values FieldPath FieldPathUpdate FieldPathDelete.

(** ** The reference definition of deletion along map keys

    Remove the last key, then remove every parent map that became empty on the way back up. *)
Fixpoint delete_prune (m : gmap string value) (p : list string) : option (gmap string value) :=
  match p with
  | [] => None
  | [f] => match m !! f with Some _ => Some (base.delete f m) | None => None end
  | f :: rest =>
      match m !! f with
      | Some (VMap c) =>
          match delete_prune c rest with
          | Some c' => Some (if bool_decide (c' = ∅) then base.delete f m else <[f := VMap c']> m)
          | None => None
          end
      | _ => None
      end
  end.

(** Deletion without pruning. *)
Fixpoint delete_raw (m : gmap string value) (p : list string) : option (gmap string value) :=
  match p with
  | [] => None
  | [f] => match m !! f with Some _ => Some (base.delete f m) | None => None end
  | f :: rest =>
      match m !! f with
      | Some (VMap c) =>
          match delete_raw c rest with Some c' => Some (<[f := VMap c']> m) | None => None end
      | _ => None
      end
  end.

Abbreviation named := (Forall (fun f : string => f <> "")).

Definition fields (p : list string) : Path := map FieldSegment p.

Lemma FieldSegment_IsField f : f <> "" -> IsField (FieldSegment f) = true.
Proof. intros H. unfold IsField. cbn. by apply negb_true_iff, String.eqb_neq. Qed.

Lemma deleteIn_fields p : forall m,
  named p -> deleteIn (VMap m) (fields p) =
    match delete_raw m p with Some m' => (VMap m', true) | None => (VMap m, false) end.
Proof.
  induction p as [|f rest IH]; [done|]. intros m Hp. inversion_clear Hp as [|? ? Hf Hr].
  cbn [fields map deleteIn delete_raw]. rewrite FieldSegment_IsField by done. cbn [Field FieldSegment].
  destruct rest as [|g rest].
  { cbn. by destruct (m !! f). }
  destruct (m !! f) as [ch|] eqn:Hm; [|done]. cbn [map].
  assert (Hid : <[f := ch]> m = m) by by apply insert_id.
  inversion_clear Hr as [|? ? Hg Hrr].
  assert (IsField (FieldSegment g) = true) as Hgf by by apply FieldSegment_IsField.
  assert (forall l, deleteInList l (FieldSegment g :: map FieldSegment rest) = (l, false)) as Hl.
  { intros l. cbn [deleteInList]. unfold IsIndex, IsKeyMatch. cbn [Field Key Index FieldSegment].
    by rewrite (proj2 (String.eqb_neq _ _) Hg). }
  destruct ch as [| | | | |l|c]; try (rewrite ?Hl; cbn [deleteIn]; rewrite ?Hgf; by rewrite Hid).
  change (FieldSegment g :: map FieldSegment rest) with (fields (g :: rest)).
  rewrite IH by by constructor. change (match rest with [] => _ | _ :: _ => _ end) with (delete_raw c (g :: rest)).
  destruct (delete_raw c (g :: rest)); [done|]. by rewrite Hid.
Qed.

Lemma delete_raw_present p : forall m v,
  named p -> p <> [] -> Get (VMap m) (fields p) = Some v -> is_Some (delete_raw m p).
Proof.
  induction p as [|f rest IH]; [done|]. intros m v Hp _ Hg. inversion_clear Hp as [|? ? Hf Hr].
  cbn [fields map] in Hg. rewrite Get_field in Hg by by apply FieldSegment_IsField.
  cbn [Field FieldSegment] in Hg. cbn [delete_raw].
  destruct (m !! f) as [ch|] eqn:Hm; [|done]. cbn in Hg.
  destruct rest as [|g rest]; [by eexists|]. cbn [map] in Hg. inversion_clear Hr as [|? ? Hgn Hrr].
  destruct ch as [| | | | |l|c];
    try (rewrite Get_scalar in Hg; [done|unfold proper; by rewrite FieldSegment_IsField|done..]);
    [rewrite Get_list_field in Hg; [done|by apply FieldSegment_IsField]|].
  destruct (IH c v) as [c' ->]; [by constructor|done|done|]. by eexists.
Qed.

Lemma Get_nonempty m f p : named (f :: p) -> Get (VMap m) (fields (f :: p)) <> None -> m <> ∅.
Proof.
  intros Hp H ->. apply H. inversion_clear Hp. cbn [fields map].
  by rewrite Get_field, lookup_empty by by apply FieldSegment_IsField.
Qed.

(** One step of the pruning loop seen through the first key: the loop works below it, then the key
    itself is removed if what is left there is empty. *)
Lemma prune_loop_cons i f rest : forall m c,
  named (f :: rest) -> i <= length rest -> m !! f = Some (VMap c) ->
  prune_loop (S i) m (fields (f :: rest)) =
    let c' := prune_loop i c (fields rest) in
    if bool_decide (c' = ∅) then base.delete f m else <[f := VMap c']> m.
Proof.
  induction i as [|i IH]; intros m c Hp Hi Hm; pose proof Hp as Hp';
    inversion_clear Hp as [|? ? Hf Hr]; cbv zeta.
  - cbn [prune_loop fields map firstn]. rewrite firstn_O.
    rewrite Get_field by by apply FieldSegment_IsField. cbn [Field FieldSegment]. rewrite Hm.
    cbn [mbind option_bind Get]. case_bool_decide; [|by rewrite insert_id].
    cbn [deleteIn]. rewrite FieldSegment_IsField by done. cbn [Field FieldSegment]. by rewrite Hm.
  - assert (forall n, firstn (S n) (fields (f :: rest)) = FieldSegment f :: firstn n (fields rest)) as Hfst by done.
    assert (Get (VMap m) (firstn (S (S i)) (fields (f :: rest))) = Get (VMap c) (firstn (S i) (fields rest))) as Hg.
    { rewrite Hfst, Get_field by by apply FieldSegment_IsField. cbn [Field FieldSegment]. by rewrite Hm. }
    assert (firstn (S i) (fields rest) = fields (firstn (S i) rest)) as Hmap.
    { unfold fields. by rewrite firstn_map. }
    assert (named (firstn (S i) rest)) as Hn by by apply Forall_firstn'.
    destruct rest as [|g rest]; [cbn in Hi; lia|].
    change (prune_loop (S (S i)) m (fields (f :: g :: rest))) with
      (match Get (VMap m) (firstn (S (S i)) (fields (f :: g :: rest))) with
       | None => prune_loop (S i) m (fields (f :: g :: rest))
       | Some (VMap m0) =>
           if bool_decide (m0 = ∅) then
             match deleteIn (VMap m) (firstn (S (S i)) (fields (f :: g :: rest))) with
             | (obj', true) => prune_loop (S i) (obj_of obj' m) (fields (f :: g :: rest))
             | (_, false) => m
             end
           else m
       | Some _ => m
       end).
    change (prune_loop (S i) c (fields (g :: rest))) with
      (match Get (VMap c) (firstn (S i) (fields (g :: rest))) with
       | None => prune_loop i c (fields (g :: rest))
       | Some (VMap m0) =>
           if bool_decide (m0 = ∅) then
             match deleteIn (VMap c) (firstn (S i) (fields (g :: rest))) with
             | (obj', true) => prune_loop i (obj_of obj' c) (fields (g :: rest))
             | (_, false) => c
             end
           else c
       | Some _ => c
       end).
    rewrite Hg.
    assert (forall x, Get (VMap c) (firstn (S i) (fields (g :: rest))) = Some x -> c <> ∅) as Hne.
    { intros x Hx. rewrite Hmap in Hx. eapply (Get_nonempty c g (firstn i rest)); [done|].
      cbn in Hx |- *. by rewrite Hx. }
    destruct (Get (VMap c) (firstn (S i) (fields (g :: rest)))) as [[| | | | |?|m0]|] eqn:Egc;
      try (rewrite bool_decide_false by (by eapply Hne); by rewrite insert_id).
    2: { apply (IH m c); [done|cbn in Hi |- *; lia|done]. }
    case_bool_decide as Hm0; [|rewrite bool_decide_false by (by eapply Hne); by rewrite insert_id].
    assert (Hdc : exists c1, deleteIn (VMap c) (fields (firstn (S i) (g :: rest))) = (VMap c1, true)).
    { rewrite deleteIn_fields by done. rewrite Hmap in Egc.
      destruct (delete_raw_present (firstn (S i) (g :: rest)) c (VMap m0)) as [c1 ->]; [done..|].
      by eexists. }
    destruct Hdc as [c1 Hdc]. rewrite Hmap, Hdc.
    assert (deleteIn (VMap m) (firstn (S (S i)) (fields (f :: g :: rest))) =
            (VMap (<[f := VMap c1]> m), true)) as ->.
    { rewrite Hfst, Hmap. cbn [deleteIn]. rewrite FieldSegment_IsField by done.
      cbn [Field FieldSegment]. rewrite Hm. cbn [firstn fields map].
      cbn [firstn fields map] in Hdc. by rewrite Hdc. }
    cbn [obj_of]. rewrite (IH _ c1); [|done|cbn in Hi |- *; lia|by rewrite lookup_insert_eq].
    cbv zeta. case_bool_decide; [by rewrite delete_insert_eq|by rewrite insert_insert_eq].
Qed.

Lemma delete_raw_cons m f g rest :
  delete_raw m (f :: g :: rest) =
    match m !! f with
    | Some (VMap c) =>
        match delete_raw c (g :: rest) with Some c' => Some (<[f := VMap c']> m) | None => None end
    | _ => None
    end.
Proof. done. Qed.

Lemma delete_prune_cons m f g rest :
  delete_prune m (f :: g :: rest) =
    match m !! f with
    | Some (VMap c) =>
        match delete_prune c (g :: rest) with
        | Some c' => Some (if bool_decide (c' = ∅) then base.delete f m else <[f := VMap c']> m)
        | None => None
        end
    | _ => None
    end.
Proof. done. Qed.

Lemma DeletePath_fields p : forall m,
  named p ->
  DeletePath m (fields p) =
    match delete_prune m p with Some m' => (m', true) | None => (m, false) end.
Proof.
  intros m Hp. destruct p as [|f rest]; [done|].
  unfold DeletePath. cbn [fields map]. fold (fields rest).
  change (FieldSegment f :: fields rest) with (fields (f :: rest)).
  rewrite deleteIn_fields by done. revert m f Hp.
  induction rest as [|g rest IH]; intros m f Hp.
  { cbn [delete_raw delete_prune]. by destruct (m !! f). }
  inversion_clear Hp as [|? ? Hf Hr].
  rewrite delete_raw_cons, delete_prune_cons.
  destruct (m !! f) as [[| | | | |?|c]|] eqn:Hm; try done.
  specialize (IH c g Hr).
  destruct (delete_raw c (g :: rest)) as [c1|] eqn:Er.
  2: { by destruct (delete_prune c (g :: rest)). }
  cbn [obj_of]. unfold pruneEmpty in *. cbn [obj_of] in IH. unfold fields at 1 in IH.
  unfold fields at 1. rewrite length_map in IH |- *. cbn [length] in IH |- *.
  rewrite Nat.sub_succ, Nat.sub_0_r in IH |- *.
  rewrite (prune_loop_cons (length rest) f (g :: rest) _ c1);
    [|by constructor|cbn; lia|by rewrite lookup_insert_eq].
  destruct (delete_prune c (g :: rest)) as [c'|] eqn:Ed; [|done].
  apply (f_equal fst) in IH. cbv zeta. unfold fst in IH. rewrite IH.
  case_bool_decide; [by rewrite delete_insert_eq|by rewrite insert_insert_eq].
Qed.

(** *** Writing a fresh path and deleting it again *)

(** Nothing is at the path yet, and the maps on the way that exist are not empty. *)
Fixpoint fresh_path (m : gmap string value) (p : list string) : Prop :=
  match p with
  | [] => False
  | f :: rest =>
      match m !! f with
      | None => True
      | Some (VMap c) => rest <> [] /\ c <> ∅ /\ fresh_path c rest
      | Some _ => False
      end
  end.

Lemma setIn_fields_fresh p : forall m v,
  named p -> fresh_path m p ->
  exists m', setIn (VMap m) (fields p) v = (VMap m', None) /\ delete_prune m' p = Some m /\ m' <> ∅.
Proof.
  induction p as [|f rest IH]; [done|]. intros m v Hp Hfr. inversion_clear Hp as [|? ? Hf Hr].
  cbn [fields map setIn]. rewrite FieldSegment_IsField by done. cbn [Field FieldSegment].
  cbn [fresh_path] in Hfr. destruct rest as [|g rest].
  { exists (<[f := v]> m). split; [done|]. split; [|apply insert_non_empty].
    cbn. rewrite lookup_insert_eq. destruct (m !! f) as [[]|] eqn:E; try done; [by destruct Hfr|].
    by rewrite delete_insert_id. }
  fold (fields (g :: rest)). cbn [map]. fold (fields rest).
  change (FieldSegment g :: fields rest) with (fields (g :: rest)).
  destruct (m !! f) as [[| | | | |?|c]|] eqn:E; try done.
  - destruct Hfr as (_ & Hc & Hfr). destruct (IH c v Hr Hfr) as (c' & Hs & Hd & Hn).
    cbn [is_nil]. rewrite Hs. eexists. split; [done|]. split; [|apply insert_non_empty].
    rewrite delete_prune_cons, lookup_insert_eq, Hd, bool_decide_false by done.
    by rewrite insert_insert_eq, insert_id.
  - assert (emptyFor (FieldSegment g) = VMap ∅) as He.
    { unfold emptyFor, IsIndex, IsKeyMatch. inversion_clear Hr.
      cbn [Field Key Index FieldSegment]. by rewrite (proj2 (String.eqb_neq _ _)). }
    destruct (IH ∅ v Hr) as (c' & Hs & Hd & Hn); [cbn; by rewrite lookup_empty|].
    unfold fields at 1. cbn [map]. rewrite He, Hs.
    eexists. split; [done|]. split; [|apply insert_non_empty].
    rewrite delete_prune_cons, lookup_insert_eq, Hd, bool_decide_true by done.
    by rewrite delete_insert_eq, delete_id.
Qed.

(** *** Overwriting a value and writing the old one back *)

Lemma child_of_Get c s q w : Get c (s :: q) = Some w -> proper s = true -> is_nil c = false.
Proof. intros H Hp. destruct c; try done. by rewrite Get_scalar in H. Qed.

Lemma pad_none {A} (l : list A) i x : i < length l -> l ++ replicate (S i - length l) x = l.
Proof. intros H. replace (S i - length l) with 0 by lia. apply (right_id_L [] (++)). Qed.

Lemma set_child_restore p : forall c v w c',
  p <> [] -> Forall (fun s => proper s = true) p -> keys_kept p v = true ->
  Get c p = Some w -> set_child c p v = Some c' -> set_child c' p w = Some c.
Proof.
  induction p as [|s rest IH]; [done|]. intros c v w c' _ Hp Hk Hg Hs.
  inversion_clear Hp as [|? ? Hps Hpr].
  assert (forall e x, Get e rest = Some w -> match rest with
            | [] => x = v
            | next :: _ => set_child (child_of (Some e) next) rest v = Some x
            end -> match rest with
            | [] => True
            | next :: _ => is_nil x = false /\ set_child x rest w = Some e
            end) as Hrec.
  { intros e x He Hx. destruct rest as [|next rest]; [done|].
    pose proof (Forall_inv Hpr) as Hn. pose proof (child_of_Get _ _ _ _ He Hn) as Hnil. cbn [child_of] in Hx. rewrite Hnil in Hx.
    assert (set_child x (next :: rest) w = Some e) as Hx'
      by (eapply IH; [done|exact Hpr|by eapply keys_kept_cons|done|done]).
    split; [|done]. destruct x; try done. cbn in Hx'. by repeat case_match. }
  destruct c as [| | | | |l|m]; try (by rewrite Get_scalar in Hg).
  - cbn [set_child] in Hs. destruct (setInList l (s :: rest) v) as [seen [l'|]] eqn:E; simplify_eq.
    apply setInList_ok in E as (l1 & i & x & El & -> & Hx).
    destruct (IsField s) eqn:Hf; [by rewrite locate_field in El|].
    rewrite Get_list in Hg by done.
    destruct (read_at l s) as [j|] eqn:Ej; [|done]. cbn in Hg.
    destruct (l !! j) as [e|] eqn:He; [|done]. cbn in Hg.
    pose proof (lookup_lt_Some _ _ _ He) as Hlt.
    assert (l1 = l /\ i = j) as [-> ->].
    { unfold locate, read_at in *. destruct (proper_list s Hps Hf) as [[Hi _]|[Hi Hm]]; rewrite Hi in *.
      - simplify_eq. split; [|done].
        by apply pad_none.
      - rewrite Hm, Ej in El. by simplify_eq. }
    rewrite He in Hx. assert (locate (<[j := x]> l) s = Some (<[j := x]> l, j)) as Hloc.
    { unfold locate, read_at in *. destruct (proper_list s Hps Hf) as [[Hi _]|[Hi Hm]]; rewrite Hi in *.
      - simplify_eq. by rewrite pad_none by by rewrite length_insert.
      - rewrite Hm. erewrite findByKey_insert_same; [done|done|].
        eapply written_matches; [done..|]. destruct rest; [done|]. by rewrite He. }
    specialize (Hrec e x Hg). cbn [set_child setInList]. rewrite Hloc.
    destruct rest as [|next rest].
    + cbn in Hg. simplify_eq. by rewrite list_insert_insert_eq, list_insert_id.
    + destruct (Hrec Hx) as [Hnil Hback]. rewrite list_lookup_insert_eq, Hnil by done.
      unfold set_child in Hback. destruct x as [| | | | |l2|m2];
        try (destruct (setIn _ (next :: rest) w) as [y [|]]; simplify_eq;
             by rewrite list_insert_insert_eq, list_insert_id).
      destruct (setInList l2 (next :: rest) w) as [seen2 [l2'|]]; simplify_eq.
      by rewrite list_insert_insert_eq, list_insert_id.
  - cbn [set_child] in Hs. destruct (setIn (VMap m) (s :: rest) v) as [y [|]] eqn:E; simplify_eq.
    apply setIn_ok in E as (Hf & m0 & x & [= <-] & -> & Hx).
    rewrite Get_field in Hg by done. destruct (m !! Field s) as [e|] eqn:He; [|done]. cbn in Hg.
    specialize (Hrec e x Hg). cbn [set_child setIn]. rewrite Hf.
    destruct rest as [|next rest].
    + cbn in Hg. simplify_eq. by rewrite insert_insert_eq, insert_id.
    + destruct (Hrec Hx) as [Hnil Hback]. rewrite lookup_insert_eq, Hnil.
      unfold set_child in Hback. destruct x as [| | | | |l2|m2];
        try (destruct (setIn _ (next :: rest) w) as [y' [|]]; simplify_eq;
             by rewrite insert_insert_eq, insert_id).
      destruct (setInList l2 (next :: rest) w) as [seen2 [l2'|]]; simplify_eq.
      by rewrite insert_insert_eq, insert_id.
Qed.

Lemma set_child_SetPath obj s rest v c :
  IsField s = true -> set_child (VMap obj) (s :: rest) v = Some (VMap c) ->
  SetPath obj (s :: rest) v = (c, None).
Proof.
  intros Hf. unfold set_child, SetPath. rewrite Hf.
  destruct (setIn (VMap obj) (s :: rest) v) as [c' [?|]]; [done|]. by intros [= ->].
Qed.

Lemma SetPath_restore obj p v w obj' :
  Forall (fun s => proper s = true) p -> keys_kept p v = true ->
  Get (VMap obj) p = Some w -> SetPath obj p v = (obj', None) -> SetPath obj' p w = (obj, None).
Proof.
  intros Hp Hk Hg Hs. pose proof Hs as [Hne Hc]%SetPath_child.
  destruct p as [|s rest]; [done|].
  apply set_child_SetPath; [unfold SetPath in Hs; by destruct (IsField s)|].
  by eapply set_child_restore.
Qed.

(** ** Properties *)

Definition ingress : gmap string value :=
  {["metadata" := VMap {["name" := VStr "web"]};
    "spec" := VMap {["rules" := VList [VMap {["host" := VStr "a.example.com"; "weight" := VInt 1]};
                                       VMap {["host" := VStr "b.example.com"; "weight" := VInt 2]}]]}]}.

(** Along field names [Delete], the in-place removal followed by the top-down pruning loop, is
    the bottom-up reference definition: remove the last key and every map that becomes empty. *)
Theorem DeletePath_prunes (obj : gmap string value) (p : list string) (Hp : named p) :
  DeletePath obj (fields p) =
    match delete_prune obj p with Some obj' => (obj', true) | None => (obj, false) end.
Proof. by apply DeletePath_fields. Qed.

(** Writing a value where nothing was and deleting it again gives the original object back,
    with every parent map the write created removed. *)
Theorem SetPath_DeletePath (obj : gmap string value) (p : list string) (v : value)
    (Hp : named p) (Hfresh : fresh_path obj p) :
  exists obj', SetPath obj (fields p) v = (obj', None) /\ DeletePath obj' (fields p) = (obj, true).
Proof.
  destruct (setIn_fields_fresh p obj v) as (obj' & Hs & Hd & _); [done..|].
  exists obj'. rewrite DeletePath_fields, Hd by done. split; [|done].
  destruct p as [|f rest]; [done|]. apply Forall_inv in Hp as Hf.
  unfold SetPath. cbn [fields map] in *. by rewrite FieldSegment_IsField, Hs.
Qed.

End FieldPathRoundTrip.
