(* ===== verification/FieldPathPresence.v ===== *)
(** Writing and deleting where something is: a present value can be overwritten and deleted, and a
    deleted field is gone, after pruning too. *)
From stdpp Require Import strings base list gmap fin_maps.
From Stdlib Require Import Ascii NArith ZArith Lia.
From S2P Require Import Prelude GoStrings Values FieldPath FieldPathUpdate FieldPathDelete FieldPathRoundTrip.
Local Open Scope string_scope.
Local Open Scope list_scope.

Module FieldPathPresence.
Import GoStrings Values FieldPath FieldPathUpdate FieldPathDelete FieldPathRoundTrip.

(** *** Equations for a write *)

Lemma set_child_map m s rest v :
  IsField s = true ->
  set_child (VMap m) (s :: rest) v =
    match rest with
    | [] => Some (VMap (<[Field s := v]> m))
    | next :: _ => (fun x => VMap (<[Field s := x]> m)) <$> set_child (child_of (m !! Field s) next) rest v
    end.
Proof.
  intros Hf. cbn [set_child setIn]. rewrite Hf. destruct rest as [|next rest]; [done|].
  fold (child_of (m !! Field s) next). unfold set_child.
  destruct (child_of (m !! Field s) next) as [| | | | |l|m'];
    try (by destruct (setIn _ (next :: rest) v) as [x [|]]).
  by destruct (setInList l (next :: rest) v) as [seen [|]].
Qed.

Lemma set_child_list l s rest v l1 i :
  locate l s = Some (l1, i) -> i < length l1 ->
  set_child (VList l) (s :: rest) v =
    match rest with
    | [] => Some (VList (<[i := v]> l1))
    | next :: _ => (fun x => VList (<[i := x]> l1)) <$> set_child (child_of (l1 !! i) next) rest v
    end.
Proof.
  intros El Hi. cbn [set_child setInList]. rewrite El. destruct rest as [|next rest]; [done|].
  apply lookup_lt_is_Some in Hi as [e He]. rewrite He. cbn [child_of].
  destruct (if is_nil e then emptyFor next else e) as [| | | | |l2|m'] eqn:E; unfold set_child;
    try (by destruct (setIn _ (next :: rest) v) as [x [|]]).
  by destruct (setInList l2 (next :: rest) v) as [seen [|]].
Qed.

(** A position that can be read is the one a write locates. *)
Lemma locate_present l s j :
  proper s = true -> IsField s = false -> read_at l s = Some j -> j < length l -> locate l s = Some (l, j).
Proof.
  intros Hp Hf Hr Hlt. unfold locate, read_at in *.
  destruct (proper_list s Hp Hf) as [[Hi _]|[Hi Hm]]; rewrite Hi in *.
  - simplify_eq. by rewrite pad_none.
  - by rewrite Hm, Hr.
Qed.

Lemma set_child_total p : forall c v w,
  p <> [] -> Forall (fun s => proper s = true) p -> Get c p = Some w -> is_Some (set_child c p v).
Proof.
  induction p as [|s rest IH]; [done|]. intros c v w _ Hp Hg.
  inversion_clear Hp as [|? ? Hps Hpr].
  assert (forall e, Get e rest = Some w ->
            match rest with [] => True | next :: _ => is_Some (set_child (child_of (Some e) next) rest v) end) as Hrec.
  { intros e He. destruct rest as [|next rest]; [done|]. cbn [child_of].
    rewrite (child_of_Get _ _ _ _ He (Forall_inv Hpr)). by eapply IH. }
  destruct (IsField s) eqn:Hf.
  - destruct c as [| | | | |l|m]; try (by rewrite Get_scalar in Hg); [by rewrite Get_list_field in Hg|].
    rewrite Get_field in Hg by done. destruct (m !! Field s) as [e|] eqn:He; [|done]. cbn in Hg.
    rewrite set_child_map by done. destruct rest as [|next rest]; [by eexists|].
    rewrite He. destruct (Hrec e Hg) as [x ->]. by eexists.
  - destruct c as [| | | | |l|m]; try (by rewrite Get_scalar in Hg); [|by rewrite Get_map_list in Hg].
    rewrite Get_list in Hg by done. destruct (read_at l s) as [j|] eqn:Ej; [|done]. cbn in Hg.
    destruct (l !! j) as [e|] eqn:He; [|done]. cbn in Hg. pose proof (lookup_lt_Some _ _ _ He) as Hlt.
    rewrite (set_child_list l s rest v l j) by (try done; by apply locate_present).
    destruct rest as [|next rest]; [by eexists|].
    rewrite He. destruct (Hrec e Hg) as [x ->]. by eexists.
Qed.

Lemma SetPath_total obj s rest v w :
  Forall (fun s => proper s = true) (s :: rest) -> IsField s = true ->
  Get (VMap obj) (s :: rest) = Some w -> exists obj', SetPath obj (s :: rest) v = (obj', None).
Proof.
  intros Hp Hf Hg. destruct (set_child_total (s :: rest) (VMap obj) v w) as [c Hc]; [done..|].
  rewrite set_child_map in Hc by done.
  assert (exists m, c = VMap m) as [m ->].
  { destruct rest; [by simplify_eq; eexists|]. apply fmap_Some in Hc as (x & _ & ->). by eexists. }
  exists m. apply set_child_SetPath; [done|]. by rewrite set_child_map.
Qed.

(** *** Deleting what is there *)

Lemma delete_child_map m s rest e :
  IsField s = true -> m !! Field s = Some e ->
  delete_child (VMap m) (s :: rest) =
    match rest with
    | [] => (VMap (base.delete (Field s) m), true)
    | _ :: _ => let '(x, b) := delete_child e rest in (VMap (<[Field s := x]> m), b)
    end.
Proof.
  intros Hf He. cbn [delete_child deleteIn]. rewrite Hf, He. destruct rest as [|next rest]; [done|].
  unfold delete_child. destruct e; try done. by destruct (deleteInList l (next :: rest)).
Qed.

Lemma delete_child_list l s rest j e :
  proper s = true -> IsField s = false -> read_at l s = Some j -> l !! j = Some e ->
  delete_child (VList l) (s :: rest) =
    match rest with
    | [] => (VList (base.delete j l), true)
    | _ :: _ => let '(x, b) := delete_child e rest in (VList (<[j := x]> l), b)
    end.
Proof.
  intros Hp Hf Hr He. pose proof (lookup_lt_Some _ _ _ He) as Hlt. cbn [delete_child deleteInList].
  assert ((if IsIndex s then
             if (Z.to_nat (Index s) <? length l)%nat then Some (Z.to_nat (Index s)) else None
           else if IsKeyMatch s then findByKey l (Key s) (Value s) else None) = Some j) as ->.
  { unfold read_at in Hr. destruct (proper_list s Hp Hf) as [[Hi _]|[Hi Hk]]; rewrite Hi in *.
    - simplify_eq. by rewrite (proj2 (Nat.ltb_lt _ _) Hlt).
    - by rewrite Hk. }
  destruct rest as [|next rest]; [done|]. rewrite He. unfold delete_child.
  destruct e; try (by destruct (deleteIn _ (next :: rest))). by destruct (deleteInList l0 (next :: rest)).
Qed.

Lemma delete_child_present p : forall c w,
  p <> [] -> Forall (fun s => proper s = true) p -> Get c p = Some w ->
  exists c', delete_child c p = (c', true).
Proof.
  induction p as [|s rest IH]; [done|]. intros c w _ Hp Hg. inversion_clear Hp as [|? ? Hps Hpr].
  destruct (IsField s) eqn:Hf.
  - destruct c as [| | | | |l|m]; try (by rewrite Get_scalar in Hg); [by rewrite Get_list_field in Hg|].
    rewrite Get_field in Hg by done. destruct (m !! Field s) as [e|] eqn:He; [|done]. cbn in Hg.
    rewrite (delete_child_map _ _ _ e) by done. destruct rest as [|next rest]; [by eexists|].
    destruct (IH e w) as [x ->]; [done..|]. by eexists.
  - destruct c as [| | | | |l|m]; try (by rewrite Get_scalar in Hg); [|by rewrite Get_map_list in Hg].
    rewrite Get_list in Hg by done. destruct (read_at l s) as [j|] eqn:Ej; [|done]. cbn in Hg.
    destruct (l !! j) as [e|] eqn:He; [|done]. cbn in Hg.
    rewrite (delete_child_list _ _ _ j e) by done. destruct rest as [|next rest]; [by eexists|].
    destruct (IH e w) as [x ->]; [done..|]. by eexists.
Qed.

(** The path ends at a map key. *)
Definition ends_in_field (p : Path) : bool :=
  match List.last (map Some p) None with Some s => IsField s | None => false end.

Lemma ends_in_field_cons s next rest : ends_in_field (s :: next :: rest) = ends_in_field (next :: rest).
Proof. done. Qed.

(** A list index is not stable under removals; keys are. *)
Lemma delete_child_gone p : forall c c' q,
  Forall (fun s => proper s = true) p -> Forall (fun s => addressable s = true) p ->
  avoids_keys p = true -> ends_in_field p = true -> delete_child c p = (c', true) ->
  Get c' (p ++ q) = None.
Proof.
  induction p as [|s rest IH]; [done|]. intros c c' q Hp Ha Hav He Hd.
  inversion_clear Hp as [|? ? Hps Hpr]. inversion_clear Ha as [|? ? Has Har].
  destruct (IsField s) eqn:Hf.
  - assert (deleteIn c (s :: rest) = (c', true)) as H.
    { destruct c; try done. cbn [delete_child deleteInList] in Hd.
      destruct (proper_field s Hps Hf) as [Hk Hi]. rewrite Hk, Hi in Hd. done. }
    apply deleteIn_true in H as (_ & m & ch & -> & Hm & H).
    destruct rest as [|next rest]; [subst c'; cbn [app]; by rewrite Get_field, lookup_delete_eq|].
    destruct H as (x & Hx & ->). cbn [app]. rewrite Get_field, lookup_insert_eq by done.
    cbn [mbind option_bind]. eapply (IH ch); eauto using avoids_keys_cons.
  - destruct rest as [|next rest]; [unfold ends_in_field in He; cbn in He; congruence|].
    destruct c as [| | | | |l|m]; try (cbn [delete_child deleteIn] in Hd; by rewrite Hf in Hd).
    cbn [delete_child] in Hd. destruct (deleteInList l (s :: next :: rest)) as [l' rm] eqn:E. simplify_eq.
    apply deleteInList_true in E as (_ & i & e & Hra & Hl & (x & Hx & ->)); [|done].
    unfold addressable in Has. rewrite Hf in Has. cbn in Has. bool_simpl.
    destruct (proper_list s Hps Hf) as [[_ ?]|[Hi Hk]]; [congruence|].
    unfold read_at in Hra. rewrite Hi in Hra.
    pose proof (proj1 (findByKey_spec _ _ _ _) Hra) as [(e' & He' & Hme) _]. simplify_eq.
    cbn [app]. rewrite Get_key by done. erewrite findByKey_insert_same; [|done|].
    2: { eapply delete_child_matches; [done|by eapply avoids_keys_next|done]. }
    cbn [mbind option_bind]. rewrite list_lookup_insert_eq by (by eapply lookup_lt_Some).
    cbn [mbind option_bind]. eapply (IH e); eauto using avoids_keys_cons.
Qed.

Lemma Get_prefix_none c p q : Get c p = None -> Get c (p ++ q) = None.
Proof. intros H. by rewrite Get_app, H. Qed.

(** Pruning does not bring a deleted path back. *)
Lemma prune_loop_gone i p : forall obj,
  Forall (fun s => proper s = true) p -> Forall (fun s => addressable s = true) p ->
  avoids_keys p = true -> i <= length p -> Get (VMap obj) p = None ->
  Get (VMap (prune_loop i obj p)) p = None.
Proof.
  induction i as [|i IH]; intros obj Hp Ha Hav Hi Hg; [done|]. cbn [prune_loop].
  destruct (Get (VMap obj) (firstn (S i) p)) as [[| | | | |?|m]|] eqn:E; try done; [|by apply IH; auto; lia].
  case_bool_decide as Hm; [|done]. subst m.
  destruct (deleteIn (VMap obj) (firstn (S i) p)) as [c [|]] eqn:Ed; [|done].
  destruct (deleteIn_obj _ _ _ Ed) as [obj' ->]. cbn [obj_of]. apply IH; auto; [lia|].
  rewrite <- (firstn_skipn (S i) p).
  eapply (deleteIn_prefix_gone (firstn (S i) p) (VMap obj)); auto using Forall_firstn', avoids_keys_firstn.
Qed.

Lemma DeletePath_gone obj p w :
  Forall (fun s => proper s = true) p -> Forall (fun s => addressable s = true) p ->
  avoids_keys p = true -> ends_in_field p = true -> Get (VMap obj) p = Some w ->
  Get (VMap (DeletePath obj p).1) p = None.
Proof.
  intros Hp Ha Hav He Hg. assert (p <> []) as Hne by by destruct p.
  destruct (delete_child_present p (VMap obj) w) as [c Hc]; [done..|].
  cbn [delete_child] in Hc. destruct (deleteIn_obj _ _ _ Hc) as [m ->].
  unfold DeletePath. destruct p as [|s rest]; [done|]. rewrite Hc. cbn [obj_of fst]. unfold pruneEmpty.
  apply prune_loop_gone; auto; [lia|].
  rewrite <- (right_id_L [] (++) (s :: rest)).
  by apply (delete_child_gone (s :: rest) (VMap obj)).
Qed.

End FieldPathPresence.
