(* ===== verification/FieldPathSpec.v ===== *)
(** What [internal/render/fieldpath.go] promises its callers: the properties of reading, writing and
    withdrawing a path that applying and reverting a contribution rest on. *)
From stdpp Require Import strings base list gmap fin_maps.
From Stdlib Require Import Ascii NArith ZArith Lia.
From S2P Require Import Prelude GoStrings Values FieldPath FieldPathUpdate FieldPathDelete FieldPathRoundTrip FieldPathPresence.
Local Open Scope string_scope.
Local Open Scope list_scope.

Module FieldPathSpec.
Import GoStrings Values FieldPath FieldPathUpdate FieldPathDelete FieldPathRoundTrip FieldPathPresence.

(** Every segment is of exactly one kind. *)
Definition well_formed (p : Path) : Prop := Forall (fun s => proper s = true) p.

(** A path of field names and list keys that names positions independently of list order and does
    not rewrite a key it goes through. *)
Definition stable_path (p : Path) : Prop :=
  Forall (fun s => proper s = true) p /\ Forall (fun s => addressable s = true) p /\
  avoids_keys p = true.

#[export] Instance stable_path_dec p : Decision (stable_path p).
Proof. unfold stable_path. solve_decision. Defined.

Definition rule (host : string) : Path :=
  [FieldSegment "spec"; FieldSegment "rules"; KeySegment "host" host].

(** Keyed-list deletion at the level of whole objects: the parent is a list, so pruning stops. *)
Lemma DeletePath_keyed obj parent s l i :
  stable_path parent -> parent <> [] ->
  Get (VMap obj) parent = Some (VList l) -> IsField s = false -> proper s = true ->
  IsKeyMatch s = true -> findByKey l (Key s) (Value s) = Some i ->
  exists obj', DeletePath obj (parent ++ [s]) = (obj', true) /\
    Get (VMap obj') parent = Some (VList (base.delete i l)).
Proof.
  intros (Hp & _ & Hav) Hne Hg Hf Hs Hk Hi.
  destruct (delete_keyed_element parent (VMap obj) l s i) as (c & Hd & Hgc); auto.
  destruct parent as [|a parent]; [done|]. cbn [app delete_child] in Hd.
  destruct (deleteIn_obj _ _ _ Hd) as [obj' ->]. exists obj'. split; [|done].
  unfold DeletePath. cbn [app]. rewrite Hd. unfold pruneEmpty. cbn [obj_of length].
  rewrite Nat.sub_succ, Nat.sub_0_r, length_app. cbn [length]. rewrite Nat.add_1_r.
  cbn [prune_loop]. change (a :: parent ++ [s]) with ((a :: parent) ++ [s]).
  replace (firstn (S (length parent)) ((a :: parent) ++ [s])) with (a :: parent).
  2: { symmetry. exact (take_app_length (a :: parent) [s]). }
  by rewrite Hgc.
Qed.

(** ** Properties *)

(** A successful [Set] stores the value: reading the path back yields it, and every path that
    parts from the written one, at a map key or at the key of a list element, reads as before. *)
Theorem SetPath_stores (obj obj' : gmap string value) (p : Path) (v : value)
    (Hp : well_formed p) (Hk : keys_kept p v = true)
    (Hset : SetPath obj p v = (obj', None)) :
  Get (VMap obj') p = Some v /\
  forall q, well_formed q -> avoids_keys q = true -> diverge p q = true ->
    Get (VMap obj') q = Get (VMap obj) q.
Proof. split; [by eapply SetPath_get|]. intros q Hq Hav Hd. exact (SetPath_frame obj p q v obj' Hp Hq Hk Hav Hd Hset). Qed.

(** [Delete] removes what is at the path and nothing else: a present value is reported removed
    and, when the path ends at a map key, is gone; every path that parts from the deleted one reads
    as before, pruning of emptied parents included. *)
Theorem DeletePath_removes_only (obj obj' : gmap string value) (p : Path) (removed : bool)
    (Hp : stable_path p) (Hdel : DeletePath obj p = (obj', removed)) :
  (forall w, Get (VMap obj) p = Some w -> p <> [] ->
     removed = true /\ (ends_in_field p = true -> Get (VMap obj') p = None)) /\
  (forall q, well_formed q -> avoids_keys q = true -> diverge p q = true ->
     Get (VMap obj') q = Get (VMap obj) q).
Proof.
  destruct Hp as (H1 & H2 & H3). split.
  - intros w Hw Hne. destruct (delete_child_present p (VMap obj) w Hne H1 Hw) as [c Hc].
    pose proof (DeletePath_gone obj p w H1 H2 H3) as Hgone. rewrite Hdel in Hgone.
    split; [|intros He; by apply Hgone].
    unfold DeletePath in Hdel. destruct p as [|s rest]; [done|]. cbn [delete_child] in Hc.
    rewrite Hc in Hdel. by injection Hdel.
  - intros q Hq Hav Hd. exact (DeletePath_frame obj p q obj' removed H1 H2 Hq H3 Hav Hd Hdel).
Qed.

(** Withdrawing one element of a keyed list is surgical: exactly the first element carrying
    the key goes, the other elements stay in their order, and the list itself stays even when it
    becomes empty. *)
Theorem DeletePath_surgical (obj : gmap string value) (parent : Path) (s : Segment)
    (l : list value) (i : nat)
    (Hp : stable_path parent) (Hne : parent <> [])
    (Hg : Get (VMap obj) parent = Some (VList l))
    (Hf : IsField s = false) (Hs : proper s = true) (Hk : IsKeyMatch s = true)
    (Hi : findByKey l (Key s) (Value s) = Some i) :
  exists obj', DeletePath obj (parent ++ [s]) = (obj', true) /\
    Get (VMap obj') parent = Some (VList (firstn i l ++ skipn (S i) l)).
Proof.
  destruct (DeletePath_keyed obj parent s l i) as (obj' & Hd & Hl); auto.
  exists obj'. by rewrite Hd, Hl, delete_take_drop.
Qed.

(** Overwriting a value and writing the previous one back restores the object exactly, through
    nested maps, list indices and keyed list elements alike. *)
Theorem SetPath_SetPath_restore (obj obj' : gmap string value) (p : Path) (v prior : value)
    (Hp : well_formed p) (Hk : keys_kept p v = true)
    (Hprior : Get (VMap obj) p = Some prior) (Hset : SetPath obj p v = (obj', None)) :
  SetPath obj' p prior = (obj, None).
Proof. by eapply SetPath_restore. Qed.

End FieldPathSpec.
