(* ===== verification/Sha256.v ===== *)
(** SHA-256 and its hexadecimal rendering ([crypto/sha256], [encoding/hex]), which name trackers
    and fingerprint contributions.  32-bit words are [N] with the reduction written out. *)
From stdpp Require Import strings base list.
From Stdlib Require Import Ascii NArith Lia.
From S2P Require Import Prelude GoStrings.
Local Open Scope string_scope.
Local Open Scope list_scope.

Module Sha256.
Import GoStrings.

Definition w32 (x : N) : N := N.land x 4294967295.
Definition add32 (x y : N) : N := w32 (x + y).
Definition rotr (n x : N) : N := N.lor (N.shiftr x n) (w32 (N.shiftl x (32 - n))).
Definition not32 (x : N) : N := N.lxor x 4294967295.

Definition K : list N := [
  1116352408; 1899447441; 3049323471; 3921009573; 961987163; 1508970993; 2453635748; 2870763221;
  3624381080; 310598401; 607225278; 1426881987; 1925078388; 2162078206; 2614888103; 3248222580;
  3835390401; 4022224774; 264347078; 604807628; 770255983; 1249150122; 1555081692; 1996064986;
  2554220882; 2821834349; 2952996808; 3210313671; 3336571891; 3584528711; 113926993; 338241895;
  666307205; 773529912; 1294757372; 1396182291; 1695183700; 1986661051; 2177026350; 2456956037;
  2730485921; 2820302411; 3259730800; 3345764771; 3516065817; 3600352804; 4094571909; 275423344;
  430227734; 506948616; 659060556; 883997877; 958139571; 1322822218; 1537002063; 1747873779;
  1955562222; 2024104815; 2227730452; 2361852424; 2428436474; 2756734187; 3204031479; 3329325298]%N.

Definition H0 : list N :=
  [1779033703; 3144134277; 1013904242; 2773480762; 1359893119; 2600822924; 528734635; 1541459225]%N.

Definition bytes_of (s : string) : list N := map N_of_ascii (String.list_ascii_of_string s).

(** The 8 bytes of the bit length, big endian. *)
Definition length_bytes (n : N) : list N :=
  map (fun i => N.land (N.shiftr n (8 * i)) 255) [7; 6; 5; 4; 3; 2; 1; 0]%N.

Definition pad (bs : list N) : list N :=
  let n := N.of_nat (length bs) in
  let z := N.to_nat ((119 - n mod 64) mod 64) in
  bs ++ 128%N :: replicate z 0%N ++ length_bytes (8 * n).

Fixpoint words (bs : list N) : list N :=
  match bs with
  | a :: b :: c :: d :: rest =>
      (N.shiftl a 24 + N.shiftl b 16 + N.shiftl c 8 + d)%N :: words rest
  | _ => []
  end.

(** The message schedule; [w] holds the last sixteen words, oldest first. *)
Fixpoint schedule (n : nat) (w : list N) : list N :=
  match n, w with
  | S n', w0 :: rest =>
      let w1 := nth 0 rest 0%N in
      let w9 := nth 8 rest 0%N in
      let w14 := nth 13 rest 0%N in
      let s0 := N.lxor (N.lxor (rotr 7 w1) (rotr 18 w1)) (N.shiftr w1 3) in
      let s1 := N.lxor (N.lxor (rotr 17 w14) (rotr 19 w14)) (N.shiftr w14 10) in
      w0 :: schedule n' (rest ++ [add32 (add32 w0 s0) (add32 w9 s1)])
  | _, _ => []
  end.

Definition round (st : list N) (kw : N * N) : list N :=
  match st with
  | [a; b; c; d; e; f; g; h] =>
      let S1 := N.lxor (N.lxor (rotr 6 e) (rotr 11 e)) (rotr 25 e) in
      let ch := N.lxor (N.land e f) (N.land (not32 e) g) in
      let t1 := w32 (h + S1 + ch + kw.1 + kw.2)%N in
      let S0 := N.lxor (N.lxor (rotr 2 a) (rotr 13 a)) (rotr 22 a) in
      let maj := N.lxor (N.lxor (N.land a b) (N.land a c)) (N.land b c) in
      [add32 t1 (add32 S0 maj); a; b; c; add32 d t1; e; f; g]
  | _ => st
  end.

Definition compress (h : list N) (block : list N) : list N :=
  zip_with add32 h (foldl round h (zip K (schedule 64 block))).

Fixpoint blocks (fuel : nat) (ws : list N) (h : list N) : list N :=
  match fuel, ws with
  | S fuel', _ :: _ => blocks fuel' (skipn 16 ws) (compress h (firstn 16 ws))
  | _, _ => h
  end.

Definition sha256_words (s : string) : list N :=
  let ws := words (pad (bytes_of s)) in blocks (length ws) ws H0.

Definition hex_digit (n : N) : ascii := if (n <? 10)%N then ascii_of_N (48 + n) else ascii_of_N (87 + n).

Definition hex_word (w : N) (acc : string) : string :=
  foldr (fun i acc => String (hex_digit (N.land (N.shiftr w (4 * i)) 15)) acc) acc
    [7; 6; 5; 4; 3; 2; 1; 0]%N.

(** [hex.EncodeToString] of [sha256.Sum256]. *)
Definition sha256_hex (s : string) : string := foldr hex_word "" (sha256_words s).

Example sha256_abc :
  sha256_hex "abc" = "ba7816bf8f01cfea414140de5dae2223b00361a396177a9cb410ff61f20015ad".
Proof. by vm_compute. Qed.

Example sha256_two_blocks :
  sha256_hex "abcdbcdecdefdefgefghfghighijhijkijkljklmklmnlmnomnopnopq" =
  "248d6a61d20638b8e5c026930c3e6039a33ce45964ff2167f6ecedd419db06c1".
Proof. by vm_compute. Qed.

End Sha256.
