(* ===== verification/ApiTypes.v ===== *)
(** The API types of [api/v1alpha1]: contributors ([ResourcePatch], [ClusterResourcePatch]), trackers
    ([SharedResource], [ClusterSharedResource]), their specs and statuses, and the helpers of
    [interfaces.go].

    Enumerations are Go strings and stay strings: an object may carry any of them, the empty one
    included.  A pointer is an [option]; a timestamp is a [Z]; a pointer to one, or one that may be zero, an [option Z]. *)
From stdpp Require Import strings base list gmap fin_maps.
From Stdlib Require Import Ascii ZArith Lia.
From S2P Require Import Prelude GoStrings Values.
Local Open Scope string_scope.
Local Open Scope list_scope.

Module ApiTypes.
Import GoStrings Values.

(** ** Errors and messages

    Formatted text is kept as the format string and its arguments, in the order of the source; [%w]
    keeps the wrapped error, which is what callers inspect. *)
Inductive arg :=
| AStr (s : string)
| AInt (z : Z)
| AStrs (l : list string).

(** The cause list of an API status error, as far as the code reads it. *)
Record StatusCause := mkStatusCause { Cause_Type : string; Cause_Message : string; Cause_Field : string }.

Inductive goerror :=
| Errorf (fmt : string) (args : list arg)
| Wrapf (fmt : string) (args : list arg) (cause : goerror)
| StatusError (reason message : string) (causes : option (list StatusCause))
| OtherError (text : string).

Inductive message :=
| Msg (fmt : string) (args : list arg)
| MsgError (e : goerror)
| MsgWith (fmt : string) (args : list arg) (e : goerror).

#[export] Instance arg_eq_dec : EqDecision arg.
Proof. solve_decision. Defined.
#[export] Instance StatusCause_eq_dec : EqDecision StatusCause.
Proof. solve_decision. Defined.
#[export] Instance goerror_eq_dec : EqDecision goerror.
Proof. solve_decision. Defined.
#[export] Instance message_eq_dec : EqDecision message.
Proof. solve_decision. Defined.

(** ** Names *)

Definition KindResourcePatch : string := "ResourcePatch".
Definition KindClusterResourcePatch : string := "ClusterResourcePatch".
Definition KindSharedResource : string := "SharedResource".
Definition KindClusterSharedResource : string := "ClusterSharedResource".

Definition Group : string := "terasky.com".

Definition TargetModeSingle : string := "Single".
Definition TargetModeSelector : string := "Selector".
Definition OnMissingFail : string := "Fail".
Definition OnMissingWait : string := "Wait".
Definition OnMissingCreate : string := "Create".
Definition OnReleaseRevert : string := "Revert".
Definition OnReleaseOrphan : string := "Orphan".
Definition OnReleaseDelete : string := "Delete".
Definition BaseReconcileCreateOnly : string := "CreateOnly".
Definition BaseReconcileEnforce : string := "Enforce".
Definition ApplyModeServerSideApply : string := "ServerSideApply".
Definition ApplyModeClientSideApply : string := "ClientSideApply".
Definition ConflictPolicyFail : string := "Fail".
Definition ConflictPolicyPriority : string := "Priority".
Definition ConflictPolicyForce : string := "Force".
Definition PatchTypeStrategicMerge : string := "StrategicMerge".
Definition PatchTypeMerge : string := "Merge".
Definition PatchTypeJSON6902 : string := "JSON6902".

Definition ContributorFinalizer : string := "terasky.com/contributor".
Definition TrackerFinalizer : string := "terasky.com/shared-resource".
Definition FieldManagerPrefix : string := "patch-operator/".
Definition AuthorizedAsAnnotation : string := "terasky.com/authorized-as".
Definition AuthorizedIdentityAnnotation : string := "terasky.com/authorized-identity".

(** ** Raw JSON

    [runtime.RawExtension] as the code observes it: no bytes, bytes that do not decode, or the
    decoded value (numbers as float64, as [encoding/json] yields them). *)
Inductive RawExtension :=
| RawEmpty
| RawMalformed (text : string)
| RawJSON (v : value).

#[export] Instance RawExtension_eq_dec : EqDecision RawExtension.
Proof. solve_decision. Defined.

Definition raw_empty (r : RawExtension) : bool := match r with RawEmpty => true | _ => false end.

(** ** Specs *)

(** Label selectors are matched by the API server; the code only carries them. *)
Record LabelSelector := mkLabelSelector {
  matchLabels : gmap string string;
  matchExpressions : list (string * string * list string);
}.

Record TargetRef := mkTargetRef {
  Target_Mode : string;
  Target_APIVersion : string;
  Target_Kind : string;
  Target_Name : string;
  Target_Namespace : string;
  Target_Selector : option LabelSelector;
  Target_NamespaceSelector : option LabelSelector;
  Target_MaxTargets : Z;
}.

Record LifecycleSpec := mkLifecycleSpec {
  OnMissing : string;
  OnRelease : string;
  AdoptExisting : option bool;
  BaseReconcile : string;
}.

Record ApplySpec := mkApplySpec {
  Apply_Mode : string;
  Apply_FieldManager : string;
  ConflictPolicy : string;
}.

Record MergeKey := mkMergeKey { MergeKey_Path : string; MergeKey_Key : string }.

Record PatchSpec := mkPatchSpec {
  Patch_Type : string;
  Patch_Value : option RawExtension;
  Patch_Ops : option RawExtension;
  Patch_MergeKeys : list MergeKey;
}.

Record ServiceAccountRef := mkServiceAccountRef { SA_Name : string; SA_Namespace : string }.

Record ResourcePatchSpec := mkResourcePatchSpec {
  Target : TargetRef;
  Lifecycle : LifecycleSpec;
  Apply : ApplySpec;
  Priority : Z;
  Spec_ServiceAccountRef : option ServiceAccountRef;
  Base : option RawExtension;
  Patch : PatchSpec;
}.

(** ** Object metadata, as far as the code reads it *)
Record ObjectMeta := mkObjectMeta {
  Name : string;
  Namespace : string;
  UID : string;
  ResourceVersion : string;
  Generation : Z;
  CreationTimestamp : Z;
  DeletionTimestamp : option Z;
  Finalizers : list string;
  Annotations : gmap string string;
}.

(** ** Conditions *)
Record Condition := mkCondition {
  Cond_Type : string;
  Cond_Status : string;
  Cond_ObservedGeneration : Z;
  Cond_LastTransitionTime : option Z;
  Cond_Reason : string;
  Cond_Message : message;
}.

(** ** Contributor status *)
Record TargetStatus := mkTargetStatus {
  TS_APIVersion : string;
  TS_Kind : string;
  TS_Name : string;
  TS_Namespace : string;
  TS_UID : string;
  TS_State : string;
}.

Record TrackerRef := mkTrackerRef {
  TrackerRef_Kind : string;
  TrackerRef_Name : string;
  TrackerRef_Namespace : string;
}.

#[export] Instance TrackerRef_eq_dec : EqDecision TrackerRef.
Proof. solve_decision. Defined.

Record ResourcePatchStatus := mkResourcePatchStatus {
  Conditions : list Condition;
  ObservedTargets : list TargetStatus;
  SharedResourceRefs : list TrackerRef;
  AppliedGeneration : Z;
  AuthorizedAs : string;
  LastAuthorizedTime : option Z;
}.

(** ** Tracker spec and status *)
Record ContributorRef := mkContributorRef {
  Ref_Kind : string;
  Ref_Name : string;
  Ref_Namespace : string;
  Ref_UID : string;
}.

#[export] Instance ContributorRef_eq_dec : EqDecision ContributorRef.
Proof. solve_decision. Defined.

Record ContributorStatus := mkContributorStatus {
  PatchRef : ContributorRef;
  CS_ObservedGeneration : Z;
  CS_Priority : Z;
  CS_FieldManager : string;
  State : string;
  LastAppliedHash : string;
  OwnedPaths : list string;
  PriorValues : option RawExtension;
  PriorValuesCaptured : bool;
  CS_CreationTimestamp : option Z;
}.

Record ConflictStatus := mkConflictStatus {
  Conflict_FieldPath : string;
  Claimants : list string;
  Holder : string;
}.

Record PromotionRef := mkPromotionRef { Promotion_Name : string; Adopted : bool }.

Record TrackerTargetRef := mkTrackerTargetRef {
  TT_APIVersion : string;
  TT_Kind : string;
  TT_Name : string;
  TT_Namespace : string;
}.

Record SharedResourceStatus := mkSharedResourceStatus {
  Phase : string;
  SR_Conditions : list Condition;
  PromotedTo : option PromotionRef;
  CreatedByOperator : bool;
  CreatorPatchRef : option ContributorRef;
  ObservedBaseHash : string;
  ObservedTargetUID : string;
  ObservedResourceVersion : string;
  Contributors : list ContributorStatus;
  ContributorCount : Z;
  Conflicts : list ConflictStatus;
}.

(** ** The two interfaces and their implementations *)

Record PatchObject := mkPatchObject {
  p_meta : ObjectMeta;
  p_spec : ResourcePatchSpec;
  p_status : ResourcePatchStatus;
}.

Inductive Contributor :=
| ResourcePatch (o : PatchObject)
| ClusterResourcePatch (o : PatchObject).

Definition patch_object (c : Contributor) : PatchObject :=
  match c with ResourcePatch o | ClusterResourcePatch o => o end.
Definition GetPatchSpec (c : Contributor) : ResourcePatchSpec := p_spec (patch_object c).
Definition GetPatchStatus (c : Contributor) : ResourcePatchStatus := p_status (patch_object c).
Definition c_meta (c : Contributor) : ObjectMeta := p_meta (patch_object c).
Definition IsClusterScoped (c : Contributor) : bool :=
  match c with ResourcePatch _ => false | ClusterResourcePatch _ => true end.
Definition ContributorKind (c : Contributor) : string :=
  match c with ResourcePatch _ => KindResourcePatch | ClusterResourcePatch _ => KindClusterResourcePatch end.

Record TrackerObject := mkTrackerObject {
  t_meta : ObjectMeta;
  t_targetRef : TrackerTargetRef;
  t_status : SharedResourceStatus;
}.

Inductive Tracker :=
| SharedResource (o : TrackerObject)
| ClusterSharedResource (o : TrackerObject).

Definition tracker_object (t : Tracker) : TrackerObject :=
  match t with SharedResource o | ClusterSharedResource o => o end.
Definition GetTrackerStatus (t : Tracker) : SharedResourceStatus := t_status (tracker_object t).
Definition TrackerIsClusterScoped (t : Tracker) : bool :=
  match t with SharedResource _ => false | ClusterSharedResource _ => true end.
Definition TrackerKind (t : Tracker) : string :=
  match t with SharedResource _ => KindSharedResource | ClusterSharedResource _ => KindClusterSharedResource end.

(** ** Helpers of [interfaces.go] *)

Definition ContributorRefOf (c : Contributor) : ContributorRef :=
  mkContributorRef (ContributorKind c) (Name (c_meta c)) (Namespace (c_meta c)) (UID (c_meta c)).

Definition SameContributor (a b : ContributorRef) : bool :=
  if negb (String.eqb (Ref_UID a) "") && negb (String.eqb (Ref_UID b) "")
  then String.eqb (Ref_UID a) (Ref_UID b)
  else String.eqb (Ref_Kind a) (Ref_Kind b) && String.eqb (Ref_Name a) (Ref_Name b) &&
       String.eqb (Ref_Namespace a) (Ref_Namespace b).

Definition ContributorRef_String (r : ContributorRef) : string :=
  if String.eqb (Ref_Namespace r) "" then Ref_Kind r +:+ "/" +:+ Ref_Name r
  else Ref_Kind r +:+ "/" +:+ Ref_Namespace r +:+ "/" +:+ Ref_Name r.

Definition IsFenced (s : SharedResourceStatus) : bool :=
  match PromotedTo s with Some _ => true | None => false end.

Definition FindContributor (s : SharedResourceStatus) (ref : ContributorRef) : option ContributorStatus :=
  List.find (fun c => SameContributor (PatchRef c) ref) (Contributors s).

Definition set_transition (t : option Z) (c : Condition) : Condition :=
  mkCondition (Cond_Type c) (Cond_Status c) (Cond_ObservedGeneration c) t (Cond_Reason c) (Cond_Message c).

(** The loop of [SetCondition], on the condition that already has its transition time. *)
Fixpoint set_condition_loop (conds : list Condition) (c : Condition) : list Condition :=
  match conds with
  | [] => [c]
  | d :: rest =>
      if negb (String.eqb (Cond_Type d) (Cond_Type c)) then d :: set_condition_loop rest c
      else
        (if String.eqb (Cond_Status d) (Cond_Status c)
         then set_transition (Cond_LastTransitionTime d) c else c) :: rest
  end.

Definition SetCondition (now : Z) (conds : list Condition) (c : Condition) : list Condition :=
  let c := match Cond_LastTransitionTime c with None => set_transition (Some now) c | Some _ => c end in
  set_condition_loop conds c.

Definition GetCondition (conds : list Condition) (condType : string) : option Condition :=
  List.find (fun c => String.eqb (Cond_Type c) condType) conds.

End ApiTypes.
