(* ===== verification/Conditions.v ===== *)
(** Conditions as a map by type: what [SetCondition] of [api/v1alpha1/interfaces.go] leaves behind. *)
From stdpp Require Import strings base list.
From Stdlib Require Import ZArith.
From S2P Require Import Prelude GoStrings Values ApiTypes.
Local Open Scope string_scope.
Local Open Scope list_scope.
Local Open Scope go_scope.

Module Conditions.
Import GoStrings Values ApiTypes.

(** ** Looking up *)

Lemma GetCondition_loop l c ty :
  GetCondition (set_condition_loop l c) ty =
    if String.eqb ty (Cond_Type c)
    then Some (match GetCondition l ty with
               | Some d => if String.eqb (Cond_Status d) (Cond_Status c)
                           then set_transition (Cond_LastTransitionTime d) c else c
               | None => c
               end)
    else GetCondition l ty.
Proof.
  unfold GetCondition. induction l as [|d l IH]; cbn.
  - rewrite String.eqb_sym. by destruct (String.eqb ty (Cond_Type c)).
  - destruct (String.eqb_spec (Cond_Type d) (Cond_Type c)) as [E|E]; cbn.
    + rewrite E. rewrite (String.eqb_sym ty). destruct (String.eqb (Cond_Status d) (Cond_Status c)) eqn:Es; cbn;
        destruct (String.eqb (Cond_Type c) ty); rewrite ?Es; done.
    + destruct (String.eqb_spec (Cond_Type d) ty) as [<-|N].
      * by apply String.eqb_neq in E as ->.
      * exact IH.
Qed.

Lemma GetCondition_set now l c ty :
  exists c', Cond_Status c' = Cond_Status c /\ Cond_Reason c' = Cond_Reason c /\
    GetCondition (SetCondition now l c) ty = if String.eqb ty (Cond_Type c) then Some c' else GetCondition l ty.
Proof.
  unfold SetCondition. cbv zeta. rewrite GetCondition_loop.
  set (c0 := match Cond_LastTransitionTime c with None => set_transition (Some now) c | Some _ => c end).
  assert (Cond_Type c0 = Cond_Type c /\ Cond_Status c0 = Cond_Status c /\ Cond_Reason c0 = Cond_Reason c)
    as (Et & Es & Er) by (unfold c0; by destruct (Cond_LastTransitionTime c)).
  rewrite Et. eexists. split; [|split; [|done]]; destruct (GetCondition l ty) as [d|]; try done;
    by destruct (String.eqb _ _).
Qed.

(** ** Setting again *)

Lemma SetCondition_idemp now now' l c :
  Cond_LastTransitionTime c = None -> SetCondition now' (SetCondition now l c) c = SetCondition now l c.
Proof.
  intros Ht. unfold SetCondition. rewrite Ht. induction l as [|d l IH]; cbn.
  - by rewrite !String.eqb_refl.
  - destruct (String.eqb_spec (Cond_Type d) (Cond_Type c)) as [E|E]; cbn.
    + destruct (String.eqb_spec (Cond_Status d) (Cond_Status c)); cbn; by rewrite !String.eqb_refl.
    + apply String.eqb_neq in E. rewrite E. cbn. by rewrite IH.
Qed.

(** Setting the condition changes nothing, at any time. *)
Definition at_rest (l : list Condition) (c : Condition) : Prop := forall now, SetCondition now l c = l.

Lemma set_at_rest now l c : Cond_LastTransitionTime c = None -> at_rest (SetCondition now l c) c.
Proof. intros Ht now'. by apply SetCondition_idemp. Qed.

Lemma set_keeps_rest now l c d :
  Cond_LastTransitionTime c = None -> Cond_LastTransitionTime d = None -> Cond_Type d <> Cond_Type c ->
  at_rest l c -> at_rest (SetCondition now l d) c.
Proof.
  intros Hc Hd Hne Hr now'. specialize (Hr now'). unfold SetCondition in *. rewrite Hc, Hd in *. revert Hr.
  induction l as [|x l IH]; cbn; [done|].
  destruct (String.eqb_spec (Cond_Type x) (Cond_Type c)) as [Exc|Nxc]; cbn.
  - intros [= Hx]. rewrite Exc. apply not_eq_sym, String.eqb_neq in Hne. rewrite Hne. cbn.
    rewrite Exc, String.eqb_refl. cbn. by rewrite Hx.
  - intros [= Hl]. destruct (String.eqb_spec (Cond_Type x) (Cond_Type d)) as [Exd|Nxd]; cbn.
    + assert (forall y, Cond_Type y = Cond_Type d -> (if negb (String.eqb (Cond_Type y) (Cond_Type c))
        then y :: set_condition_loop l (set_transition (Some now') c)
        else (if String.eqb (Cond_Status y) (Cond_Status c) then set_transition (Cond_LastTransitionTime y) (set_transition (Some now') c)
              else set_transition (Some now') c) :: l) = y :: l) as Hy.
      { intros y ->. apply String.eqb_neq in Hne. rewrite Hne. cbn. by rewrite Hl. }
      apply Hy. by destruct (String.eqb _ _).
    + apply String.eqb_neq in Nxc. rewrite Nxc. cbn. f_equal. by apply IH.
Qed.

End Conditions.
