(* ===== verification/Identity.v ===== *)
(** The principal recorded on a contributor at admission: [api/v1alpha1/identity.go], with what
    [encoding/json] makes of its record, and that decoding inverts encoding. *)
From stdpp Require Import strings base list gmap fin_maps.
From Stdlib Require Import Ascii NArith ZArith Lia.
From S2P Require Import Prelude GoStrings Values Json JsonDecode ApiTypes.
Local Open Scope string_scope.
Local Open Scope list_scope.

Module Identity.
Import GoStrings Values Json JsonDecode ApiTypes.

(** [authenticationv1.UserInfo]. *)
Record UserInfo := mkUserInfo {
  User_Username : string;
  User_UID : string;
  User_Groups : list string;
  User_Extra : gmap string (list string);
}.

Record RecordedIdentity := mkRecordedIdentity {
  Rec_Username : string;
  Rec_UID : string;
  Rec_Groups : list string;
  Rec_Extra : gmap string (list string);
}.

(** ** Encoding: [json.Marshal]

    Members in the order of the fields, the empty ones of all but the first left out; the keys of
    a map in increasing order. *)

Definition strings_text (l : list string) : string := array_text (map json_string l).

Definition extra_text (m : gmap string (list string)) : string :=
  object_text (map (fun kv => (kv.1, strings_text kv.2)) (sort key_less (map_to_list m))).

Definition members_of (i : RecordedIdentity) : list (string * string) :=
  [("username", json_string (Rec_Username i))] ++
  (if String.eqb (Rec_UID i) "" then [] else [("uid", json_string (Rec_UID i))]) ++
  (if Nat.eqb (length (Rec_Groups i)) 0 then [] else [("groups", strings_text (Rec_Groups i))]) ++
  (if Nat.eqb (size (Rec_Extra i)) 0 then [] else [("extra", extra_text (Rec_Extra i))]).

Definition marshal_identity (i : RecordedIdentity) : string := object_text (members_of i).

(** ** Decoding: [json.Unmarshal] *)

(** A slice and what its array holds beyond its length: decoding into a slice again reuses the array. *)
Record slice := mkSlice { s_len : nat; s_array : list string }.

Definition nil_slice : slice := mkSlice 0 [].
Definition elements (s : slice) : list string := take (s_len s) (s_array s).

(** Decode into the elements of an array one after the other: null leaves an element as it is. *)
Fixpoint decode_elements (l : list json) (array : list string) : option (list string) :=
  match l with
  | [] => Some array
  | v :: rest =>
      match (match v with JString s => Some s | JNull => Some (default "" (head array)) | _ => None end) with
      | None => None
      | Some x => match decode_elements rest (tail array) with Some xs => Some (x :: xs) | None => None end
      end
  end.

Definition decode_strings (v : json) (old : slice) : option slice :=
  match v with
  | JNull | JArray [] => Some nil_slice
  | JArray l => match decode_elements l (s_array old) with Some xs => Some (mkSlice (length l) xs) | None => None end
  | _ => None
  end.

Definition decode_string (v : json) (old : string) : option string :=
  match v with JString s => Some s | JNull => Some old | _ => None end.

(** Each member of a map is decoded into a fresh element. *)
Fixpoint decode_members (ms : list (string * json)) (m : gmap string (list string)) : option (gmap string (list string)) :=
  match ms with
  | [] => Some m
  | (k, v) :: rest =>
      match decode_strings v nil_slice with
      | Some s => decode_members rest (<[k := elements s]> m)
      | None => None
      end
  end.

Definition decode_map (v : json) (old : gmap string (list string)) : option (gmap string (list string)) :=
  match v with JNull => Some ∅ | JObject ms => decode_members ms old | _ => None end.

(** Key folding: upper case, and the two other runes that fold to ASCII letters. *)
Definition upper (c : ascii) : ascii := if is_lower c then ascii_of_N (N_of_ascii c - 32) else c.

Fixpoint fold_name (s : string) : string :=
  match s with
  | "" => ""
  | String a ((String b rest') as rest) =>
      if byte_in 197 197 a && byte_in 191 191 b then String "S" (fold_name rest')
      else
        match rest' with
        | String c rest'' =>
            if byte_in 226 226 a && byte_in 132 132 b && byte_in 170 170 c then String "K" (fold_name rest'')
            else String (upper a) (fold_name rest)
        | "" => String (upper a) (fold_name rest)
        end
  | String a rest => String (upper a) (fold_name rest)
  end.

(** The field a key names: by its exact name, else by folding. *)
Definition field_of (key : string) : option string :=
  let fields := ["username"; "uid"; "groups"; "extra"] in
  match List.find (String.eqb key) fields with
  | Some f => Some f
  | None => List.find (fun f => String.eqb (fold_name f) (fold_name key)) fields
  end.

(** The struct being filled. *)
Record partial := mkPartial {
  p_username : string; p_uid : string; p_groups : slice; p_extra : gmap string (list string);
}.

Definition decode_field (key : string) (v : json) (p : partial) : option partial :=
  match field_of key with
  | None => Some p
  | Some f =>
      if String.eqb f "username" then
        (fun x => mkPartial x (p_uid p) (p_groups p) (p_extra p)) <$> decode_string v (p_username p)
      else if String.eqb f "uid" then
        (fun x => mkPartial (p_username p) x (p_groups p) (p_extra p)) <$> decode_string v (p_uid p)
      else if String.eqb f "groups" then
        (fun x => mkPartial (p_username p) (p_uid p) x (p_extra p)) <$> decode_strings v (p_groups p)
      else
        (fun x => mkPartial (p_username p) (p_uid p) (p_groups p) x) <$> decode_map v (p_extra p)
  end.

Fixpoint decode_fields (ms : list (string * json)) (p : partial) : option partial :=
  match ms with
  | [] => Some p
  | (k, v) :: rest => match decode_field k v p with Some p' => decode_fields rest p' | None => None end
  end.

(** A value that does not fit its field is an error, as is text that is no document. *)
Definition unmarshal_identity (s : string) : option RecordedIdentity :=
  let zero := mkPartial "" "" nil_slice ∅ in
  let of_partial p := mkRecordedIdentity (p_username p) (p_uid p) (elements (p_groups p)) (p_extra p) in
  match parse_json s with
  | Some JNull => Some (of_partial zero)
  | Some (JObject ms) => of_partial <$> decode_fields ms zero
  | _ => None
  end.

(** ** Annotations *)

Definition annotation (key : string) (m : ObjectMeta) : string := default "" (Annotations m !! key).

Definition IdentityFromAnnotations (m : ObjectMeta) : option UserInfo :=
  let username_only :=
    let username := annotation AuthorizedAsAnnotation m in
    if String.eqb username "" then None else Some (mkUserInfo username "" [] ∅) in
  let raw := annotation AuthorizedIdentityAnnotation m in
  if String.eqb raw "" then username_only
  else
    match unmarshal_identity raw with
    | Some stored =>
        if String.eqb (Rec_Username stored) "" then username_only
        else Some (mkUserInfo (Rec_Username stored) (Rec_UID stored) (Rec_Groups stored) (Rec_Extra stored))
    | None => username_only
    end.

(** ** The round trip *)

Definition valid_strings (l : list string) : Prop := Forall (fun s => ValidString s = true) l.

(** Every string is UTF-8, as the strings of a decoded request are. *)
Definition valid_identity (i : RecordedIdentity) : Prop :=
  ValidString (Rec_Username i) = true /\ ValidString (Rec_UID i) = true /\ valid_strings (Rec_Groups i) /\
  map_Forall (fun k l => ValidString k = true /\ valid_strings l) (Rec_Extra i).

Lemma parses_le n n' v t : (n <= n')%N -> parses n v t -> parses n' v t.
Proof. intros Hn [f0 H]. exists f0. intros f d rest Hf Hd. apply H; lia. Qed.

Lemma parses_strings l : valid_strings l -> parses 1 (JArray (map JString l)) (strings_text l).
Proof.
  intros H. apply (parses_array 0).
  - induction H; constructor; [by apply parses_string|done].
  - clear H. induction l; constructor; [apply json_string_opens|done].
Qed.

Definition extra_json (kvs : list (string * list string)) : list (string * json) :=
  map (fun kv => (kv.1, JArray (map JString kv.2))) kvs.

Lemma parses_extra m :
  map_Forall (fun k l => ValidString k = true /\ valid_strings l) m ->
  parses 2 (JObject (extra_json (sort key_less (map_to_list m)))) (extra_text m).
Proof.
  intros H. apply (parses_object 1).
  assert (Forall (fun kv => ValidString kv.1 = true /\ valid_strings kv.2) (sort key_less (map_to_list m))) as Hf.
  { apply Forall_forall. intros [k l] Hin. rewrite sort_perm in Hin. apply elem_of_map_to_list in Hin. exact (H k l Hin). }
  unfold extra_json. induction Hf as [|[k l] kvs [Hk Hl] _ IH]; constructor; [|done]. cbn in *.
  split; [done|]. split; [done|]. by apply parses_strings.
Qed.

Lemma decode_elements_strings l : forall array, decode_elements (map JString l) array = Some (l ++ drop (length l) array).
Proof.
  induction l as [|x l IH]; intros array; cbn; [by rewrite drop_0|]. rewrite IH. by destruct array; cbn; rewrite ?drop_nil.
Qed.

Lemma decode_strings_array l old : exists s, decode_strings (JArray (map JString l)) old = Some s /\ elements s = l.
Proof.
  destruct l as [|x l]; [by exists nil_slice|]. eexists. split; [unfold decode_strings; cbn [map];
    change (JString x :: map JString l) with (map JString (x :: l)); by rewrite decode_elements_strings|].
  unfold elements. cbn [s_len s_array]. rewrite length_map. by rewrite take_app_length.
Qed.

Lemma decode_members_extra kvs : forall m, NoDup kvs.*1 ->
  decode_members (extra_json kvs) m = Some (list_to_map kvs ∪ m).
Proof.
  induction kvs as [|[k l] kvs IH]; intros m Hnd; cbn -[decode_strings]; [by rewrite (left_id_L ∅ (∪))|].
  cbn in Hnd. apply NoDup_cons in Hnd as [Hk Hnd].
  destruct (decode_strings_array l nil_slice) as (s & E & Hs). rewrite E, Hs.
  change (map _ kvs) with (extra_json kvs).
  rewrite IH by done. f_equal. rewrite <- insert_union_r, insert_union_l; [done|]. by apply not_elem_of_list_to_map_1.
Qed.

Lemma decode_extra m : decode_members (extra_json (sort key_less (map_to_list m))) ∅ = Some m.
Proof.
  assert (NoDup (sort key_less (map_to_list m)).*1) as Hnd by (rewrite sort_perm; apply NoDup_fst_map_to_list).
  rewrite decode_members_extra, (right_id_L ∅ (∪)) by done. f_equal.
  rewrite <- (list_to_map_to_list m) at 2. apply list_to_map_proper; [done|]. apply sort_perm.
Qed.

(** What the members of an encoded identity are read as. *)
Definition json_of (i : RecordedIdentity) : list (string * json) :=
  [("username", JString (Rec_Username i))] ++
  (if String.eqb (Rec_UID i) "" then [] else [("uid", JString (Rec_UID i))]) ++
  (if Nat.eqb (length (Rec_Groups i)) 0 then [] else [("groups", JArray (map JString (Rec_Groups i)))]) ++
  (if Nat.eqb (size (Rec_Extra i)) 0 then [] else [("extra", JObject (extra_json (sort key_less (map_to_list (Rec_Extra i)))))]).

Lemma parses_identity i : valid_identity i -> parses 3 (JObject (json_of i)) (marshal_identity i).
Proof.
  intros (Hu & Hid & Hg & He). apply (parses_object 2). unfold json_of, members_of.
  repeat apply Forall2_app.
  - constructor; [|done]. split; [done|]. split; [done|]. eapply parses_le; [|by apply parses_string]. lia.
  - destruct (String.eqb _ _); constructor; [|done]. split; [done|]. split; [done|].
    eapply parses_le; [|by apply parses_string]. lia.
  - destruct (Nat.eqb _ _); constructor; [|done]. split; [done|]. split; [done|].
    eapply parses_le; [|by apply parses_strings]. lia.
  - destruct (Nat.eqb _ _); constructor; [|done]. split; [done|]. split; [done|]. by apply parses_extra.
Qed.

Lemma decode_json_of i :
  decode_fields (json_of i) (mkPartial "" "" nil_slice ∅) =
    Some (mkPartial (Rec_Username i) (Rec_UID i)
      (if Nat.eqb (length (Rec_Groups i)) 0 then nil_slice else default nil_slice (decode_strings (JArray (map JString (Rec_Groups i))) nil_slice))
      (Rec_Extra i)).
Proof.
  unfold json_of. cbn [app decode_fields]. change (field_of "username") with (Some "username").
  unfold decode_field at 1. change (field_of "username") with (Some "username"). cbn [String.eqb decode_string fmap option_fmap option_map].
  destruct (decode_strings_array (Rec_Groups i) nil_slice) as (s & Es & _).
  destruct (String.eqb_spec (Rec_UID i) "") as [->|_], (Nat.eqb_spec (length (Rec_Groups i)) 0) as [_|_],
    (Nat.eqb_spec (size (Rec_Extra i)) 0) as [->%map_size_empty_inv|_]; cbn [app decode_fields];
    unfold decode_field; cbn -[decode_strings decode_members extra_json]; rewrite ?Es; cbn -[decode_strings decode_members extra_json];
    rewrite ?decode_extra; done.
Qed.

(** Encoding then decoding is the identity, on UTF-8. *)
Lemma identity_decodes i : valid_identity i -> unmarshal_identity (marshal_identity i) = Some i.
Proof.
  intros Hi. unfold unmarshal_identity. rewrite (parse_json_written 3 (JObject (json_of i))) by (done || by apply parses_identity).
  rewrite decode_json_of. destruct i as [u id groups extra]. cbn -[decode_strings]. do 2 f_equal.
  destruct (Nat.eqb_spec (length groups) 0) as [->%length_zero_iff_nil|_]; [done|].
  by destruct (decode_strings_array groups nil_slice) as (s & -> & ?).
Qed.

Lemma marshal_identity_nonempty i : marshal_identity i <> "".
Proof. done. Qed.

(** (C33) What is recorded is read back: an object that carries the encoding of an identity with a user
    name gives back that very user, with uid, groups in their order and every extra value, as long as
    the identity is UTF-8; and no identity is encoded as the empty string, which would read as absent. *)
Theorem identity_round_trip (i : RecordedIdentity) (m : ObjectMeta) :
  valid_identity i -> Rec_Username i <> "" ->
  Annotations m !! AuthorizedIdentityAnnotation = Some (marshal_identity i) ->
  marshal_identity i <> "" /\ unmarshal_identity (marshal_identity i) = Some i /\
  IdentityFromAnnotations m = Some (mkUserInfo (Rec_Username i) (Rec_UID i) (Rec_Groups i) (Rec_Extra i)).
Proof.
  intros Hv Hne%String.eqb_neq Ha. pose proof (marshal_identity_nonempty i) as Hn%String.eqb_neq.
  split; [by apply String.eqb_neq|]. split; [by apply identity_decodes|].
  unfold IdentityFromAnnotations, annotation. rewrite Ha. cbn [default from_option id]. rewrite Hn.
  by rewrite identity_decodes, Hne.
Qed.

Definition sample_identity : RecordedIdentity :=
  mkRecordedIdentity "jane" "u-1" ["dev"; "ops <all>"] {["scopes" := ["a/b&"; ""]]}.

Lemma identity_round_trip_witness :
  let m := mkObjectMeta "p" "team-a" "" "" 1 0 None []
    {[AuthorizedIdentityAnnotation := marshal_identity sample_identity]} in
  marshal_identity sample_identity <> "" /\
  unmarshal_identity (marshal_identity sample_identity) = Some sample_identity /\
  IdentityFromAnnotations m = Some (mkUserInfo "jane" "u-1" ["dev"; "ops <all>"] {["scopes" := ["a/b&"; ""]]}).
Proof.
  apply (identity_round_trip sample_identity); [|done|].
  - split; [done|]. split; [done|]. split; [repeat constructor|]. cbn.
    intros k l [<- <-]%lookup_singleton_Some. split; [done|]. repeat constructor.
  - cbn [Annotations]. by rewrite lookup_singleton_eq.
Defined.

End Identity.
