(* ===== verification/Scope.v ===== *)
(** Containment and tracker identity: [internal/scope/scope.go].

    [Validate] is the admission and reconcile-time table of what a contributor may say;
    [ResolveTargetNamespace] and [TargetKeyFor] decide which object it reaches whatever it says;
    [TrackerKindFor] and [TrackerName] decide which tracker owns a target. *)
From stdpp Require Import strings base list gmap fin_maps.
From Stdlib Require Import Ascii NArith ZArith Lia.
From S2P Require Import Prelude GoStrings Values Sha256 ApiTypes.
Local Open Scope string_scope.
Local Open Scope list_scope.

Module Scope.
Import GoStrings Values Sha256 ApiTypes.

(** ** Target keys *)

Record TargetKey := mkTargetKey {
  Key_APIVersion : string;
  Key_Kind : string;
  Key_Namespace : string;
  Key_Name : string;
}.

#[export] Instance TargetKey_eq_dec : EqDecision TargetKey.
Proof. solve_decision. Defined.

Definition TargetKey_String (k : TargetKey) : string :=
  if String.eqb (Key_Namespace k) "" then
    Key_APIVersion k +:+ "/" +:+ Key_Kind k +:+ "/" +:+ Key_Name k
  else
    Key_APIVersion k +:+ "/" +:+ Key_Kind k +:+ "/" +:+ Key_Namespace k +:+ "/" +:+ Key_Name k.

Definition IsClusterScopedTarget (k : TargetKey) : bool := String.eqb (Key_Namespace k) "".

(** ** Validation *)

Inductive ErrorType := Required | Invalid | Forbidden | NotSupported.

Record FieldError := mkFieldError {
  Err_Type : ErrorType;
  Err_Field : string;
  Err_BadValue : option arg;
  Err_Detail : message;
}.

Definition field_required (f : string) (d : message) : FieldError := mkFieldError Required f None d.
Definition field_forbidden (f : string) (d : message) : FieldError := mkFieldError Forbidden f None d.
Definition field_invalid (f : string) (v : arg) (d : message) : FieldError := mkFieldError Invalid f (Some v) d.
Definition field_not_supported (f : string) (v : arg) (valid : list string) : FieldError :=
  mkFieldError NotSupported f (Some v) (Msg "" [AStrs valid]).

Definition text (s : string) : message := Msg s [].

(** [when b e]: the error list holding [e] if [b]. *)
Definition when (b : bool) (e : FieldError) : list FieldError := if b then [e] else [].

Definition is_some {A} (o : option A) : bool := match o with Some _ => true | None => false end.

(** A [RESTMapper] lookup, absent at admission when there is no mapper. *)
Abbreviation KindLookup := (option (string -> string -> res goerror bool)).

Definition effective_mode (spec : ResourcePatchSpec) : string :=
  let mode := Target_Mode (Target spec) in
  if String.eqb mode "" then TargetModeSingle else mode.

Definition validateTargetIdentity (spec : ResourcePatchSpec) : list FieldError :=
  when (String.eqb (Target_APIVersion (Target spec)) "")
    (field_required "spec.target.apiVersion" (text "the target's apiVersion is required")) ++
  when (String.eqb (Target_Kind (Target spec)) "")
    (field_required "spec.target.kind" (text "the target's kind is required")).

Definition validateMode (spec : ResourcePatchSpec) : list FieldError :=
  let t := Target spec in
  let mode := effective_mode spec in
  if String.eqb mode TargetModeSingle then
    when (String.eqb (Target_Name t) "")
      (field_required "spec.target.name" (text "name is required in Single mode")) ++
    when (is_some (Target_Selector t))
      (field_forbidden "spec.target.selector" (text "selector is only valid in Selector mode")) ++
    when (is_some (Target_NamespaceSelector t))
      (field_forbidden "spec.target.namespaceSelector"
         (text "namespaceSelector is only valid in Selector mode"))
  else if String.eqb mode TargetModeSelector then
    when (negb (String.eqb (Target_Name t) ""))
      (field_forbidden "spec.target.name" (text "name is forbidden in Selector mode")) ++
    when (negb (is_some (Target_Selector t)) && negb (is_some (Target_NamespaceSelector t)))
      (field_required "spec.target.selector"
         (text "Selector mode needs a selector or a namespaceSelector")) ++
    when (Target_MaxTargets t <? 0)%Z
      (field_invalid "spec.target.maxTargets" (AInt (Target_MaxTargets t))
         (text "maxTargets must be positive"))
  else [field_not_supported "spec.target.mode" (AStr mode) [TargetModeSingle; TargetModeSelector]].

Definition validateLifecycle (spec : ResourcePatchSpec) : list FieldError :=
  let lc := Lifecycle spec in
  let create := String.eqb (OnMissing lc) OnMissingCreate in
  let delete := String.eqb (OnRelease lc) OnReleaseDelete in
  (if String.eqb (effective_mode spec) TargetModeSelector then
     when create (field_forbidden "spec.lifecycle.onMissing"
       (text "onMissing: Create is invalid in Selector mode; there is no single object to create")) ++
     when delete (field_forbidden "spec.lifecycle.onRelease"
       (text "onRelease: Delete is invalid in Selector mode; a matched object was not created by this contributor"))
   else []) ++
  when (delete && negb create) (field_forbidden "spec.lifecycle.onRelease"
    (text "onRelease: Delete requires onMissing: Create; only the contributor that created a target may delete it")) ++
  when (create && negb (is_some (Base spec))) (field_required "spec.base"
    (text "onMissing: Create needs spec.base as the seed manifest")) ++
  when (String.eqb (BaseReconcile lc) BaseReconcileEnforce) (field_forbidden "spec.lifecycle.baseReconcile"
    (text "baseReconcile: Enforce is not implemented in v1alpha1; it needs its own priority semantics against contributions")).

(** The pointer is nil or the extension holds no bytes. *)
Definition raw_missing (r : option RawExtension) : bool :=
  match r with None => true | Some r => raw_empty r end.

(** The loop over [mergeKeys], from index [i]. *)
Fixpoint validate_merge_keys (i : nat) (mks : list MergeKey) : list FieldError :=
  match mks with
  | [] => []
  | mk :: rest =>
      let at_ f := "spec.patch.mergeKeys[" +:+ utoa (N.of_nat i) +:+ "]." +:+ f in
      when (String.eqb (MergeKey_Path mk) "") (field_required (at_ "path") (text "path is required")) ++
      when (String.eqb (MergeKey_Key mk) "") (field_required (at_ "key") (text "key is required")) ++
      validate_merge_keys (S i) rest
  end.

Definition effective_patch_type (p : PatchSpec) : string :=
  if String.eqb (Patch_Type p) "" then PatchTypeStrategicMerge else Patch_Type p.

Definition validatePatch (spec : ResourcePatchSpec) : list FieldError :=
  let p := Patch spec in
  let patchType := effective_patch_type p in
  (if String.eqb patchType PatchTypeStrategicMerge || String.eqb patchType PatchTypeMerge then
     when (raw_missing (Patch_Value p))
       (field_required "spec.patch.value" (Msg "value is required for type %s" [AStr patchType])) ++
     when (is_some (Patch_Ops p))
       (field_forbidden "spec.patch.ops" (Msg "ops is only valid for type %s" [AStr PatchTypeJSON6902]))
   else if String.eqb patchType PatchTypeJSON6902 then
     when (raw_missing (Patch_Ops p))
       (field_required "spec.patch.ops" (text "ops is required for type JSON6902")) ++
     when (is_some (Patch_Value p))
       (field_forbidden "spec.patch.value" (text "value is not used for type JSON6902"))
   else [field_not_supported "spec.patch.type" (AStr patchType)
           [PatchTypeStrategicMerge; PatchTypeMerge; PatchTypeJSON6902]]) ++
  when (negb (Nat.eqb (length (Patch_MergeKeys p)) 0) &&
        String.eqb (Apply_Mode (Apply spec)) ApplyModeServerSideApply)
    (field_forbidden "spec.patch.mergeKeys"
       (text "mergeKeys only apply under apply.mode: ClientSideApply; server-side apply takes list semantics from the target's schema")) ++
  validate_merge_keys 0 (Patch_MergeKeys p).

Definition validateNamespaced (spec : ResourcePatchSpec) (own : string) (isNamespacedKind : KindLookup)
    : list FieldError :=
  let t := Target spec in
  when (negb (String.eqb (Target_Namespace t) "") && negb (String.eqb (Target_Namespace t) own))
    (field_invalid "spec.target.namespace" (AStr (Target_Namespace t))
       (Msg "a ResourcePatch may only target its own namespace (%q); use a ClusterResourcePatch to cross a namespace boundary" [AStr own])) ++
  match isNamespacedKind with
  | Some look =>
      match look (Target_APIVersion t) (Target_Kind t) with
      | Ok false =>
          [field_invalid "spec.target.kind" (AStr (Target_Kind t))
             (text "a ResourcePatch may only target namespaced kinds; use a ClusterResourcePatch for a cluster-scoped target")]
      | _ => []
      end
  | None => []
  end ++
  when (is_some (Target_NamespaceSelector t))
    (field_forbidden "spec.target.namespaceSelector"
       (text "namespaceSelector is forbidden on a ResourcePatch, which is confined to its own namespace")) ++
  match Spec_ServiceAccountRef spec with
  | Some sa =>
      when (negb (String.eqb (SA_Namespace sa) "") && negb (String.eqb (SA_Namespace sa) own))
        (field_invalid "spec.serviceAccountRef.namespace" (AStr (SA_Namespace sa))
           (text "a ResourcePatch may only impersonate a ServiceAccount in its own namespace"))
  | None => []
  end.

Definition validateClusterScoped (spec : ResourcePatchSpec) (isNamespacedKind : KindLookup)
    : list FieldError :=
  let t := Target spec in
  match isNamespacedKind with
  | None => []
  | Some look =>
      match look (Target_APIVersion t) (Target_Kind t) with
      | Err _ => []
      | Ok namespaced =>
          if namespaced && String.eqb (effective_mode spec) TargetModeSingle &&
             String.eqb (Target_Namespace t) "" then
            [field_required "spec.target.namespace"
               (Msg "namespace is required for the namespaced kind %q" [AStr (Target_Kind t)])]
          else if negb namespaced && negb (String.eqb (Target_Namespace t) "") then
            [field_forbidden "spec.target.namespace"
               (Msg "namespace is forbidden for the cluster-scoped kind %q" [AStr (Target_Kind t)])]
          else []
      end
  end.

Definition isOwnKind (apiVersion kind : string) : bool :=
  (has_prefix apiVersion (Group +:+ "/") || String.eqb apiVersion Group) &&
  (String.eqb kind KindResourcePatch || String.eqb kind KindClusterResourcePatch ||
   String.eqb kind KindSharedResource || String.eqb kind KindClusterSharedResource).

Definition Validate (c : Contributor) (isNamespacedKind : KindLookup) : list FieldError :=
  let spec := GetPatchSpec c in
  validateTargetIdentity spec ++ validateMode spec ++ validateLifecycle spec ++ validatePatch spec ++
  (if IsClusterScoped c then validateClusterScoped spec isNamespacedKind
   else validateNamespaced spec (Namespace (c_meta c)) isNamespacedKind) ++
  when (isOwnKind (Target_APIVersion (Target spec)) (Target_Kind (Target spec)))
    (field_invalid "spec.target.kind" (AStr (Target_Kind (Target spec)))
       (text "a contributor may not target this operator's own kinds; that would reconcile itself")).

(** ** Which object, which tracker *)

Definition ResolveTargetNamespace (c : Contributor) : string :=
  if negb (IsClusterScoped c) then Namespace (c_meta c) else Target_Namespace (Target (GetPatchSpec c)).

Definition TargetKeyFor (c : Contributor) : TargetKey :=
  let t := Target (GetPatchSpec c) in
  mkTargetKey (Target_APIVersion t) (Target_Kind t) (ResolveTargetNamespace c) (Target_Name t).

Definition TrackerKindFor (key : TargetKey) (hasClusterScopedContributor : bool) : string :=
  if IsClusterScopedTarget key || hasClusterScopedContributor
  then KindClusterSharedResource else KindSharedResource.

Definition is_dns_byte (c : ascii) : bool :=
  is_lower c || is_digit c || Ascii.eqb c "-" || Ascii.eqb c ".".

Definition is_sep (c : ascii) : bool := Ascii.eqb c "-" || Ascii.eqb c ".".

(** The loop of [sanitizeDNS1123]; [last] is the last byte of [out], if any. *)
Fixpoint sanitize_loop (last : option ascii) (s : string) : string :=
  match s with
  | "" => ""
  | String c rest =>
      if is_dns_byte c then String c (sanitize_loop (Some c) rest)
      else if is_upper c then String (lower c) (sanitize_loop (Some (lower c)) rest)
      else
        match last with
        | Some l =>
            if negb (Ascii.eqb l "-") then String "-" (sanitize_loop (Some "-"%char) rest)
            else sanitize_loop last rest
        | None => sanitize_loop last rest
        end
  end.

Definition sanitizeDNS1123 (s : string) : string := trim is_sep (sanitize_loop None s).

Definition DNS1123SubdomainMaxLength : nat := 253.

Definition tracker_readable (key : TargetKey) : string :=
  let group := match cut "/" (Key_APIVersion key) with Some (g, _) => g | None => "" end in
  let readable := to_lower (Key_Kind key) in
  let readable := if String.eqb group "" then readable else readable +:+ "." +:+ group in
  let readable := if String.eqb (Key_Namespace key) "" then readable else readable +:+ "-" +:+ Key_Namespace key in
  readable +:+ "-" +:+ Key_Name key.

Definition name_suffix (key : TargetKey) : string := stake 10 (sha256_hex (TargetKey_String key)).

Definition TrackerName (key : TargetKey) : string :=
  let readable := sanitizeDNS1123 (tracker_readable key) in
  let suffix := name_suffix key in
  let maxReadable := DNS1123SubdomainMaxLength - String.length suffix - 1 in
  let readable := if (maxReadable <? String.length readable)%nat then stake maxReadable readable else readable in
  let readable := trim is_sep readable in
  let readable := if String.eqb readable "" then "target" else readable in
  readable +:+ "-" +:+ suffix.

Definition TrackerNamespace (trackerKind : string) (key : TargetKey) : string :=
  if String.eqb trackerKind KindSharedResource then Key_Namespace key else "".

End Scope.
