(* ===== verification/Kube.v ===== *)
(** What the code takes from Kubernetes libraries, as one interface. *)
From stdpp Require Import strings base list.
From S2P Require Import Prelude GoStrings ApiTypes Scope.
Local Open Scope string_scope.
Local Open Scope list_scope.

Module Kube.
Import GoStrings ApiTypes Scope.

Class KubeLib := {
  (** [schema.ParseGroupVersion]: group and version. *)
  ParseGroupVersion : string -> res goerror (string * string);
  (** The error of [metav1.LabelSelectorAsSelector]. *)
  selector_error : LabelSelector -> option goerror;
  (** [field.ErrorList.ToAggregate().Error()]. *)
  aggregate_error : list FieldError -> string;
  (** The [RESTMapper]: the resource of a kind, and whether it is namespaced. *)
  rest_mapping : string -> string -> res goerror (string * bool);
  (** [err.Error()]. *)
  error_text : goerror -> string;
  (** [apiequality.Semantic.DeepEqual] on specs. *)
  spec_equal : ResourcePatchSpec -> ResourcePatchSpec -> bool;
}.

(** A library in which everything parses and every kind is namespaced, for examples. *)
Definition plain_library : KubeLib :=
  {| ParseGroupVersion := fun s => Ok ("", s); selector_error := fun _ => None;
     aggregate_error := fun _ => ""; rest_mapping := fun _ k => Ok (k, true); error_text := fun _ => "";
     spec_equal := fun _ _ => true |}.

End Kube.
