(* ===== verification/Containment.v ===== *)
(** What [scope.Validate] accepts, stated as rules, and the containment property it and
    [scope.TargetKeyFor] establish: a [ResourcePatch] reaches only its own namespace. *)
From stdpp Require Import strings base list gmap fin_maps.
From Stdlib Require Import Ascii NArith ZArith Lia.
From S2P Require Import Prelude GoStrings Values ApiTypes Scope.
Local Open Scope string_scope.
Local Open Scope list_scope.

Module Containment.
Import GoStrings Values ApiTypes Scope.

(** ** The rules *)

Definition mode_admissible (spec : ResourcePatchSpec) : Prop :=
  let t := Target spec in
  (effective_mode spec = TargetModeSingle /\ Target_Name t <> "" /\
   Target_Selector t = None /\ Target_NamespaceSelector t = None) \/
  (effective_mode spec = TargetModeSelector /\ Target_Name t = "" /\
   (Target_Selector t <> None \/ Target_NamespaceSelector t <> None) /\ (0 <= Target_MaxTargets t)%Z).

Definition lifecycle_admissible (spec : ResourcePatchSpec) : Prop :=
  let lc := Lifecycle spec in
  (effective_mode spec = TargetModeSelector -> OnMissing lc <> OnMissingCreate /\ OnRelease lc <> OnReleaseDelete) /\
  (OnRelease lc = OnReleaseDelete -> OnMissing lc = OnMissingCreate) /\
  (OnMissing lc = OnMissingCreate -> Base spec <> None) /\
  BaseReconcile lc <> BaseReconcileEnforce.

Definition raw_given (r : option RawExtension) : Prop := exists x, r = Some x /\ x <> RawEmpty.

Definition patch_admissible (spec : ResourcePatchSpec) : Prop :=
  let p := Patch spec in
  (((effective_patch_type p = PatchTypeStrategicMerge \/ effective_patch_type p = PatchTypeMerge) /\
    raw_given (Patch_Value p) /\ Patch_Ops p = None) \/
   (effective_patch_type p = PatchTypeJSON6902 /\ raw_given (Patch_Ops p) /\ Patch_Value p = None)) /\
  (Patch_MergeKeys p <> [] -> Apply_Mode (ApiTypes.Apply spec) <> ApplyModeServerSideApply) /\
  Forall (fun mk => MergeKey_Path mk <> "" /\ MergeKey_Key mk <> "") (Patch_MergeKeys p).

(** What the kind lookup says, when there is one and it answers. *)
Definition known_namespaced (look : KindLookup) (t : TargetRef) (b : bool) : Prop :=
  exists f, look = Some f /\ f (Target_APIVersion t) (Target_Kind t) = Ok b.

Definition namespaced_admissible (spec : ResourcePatchSpec) (own : string) (look : KindLookup) : Prop :=
  let t := Target spec in
  (Target_Namespace t = "" \/ Target_Namespace t = own) /\
  ~ known_namespaced look t false /\
  Target_NamespaceSelector t = None /\
  (forall sa, Spec_ServiceAccountRef spec = Some sa -> SA_Namespace sa = "" \/ SA_Namespace sa = own).

Definition cluster_admissible (spec : ResourcePatchSpec) (look : KindLookup) : Prop :=
  let t := Target spec in
  (known_namespaced look t true -> effective_mode spec = TargetModeSingle -> Target_Namespace t <> "") /\
  (known_namespaced look t false -> Target_Namespace t = "").

Definition admissible (c : Contributor) (look : KindLookup) : Prop :=
  let spec := GetPatchSpec c in
  Target_APIVersion (Target spec) <> "" /\ Target_Kind (Target spec) <> "" /\
  mode_admissible spec /\ lifecycle_admissible spec /\ patch_admissible spec /\
  match c with
  | ResourcePatch o => namespaced_admissible spec (Namespace (p_meta o)) look
  | ClusterResourcePatch _ => cluster_admissible spec look
  end /\
  isOwnKind (Target_APIVersion (Target spec)) (Target_Kind (Target spec)) = false.

(** ** Each check accepts exactly its rule *)

Lemma when_nil b e : when b e = [] <-> b = false.
Proof. by destruct b. Qed.

Lemma eqb_false s t : String.eqb s t = false <-> s <> t.
Proof. apply String.eqb_neq. Qed.

Lemma neqb_false s t : negb (String.eqb s t) = false <-> s = t.
Proof. rewrite negb_false_iff. apply String.eqb_eq. Qed.

Lemma is_some_false {A} (o : option A) : is_some o = false <-> o = None.
Proof. by destruct o. Qed.

Lemma is_some_true {A} (o : option A) : is_some o = true <-> o <> None.
Proof. by destruct o. Qed.

Lemma raw_missing_false r : raw_missing r = false <-> raw_given r.
Proof. unfold raw_given. destruct r as [[]|]; cbn; naive_solver. Qed.

Lemma ns_check_false s own :
  (negb (String.eqb s "") && negb (String.eqb s own))%bool = false <-> s = "" \/ s = own.
Proof. rewrite andb_false_iff, !neqb_false. done. Qed.

Lemma validateMode_nil spec : validateMode spec = [] <-> mode_admissible spec.
Proof.
  unfold validateMode, mode_admissible.
  destruct (String.eqb_spec (effective_mode spec) TargetModeSingle) as [E|E].
  - rewrite E, !app_nil, !when_nil, eqb_false, !is_some_false.
    split; [by left|]. intros [(_ & H)|([=] & _)]. exact H.
  - destruct (String.eqb_spec (effective_mode spec) TargetModeSelector) as [E'|E'].
    + rewrite !app_nil, !when_nil, neqb_false, andb_false_iff, !negb_false_iff, !is_some_true, Z.ltb_ge.
      naive_solver.
    + split; [done|]. naive_solver.
Qed.

Lemma validateLifecycle_nil spec : validateLifecycle spec = [] <-> lifecycle_admissible spec.
Proof.
  unfold validateLifecycle, lifecycle_admissible. cbv zeta.
  rewrite !app_nil, !when_nil, !andb_false_iff, !negb_false_iff, is_some_true,
    (eqb_false (BaseReconcile (Lifecycle spec))).
  assert (forall b1 b2 e1 e2, (if String.eqb (effective_mode spec) TargetModeSelector
            then when b1 e1 ++ when b2 e2 else []) = [] <->
          (effective_mode spec = TargetModeSelector -> b1 = false /\ b2 = false)) as ->.
  { intros b1 b2 e1 e2. destruct (String.eqb_spec (effective_mode spec) TargetModeSelector).
    - rewrite app_nil, !when_nil. naive_solver.
    - naive_solver. }
  destruct (String.eqb_spec (OnMissing (Lifecycle spec)) OnMissingCreate),
    (String.eqb_spec (OnRelease (Lifecycle spec)) OnReleaseDelete); intuition congruence.
Qed.

Lemma validate_merge_keys_nil mks : forall i,
  validate_merge_keys i mks = [] <->
  Forall (fun mk => MergeKey_Path mk <> "" /\ MergeKey_Key mk <> "") mks.
Proof.
  induction mks as [|mk mks IH]; intros i; [by split|]. cbn [validate_merge_keys].
  rewrite !app_nil, !when_nil, !eqb_false, IH, Forall_cons. naive_solver.
Qed.

Lemma validatePatch_nil spec : validatePatch spec = [] <-> patch_admissible spec.
Proof.
  unfold validatePatch, patch_admissible. cbv zeta.
  rewrite !app_nil, when_nil, validate_merge_keys_nil, andb_false_iff, negb_false_iff, Nat.eqb_eq,
    length_zero_iff_nil, eqb_false.
  assert (forall A B C : Prop, A <-> B -> (C <-> Patch_MergeKeys (Patch spec) = [] \/
            Apply_Mode (ApiTypes.Apply spec) <> ApplyModeServerSideApply) ->
          forall D, A /\ C /\ D <->
            B /\ (Patch_MergeKeys (Patch spec) <> [] -> Apply_Mode (ApiTypes.Apply spec) <> ApplyModeServerSideApply) /\ D)
    as Hsplit.
  { intros A B C HA HC D. destruct (Patch_MergeKeys (Patch spec)); naive_solver. }
  apply Hsplit; [|done]. clear Hsplit.
  destruct (String.eqb_spec (effective_patch_type (Patch spec)) PatchTypeStrategicMerge) as [E|E];
  [|destruct (String.eqb_spec (effective_patch_type (Patch spec)) PatchTypeMerge) as [E'|E']];
  cbn [orb].
  - rewrite E, app_nil, !when_nil, raw_missing_false, is_some_false.
    unfold PatchTypeStrategicMerge, PatchTypeJSON6902. naive_solver.
  - rewrite E', app_nil, !when_nil, raw_missing_false, is_some_false.
    unfold PatchTypeMerge, PatchTypeJSON6902. naive_solver.
  - destruct (String.eqb_spec (effective_patch_type (Patch spec)) PatchTypeJSON6902) as [E''|E''].
    + rewrite app_nil, !when_nil, raw_missing_false, is_some_false. naive_solver.
    + split; [done|]. naive_solver.
Qed.

Lemma known_Some f t b :
  known_namespaced (Some f) t b <-> f (Target_APIVersion t) (Target_Kind t) = Ok b.
Proof. unfold known_namespaced. split; [intros (g & [= <-] & H); done|]. by exists f. Qed.

Lemma known_None t b : ~ known_namespaced None t b.
Proof. by intros (f & ? & _). Qed.

Lemma validateNamespaced_nil spec own look :
  validateNamespaced spec own look = [] <-> namespaced_admissible spec own look.
Proof.
  unfold validateNamespaced, namespaced_admissible. cbv zeta.
  rewrite !app_nil, !when_nil, ns_check_false, is_some_false.
  assert (match Spec_ServiceAccountRef spec with
          | Some sa => when (negb (String.eqb (SA_Namespace sa) "") && negb (String.eqb (SA_Namespace sa) own))
              (field_invalid "spec.serviceAccountRef.namespace" (AStr (SA_Namespace sa))
                 (text "a ResourcePatch may only impersonate a ServiceAccount in its own namespace"))
          | None => [] end = [] <->
          forall sa, Spec_ServiceAccountRef spec = Some sa -> SA_Namespace sa = "" \/ SA_Namespace sa = own) as ->.
  { destruct (Spec_ServiceAccountRef spec) as [sa|]; [|naive_solver].
    rewrite when_nil, ns_check_false. naive_solver. }
  destruct look as [f|]; [rewrite known_Some|pose proof (known_None (Target spec) false); tauto].
  destruct (f (Target_APIVersion (Target spec)) (Target_Kind (Target spec))) as [[]|]; intuition congruence.
Qed.

Lemma validateClusterScoped_nil spec look :
  validateClusterScoped spec look = [] <-> cluster_admissible spec look.
Proof.
  unfold validateClusterScoped, cluster_admissible. cbv zeta.
  destruct look as [f|].
  2: { split; [|done]. intros _. by split; intros ?%known_None. }
  rewrite !known_Some.
  destruct (f (Target_APIVersion (Target spec)) (Target_Kind (Target spec))) as [[]|]; cbn [andb negb];
    [| |by split];
    destruct (String.eqb_spec (effective_mode spec) TargetModeSingle),
      (String.eqb_spec (Target_Namespace (Target spec)) ""); cbn [andb negb]; intuition congruence.
Qed.

Lemma Validate_nil c look : Validate c look = [] <-> admissible c look.
Proof.
  unfold Validate, admissible, validateTargetIdentity. cbv zeta.
  rewrite !app_nil, !when_nil, validateMode_nil, validateLifecycle_nil, validatePatch_nil, !eqb_false.
  destruct c as [o|o]; cbn [IsClusterScoped];
    [rewrite validateNamespaced_nil|rewrite validateClusterScoped_nil]; cbn [c_meta patch_object]; tauto.
Qed.

(** ** Properties *)

(** (C35) [Validate] reports no error exactly for the contributors the admission table admits: the
    declarative rules per target mode, lifecycle, patch type, merge keys, contributor scope and
    loop safety. *)
Theorem Validate_iff (c : Contributor) (look : KindLookup) :
  Validate c look = [] <-> admissible c look.
Proof. apply Validate_nil. Qed.

(** (C1) Containment: the object a [ResourcePatch] addresses is in the patch's own namespace
    whatever its spec says; and a spec that validation accepts does not even name another
    namespace, select namespaces, borrow a foreign service account, or address a kind known to be
    cluster-scoped. *)
Theorem ResourcePatch_contained (o : PatchObject) (look : KindLookup) :
  let own := Namespace (p_meta o) in
  let spec := p_spec o in
  Key_Namespace (TargetKeyFor (ResourcePatch o)) = own /\
  (Validate (ResourcePatch o) look = [] ->
   (Target_Namespace (Target spec) = "" \/ Target_Namespace (Target spec) = own) /\
   Target_NamespaceSelector (Target spec) = None /\
   (forall sa, Spec_ServiceAccountRef spec = Some sa -> SA_Namespace sa = "" \/ SA_Namespace sa = own) /\
   ~ known_namespaced look (Target spec) false).
Proof.
  cbv zeta. split; [done|]. rewrite Validate_nil. intros (_ & _ & _ & _ & _ & (? & ? & ? & ?) & _). auto.
Qed.

Definition sample_patch (targetNamespace : string) : PatchObject :=
  mkPatchObject
    (mkObjectMeta "p" "team-a" "u1" "1" 1 0 None [] ∅)
    (mkResourcePatchSpec
       (mkTargetRef "" "v1" "ConfigMap" "cm" targetNamespace None None 0)
       (mkLifecycleSpec "" "" None "") (mkApplySpec "" "" "") 0 None None
       (mkPatchSpec "" (Some (RawJSON (VMap {["data" := VMap {["k" := VStr "v"]}]}))) None []))
    (mkResourcePatchStatus [] [] [] 0 "" None).

Lemma ResourcePatch_contained_witness :
  Validate (ResourcePatch (sample_patch "")) None = [] /\
  Key_Namespace (TargetKeyFor (ResourcePatch (sample_patch "team-b"))) = "team-a" /\
  (Target_Namespace (Target (p_spec (sample_patch ""))) = "" \/
   Target_Namespace (Target (p_spec (sample_patch ""))) = "team-a").
Proof.
  split; [reflexivity|]. split.
  - exact (proj1 (ResourcePatch_contained (sample_patch "team-b") None)).
  - exact (proj1 (proj2 (ResourcePatch_contained (sample_patch "") None) eq_refl)).
Defined.

End Containment.
