(* ===== verification/TrackerNames.v ===== *)
(** Tracker names: [scope.TrackerName] is a function of the target, stays in the DNS-1123 alphabet
    and length, and separates targets up to a collision of the truncated hash. *)
From stdpp Require Import strings base list gmap fin_maps.
From Stdlib Require Import Ascii NArith ZArith Lia.
From S2P Require Import Prelude GoStrings Values Sha256 ApiTypes Scope.
Local Open Scope string_scope.
Local Open Scope list_scope.

Module TrackerNames.
Import GoStrings Values Sha256 ApiTypes Scope.

Definition alnum (c : ascii) : bool := is_lower c || is_digit c.

(** The first and last bytes exist and satisfy [f]. *)
Definition first_byte (f : ascii -> bool) (s : string) : bool :=
  match s with "" => false | String c _ => f c end.

Fixpoint last_byte (f : ascii -> bool) (s : string) : bool :=
  match s with "" => false | String c "" => f c | String _ s' => last_byte f s' end.

(** *** Trimming and cutting *)

Lemma span_snd f s : snd (span f s) = "" \/ first_byte (fun c => negb (f c)) (snd (span f s)) = true.
Proof.
  induction s as [|c s IH]; [by left|]. cbn. destruct (f c) eqn:E; cbn; [|by right; rewrite E].
  by destruct (span f s).
Qed.

Lemma span_snd_forall g f s : forall_bytes g s = true -> forall_bytes g (snd (span f s)) = true.
Proof.
  rewrite <- (span_eq f s) at 1. rewrite forall_bytes_app. intros [_ H]%andb_prop. exact H.
Qed.

Lemma trim_right_first f g s :
  first_byte g s = true -> trim_right f s = "" \/ first_byte g (trim_right f s) = true.
Proof.
  destruct s as [|c s]; [done|]. cbn. intros H. destruct (trim_right f s); [|by right].
  destruct (f c); [by left|by right].
Qed.

Lemma trim_right_last f s :
  trim_right f s = "" \/ last_byte (fun c => negb (f c)) (trim_right f s) = true.
Proof.
  induction s as [|c s IH]; [by left|]. cbn. destruct (trim_right f s) as [|d t].
  - destruct (f c) eqn:E; [by left|]. right. cbn. by rewrite E.
  - right. destruct IH as [|IH]; [done|exact IH].
Qed.

Lemma trim_right_forall g f s : forall_bytes g s = true -> forall_bytes g (trim_right f s) = true.
Proof.
  induction s as [|c s IH]; [done|]. cbn. intros [Hc Hs]%andb_prop. specialize (IH Hs).
  destruct (trim_right f s); [destruct (f c); cbn; by rewrite ?Hc|]. cbn in *. by rewrite Hc, IH.
Qed.

Lemma length_trim_right f s : String.length (trim_right f s) <= String.length s.
Proof.
  induction s as [|c s IH]; [done|]. cbn. destruct (trim_right f s); [destruct (f c); cbn; lia|].
  cbn in *. lia.
Qed.

Lemma length_trim f s : String.length (trim f s) <= String.length s.
Proof.
  unfold trim, trim_left. etransitivity; [apply length_trim_right|].
  rewrite <- (span_eq f s) at 2. rewrite str_length_app. lia.
Qed.

Lemma trim_forall g f s : forall_bytes g s = true -> forall_bytes g (trim f s) = true.
Proof. intros H. by apply trim_right_forall, span_snd_forall. Qed.

Lemma trim_ends f s :
  trim f s = "" \/ (first_byte (fun c => negb (f c)) (trim f s) = true /\
                    last_byte (fun c => negb (f c)) (trim f s) = true).
Proof.
  unfold trim, trim_left. destruct (span_snd f s) as [->|H]; [by left|].
  destruct (trim_right_first f _ _ H) as [->|Hf]; [by left|].
  destruct (trim_right_last f (snd (span f s))) as [->|Hl]; [by left|]. by right.
Qed.

Lemma stake_forall g n s : forall_bytes g s = true -> forall_bytes g (stake n s) = true.
Proof.
  revert s. induction n as [|n IH]; intros [|c s]; try done. cbn. intros [-> Hs]%andb_prop. by apply IH.
Qed.

Lemma first_byte_app f s t : first_byte f s = true -> first_byte f (s +:+ t) = true.
Proof. by destruct s. Qed.

Lemma last_byte_app f s t : last_byte f t = true -> last_byte f (s +:+ t) = true.
Proof.
  intros H. induction s as [|c s IH]; [done|]. cbn [String.append last_byte].
  destruct (s +:+ t) eqn:E; [|done]. apply str_app_eq_nil in E as [_ ->]. done.
Qed.

Lemma last_byte_forall f s : s <> "" -> forall_bytes f s = true -> last_byte f s = true.
Proof.
  induction s as [|c s IH]; [done|]. cbn. intros _ [Hc Hs]%andb_prop.
  destruct s; [done|]. by apply IH.
Qed.

(** A byte that is in the alphabet and is no separator is a lower-case letter or a digit. *)
Lemma dns_alnum c : is_dns_byte c = true -> negb (is_sep c) = true -> alnum c = true.
Proof.
  unfold is_dns_byte, is_sep, alnum. intros H Hs. bool_simpl.
  destruct (is_lower c), (is_digit c), (Ascii.eqb c "-"), (Ascii.eqb c "."); done.
Qed.

Lemma first_byte_dns s :
  forall_bytes is_dns_byte s = true -> first_byte (fun c => negb (is_sep c)) s = true ->
  first_byte alnum s = true.
Proof. destruct s as [|c s]; [done|]. cbn. intros [H _]%andb_prop Hs. by apply dns_alnum. Qed.

(** *** Sanitising *)

Lemma is_dns_lower c : is_upper c = true -> is_dns_byte (lower c) = true.
Proof.
  intros H. assert (is_lower (lower c) = true) as Hl; [|unfold is_dns_byte; by rewrite Hl].
  unfold lower. rewrite H. apply andb_prop in H as [Hlo Hhi]. apply N.leb_le in Hlo, Hhi.
  change (N_of_ascii "A") with 65%N in Hlo. change (N_of_ascii "Z") with 90%N in Hhi.
  unfold is_lower, in_range.
  rewrite N_ascii_embedding by lia. change (N_of_ascii "a") with 97%N. change (N_of_ascii "z") with 122%N.
  apply andb_true_intro. split; apply N.leb_le; lia.
Qed.

Lemma sanitize_loop_dns s : forall l, forall_bytes is_dns_byte (sanitize_loop l s) = true.
Proof.
  induction s as [|c s IH]; intros l; [done|]. cbn [sanitize_loop].
  destruct (is_dns_byte c) eqn:E; [cbn; by rewrite E, IH|].
  destruct (is_upper c) eqn:Eu; [cbn; by rewrite is_dns_lower, IH|].
  destruct l as [l|]; [|apply IH]. destruct (negb (Ascii.eqb l "-")); [cbn; by rewrite IH|apply IH].
Qed.

(** *** The hash suffix *)

Lemma hex_digit_alnum n : (n < 16)%N -> alnum (hex_digit n) = true.
Proof.
  intros H.
  assert (forallb (fun k => alnum (hex_digit (N.of_nat k))) (seq 0 16) = true) as Hall by by vm_compute.
  rewrite forallb_forall in Hall. rewrite <- (N2Nat.id n). apply Hall, in_seq. lia.
Qed.

Lemma hex_word_spec w acc :
  String.length (hex_word w acc) = 8 + String.length acc /\
  (forall_bytes alnum acc = true -> forall_bytes alnum (hex_word w acc) = true).
Proof.
  unfold hex_word. cbn [foldr]. split; [done|]. intros H. cbn [forall_bytes]. rewrite H.
  assert (forall k, alnum (hex_digit (N.land k 15)) = true) as Hd.
  { intros k. apply hex_digit_alnum. change 15%N with (N.ones 4). rewrite N.land_ones.
    by apply N.mod_lt. }
  by rewrite !Hd.
Qed.

Lemma round_length st kw : length (round st kw) = length st.
Proof.
  unfold round. do 8 (destruct st as [|? st]; [done|]). by destruct st.
Qed.

Lemma foldl_round_length l : forall st, length (foldl round st l) = length st.
Proof. induction l as [|x l IH]; intros st; [done|]. cbn. by rewrite IH, round_length. Qed.

Lemma blocks_length fuel : forall ws h, length (blocks fuel ws h) = length h.
Proof.
  induction fuel as [|fuel IH]; intros ws h; [done|]. cbn. destruct ws; [done|].
  rewrite IH. unfold compress. by rewrite length_zip_with, foldl_round_length, Nat.min_id.
Qed.

Lemma sha256_hex_spec s :
  String.length (sha256_hex s) = 64 /\ forall_bytes alnum (sha256_hex s) = true.
Proof.
  unfold sha256_hex. assert (length (sha256_words s) = 8) as Hl.
  { unfold sha256_words. cbv zeta. by rewrite blocks_length. }
  change 64 with (8 * 8). rewrite <- Hl at 1. generalize (sha256_words s). clear Hl.
  induction l as [|w l [IHl IHd]]; [done|]. cbn [foldr length].
  destruct (hex_word_spec w (foldr hex_word "" l)) as [H1 H2]. rewrite H1, IHl.
  split; [lia|by apply H2].
Qed.

Lemma name_suffix_spec key :
  String.length (name_suffix key) = 10 /\ forall_bytes alnum (name_suffix key) = true.
Proof.
  unfold name_suffix. destruct (sha256_hex_spec (TargetKey_String key)) as [Hl Hd].
  split; [by rewrite length_stake, Hl|by apply stake_forall].
Qed.

Lemma alnum_dns s : forall_bytes alnum s = true -> forall_bytes is_dns_byte s = true.
Proof.
  induction s as [|c s IH]; [done|]. cbn. intros [Hc Hs]%andb_prop. rewrite IH by done.
  unfold alnum in Hc. unfold is_dns_byte. by rewrite Hc.
Qed.

(** *** The name *)

(** The readable part as it enters the name. *)
Lemma TrackerName_shape key :
  exists readable, TrackerName key = readable +:+ "-" +:+ name_suffix key /\
    String.length readable <= 242 /\ forall_bytes is_dns_byte readable = true /\
    first_byte alnum readable = true.
Proof.
  unfold TrackerName. cbv zeta. destruct (name_suffix_spec key) as [-> _].
  change (DNS1123SubdomainMaxLength - 10 - 1) with 242.
  set (r := sanitizeDNS1123 _). eexists. split; [reflexivity|].
  assert (forall_bytes is_dns_byte r = true) as Hr by apply trim_forall, sanitize_loop_dns.
  set (r2 := if (242 <? String.length r)%nat then stake 242 r else r).
  assert (forall_bytes is_dns_byte r2 = true /\ String.length r2 <= 242) as [Hr2 Hl2].
  { unfold r2. destruct (Nat.ltb_spec 242 (String.length r)); [|done].
    split; [by apply stake_forall|]. rewrite length_stake. lia. }
  pose proof (trim_forall is_dns_byte is_sep r2 Hr2) as Hd. pose proof (length_trim is_sep r2) as Hlen.
  destruct (String.eqb_spec (trim is_sep r2) "") as [_|Hne].
  - split; [cbn; lia|]. by split.
  - split; [lia|]. split; [done|].
    destruct (trim_ends is_sep r2) as [?|[Hf _]]; [done|]. by apply first_byte_dns.
Qed.

Lemma TrackerName_same_suffix k1 k2 : TrackerName k1 = TrackerName k2 -> name_suffix k1 = name_suffix k2.
Proof.
  destruct (TrackerName_shape k1) as (r1 & -> & _), (TrackerName_shape k2) as (r2 & -> & _).
  destruct (name_suffix_spec k1) as [L1 _], (name_suffix_spec k2) as [L2 _]. intros H.
  assert (String.length r1 = String.length r2) as Hl.
  { apply (f_equal String.length) in H. rewrite !str_length_app, L1, L2 in H. lia. }
  apply (f_equal (sdrop (String.length r1))) in H. rewrite sdrop_app_length, Hl, sdrop_app_length in H.
  by injection H.
Qed.

(** *** Key strings *)

Definition no_slash (s : string) : bool := no_byte "/" s.

(** A target as the API serves it: an API version with or without a group, no slash elsewhere. *)
Definition served (grouped : bool) (k : TargetKey) : Prop :=
  (if grouped then exists g v, Key_APIVersion k = g +:+ String "/" v /\ no_slash g = true /\ no_slash v = true
   else no_slash (Key_APIVersion k) = true) /\
  no_slash (Key_Kind k) = true /\ no_slash (Key_Namespace k) = true /\ no_slash (Key_Name k) = true.

Lemma cut_slash_inj a b s t :
  no_slash a = true -> no_slash b = true -> a +:+ String "/" s = b +:+ String "/" t -> a = b /\ s = t.
Proof.
  intros Ha Hb H. apply (f_equal (cut "/")) in H. rewrite !cut_app in H by done. by simplify_eq.
Qed.

Lemma no_slash_neq a s t : no_slash a = true -> a <> s +:+ String "/" t.
Proof.
  intros Ha ->. unfold no_slash in Ha. rewrite no_byte_app in Ha. apply andb_prop in Ha as [_ Ha].
  by cbn in Ha.
Qed.

Lemma TargetKey_String_inj g k1 k2 :
  served g k1 -> served g k2 -> TargetKey_String k1 = TargetKey_String k2 -> k1 = k2.
Proof.
  destruct k1 as [a1 d1 s1 n1], k2 as [a2 d2 s2 n2]. unfold served, TargetKey_String. cbn.
  intros (Ha1 & Hd1 & Hs1 & Hn1) (Ha2 & Hd2 & Hs2 & Hn2) H.
  assert (Hrest : forall r1 r2, a1 +:+ String "/" r1 = a2 +:+ String "/" r2 -> a1 = a2 /\ r1 = r2).
  { intros r1 r2 E. destruct g; [|by apply cut_slash_inj].
    destruct Ha1 as (g1 & v1 & -> & Hg1 & Hv1), Ha2 as (g2 & v2 & -> & Hg2 & Hv2).
    rewrite !str_app_assoc in E. cbn in E. apply cut_slash_inj in E as [-> E]; [|done..].
    by apply cut_slash_inj in E as [-> ->]. }
  destruct (String.eqb_spec s1 "") as [->|N1], (String.eqb_spec s2 "") as [->|N2];
    apply Hrest in H as [-> H]; apply cut_slash_inj in H as [-> H]; try done.
  - by subst.
  - by apply no_slash_neq in H.
  - symmetry in H. by apply no_slash_neq in H.
  - by apply cut_slash_inj in H as [-> ->].
Qed.

(** ** Properties *)

(** (C37) A tracker name is always valid in length and alphabet: at most 253 bytes, only lower-case
    letters, digits, dashes and dots, beginning and ending with a letter or digit, whatever the
    target is called. *)
Theorem TrackerName_wellformed (key : TargetKey) :
  String.length (TrackerName key) <= DNS1123SubdomainMaxLength /\
  forall_bytes is_dns_byte (TrackerName key) = true /\
  first_byte alnum (TrackerName key) = true /\ last_byte alnum (TrackerName key) = true.
Proof.
  destruct (TrackerName_shape key) as (r & -> & Hl & Hd & Hf).
  destruct (name_suffix_spec key) as [Ls Ds].
  split; [rewrite !str_length_app, Ls; unfold DNS1123SubdomainMaxLength; cbn; lia|].
  split; [|split].
  - rewrite !forall_bytes_app, Hd. cbn. by apply alnum_dns.
  - by apply first_byte_app.
  - apply last_byte_app, (last_byte_app _ "-" (name_suffix key)), last_byte_forall; [|exact Ds].
    intros E. by rewrite E in Ls.
Qed.

(** Two different targets have different key strings, and then different tracker names unless
    the first ten hexadecimal digits of the SHA-256 hashes of those strings coincide, however much
    of the readable part is sanitised or cut away. *)
Theorem TrackerName_separates (grouped : bool) (k1 k2 : TargetKey)
    (H1 : served grouped k1) (H2 : served grouped k2) (Hne : k1 <> k2) :
  TargetKey_String k1 <> TargetKey_String k2 /\
  (stake 10 (sha256_hex (TargetKey_String k1)) <> stake 10 (sha256_hex (TargetKey_String k2)) ->
   TrackerName k1 <> TrackerName k2).
Proof.
  split; [intros E; by apply Hne, (TargetKey_String_inj grouped)|].
  intros Hs E. by apply Hs, TrackerName_same_suffix.
Qed.

End TrackerNames.
