(* ===== verification/Render.v ===== *)
(** Turning a declared patch into a concrete contribution: [internal/render/render.go].

    The RFC 6902 library is an interface, [JsonPatch]: it decodes an op list and applies it to a
    document.  Trees are values, so the deep copies of the source are the identity. *)
From stdpp Require Import strings base list gmap fin_maps.
From Stdlib Require Import Ascii NArith ZArith Lia.
From S2P Require Import Prelude GoStrings Values Json Sha256 ApiTypes FieldPath.
Local Open Scope string_scope.
Local Open Scope list_scope.
Local Open Scope go_scope.

Module Render.
Import GoStrings Values Json Sha256 ApiTypes FieldPath.

Record Contribution := mkContribution {
  Object : gmap string value;
  Paths : list Path;
  Hash : string;
}.

Record RenderTarget := mkRenderTarget {
  RT_APIVersion : string;
  RT_Kind : string;
  RT_Name : string;
  RT_Namespace : string;
}.

(** ** Identity *)

Definition identity_meta (meta : gmap string value) (target : RenderTarget) : gmap string value :=
  let meta := <["name" := VStr (RT_Name target)]> meta in
  if String.eqb (RT_Namespace target) "" then meta else <["namespace" := VStr (RT_Namespace target)]> meta.

Definition withIdentity (fields : gmap string value) (target : RenderTarget) : gmap string value :=
  let obj := <["kind" := VStr (RT_Kind target)]> (<["apiVersion" := VStr (RT_APIVersion target)]> fields) in
  let meta := match obj !! "metadata" with Some (VMap m) => m | _ => ∅ end in
  <["metadata" := VMap (identity_meta meta target)]> obj.

Definition Identity (target : RenderTarget) : gmap string value :=
  {["apiVersion" := VStr (RT_APIVersion target);
    "kind" := VStr (RT_Kind target);
    "metadata" := VMap (identity_meta ∅ target)]}.

(** ** Leaf paths *)

Definition keyByPath_of (mergeKeys : list MergeKey) : gmap string string :=
  foldl (fun m mk => <[MergeKey_Path mk := MergeKey_Key mk]> m) ∅ mergeKeys.

(** The segment that addresses element [e] at position [i]. *)
Definition element_segment (mergeKey : string) (i : nat) (e : value) : Segment :=
  if String.eqb mergeKey "" then IndexSegment (Z.of_nat i)
  else
    match e with
    | VMap m =>
        match m !! mergeKey with
        | Some kv => KeySegment mergeKey (sprint_v kv)
        | None => IndexSegment (Z.of_nat i)
        end
    | _ => IndexSegment (Z.of_nat i)
    end.

Definition at_root (prefix : Path) : bool := match prefix with [] => true | _ => false end.

(** A claim on the whole value at [prefix]; the root itself is never one. *)
Definition claim (prefix : Path) : list Path := if at_root prefix then [] else [prefix].

Definition identity_key (k : string) : bool := String.eqb k "apiVersion" || String.eqb k "kind".

Fixpoint collectLeaves (v : value) (prefix : Path) (keyByPath : gmap string string) : list Path :=
  match v with
  | VMap t =>
      if Nat.eqb (size t) 0 then claim prefix
      else
        let entries :=
          map_fold (fun k e acc =>
              (k, collectLeaves e (Child prefix (FieldSegment k)) keyByPath) :: acc) [] t in
        let kept := filter (fun kv => negb (at_root prefix && identity_key kv.1)) entries in
        concat (map snd (sort key_less kept))
  | VList t =>
      if Nat.eqb (length t) 0 then claim prefix
      else
        let mergeKey := default "" (keyByPath !! Path_String prefix) in
        (fix go (i : nat) (l : list value) : list Path :=
           match l with
           | [] => []
           | e :: rest =>
               let seg := element_segment mergeKey i e in
               (if IsKeyMatch seg then [Child prefix seg]
                else collectLeaves e (Child prefix seg) keyByPath) ++ go (S i) rest
           end) 0 t
  | _ => claim prefix
  end.

Definition path_less (p q : Path) : bool := sltb (Path_String p) (Path_String q).

Definition sortPaths (p : list Path) : list Path := sort path_less p.

Definition LeafPaths (fields : gmap string value) (mergeKeys : list MergeKey) : list Path :=
  sortPaths (collectLeaves (VMap fields) [] (keyByPath_of mergeKeys)).

Definition PathStrings (paths : list Path) : list string := map Path_String paths.

(** [ParsePaths], with the path that failed as the error. *)
Fixpoint ParsePaths (l : list string) : res (string * parse_error) (list Path) :=
  match l with
  | [] => Ok []
  | s :: rest =>
      match Parse s with
      | Err e => Err (s, e)
      | Ok p => let! ps := ParsePaths rest in Ok (p :: ps)
      end
  end.

(** ** Decoding *)

(** The text of an [encoding/json] error is not modelled. *)
Definition json_error : goerror := OtherError "encoding/json".

(** [json.Unmarshal] into a [map[string]any]; JSON null leaves the map nil, which reads as empty. *)
Definition unmarshal_map (r : RawExtension) : res goerror (gmap string value) :=
  match r with
  | RawJSON (VMap m) => Ok m
  | RawJSON VNil => Ok ∅
  | _ => Err json_error
  end.

Definition decodeObject (raw : option RawExtension) (field : string) : res goerror (gmap string value) :=
  match raw with
  | None => Err (Errorf "%s must be set" [AStr field])
  | Some r =>
      if raw_empty r then Err (Errorf "%s must be set" [AStr field])
      else
        match unmarshal_map r with
        | Err e => Err (Wrapf "decoding %s: %w" [AStr field] e)
        | Ok m => Ok m
        end
  end.

Definition DecodeBase (raw : option RawExtension) : res goerror (gmap string value) :=
  decodeObject raw "spec.base".

(** [HashObject]; encoding an unstructured value does not fail. *)
Definition HashObject (obj : value) : string := "sha256:" +:+ sha256_hex (marshal obj).

(** ** JSON pointers *)

Definition isNumeric (s : string) : bool := negb (String.eqb s "") && forall_bytes is_digit s.

Definition pointerTokens (ptr : string) : list string :=
  let ptr := trim_prefix ptr "/" in
  if String.eqb ptr "" then []
  else map (fun p => replace2 "~" "0" "~" (replace2 "~" "1" "/" p)) (split "/" ptr).

(** A signed 64-bit integer, wrapping. *)
Definition wrap64 (z : Z) : Z := ((z + 2 ^ 63) mod 2 ^ 64 - 2 ^ 63)%Z.

Fixpoint index_value (n : Z) (tok : string) : Z :=
  match tok with
  | "" => n
  | String c rest => index_value (wrap64 (n * 10 + Z.of_N (digit_val c))) rest
  end.

Definition pointer_segment (tok : string) : Segment :=
  if String.eqb tok "-" then IndexSegment 0
  else if isNumeric tok then IndexSegment (index_value 0 tok)
  else FieldSegment tok.

Definition pathFromJSONPointer (ptr : string) : res goerror Path :=
  if String.eqb ptr "" || String.eqb ptr "/" then
    Err (Errorf "op path %q addresses the whole document, which a contribution may not claim" [AStr ptr])
  else if negb (has_prefix ptr "/") then Err (Errorf "op path %q must start with '/'" [AStr ptr])
  else
    match map pointer_segment (pointerTokens ptr) with
    | [] => Err (Errorf "no segments in op path %q" [AStr ptr])
    | out => Ok out
    end.

(** ** JSON6902 *)

Record jsonPatchOp := mkOp { Op_Op : string; Op_Path : string; Op_From : string }.

Definition op_string (m : gmap string value) (name : string) : res goerror string :=
  match json_field m name with
  | VStr s => Ok s
  | VNil => Ok ""
  | _ => Err json_error
  end.

Definition decode_op (v : value) : res goerror jsonPatchOp :=
  match v with
  | VNil => Ok (mkOp "" "" "")
  | VMap m =>
      let! op := op_string m "op" in
      let! path := op_string m "path" in
      let! from := op_string m "from" in
      Ok (mkOp op path from)
  | _ => Err json_error
  end.

Fixpoint decode_op_list (l : list value) : res goerror (list jsonPatchOp) :=
  match l with
  | [] => Ok []
  | v :: rest =>
      let! op := decode_op v in
      let! ops := decode_op_list rest in
      Ok (op :: ops)
  end.

Definition decode_ops (r : RawExtension) : res goerror (list jsonPatchOp) :=
  match r with
  | RawJSON VNil => Ok []
  | RawJSON (VList l) => decode_op_list l
  | _ => Err json_error
  end.

(** Every map parent along the tokens exists. *)
Fixpoint ensure_parents (cur : gmap string value) (toks : list string) : gmap string value :=
  match toks with
  | [] => cur
  | tok :: rest =>
      let next := match cur !! tok with Some (VMap m) => m | _ => ∅ end in
      <[tok := VMap (ensure_parents next rest)]> cur
  end.

(** Store [v] at the end of a chain of maps. *)
Fixpoint put_at (cur : gmap string value) (toks : list string) (v : value) : gmap string value :=
  match toks with
  | [] => cur
  | [tok] => <[tok := v]> cur
  | tok :: rest =>
      match cur !! tok with
      | Some (VMap m) => <[tok := VMap (put_at m rest v)]> cur
      | _ => cur
      end
  end.

(** The body of the loop of [seedFor]. *)
Definition seed_op (seed : gmap string value) (op : jsonPatchOp) : gmap string value :=
  let tokens := pointerTokens (Op_Path op) in
  match tokens with
  | [] => seed
  | _ :: _ =>
      let parents := removelast tokens in
      let seed := ensure_parents seed parents in
      let leaf := List.last tokens "" in
      if String.eqb leaf "-" || isNumeric leaf then
        if 2 <=? length tokens then put_at seed parents (VList []) else seed
      else seed
  end%nat.

Definition seedFor (ops : list jsonPatchOp) : gmap string value := foldl seed_op ∅ ops.

(** The op paths, each once, in first-occurrence order; [seen] holds their strings. *)
Fixpoint op_paths (ops : list jsonPatchOp) (seen : gset string) : res goerror (list Path) :=
  match ops with
  | [] => Ok []
  | op :: rest =>
      let! p := pathFromJSONPointer (Op_Path op) in
      let s := Path_String p in
      if negb (String.eqb s "") && negb (bool_decide (s ∈ seen)) then
        let! ps := op_paths rest ({[s]} ∪ seen) in Ok (p :: ps)
      else op_paths rest seen
  end.

(** The RFC 6902 library: [DecodePatch] and [Patch.ApplyIndent], on decoded documents. *)
Class JsonPatch := {
  jpatch : Type;
  DecodePatch : RawExtension -> res goerror jpatch;
  ApplyIndent : jpatch -> value -> res goerror value;
}.

Section Rendering.
Context `{!JsonPatch}.

Definition renderJSON6902 (raw : option RawExtension) : res goerror (gmap string value * list Path) :=
  match raw with
  | None => Err (Errorf "patch.ops must be set for type JSON6902" [])
  | Some r =>
      if raw_empty r then Err (Errorf "patch.ops must be set for type JSON6902" [])
      else
        match decode_ops r with
        | Err e => Err (Wrapf "decoding patch.ops: %w" [] e)
        | Ok [] => Err (Errorf "patch.ops must not be empty" [])
        | Ok ops =>
            match DecodePatch r with
            | Err e => Err (Wrapf "decoding patch.ops as RFC 6902: %w" [] e)
            | Ok patch =>
                match ApplyIndent patch (VMap (seedFor ops)) with
                | Err e => Err (Wrapf "applying patch.ops to a skeleton: %w" [] e)
                | Ok applied =>
                    match unmarshal_map (RawJSON applied) with
                    | Err e => Err (Wrapf "decoding the result of patch.ops: %w" [] e)
                    | Ok fields =>
                        let! paths := op_paths ops ∅ in Ok (fields, sortPaths paths)
                    end
                end
            end
        end
  end.

(** The fields and paths a patch claims, before the target's identity is added. *)
Definition render_fields (spec : PatchSpec) : res goerror (gmap string value * list Path) :=
  let patchType := if String.eqb (Patch_Type spec) "" then PatchTypeStrategicMerge else Patch_Type spec in
  if String.eqb patchType PatchTypeStrategicMerge || String.eqb patchType PatchTypeMerge then
    let! fields := decodeObject (Patch_Value spec) "patch.value" in
    if Nat.eqb (size fields) 0 then Err (Errorf "patch.value must not be empty for type %s" [AStr patchType])
    else Ok (fields, LeafPaths fields (Patch_MergeKeys spec))
  else if String.eqb patchType PatchTypeJSON6902 then renderJSON6902 (Patch_Ops spec)
  else Err (Errorf "unsupported patch type %q" [AStr patchType]).

Definition Render (spec : option PatchSpec) (target : RenderTarget) : res goerror Contribution :=
  match spec with
  | None => Err (Errorf "patch spec is nil" [])
  | Some spec =>
      let! (fields, paths) := render_fields spec in
      let obj := withIdentity fields target in
      Ok (mkContribution obj paths (HashObject (VMap obj)))
  end.

End Rendering.

End Render.
