(* ===== verification/RenderSpec.v ===== *)
(** What rendering promises: the leaf paths of a patch address exactly what it sets, never one
    inside another, and the rendered object carries the target's identity. *)
From stdpp Require Import strings base list gmap fin_maps.
From Stdlib Require Import Ascii NArith ZArith Lia.
From S2P Require Import Prelude GoStrings Values Json Sha256 ApiTypes FieldPath FieldPathUpdate FieldPathRoundTrip Render.
Local Open Scope string_scope.
Local Open Scope list_scope.

Module RenderSpec.
Import GoStrings Values Json Sha256 ApiTypes FieldPath FieldPathUpdate FieldPathRoundTrip Render.

(** No map in the tree has an empty key. *)
Fixpoint named_tree (v : value) : bool :=
  match v with
  | VMap m => map_fold (fun k e b => negb (String.eqb k "") && named_tree e && b) true m
  | VList l => forallb named_tree l
  | _ => true
  end.

(** A scalar or an empty container. *)
Definition is_leaf (v : value) : bool :=
  match v with VMap m => Nat.eqb (size m) 0 | VList l => Nat.eqb (length l) 0 | _ => true end.

(** *** Folds over maps *)

Lemma elem_of_entries {B} (f : string -> value -> B) (m : gmap string value) k b :
  (k, b) ∈ map_fold (fun k e acc => (k, f k e) :: acc) [] m <-> exists e, m !! k = Some e /\ b = f k e.
Proof.
  revert k b. apply (map_fold_weak_ind (fun acc m => forall k b,
    (k, b) ∈ acc <-> exists e, m !! k = Some e /\ b = f k e)).
  - intros k b. rewrite elem_of_nil. split; [done|]. intros (e & He & _). by rewrite lookup_empty in He.
  - intros i x m' acc Hi IH k b. rewrite elem_of_cons, IH. split.
    + intros [[= -> ->]|(e & He & ->)]; [exists x; by rewrite lookup_insert_eq|].
      exists e. rewrite lookup_insert_ne; [done|]. intros ->. congruence.
    + intros (e & He & ->). destruct (decide (i = k)) as [->|Hne].
      * rewrite lookup_insert_eq in He. simplify_eq. by left.
      * rewrite lookup_insert_ne in He by done. right. by exists e.
Qed.

Lemma named_tree_map m k e :
  named_tree (VMap m) = true -> m !! k = Some e -> k <> "" /\ named_tree e = true.
Proof.
  cbn [named_tree]. revert k e.
  apply (map_fold_weak_ind (fun b m => forall k e, b = true -> m !! k = Some e -> k <> "" /\ named_tree e = true)).
  - intros k e _ H. by rewrite lookup_empty in H.
  - intros i x m' b Hi IH k e H He. bool_simpl. destruct (decide (i = k)) as [->|Hne].
    + rewrite lookup_insert_eq in He. by simplify_eq.
    + rewrite lookup_insert_ne in He by done. by eapply IH.
Qed.

Lemma named_tree_list l i e : named_tree (VList l) = true -> l !! i = Some e -> named_tree e = true.
Proof.
  cbn. rewrite forallb_forall. intros H He. apply H. apply list_elem_of_In. by eapply list_elem_of_lookup_2.
Qed.

(** *** Membership in the collected leaves *)

Lemma elem_of_collect_map t prefix kb p :
  p ∈ collectLeaves (VMap t) prefix kb <->
  (t = ∅ /\ p ∈ claim prefix) \/
  (exists k e, t !! k = Some e /\ (at_root prefix && identity_key k)%bool = false /\
     p ∈ collectLeaves e (Child prefix (FieldSegment k)) kb).
Proof.
  cbn [collectLeaves]. destruct (Nat.eqb_spec (size t) 0) as [H|H].
  - apply map_size_empty_inv in H as ->. split; [by left|].
    intros [[_ ?]|(k & e & He & _)]; [done|]. by rewrite lookup_empty in He.
  - rewrite list_elem_of_In, in_concat. split.
    + intros (ps & Hps & Hp). right. apply list_elem_of_In in Hps, Hp.
      apply list_elem_of_fmap in Hps as ([k ps'] & -> & Hkv).
      apply elem_of_sort, list_elem_of_filter in Hkv as [Hk Hkv]. cbn in Hk, Hp.
      apply elem_of_entries in Hkv as (e & He & ->). apply Is_true_true, negb_true_iff in Hk. by exists k, e.
    + intros [[-> _]|(k & e & He & Hk & Hp)]; [by rewrite map_size_empty in H|].
      exists (collectLeaves e (Child prefix (FieldSegment k)) kb). rewrite <- !list_elem_of_In.
      split; [|done]. apply list_elem_of_fmap. eexists (k, _). split; [done|].
      apply elem_of_sort, list_elem_of_filter. cbn. rewrite Hk. split; [done|].
      apply elem_of_entries. by exists e.
Qed.

(** What one list element contributes. *)
Definition element_leaves (mergeKey : string) (prefix : Path) (kb : gmap string string) (i : nat) (e : value)
    : list Path :=
  let seg := element_segment mergeKey i e in
  if IsKeyMatch seg then [Child prefix seg] else collectLeaves e (Child prefix seg) kb.

Lemma elem_of_collect_list t prefix kb p :
  p ∈ collectLeaves (VList t) prefix kb <->
  (t = [] /\ p ∈ claim prefix) \/
  (exists i e, t !! i = Some e /\
     p ∈ element_leaves (default "" (kb !! Path_String prefix)) prefix kb i e).
Proof.
  cbn [collectLeaves]. destruct (Nat.eqb_spec (length t) 0) as [H|H].
  - apply length_zero_iff_nil in H as ->. split; [by left|]. by intros [[_ ?]|(i & e & ? & _)].
  - set (mk := default _ _).
    match goal with |- p ∈ ?g 0 t <-> _ => set (go := g) end.
    assert (forall l i, p ∈ go i l <->
              exists j e, l !! j = Some e /\ p ∈ element_leaves mk prefix kb (i + j) e) as Hgo.
    { induction l as [|e l IH]; intros i.
      - cbn. rewrite elem_of_nil. split; [done|]. intros (j & e & He & _). by rewrite lookup_nil in He.
      - change (go i (e :: l)) with (element_leaves mk prefix kb i e ++ go (S i) l).
        rewrite elem_of_app, IH. split.
        + intros [Hp|(j & e' & He & Hp)]; [exists 0, e; by rewrite Nat.add_0_r|].
          exists (S j), e'. split; [done|]. by rewrite Nat.add_succ_r.
        + intros ([|j] & e' & He & Hp); cbn in He; [simplify_eq; left; by rewrite Nat.add_0_r in Hp|].
          right. exists j, e'. rewrite Nat.add_succ_r in Hp. done. }
    rewrite Hgo. cbn. split; [by right|]. intros [[-> _]|?]; [done|done].
Qed.

Lemma elem_of_claim p prefix : p ∈ claim prefix <-> p = prefix /\ prefix <> [].
Proof. destruct prefix; cbn; [rewrite elem_of_nil|rewrite list_elem_of_singleton]; naive_solver. Qed.

Lemma collect_scalar v prefix kb :
  as_map v = None -> as_list v = None -> collectLeaves v prefix kb = claim prefix.
Proof. by destruct v. Qed.

(** *** A relative description: [leaf_at v kb prefix r] if [prefix ++ r] is collected below [v] *)

Inductive leaf_at (kb : gmap string string) : value -> Path -> Path -> Prop :=
| leaf_here v prefix : is_leaf v = true -> leaf_at kb v prefix []
| leaf_field m prefix k e r :
    m !! k = Some e -> leaf_at kb e (Child prefix (FieldSegment k)) r ->
    leaf_at kb (VMap m) prefix (FieldSegment k :: r)
| leaf_keyed l prefix i e seg :
    l !! i = Some e -> seg = element_segment (default "" (kb !! Path_String prefix)) i e ->
    IsKeyMatch seg = true -> leaf_at kb (VList l) prefix [seg]
| leaf_index l prefix i e r :
    l !! i = Some e -> leaf_at kb e (Child prefix (IndexSegment (Z.of_nat i))) r ->
    leaf_at kb (VList l) prefix (IndexSegment (Z.of_nat i) :: r).

Lemma element_segment_cases mk i e :
  element_segment mk i e = IndexSegment (Z.of_nat i) \/
  exists m kv, e = VMap m /\ m !! mk = Some kv /\ mk <> "" /\ element_segment mk i e = KeySegment mk (sprint_v kv).
Proof.
  unfold element_segment. destruct (String.eqb_spec mk ""); [by left|].
  destruct e; try (by left). destruct (m !! mk) eqn:E; [|by left]. right. by eexists _, _.
Qed.

Lemma collect_leaf_at kb v : forall prefix p,
  p ∈ collectLeaves v prefix kb -> exists r, p = prefix ++ r /\ leaf_at kb v prefix r.
Proof.
  assert (forall v prefix p, is_leaf v = true -> p ∈ claim prefix ->
            exists r, p = prefix ++ r /\ leaf_at kb v prefix r) as Hhere.
  { intros w prefix p Hl [-> _]%elem_of_claim. exists []. split; [by rewrite (right_id_L [] (++))|by constructor]. }
  induction v as [| | | | |l IH|m IH] using value_rec_ind; intros prefix p Hp;
    try (rewrite collect_scalar in Hp by done; by apply Hhere).
  - apply elem_of_collect_list in Hp as [[-> Hp]|(i & e & He & Hp)]; [by apply Hhere|].
    rewrite Forall_lookup in IH. unfold element_leaves in Hp. cbv zeta in Hp.
    set (seg := element_segment _ i e) in *. destruct (IsKeyMatch seg) eqn:Hk.
    + apply list_elem_of_singleton in Hp as ->. exists [seg]. split; [done|]. by eapply leaf_keyed.
    + destruct (element_segment_cases (default "" (kb !! Path_String prefix)) i e)
        as [Hs|(m & kv & _ & _ & Hne & Hs)]; fold seg in Hs; rewrite Hs in *.
      * destruct (IH i e He _ _ Hp) as (r & -> & Hr). unfold Child.
        eexists. split; [by rewrite <- (assoc_L (++))|]. by eapply leaf_index.
      * unfold IsKeyMatch in Hk. cbn in Hk. bool_simpl. done.
  - apply elem_of_collect_map in Hp as [[-> Hp]|(k & e & He & _ & Hp)]; [by apply Hhere|].
    destruct (IH k e He _ _ Hp) as (r & -> & Hr). unfold Child.
    eexists. split; [by rewrite <- (assoc_L (++))|]. by eapply leaf_field.
Qed.

Lemma element_matches_itself m k kv : m !! k = Some kv -> elem_matches k (sprint_v kv) (VMap m) = true.
Proof. intros H. cbn. unfold map_get. rewrite H. apply String.eqb_refl. Qed.

(** A leaf path can be read. *)
Lemma leaf_at_Get kb v prefix r :
  leaf_at kb v prefix r -> named_tree v = true -> is_Some (Get v r).
Proof.
  induction 1 as [v prefix Hl|m prefix k e r Hk _ IH|l prefix i e seg He Hseg Hkey|l prefix i e r He _ IH];
    intros Hn.
  - by eexists.
  - destruct (named_tree_map _ _ _ Hn Hk) as [Hne Hne'].
    rewrite Get_field by by apply FieldSegment_IsField. cbn. rewrite Hk. by apply IH.
  - destruct (element_segment_cases (default "" (kb !! Path_String prefix)) i e)
      as [Hs|(m & kv & -> & Hkv & Hne & Hs)]; rewrite Hs in Hseg; subst seg.
    { by cbn in Hkey. }
    set (mk := default _ _) in *. cbn [Get]. unfold IsField, IsIndex, IsKeyMatch.
    cbn [Field Key Value Index KeySegment]. apply String.eqb_neq in Hne. rewrite Hne. cbn [negb andb String.eqb].
    destruct (findByKey l mk (sprint_v kv)) as [j|] eqn:Ej.
    + apply findByKey_lt in Ej. apply lookup_lt_is_Some in Ej as [w ->]. by eexists.
    + rewrite findByKey_none in Ej. specialize (Ej (VMap m) ltac:(by eapply list_elem_of_lookup_2)).
      by rewrite element_matches_itself in Ej.
  - cbn [Get]. assert (IsField (IndexSegment (Z.of_nat i)) = false) as -> by done.
    assert (IsIndex (IndexSegment (Z.of_nat i)) = true) as -> by (unfold IsIndex; cbn; by destruct i).
    cbn [Index IndexSegment]. rewrite Nat2Z.id, He. apply IH. by eapply named_tree_list.
Qed.

(** No leaf path continues another. *)
Lemma leaf_at_antichain kb v prefix r : leaf_at kb v prefix r ->
  forall r' s, leaf_at kb v prefix r' -> r' = r ++ s -> s = [].
Proof.
  induction 1 as [v prefix Hl|m prefix k e r Hk _ IH|l prefix i e seg He Hseg Hkey|l prefix i e r He _ IH];
    intros r' s Hr' ->.
  - cbn in Hr'. inversion Hr' as [|m ? k e r Hk Hr| l ? i e seg He _ _|l ? i e r He _]; subst; try done.
    + cbn in Hl. apply Nat.eqb_eq, map_size_empty_inv in Hl as ->. by rewrite lookup_empty in Hk.
    + cbn in Hl. apply Nat.eqb_eq, length_zero_iff_nil in Hl as ->. by rewrite lookup_nil in He.
    + cbn in Hl. apply Nat.eqb_eq, length_zero_iff_nil in Hl as ->. by rewrite lookup_nil in He.
  - cbn in Hr'. inversion Hr' as [|m' ? k' e' r' Hk' Hr| |]; subst. simplify_eq. by eapply IH.
  - cbn in Hr'. inversion Hr' as [| |l' ? i' e' seg' He' Hs' Hk'|l' ? i' e' r1 He' Hr1 E1 E2]; [done|].
    exfalso. match goal with H : IndexSegment _ = seg |- _ => rewrite <- H in Hkey end. done.
  - cbn in Hr'. inversion Hr' as [| |l' ? i' e' seg' He' Hs' Hk'|l' ? i' e' r1 He' Hr1]; subst.
    + by cbn in Hk'.
    + assert (i' = i) as -> by lia. simplify_eq. by eapply IH.
Qed.

(** Along map keys every leaf is collected. *)
Lemma collect_fields kb p : forall v prefix w,
  Get v (fields p) = Some w -> is_leaf w = true -> named p -> prefix ++ fields p <> [] ->
  (prefix <> [] \/ match p with f :: _ => identity_key f = false | [] => True end) ->
  prefix ++ fields p ∈ collectLeaves v prefix kb.
Proof.
  induction p as [|f p IH]; intros v prefix w Hg Hl Hp Hne Hroot.
  - cbn in Hg. simplify_eq. cbn in *. rewrite (right_id_L [] (++)) in Hne |- *.
    assert (prefix ∈ claim prefix) as Hc by by apply elem_of_claim.
    destruct w as [| | | | |l|m]; try done.
    + apply elem_of_collect_list. left. cbn in Hl. by apply Nat.eqb_eq, length_zero_iff_nil in Hl.
    + apply elem_of_collect_map. left. cbn in Hl. by apply Nat.eqb_eq, map_size_empty_inv in Hl.
  - inversion_clear Hp as [|? ? Hf Hr]. cbn [fields map] in *.
    assert (IsField (FieldSegment f) = true) as Hff by by apply FieldSegment_IsField.
    cbn [Get] in Hg. rewrite Hff in Hg. destruct v as [| | | | |l|m]; try done.
    cbn [Field FieldSegment] in Hg. destruct (m !! f) as [e|] eqn:He; [|done].
    apply elem_of_collect_map. right. exists f, e. split; [done|]. split.
    + destruct Hroot as [Hpre|Hid]; [by destruct prefix|]. rewrite Hid. apply andb_false_r.
    + change (FieldSegment f :: map FieldSegment p) with ([FieldSegment f] ++ fields p).
      rewrite (assoc_L (++)). unfold Child. eapply IH; eauto; [by destruct prefix|].
      left. by destruct prefix.
Qed.

Lemma elem_of_LeafPaths m mks p :
  p ∈ LeafPaths m mks <-> p ∈ collectLeaves (VMap m) [] (keyByPath_of mks).
Proof. apply elem_of_sort. Qed.

(** ** Properties *)

(** The leaf paths of a patch value are exactly its claims: each can be read in the value (list
    elements through their merge key), none lies inside another, and along map keys every scalar
    or empty container outside apiVersion and kind is among them. *)
Theorem LeafPaths_exact (m : gmap string value) (mks : list MergeKey) (Hn : named_tree (VMap m) = true) :
  (forall p, p ∈ LeafPaths m mks -> p <> [] /\ is_Some (Get (VMap m) p)) /\
  (forall p s, p ∈ LeafPaths m mks -> p ++ s ∈ LeafPaths m mks -> s = []) /\
  (forall f p w, named (f :: p) -> identity_key f = false ->
     Get (VMap m) (fields (f :: p)) = Some w -> is_leaf w = true -> fields (f :: p) ∈ LeafPaths m mks).
Proof.
  split; [|split].
  - intros p Hp. apply elem_of_LeafPaths in Hp. split.
    + apply elem_of_collect_map in Hp as [[-> Hp]|(k & e & _ & _ & Hp)]; [by apply elem_of_nil in Hp|].
      apply collect_leaf_at in Hp as (r & -> & _). done.
    + apply collect_leaf_at in Hp as (r & -> & Hr). by eapply leaf_at_Get.
  - intros p s Hp Hs. apply elem_of_LeafPaths in Hp, Hs.
    apply collect_leaf_at in Hp as (r & -> & Hr). apply collect_leaf_at in Hs as (r' & E & Hr').
    exact (leaf_at_antichain _ _ _ _ Hr r' s Hr' (eq_sym E)).
  - intros f p w Hp Hid Hg Hl. apply elem_of_LeafPaths.
    apply (collect_fields _ (f :: p) (VMap m) [] w); auto.
Qed.

Definition sample_value : gmap string value :=
  {["kind" := VStr "Ingress";
    "metadata" := VMap {["labels" := VMap {["team" := VStr "a"]}]};
    "spec" := VMap {["rules" := VList [VMap {["host" := VStr "a.example.com"; "port" := VInt 80]};
                                       VMap {["port" := VInt 81]}]]}]}.

(** The object carries the target's apiVersion, kind, name and namespace; [meta] is its metadata. *)
Definition addresses (obj meta : gmap string value) (target : RenderTarget) : Prop :=
  obj !! "apiVersion" = Some (VStr (RT_APIVersion target)) /\
  obj !! "kind" = Some (VStr (RT_Kind target)) /\
  obj !! "metadata" = Some (VMap meta) /\
  meta !! "name" = Some (VStr (RT_Name target)) /\
  (RT_Namespace target <> "" -> meta !! "namespace" = Some (VStr (RT_Namespace target))).

(** Whatever the patch says, the rendered object addresses the target and nothing else: its
    apiVersion, kind, name and, for a namespaced target, namespace are the target's, while every
    other field and every other metadata entry is the patch's own. *)
Theorem Render_addresses_target {JP : JsonPatch} (spec : PatchSpec) (target : RenderTarget) (c : Contribution)
    (Hok : Render (Some spec) target = Ok c) :
  exists claimed meta, render_fields spec = Ok (claimed, Paths c) /\
    addresses (Object c) meta target /\
    (forall k, k ∉ ["apiVersion"; "kind"; "metadata"] -> Object c !! k = claimed !! k) /\
    (forall k m, claimed !! "metadata" = Some (VMap m) -> k ∉ ["name"; "namespace"] -> meta !! k = m !! k).
Proof.
  unfold Render in Hok. apply res_bind_ok in Hok as ([claimed paths] & Hr & [= <-]).
  cbn [Object Paths]. unfold withIdentity. cbv zeta.
  rewrite (lookup_insert_ne _ "kind" "metadata"), (lookup_insert_ne _ "apiVersion" "metadata") by done.
  set (base := match claimed !! "metadata" with Some (VMap m) => m | _ => ∅ end).
  exists claimed, (identity_meta base target). split; [done|]. split; [|split]; [unfold addresses| |].
  - split; [by rewrite lookup_insert_ne, lookup_insert_ne, lookup_insert_eq|].
    split; [by rewrite lookup_insert_ne, lookup_insert_eq|].
    split; [by rewrite lookup_insert_eq|]. unfold identity_meta. split.
    + destruct (String.eqb (RT_Namespace target) "");
        [by rewrite lookup_insert_eq|by rewrite lookup_insert_ne, lookup_insert_eq].
    + intros Hns. apply String.eqb_neq in Hns. rewrite Hns. by rewrite lookup_insert_eq.
  - intros k Hk. rewrite !not_elem_of_cons in Hk. destruct Hk as (? & ? & ? & _).
    by rewrite !lookup_insert_ne by done.
  - intros k m Hm Hk. rewrite !not_elem_of_cons in Hk. destruct Hk as (? & ? & _).
    unfold base, identity_meta. rewrite Hm. destruct (String.eqb (RT_Namespace target) ""); by rewrite !lookup_insert_ne.
Qed.

(** An interface instance that applies nothing, for values that are no op lists. *)
Definition no_ops : JsonPatch := {| jpatch := unit; DecodePatch := fun _ => Ok tt; ApplyIndent := fun _ d => Ok d |}.

End RenderSpec.
