(* ===== verification/Client.v ===== *)
(** Talking to the API server.

    A Go function that makes API calls is a tree: return a value, or issue a call and continue with
    whatever the server answers.  [exec] is what can happen when the server answers anything;
    [run] is what happens against a given server.  API errors are classified as
    [k8s.io/apimachinery/pkg/api/errors] does, by the reason of the status they wrap. *)
From stdpp Require Import strings base list gmap fin_maps.
From Stdlib Require Import Ascii ZArith Lia.
From S2P Require Import Prelude GoStrings Values Json ApiTypes.
Local Open Scope string_scope.
Local Open Scope list_scope.

Module Client.
Import GoStrings Values Json ApiTypes.

(** ** Programs *)

Inductive prog (E : Type -> Type) (A : Type) : Type :=
| Ret (a : A)
| Vis (R : Type) (c : E R) (k : R -> prog E A).
Arguments Ret {E A} a.
Arguments Vis {E A} R c k.

Definition call {E R} (c : E R) : prog E R := Vis R c Ret.

Fixpoint bind {E A B} (p : prog E A) (f : A -> prog E B) : prog E B :=
  match p with
  | Ret a => f a
  | Vis R c k => Vis R c (fun r => bind (k r) f)
  end.

(** Sequencing, and sequencing with an early return of the error. *)
Notation "'do!' x '<-' p 'in' k" := (bind p (fun x => k))
  (at level 200, x pattern, p at level 100, k at level 200,
   format "'do!'  x  '<-'  p  'in' '//' k") : go_scope.
Notation "'try!' x '<-' p 'in' k" :=
  (bind p (fun r => match r with Err e => Ret (Err e) | Ok x => k end))
  (at level 200, x pattern, p at level 100, k at level 200,
   format "'try!'  x  '<-'  p  'in' '//' k") : go_scope.

(** Embedding the calls of one client into another's. *)
Fixpoint translate {E F A} (f : forall R, E R -> F R) (p : prog E A) : prog F A :=
  match p with
  | Ret a => Ret a
  | Vis R c k => Vis R (f R c) (fun r => translate f (k r))
  end.

(** A call and the reply it got. *)
Record event (E : Type -> Type) := mkEvent { ev_type : Type; ev_call : E ev_type; ev_reply : ev_type }.
Arguments mkEvent {E} ev_type ev_call ev_reply.
Arguments ev_type {E} e.
Arguments ev_call {E} e.
Arguments ev_reply {E} e.

(** Every behaviour: any reply to any call. *)
Inductive exec {E A} : prog E A -> list (event E) -> A -> Prop :=
| exec_ret a : exec (Ret a) [] a
| exec_vis R c k r tr a : exec (k r) tr a -> exec (Vis R c k) (mkEvent R c r :: tr) a.

(** The behaviour against a server with state [S]. *)
Fixpoint run {E A S} (h : forall R, E R -> S -> R * S) (p : prog E A) (s : S) : A * S :=
  match p with
  | Ret a => (a, s)
  | Vis R c k => let '(r, s') := h R c s in run h (k r) s'
  end.

Lemma exec_ret_inv {E A} (a b : A) (tr : list (event E)) : exec (Ret a) tr b -> tr = [] /\ b = a.
Proof. by inversion 1. Qed.

Lemma exec_vis_inv {E A} R (c : E R) (k : R -> prog E A) tr b :
  exec (Vis R c k) tr b -> exists r tr', tr = mkEvent R c r :: tr' /\ exec (k r) tr' b.
Proof.
  intros H.
  refine (match H in exec p tr0 b0 return
            match p with
            | Ret _ => True
            | Vis R0 c0 k0 => exists r tr', tr0 = mkEvent R0 c0 r :: tr' /\ exec (k0 r) tr' b0
            end with
          | exec_ret _ => I
          | exec_vis R0 c0 k0 r tr' a0 H0 => _
          end).
  by exists r, tr'.
Qed.

Lemma exec_bind_inv {E A B} (p : prog E A) (f : A -> prog E B) : forall tr b,
  exec (bind p f) tr b -> exists tr1 tr2 a, tr = tr1 ++ tr2 /\ exec p tr1 a /\ exec (f a) tr2 b.
Proof.
  induction p as [a|R c k IH]; intros tr b H; cbn in H.
  - exists [], tr, a. split; [done|]. split; [constructor|done].
  - apply exec_vis_inv in H as (r & tr' & -> & H). apply IH in H as (tr1 & tr2 & a & -> & H1 & H2).
    exists (mkEvent R c r :: tr1), tr2, a. split; [done|]. split; [by constructor|done].
Qed.

Lemma run_bind {E A B S} (h : forall R, E R -> S -> R * S) (p : prog E A) (f : A -> prog E B) : forall s,
  run h (bind p f) s = let '(a, s') := run h p s in run h (f a) s'.
Proof. induction p as [a|R c k IH]; intros s; cbn; [done|]. destruct (h R c s). apply IH. Qed.

(** Whatever a server does is one of the behaviours. *)
Lemma run_exec {E A S} (h : forall R, E R -> S -> R * S) (p : prog E A) : forall s,
  exists tr, exec p tr (fst (run h p s)).
Proof.
  induction p as [a|R c k IH]; intros s; cbn; [by exists []; constructor|].
  destruct (h R c s) as [r s']. destruct (IH r s') as [tr H].
  exists (mkEvent R c r :: tr). by constructor.
Qed.

(** The calls made against a server, with its replies, and the result. *)
Fixpoint behaviour {E A S} (h : forall R, E R -> S -> R * S) (p : prog E A) (s : S) : list (event E) * A :=
  match p with
  | Ret a => ([], a)
  | Vis R c k =>
      let '(r, s') := h R c s in
      let '(tr, a) := behaviour h (k r) s' in (mkEvent R c r :: tr, a)
  end.

Lemma behaviour_exec {E A S} (h : forall R, E R -> S -> R * S) (p : prog E A) : forall s,
  exec p (fst (behaviour h p s)) (snd (behaviour h p s)).
Proof.
  induction p as [a|R c k IH]; intros s; cbn; [constructor|].
  destruct (h R c s) as [r s']. specialize (IH r s'). destruct (behaviour h (k r) s') as [tr a]. by constructor.
Qed.

(** ** API errors *)

Definition ReasonNotFound : string := "NotFound".
Definition ReasonAlreadyExists : string := "AlreadyExists".
Definition ReasonConflictStatus : string := "Conflict".

(** The status an error wraps, if any. *)
Fixpoint api_status (e : goerror) : option (string * string * option (list StatusCause)) :=
  match e with
  | StatusError reason message causes => Some (reason, message, causes)
  | Wrapf _ _ cause => api_status cause
  | _ => None
  end.

Definition has_reason (reason : string) (e : goerror) : bool :=
  match api_status e with Some (r, _, _) => String.eqb r reason | None => false end.

Definition IsNotFound (e : goerror) : bool := has_reason ReasonNotFound e.
Definition IsAlreadyExists (e : goerror) : bool := has_reason ReasonAlreadyExists e.
Definition IsConflict (e : goerror) : bool := has_reason ReasonConflictStatus e.

(** [apierrors.NewNotFound]; the name is quoted with [%q], which leaves an object name as it is. *)
Definition NewNotFound (group resource name : string) : goerror :=
  let gr := if String.eqb group "" then resource else resource +:+ "." +:+ group in
  StatusError ReasonNotFound (gr +:+ " " +:+ quote +:+ name +:+ quote +:+ " not found") (Some []).

End Client.
