(* ===== verification/ProgramLogic.v ===== *)
(** Reasoning about every behaviour of a program that makes API calls.

    [wp al p h post]: after the calls [h], whatever the server answers, every further call of [p] is
    one that [al] allows after the calls made so far, and [p] returns with [post]. *)
From stdpp Require Import strings base list.
From S2P Require Import Prelude Client.
Local Open Scope list_scope.

Module ProgramLogic.
Import Client.

(** Which calls may be made, given the calls made before. *)
Definition policy (E : Type -> Type) : Type := list (event E) -> forall R, E R -> Prop.

Fixpoint wp {E A} (al : policy E) (p : prog E A) (h : list (event E)) (post : list (event E) -> A -> Prop) : Prop :=
  match p with
  | Ret a => post h a
  | Vis R c k => al h R c /\ forall r, wp al (k r) (h ++ [mkEvent R c r]) post
  end.

(** Every call of a trace that follows [h] is allowed. *)
Definition obeys {E} (al : policy E) (h tr : list (event E)) : Prop :=
  forall pre e suf, tr = pre ++ e :: suf -> al (h ++ pre) (ev_type e) (ev_call e).

Section Rules.
Context {E : Type -> Type}.
Implicit Types (al : policy E) (h tr : list (event E)).

Lemma wp_ret {A} al (a : A) h post : post h a -> wp al (Ret a) h post.
Proof. done. Qed.

Lemma wp_mono {A} al al' (p : prog E A) : forall h post post',
  wp al p h post -> (forall h R c, al h R c -> al' h R c) ->
  (forall h a, post h a -> post' h a) -> wp al' p h post'.
Proof. induction p as [a|R c k IH]; cbn; intros h post post' H Hal Hp; naive_solver. Qed.

Lemma wp_post {A} al (p : prog E A) h (post post' : list (event E) -> A -> Prop) :
  wp al p h post -> (forall h a, post h a -> post' h a) -> wp al p h post'.
Proof. intros H Hp. eapply wp_mono; eauto. Qed.

Lemma wp_bind {A B} al (p : prog E A) (f : A -> prog E B) : forall h post,
  wp al p h (fun h' a => wp al (f a) h' post) -> wp al (bind p f) h post.
Proof. induction p as [a|R c k IH]; cbn; intros h post H; [done|]. destruct H. split; [done|]. eauto. Qed.

Lemma wp_extends {A} al (p : prog E A) : forall h post,
  wp al p h post -> wp al p h (fun h' a => h `prefix_of` h' /\ post h' a).
Proof.
  induction p as [a|R c k IH]; cbn; intros h post H; [done|]. destruct H as [? H]. split; [done|]. intros r.
  apply (wp_post _ _ _ _ _ (IH r _ _ (H r))). intros h' a [Hh ?]. split; [|done].
  etrans; [|exact Hh]. by eexists.
Qed.

(** Use of a specification of the first half of a sequence. *)
Lemma wp_use {A B} al (p : prog E A) (f : A -> prog E B) h post0 post :
  wp al p h post0 ->
  (forall h' a, h `prefix_of` h' -> post0 h' a -> wp al (f a) h' post) ->
  wp al (bind p f) h post.
Proof.
  intros H Hf. apply wp_bind. apply (wp_post _ _ _ _ _ (wp_extends _ _ _ _ H)). intros h' a []. auto.
Qed.

(** An invariant of the allowed calls may be used with each of them. *)
Lemma wp_invariant {A} al (I : list (event E) -> Prop) (p : prog E A) :
  (forall h R (c : E R) r, I h -> al h R c -> I (h ++ [mkEvent R c r])) ->
  forall h post, I h -> wp al p h post ->
  wp (fun h R c => al h R c /\ I h) p h (fun h a => post h a /\ I h).
Proof. intros Hs. induction p as [a|R c k IH]; cbn; intros h post HI H; [done|]. naive_solver. Qed.

Lemma wp_translate {F A} (g : forall R, F R -> E R) al (p : prog F A) (post : A -> Prop) :
  (forall h R (c : F R), al h R (g R c)) -> (forall a, post a) ->
  forall h, wp al (translate g p) h (fun _ => post).
Proof. intros Hal Hp. induction p as [a|R c k IH]; cbn; auto. Qed.

(** No restriction on the calls: what is left is a postcondition over every behaviour. *)
Definition anything : policy E := fun _ _ _ => True.

Lemma wp_anything {A} (p : prog E A) : forall h, wp anything p h (fun _ _ => True).
Proof. induction p as [a|R c k IH]; intros h; cbn; [done|]. split; [done|]. intros r. apply IH. Qed.

Lemma wp_and {A} al al' (p : prog E A) : forall h post post',
  wp al p h post -> wp al' p h post' -> wp al p h (fun h' a => post h' a /\ post' h' a).
Proof. induction p as [a|R c k IH]; cbn; intros h post post' H H'; naive_solver. Qed.

(** The calls a translated program makes. *)
Definition lift_event {F} (g : forall R, F R -> E R) (e : event F) : event E :=
  mkEvent (ev_type e) (g _ (ev_call e)) (ev_reply e).

Lemma wp_translate_events {F A} (g : forall R, F R -> E R) (p : prog F A) :
  forall (al : policy F) (h0 : list (event F)) (post : list (event F) -> A -> Prop) h,
  wp al p h0 post ->
  wp anything (translate g p) h (fun h' a => exists tr : list (event F), h' = h ++ map (lift_event g) tr /\ post (h0 ++ tr) a).
Proof.
  induction p as [a|R c k IH]; intros al h0 post h H; cbn in *.
  - exists []. by rewrite !app_nil_r.
  - split; [done|]. intros r. destruct H as [_ H].
    eapply wp_post; [apply (IH r _ _ _ (h ++ [mkEvent R (g R c) r]) (H r))|]. intros h' a (tr & -> & Hp).
    exists (mkEvent R c r :: tr). split; [by rewrite <- app_assoc|]. by rewrite <- app_assoc in Hp.
Qed.

(** Soundness for [exec]. *)
Lemma wp_exec {A} al (p : prog E A) : forall h tr a post,
  wp al p h post -> exec p tr a -> obeys al h tr /\ post (h ++ tr) a.
Proof.
  induction p as [a0|R c k IH]; intros h tr a post H Hx; cbn in H.
  - apply exec_ret_inv in Hx as [-> ->]. rewrite app_nil_r. split; [|done].
    intros pre ev suf Heq. destruct pre; discriminate.
  - apply exec_vis_inv in Hx as (r & tr' & -> & Hx). destruct H as [Hc H].
    destruct (IH r _ _ _ _ (H r) Hx) as [Ho Hp]. rewrite <- app_assoc in Hp. split; [|done].
    intros [|e0 pre] e suf; cbn; intros [= <- Ht].
    + by rewrite app_nil_r.
    + specialize (Ho pre e suf Ht). by rewrite <- app_assoc in Ho.
Qed.

Lemma obeys_elem al tr e : obeys al [] tr -> e ∈ tr -> exists pre, pre `prefix_of` tr /\ al pre (ev_type e) (ev_call e).
Proof.
  intros H He. apply list_elem_of_split in He as (pre & suf & ->). exists pre. split; [by eexists|].
  exact (H pre e suf eq_refl).
Qed.

End Rules.

(** One step of a program: a call, a sequence, a case analysis. *)
Ltac wp_step :=
  lazymatch goal with
  | |- wp _ (bind (call _) _) _ _ => cbn [bind call wp]; split; [|intros ?]
  | |- wp _ (call _) _ _ => cbn [call wp]; split; [|intros ?]
  | |- wp _ (Vis _ _ _) _ _ => cbn [wp]; split; [|intros ?]
  | |- wp _ (bind (Ret _) _) _ _ => cbn [bind]
  | |- wp _ (Ret _) _ _ => apply wp_ret
  | |- wp _ (bind (match ?x with _ => _ end) _) _ _ => let E := fresh "E" in destruct x eqn:E
  | |- wp _ (match ?x with _ => _ end) _ _ => let E := fresh "E" in destruct x eqn:E
  end.


(** ** Typed programs

    [ask] says which calls are well typed, [ans] which answers are: a program is typed when every
    call it makes is, as long as the answers it gets are. *)
Section Typing.
Context {E : Type -> Type} (ask : forall R, E R -> Prop) (ans : forall R, E R -> R -> Prop).

Fixpoint typed {A} (p : prog E A) (post : A -> Prop) : Prop :=
  match p with
  | Ret a => post a
  | Vis R c k => ask R c /\ forall r, ans R c r -> typed (k r) post
  end.

Definition well_answered (h : list (event E)) : Prop := Forall (fun e => ans _ (ev_call e) (ev_reply e)) h.

(** What typing says of a call after the calls [h]. *)
Definition asks_well : policy E := fun h R c => well_answered h -> ask R c.

Lemma typed_vis {A} R (c : E R) (k : R -> prog E A) post :
  ask R c -> (forall r, ans R c r -> typed (k r) post) -> typed (Vis R c k) post.
Proof. by split. Qed.

Lemma typed_post {A} (p : prog E A) (post post' : A -> Prop) :
  typed p post -> (forall a, post a -> post' a) -> typed p post'.
Proof. induction p as [a|R c k IH]; cbn; naive_solver. Qed.

Lemma typed_use {A B} (p : prog E A) (f : A -> prog E B) (mid : A -> Prop) post :
  typed p mid -> (forall a, mid a -> typed (f a) post) -> typed (bind p f) post.
Proof. induction p as [a|R c k IH]; cbn; naive_solver. Qed.

Lemma typed_translate {F A} (g : forall R, F R -> E R) (p : prog F A) (post : A -> Prop) :
  (forall R (c : F R), ask R (g R c)) -> (forall a, post a) -> typed (translate g p) post.
Proof. intros Hask Hp. induction p as [a|R c k IH]; cbn; auto. Qed.

Lemma well_answered_last h R (c : E R) r : well_answered (h ++ [mkEvent R c r]) <-> well_answered h /\ ans R c r.
Proof. unfold well_answered. by rewrite Forall_app, Forall_singleton. Qed.

(** A typed program keeps to typed calls in every behaviour. *)
Lemma typed_wp {A} (p : prog E A) (post : A -> Prop) : forall h,
  (well_answered h -> typed p post) -> wp asks_well p h (fun h' a => well_answered h' -> post a).
Proof.
  induction p as [a|R c k IH]; intros h H; cbn in *; [done|]. split.
  - intros Hh. by apply H.
  - intros r. apply IH. intros [Hh Hr]%well_answered_last. by apply (proj2 (H Hh)).
Qed.

End Typing.

(** One step of a typed program. *)
Ltac typed_step :=
  lazymatch goal with
  | |- typed _ _ (bind (call _) _) _ => cbn [bind call]; apply typed_vis; [|intros ? ?; cbn beta]
  | |- typed _ _ (call _) _ => cbn [call]; apply typed_vis; [|intros ? ?; cbn beta]
  | |- typed _ _ (Vis _ _ _) _ => apply typed_vis; [|intros ? ?; cbn beta]
  | |- typed _ _ (bind (Ret _) _) _ => cbn [bind]
  | |- typed _ _ (bind (Vis _ _ _) _) _ => cbn [bind]
  | |- typed _ _ (Ret _) _ => cbn [typed]
  | |- typed _ _ (bind (match ?x with _ => _ end) _) _ => let E := fresh "E" in destruct x eqn:E
  | |- typed _ _ (match ?x with _ => _ end) _ => let E := fresh "E" in destruct x eqn:E
  end.
End ProgramLogic.
