(* ===== verification/Conflict.v ===== *)
(** Reading a rejected server-side apply: [internal/apply/conflict.go]. *)
From stdpp Require Import strings base list gmap fin_maps.
From Stdlib Require Import Ascii ZArith Lia.
From S2P Require Import Prelude GoStrings Values Json ApiTypes Client.
Local Open Scope string_scope.
Local Open Scope list_scope.

Module Conflict.
Import GoStrings Values Json ApiTypes Client.

Definition CauseTypeFieldManagerConflict : string := "FieldManagerConflict".

Definition is_manager_cause (c : StatusCause) : bool := String.eqb (Cause_Type c) CauseTypeFieldManagerConflict.

(** The causes of the status an error wraps; nil details and an error without status have none. *)
Definition error_causes (e : goerror) : option (string * list StatusCause) :=
  match api_status e with
  | Some (_, message, Some causes) => Some (message, causes)
  | _ => None
  end.

Definition IsFieldConflict (e : goerror) : bool :=
  IsConflict e &&
  match error_causes e with
  | Some (_, causes) => existsb is_manager_cause causes
  | None => false
  end.

Definition owner_prefix : string := "conflict with " +:+ quote.

(** The submatches of [conflictOwnerPattern], leftmost first, non-overlapping; [skip] counts the
    bytes of the match being consumed. *)
Fixpoint find_owners (skip : nat) (s : string) : list string :=
  match s with
  | "" => []
  | String _ rest =>
      match skip with
      | S k => find_owners k rest
      | O =>
          if has_prefix s owner_prefix then
            match cut (ascii_of_nat 34) (sdrop (String.length owner_prefix) s) with
            | Some (String c m, _) =>
                String c m :: find_owners (String.length owner_prefix + String.length (String c m)) rest
            | _ => find_owners 0 rest
            end
          else find_owners 0 rest
      end
  end.

(** The keys of the map [seen], sorted. *)
Definition sorted_set (l : list string) : list string := sort_strings (elements (list_to_set (C := gset string) l)).

Definition ConflictingManagers (e : goerror) : list string :=
  match error_causes e with
  | None => []
  | Some (message, causes) =>
      let from_causes := concat (map (fun c =>
        match find_owners 0 (Cause_Message c) with m :: _ => [m] | [] => [] end) (filter is_manager_cause causes)) in
      sorted_set (if Nat.eqb (length from_causes) 0 then find_owners 0 message else from_causes)
  end.

Definition ConflictingFields (e : goerror) : list string :=
  match error_causes e with
  | None => []
  | Some (_, causes) =>
      sorted_set (map (fun c => trim_prefix (Cause_Field c) ".")
        (filter (fun c => is_manager_cause c && negb (String.eqb (Cause_Field c) "")) causes))
  end.

Definition IsOurManager (manager : string) : bool := has_prefix manager FieldManagerPrefix.

Definition AllOurs (managers : list string) : bool :=
  negb (Nat.eqb (length managers) 0) && forallb IsOurManager managers.

Example owners_ex :
  find_owners 0 ("Apply failed with 2 conflicts: conflict with " +:+ quote +:+ "a" +:+ quote +:+
    ": .x conflict with " +:+ quote +:+ "b/c" +:+ quote) = ["a"; "b/c"].
Proof. by vm_compute. Qed.

End Conflict.
