(* ===== verification/Applier.v ===== *)
(** Writing and withdrawing one contribution: [internal/apply/applier.go], [ssa.go] and [csa.go].

    The two appliers are programs over the calls of the target client; what each call does to the
    cluster is up to the server. *)
From stdpp Require Import strings base list gmap fin_maps.
From Stdlib Require Import Ascii ZArith Lia.
From S2P Require Import Prelude GoStrings Values Json Sha256 ApiTypes FieldPath Render Client Conflict.
Local Open Scope string_scope.
Local Open Scope list_scope.
Local Open Scope go_scope.

Module Applier.
Import GoStrings Values Json Sha256 ApiTypes FieldPath Render Client Conflict.

(** ** Requests and results *)

Record Request := mkRequest {
  Req_Target : RenderTarget;
  Req_Contribution : option Contribution;
  Req_FieldManager : string;
  Req_ConflictPolicy : string;
  Req_PreviousPaths : list Path;
  Req_PriorValues : gmap string value;
  Req_PriorValuesCaptured : bool;
  Req_Base : option (gmap string value);
  AllowCreate : bool;
}.

Record RevertRequest := mkRevertRequest {
  Rev_Target : RenderTarget;
  Rev_FieldManager : string;
  Rev_OwnedPaths : list Path;
  Rev_PriorValues : gmap string value;
}.

Record FieldConflict := mkFieldConflict {
  Conflict_Fields : list string;
  Conflict_Managers : list string;
  Conflict_AllOurs : bool;
}.

Record Result := mkResult {
  Created : bool;
  Changed : bool;
  Live : option (gmap string value);
  Res_OwnedPaths : list Path;
  Res_PriorValues : gmap string value;
  Res_PriorValuesCaptured : bool;
  Res_Conflict : option FieldConflict;
}.

(** ** The target client: each write answers with the stored object *)
Inductive targetE : Type -> Type :=
| GetTarget (t : RenderTarget) : targetE (res goerror (gmap string value))
| CreateTarget (obj : gmap string value) : targetE (res goerror (gmap string value))
| UpdateTarget (obj : gmap string value) : targetE (res goerror (gmap string value))
| ApplyTarget (obj : gmap string value) (manager : string) (force : bool)
    : targetE (res goerror (gmap string value)).

Abbreviation targetM A := (prog targetE (res goerror A)).

(** ** Field managers *)

Definition maxFieldManagerLength : nat := 128.

Definition truncateFieldManager (s : string) : string :=
  if (String.length s <=? maxFieldManagerLength)%nat then s
  else
    let h := HashObject (VStr s) in
    let suffix := "-" +:+ stake 16 (sdrop (String.length "sha256:") h) in
    stake (maxFieldManagerLength - String.length suffix) s +:+ suffix.

Definition FieldManagerFor (kind namespace name : string) : string :=
  let base := FieldManagerPrefix in
  let base := if String.eqb namespace "" then base else base +:+ namespace +:+ "/" in
  truncateFieldManager (base +:+ name).

(** ** Building objects *)

(** [deepMerge] for one value of the source over what the destination holds there. *)
Fixpoint merge_value (dv : option value) (sv : value) : value :=
  match sv with
  | VMap sm =>
      match dv with
      | Some (VMap dm) => VMap (map_fold (fun k s acc => <[k := merge_value (dm !! k) s]> acc) dm sm)
      | _ => VMap sm
      end
  | _ => sv
  end.

Definition deepMerge (dst src : gmap string value) : gmap string value :=
  map_fold (fun k s acc => <[k := merge_value (dst !! k) s]> acc) dst src.

Definition mergeBaseAndContribution (base contribution : gmap string value)
    : res goerror (gmap string value) :=
  let out := deepMerge base contribution in
  if Nat.eqb (size out) 0
  then Err (Errorf "merging base and contribution produced an empty object" [])
  else Ok out.

Definition schemaGroup (target : RenderTarget) : string :=
  match split "/" (RT_APIVersion target) with
  | [g; _] => g
  | _ => ""
  end.

Definition target_not_found (target : RenderTarget) : goerror :=
  NewNotFound (schemaGroup target) (RT_Kind target) (RT_Name target).

(** [unstructured.SetName] and [SetNamespace]: set, or remove when empty; nothing happens when
    [metadata] is no map. *)
Definition set_meta (k v : string) (obj : gmap string value) : gmap string value :=
  match obj !! "metadata" with
  | Some (VMap m) =>
      <["metadata" := VMap (if String.eqb v "" then base.delete k m else <[k := VStr v]> m)]> obj
  | None => if String.eqb v "" then obj else <["metadata" := VMap {[k := VStr v]}]> obj
  | _ => obj
  end.

(** ** Server-side apply *)

Definition exists_ (target : RenderTarget) : targetM bool :=
  do! r <- call (GetTarget target) in
  match r with
  | Ok _ => Ret (Ok true)
  | Err e => if IsNotFound e then Ret (Ok false) else Ret (Err e)
  end.

(** [patch] of [ssa.go]: the stored object, or the conflict that was reported. *)
Definition patch (obj : gmap string value) (manager policy : string)
    : targetM (gmap string value + FieldConflict) :=
  let forced := String.eqb policy ConflictPolicyForce in
  do! r <- call (ApplyTarget obj manager forced) in
  match r with
  | Ok live => Ret (Ok (inl live))
  | Err e =>
      if negb (IsFieldConflict e) then Ret (Err e)
      else
        let managers := ConflictingManagers e in
        let c := mkFieldConflict (ConflictingFields e) managers (AllOurs managers) in
        if String.eqb policy ConflictPolicyPriority then
          if negb (Conflict_AllOurs c) then Ret (Ok (inr c))
          else
            do! r2 <- call (ApplyTarget obj manager true) in
            match r2 with
            | Ok live => Ret (Ok (inl live))
            | Err e2 => if IsFieldConflict e2 then Ret (Ok (inr c)) else Ret (Err e2)
            end
        else Ret (Ok (inr c))
  end.

Definition ssa_Apply (req : Request) : targetM Result :=
  match Req_Contribution req with
  | None => Ret (Err (Errorf "contribution is nil" []))
  | Some contribution =>
      if String.eqb (Req_FieldManager req) "" then Ret (Err (Errorf "field manager is empty" []))
      else
        try! existedBefore <- exists_ (Req_Target req) in
        if negb existedBefore && negb (AllowCreate req) then Ret (Err (target_not_found (Req_Target req)))
        else
          let obj :=
            match existedBefore, Req_Base req with
            | false, Some base => mergeBaseAndContribution base (Object contribution)
            | _, _ => Ok (Object contribution)
            end in
          match obj with
          | Err e => Ret (Err e)
          | Ok obj =>
              try! outcome <- patch obj (Req_FieldManager req) (Req_ConflictPolicy req) in
              match outcome with
              | inr conflict =>
                  Ret (Ok (mkResult false false None (Paths contribution) ∅ false (Some conflict)))
              | inl live =>
                  Ret (Ok (mkResult (negb existedBefore) true (Some live) (Paths contribution) ∅ false None))
              end
          end
  end.

Definition ssa_Revert (req : RevertRequest) : targetM unit :=
  if String.eqb (Rev_FieldManager req) "" then Ret (Err (Errorf "field manager is empty" []))
  else
    let obj := Identity (Rev_Target req) in
    do! r <- call (ApplyTarget obj (Rev_FieldManager req) false) in
    match r with
    | Ok _ => Ret (Ok tt)
    | Err e =>
        if IsNotFound e then Ret (Ok tt)
        else if IsFieldConflict e then
          do! r2 <- call (ApplyTarget obj (Rev_FieldManager req) true) in
          match r2 with Ok _ => Ret (Ok tt) | Err e2 => Ret (Err e2) end
        else Ret (Err e)
    end.

(** ** Client-side apply *)

Definition sameValue (a b : value) : bool := String.eqb (marshal a) (marshal b).

Definition equalContent (a b : gmap string value) : bool :=
  String.eqb (HashObject (VMap a)) (HashObject (VMap b)).

Definition restoreOrDelete (obj : gmap string value) (p : Path) (priors : gmap string value)
    : gmap string value :=
  match priors !! Path_String p with
  | Some prior =>
      match SetPath obj p prior with
      | (obj', None) => obj'
      | (obj', Some _) => (DeletePath obj' p).1
      end
  | None => (DeletePath obj p).1
  end.

(** One step of the capture loop. *)
Definition capture (live contribution : gmap string value) (priors : gmap string value) (p : Path)
    : gmap string value :=
  match priors !! Path_String p with
  | Some _ => priors
  | None =>
      match Get (VMap live) p with
      | None => priors
      | Some existing =>
          match Get (VMap contribution) p with
          | Some want =>
              if sameValue existing want then priors else <[Path_String p := existing]> priors
          | None => <[Path_String p := existing]> priors
          end
      end
  end.

(** One step of the withdrawal loop over the previous paths. *)
Definition withdraw (claimed : list string) (st : gmap string value * gmap string value) (p : Path)
    : gmap string value * gmap string value :=
  let '(obj, priors) := st in
  if bool_decide (Path_String p ∈ claimed) then st
  else (restoreOrDelete obj p priors, base.delete (Path_String p) priors).

(** The loop that writes the claimed paths. *)
Fixpoint write_claims (obj contribution : gmap string value) (paths : list Path)
    : res goerror (gmap string value) :=
  match paths with
  | [] => Ok obj
  | p :: rest =>
      match Get (VMap contribution) p with
      | None => Err (Errorf "internal: rendered path %q missing from the contribution" [AStr (Path_String p)])
      | Some v =>
          match SetPath obj p v with
          | (obj', None) => write_claims obj' contribution rest
          | (_, Some _) => Err (Wrapf "setting %q: %w" [AStr (Path_String p)] (OtherError "fieldpath"))
          end
      end
  end.

(** What [update] computes before it talks to the server: the desired object and the priors. *)
Definition plan_update (req : Request) (c : Contribution) (live : gmap string value)
    : res goerror (gmap string value * gmap string value) :=
  let priors :=
    if Req_PriorValuesCaptured req then Req_PriorValues req
    else foldl (capture live (Object c)) (Req_PriorValues req) (Paths c) in
  let claimed := map Path_String (Paths c) in
  let '(desired, priors) := foldl (withdraw claimed) (live, priors) (Req_PreviousPaths req) in
  let! desired := write_claims desired (Object c) (Paths c) in
  Ok (desired, priors).

Definition csa_update (req : Request) (c : Contribution) (live : gmap string value) : targetM Result :=
  match plan_update req c live with
  | Err e => Ret (Err e)
  | Ok (desired, priors) =>
      if equalContent live desired then
        Ret (Ok (mkResult false false (Some live) (Paths c) priors true None))
      else
        try! stored <- call (UpdateTarget desired) in
        Ret (Ok (mkResult false true (Some stored) (Paths c) priors true None))
  end.

Definition csa_create (req : Request) (c : Contribution) : targetM Result :=
  let content :=
    match Req_Base req with
    | Some base => mergeBaseAndContribution base (Object c)
    | None => Ok (Object c)
    end in
  match content with
  | Err e => Ret (Err e)
  | Ok content =>
      let t := Req_Target req in
      let obj := <["kind" := VStr (RT_Kind t)]> (<["apiVersion" := VStr (RT_APIVersion t)]> content) in
      let obj := set_meta "name" (RT_Name t) obj in
      let obj := if String.eqb (RT_Namespace t) "" then obj else set_meta "namespace" (RT_Namespace t) obj in
      try! stored <- call (CreateTarget obj) in
      Ret (Ok (mkResult true true (Some stored) (Paths c) ∅ true None))
  end.

Definition csa_Apply (req : Request) : targetM Result :=
  match Req_Contribution req with
  | None => Ret (Err (Errorf "contribution is nil" []))
  | Some c =>
      do! r <- call (GetTarget (Req_Target req)) in
      match r with
      | Err e =>
          if IsNotFound e then
            if negb (AllowCreate req) then Ret (Err (target_not_found (Req_Target req)))
            else csa_create req c
          else Ret (Err e)
      | Ok live => csa_update req c live
      end
  end.

(** The object a client-side revert writes. *)
Definition plan_revert (req : RevertRequest) (live : gmap string value) : gmap string value :=
  foldl (fun obj p => restoreOrDelete obj p (Rev_PriorValues req)) live (Rev_OwnedPaths req).

Definition csa_Revert (req : RevertRequest) : targetM unit :=
  do! r <- call (GetTarget (Rev_Target req)) in
  match r with
  | Err e => if IsNotFound e then Ret (Ok tt) else Ret (Err e)
  | Ok live =>
      let desired := plan_revert req live in
      if equalContent live desired then Ret (Ok tt)
      else try! _ <- call (UpdateTarget desired) in Ret (Ok tt)
  end.

(** ** Choosing an applier *)

Inductive ApplierKind := ServerSideApplier | ClientSideApplier.

Definition For (mode : string) : res goerror ApplierKind :=
  if String.eqb mode ApplyModeServerSideApply || String.eqb mode "" then Ok ServerSideApplier
  else if String.eqb mode ApplyModeClientSideApply then Ok ClientSideApplier
  else Err (Errorf "unsupported apply mode %q" [AStr mode]).

Definition Mode (a : ApplierKind) : string :=
  match a with
  | ServerSideApplier => ApplyModeServerSideApply
  | ClientSideApplier => ApplyModeClientSideApply
  end.

Definition Apply (a : ApplierKind) (req : Request) : targetM Result :=
  match a with ServerSideApplier => ssa_Apply req | ClientSideApplier => csa_Apply req end.

Definition Revert (a : ApplierKind) (req : RevertRequest) : targetM unit :=
  match a with ServerSideApplier => ssa_Revert req | ClientSideApplier => csa_Revert req end.

End Applier.
