(* ===== verification/CsaSpec.v ===== *)
(** Client-side apply: what an update writes, what it records as prior values, and that a revert
    undoes it ([internal/apply/csa.go]). *)
From stdpp Require Import strings base list gmap fin_maps.
From Stdlib Require Import Ascii NArith ZArith Lia.
From S2P Require Import Prelude GoStrings Values FieldPath FieldPathNotation FieldPathUpdate FieldPathDelete.
From S2P Require Import FieldPathRoundTrip FieldPathPresence ApiTypes Render Client Applier.
Local Open Scope string_scope.
Local Open Scope list_scope.

Module CsaSpec.
Import GoStrings Values FieldPath FieldPathNotation FieldPathUpdate FieldPathDelete.
Import FieldPathRoundTrip FieldPathPresence ApiTypes Render Client Applier.

(** ** Claims that client-side apply can track *)

(** A path the status notation expresses, that starts at a field, names positions independently of
    list order, and does not rewrite a key it goes through. *)
Definition claim_path (p : Path) : bool :=
  match p with s :: _ => IsField s | [] => false end &&
  forallb expressible p && forallb addressable p && avoids_keys p.

(** Pairwise diverging paths. *)
Fixpoint disjoint_paths (ps : list Path) : bool :=
  match ps with
  | [] => true
  | p :: rest => forallb (fun q => diverge p q) rest && disjoint_paths rest
  end.

(** A path that can be compared with the claims. *)
Definition readable (q : Path) : bool := forallb proper q && avoids_keys q.

(** *** Consequences *)

Lemma expressible_proper s : expressible s = true -> proper s = true.
Proof.
  intros [(f & -> & Hf & _)|[(k & v & -> & Hk & _)|(i & -> & Hi & _)]]%expressible_inv;
    unfold proper, IsField, IsIndex, IsKeyMatch; cbn.
  - by rewrite (proj2 (String.eqb_neq _ _) Hf).
  - by rewrite (proj2 (String.eqb_neq _ _) Hk).
  - by rewrite (proj2 (Z.leb_le _ _) Hi).
Qed.

Lemma forallb_Forall {A} (f : A -> bool) l : forallb f l = true -> Forall (fun x => f x = true) l.
Proof. rewrite Forall_forall, forallb_forall. intros H x Hx. by apply H, list_elem_of_In. Qed.

Lemma claim_path_inv p :
  claim_path p = true ->
  (exists s rest, p = s :: rest /\ IsField s = true) /\
  Forall (fun s => proper s = true) p /\ Forall (fun s => expressible s = true) p /\
  Forall (fun s => addressable s = true) p /\ avoids_keys p = true.
Proof.
  unfold claim_path. intros H. bool_simpl. destruct p as [|s rest]; [done|].
  split; [by eexists _, _|].
  pose proof (forallb_Forall expressible (s :: rest) ltac:(done)) as He.
  split; [eapply Forall_impl; [exact He|]; apply expressible_proper|].
  split; [done|]. split; [by apply forallb_Forall|done].
Qed.

Lemma readable_inv q : readable q = true -> Forall (fun s => proper s = true) q /\ avoids_keys q = true.
Proof. unfold readable. intros H. bool_simpl. split; [by apply forallb_Forall|done]. Qed.

Lemma claim_readable p : claim_path p = true -> readable p = true.
Proof.
  intros (_ & Hp & _ & _ & Hav)%claim_path_inv. unfold readable. rewrite Hav, andb_true_r.
  apply forallb_forall. intros x Hx. rewrite Forall_forall in Hp. by apply Hp, list_elem_of_In.
Qed.

Lemma diverge_sym p : forall q, diverge p q = diverge q p.
Proof.
  induction p as [|a p IH]; intros [|b q]; try done. cbn.
  destruct (decide (a = b)) as [->|Hne]; [by rewrite !bool_decide_true, IH|].
  rewrite !bool_decide_false by congruence.
  rewrite (andb_comm (IsField b)), (String.eqb_sym (Field b)).
  destruct (IsField a), (IsField b), (IsKeyMatch a), (IsKeyMatch b); cbn; try done.
  by rewrite (String.eqb_sym (Key b)), (String.eqb_sym (Value b)).
Qed.

Lemma diverge_irrefl p : diverge p p = false.
Proof. induction p as [|a p IH]; [done|]. cbn. by rewrite bool_decide_true. Qed.

Lemma Path_String_inj p q :
  claim_path p = true -> claim_path q = true -> Path_String p = Path_String q -> p = q.
Proof.
  intros ((s & r & -> & _) & _ & Hp & _)%claim_path_inv ((t & u & -> & _) & _ & Hq & _)%claim_path_inv E.
  pose proof (Parse_text (s :: r) ltac:(done) Hp) as H1. pose proof (Parse_text (t :: u) ltac:(done) Hq) as H2.
  rewrite E in H1. congruence.
Qed.

(** Claims recorded in a status are read back. *)
Lemma ParsePaths_strings ps : forallb claim_path ps = true -> ParsePaths (PathStrings ps) = Ok ps.
Proof.
  induction ps as [|p ps IH]; [done|]. cbn [forallb]. intros [Hp Hps]%andb_prop.
  apply claim_path_inv in Hp as ((s & rest & -> & _) & _ & He & _). cbn [PathStrings map ParsePaths].
  rewrite Parse_text by done. fold (PathStrings ps). by rewrite IH.
Qed.

(** A value read at a path carries the key of the element it is. *)
Lemma Get_carries_key p : forall c v,
  Forall (fun s => proper s = true) p -> Get c p = Some v -> carries_key p v = true.
Proof.
  induction p as [|s rest IH]; [done|]. intros c v Hp Hg. inversion_clear Hp as [|? ? Hps Hpr].
  destruct rest as [|next rest].
  - cbn. destruct (IsKeyMatch s) eqn:Hk; [|done].
    assert (IsField s = false) as Hf.
    { unfold proper, IsKeyMatch in *. destruct (IsField s); [|done]. by rewrite Hps in Hk. }
    destruct c as [| | | | |l|m]; try (by rewrite Get_scalar in Hg); [|by rewrite Get_map_list in Hg].
    rewrite Get_key in Hg by done. destruct (findByKey l (Key s) (Value s)) as [i|] eqn:E; [|done].
    apply findByKey_spec in E as [(e & He & Hm) _]. cbn in Hg. rewrite He in Hg. cbn in Hg. by simplify_eq.
  - change (carries_key (s :: next :: rest) v) with (carries_key (next :: rest) v).
    assert (exists c', Get c' (next :: rest) = Some v) as [c' Hc'] by
      (change (s :: next :: rest) with ([s] ++ next :: rest) in Hg; rewrite Get_app in Hg;
       destruct (Get c [s]) as [c'|]; [by exists c'|done]).
    by eapply IH.
Qed.

Lemma keys_kept_read p c v : claim_path p = true -> Get c p = Some v -> keys_kept p v = true.
Proof.
  intros (_ & Hp & _ & _ & Hav)%claim_path_inv Hg. unfold keys_kept. rewrite Hav. cbn.
  by eapply Get_carries_key.
Qed.

(** *** Writing all claims *)

Lemma write_claims_spec ps : forall obj contribution obj',
  forallb claim_path ps = true -> disjoint_paths ps = true ->
  write_claims obj contribution ps = Ok obj' ->
  (forall p, p ∈ ps -> exists v, Get (VMap contribution) p = Some v /\ Get (VMap obj') p = Some v) /\
  (forall q, readable q = true -> (forall p, p ∈ ps -> diverge p q = true) ->
     Get (VMap obj') q = Get (VMap obj) q).
Proof.
  induction ps as [|p ps IH]; intros obj contribution obj' Hc Hd Hw.
  { cbn in Hw. simplify_eq. split; [by intros p ?%elem_of_nil|done]. }
  cbn in Hc, Hd, Hw. apply andb_prop in Hc as [Hcp Hcs]. apply andb_prop in Hd as [Hdp Hds].
  destruct (Get (VMap contribution) p) as [v|] eqn:Hv; [|done].
  destruct (SetPath obj p v) as [obj1 [?|]] eqn:Hs; [done|].
  destruct (IH _ _ _ Hcs Hds Hw) as [IHw IHf].
  pose proof (claim_path_inv p Hcp) as (_ & Hp & _ & _ & Hav). pose proof (keys_kept_read p _ v Hcp Hv) as Hk.
  rewrite forallb_forall in Hdp. split.
  - intros q [->|Hq]%elem_of_cons; [|by apply IHw]. exists v. split; [done|].
    rewrite IHf; [by eapply SetPath_get|by apply claim_readable|].
    intros q Hq. rewrite diverge_sym. by apply Hdp, list_elem_of_In.
  - intros q Hq Hall. rewrite IHf; [|done|intros; apply Hall; by right].
    apply readable_inv in Hq as [Hq Hqav]. eapply (SetPath_frame obj p q v); auto. apply Hall. left.
Qed.

(** *** Restoring or deleting *)

Lemma restoreOrDelete_spec obj p priors w :
  claim_path p = true -> Get (VMap obj) p = Some w ->
  (forall v, priors !! Path_String p = Some v -> carries_key p v = true) ->
  let obj' := restoreOrDelete obj p priors in
  (forall q, readable q = true -> diverge p q = true -> Get (VMap obj') q = Get (VMap obj) q) /\
  (forall v, priors !! Path_String p = Some v -> Get (VMap obj') p = Some v) /\
  (priors !! Path_String p = None -> ends_in_field p = true -> Get (VMap obj') p = None).
Proof.
  intros Hc Hg Hk. cbv zeta. apply claim_path_inv in Hc as ((s & rest & -> & Hf) & Hp & _ & Ha & Hav).
  unfold restoreOrDelete. set (p := s :: rest) in *.
  destruct (priors !! Path_String p) as [v|] eqn:Hpr.
  - destruct (SetPath_total obj s rest v w) as [o Ho]; [done..|]. fold p in Ho. rewrite Ho.
    assert (keys_kept p v = true) as Hkk by (unfold keys_kept; rewrite Hav; by apply Hk).
    split; [|split; [|done]].
    + intros q (Hq & Hqav)%readable_inv Hd. exact (SetPath_frame obj p q v o Hp Hq Hkk Hqav Hd Ho).
    + intros v' [= <-]. by eapply SetPath_get.
  - split; [|split; [done|]].
    + intros q (Hq & Hqav)%readable_inv Hd. destruct (DeletePath obj p) as [o r] eqn:E.
      exact (DeletePath_frame obj p q o r Hp Ha Hq Hav Hqav Hd E).
    + intros _ He. by eapply DeletePath_gone.
Qed.

Lemma revert_fold_spec ps : forall obj priors,
  forallb claim_path ps = true -> disjoint_paths ps = true ->
  (forall p, p ∈ ps -> is_Some (Get (VMap obj) p)) ->
  (forall p v, p ∈ ps -> priors !! Path_String p = Some v -> carries_key p v = true) ->
  let obj' := foldl (fun obj p => restoreOrDelete obj p priors) obj ps in
  (forall q, readable q = true -> (forall p, p ∈ ps -> diverge p q = true) ->
     Get (VMap obj') q = Get (VMap obj) q) /\
  (forall p v, p ∈ ps -> priors !! Path_String p = Some v -> Get (VMap obj') p = Some v) /\
  (forall p, p ∈ ps -> priors !! Path_String p = None -> ends_in_field p = true -> Get (VMap obj') p = None).
Proof.
  induction ps as [|p ps IH]; intros obj priors Hc Hd Hpres Hk; cbn [foldl].
  { split; [done|]. split; by intros ? **; rewrite elem_of_nil in *. }
  cbn in Hc, Hd. apply andb_prop in Hc as [Hcp Hcs]. apply andb_prop in Hd as [Hdp Hds].
  rewrite forallb_forall in Hdp.
  assert (forall q, q ∈ ps -> diverge p q = true) as Hdp' by (intros; by apply Hdp, list_elem_of_In).
  assert (forall q, q ∈ ps -> readable q = true) as Hread.
  { intros q Hq. rewrite forallb_forall in Hcs. by apply claim_readable, Hcs, list_elem_of_In. }
  destruct (Hpres p ltac:(left)) as [w Hw].
  destruct (restoreOrDelete_spec obj p priors w Hcp Hw) as (Hf1 & Hr1 & Hg1); [intros; by apply Hk; [left|]|].
  destruct (IH (restoreOrDelete obj p priors) priors) as (Hf & Hr & Hgone); [done|done| | |].
  { intros q Hq. rewrite Hf1 by auto. apply Hpres. by right. }
  { intros q v Hq. apply Hk. by right. }
  assert (Get (VMap (foldl (fun obj p => restoreOrDelete obj p priors) (restoreOrDelete obj p priors) ps)) p =
          Get (VMap (restoreOrDelete obj p priors)) p) as Hkeep.
  { apply Hf; [by apply claim_readable|]. intros q Hq. rewrite diverge_sym. auto. }
  split; [|split].
  - intros q Hq Hall. rewrite Hf; [apply Hf1; [done|]; apply Hall; left|done|intros; apply Hall; by right].
  - intros q v [->|Hq]%elem_of_cons Hv; [rewrite Hkeep; auto|by apply Hr].
  - intros q [->|Hq]%elem_of_cons Hv He; [rewrite Hkeep; auto|by apply Hgone].
Qed.

(** *** Capturing priors *)

(** The prior a fresh capture records for a claimed path. *)
Definition prior_of (live contribution : gmap string value) (p : Path) : option value :=
  match Get (VMap live) p with
  | None => None
  | Some existing =>
      match Get (VMap contribution) p with
      | Some want => if sameValue existing want then None else Some existing
      | None => Some existing
      end
  end.

Lemma capture_step live contribution priors p :
  capture live contribution priors p =
    match priors !! Path_String p with
    | Some _ => priors
    | None => match prior_of live contribution p with
              | Some v => <[Path_String p := v]> priors | None => priors end
    end.
Proof. unfold capture, prior_of. repeat case_match; congruence. Qed.

(** A recorded prior is never replaced. *)
Lemma capture_keeps live contribution ps : forall priors k v,
  priors !! k = Some v -> foldl (capture live contribution) priors ps !! k = Some v.
Proof.
  induction ps as [|p ps IH]; intros priors k v H; [done|]. cbn. apply IH. rewrite capture_step.
  destruct (priors !! Path_String p) eqn:E; [done|]. destruct (prior_of _ _ _); [|done].
  rewrite lookup_insert_ne; congruence.
Qed.

Lemma capture_spec live contribution ps : forall priors p,
  forallb claim_path ps = true -> p ∈ ps -> claim_path p = true ->
  priors !! Path_String p = None ->
  foldl (capture live contribution) priors ps !! Path_String p = prior_of live contribution p.
Proof.
  induction ps as [|a ps IH]; intros priors p Hc Hin Hp Hn; [by apply elem_of_nil in Hin|].
  cbn in Hc. apply andb_prop in Hc as [Hca Hcs]. cbn [foldl].
  destruct (decide (a = p)) as [->|Hne].
  - rewrite capture_step, Hn. destruct (prior_of live contribution p) as [v|] eqn:E.
    + apply capture_keeps. by rewrite lookup_insert_eq.
    + destruct (decide (p ∈ ps)) as [Hps|Hps]; [rewrite IH by done; done|].
      clear IH Hin. revert priors Hn Hcs Hps. induction ps as [|b ps IH]; intros priors Hn Hcs Hps; [done|].
      cbn in Hcs. apply andb_prop in Hcs as [Hcb Hcs]. rewrite not_elem_of_cons in Hps. destruct Hps as [Hb Hps].
      cbn. apply IH; [|done|done]. rewrite capture_step.
      destruct (priors !! Path_String b); [done|]. destruct (prior_of _ _ b); [|done].
      rewrite lookup_insert_ne; [done|]. intros Eq. apply Hb. symmetry. by apply Path_String_inj.
  - apply elem_of_cons in Hin as [->|Hin]; [done|]. apply IH; [done..|].
    rewrite capture_step. destruct (priors !! Path_String a); [done|]. destruct (prior_of _ _ a); [|done].
    rewrite lookup_insert_ne; [done|]. intros Eq. apply Hne. by apply Path_String_inj.
Qed.

(** *** Withdrawing what is no longer claimed *)

Definition dropped (claimed : list string) (prev : list Path) : list Path :=
  filter (fun p => Path_String p ∉ claimed) prev.

Lemma dropped_cons_in claimed p prev :
  Path_String p ∈ claimed -> dropped claimed (p :: prev) = dropped claimed prev.
Proof. intros H. unfold dropped. rewrite filter_cons_False; [done|]. tauto. Qed.

Lemma dropped_cons_out claimed p prev :
  Path_String p ∉ claimed -> dropped claimed (p :: prev) = p :: dropped claimed prev.
Proof. intros H. unfold dropped. by rewrite filter_cons_True. Qed.

Lemma withdraw_priors claimed prev : forall obj priors,
  (foldl (withdraw claimed) (obj, priors) prev).2 =
  foldl (fun m p => base.delete (Path_String p) m) priors (dropped claimed prev).
Proof.
  induction prev as [|p prev IH]; intros obj priors; [done|]. cbn [foldl withdraw].
  case_bool_decide as H; [rewrite dropped_cons_in by done|rewrite dropped_cons_out by done]; apply IH.
Qed.

Lemma delete_all_lookup ps : forall (priors : gmap string value) k,
  foldl (fun m p => base.delete (Path_String p) m) priors ps !! k =
  if bool_decide (k ∈ map Path_String ps) then None else priors !! k.
Proof.
  induction ps as [|p ps IH]; intros priors k; [done|]. cbn [foldl map]. rewrite IH.
  destruct (decide (Path_String p = k)) as [<-|Hne].
  - rewrite (bool_decide_true (Path_String p ∈ _ :: _)) by left. rewrite lookup_delete_eq. by case_bool_decide.
  - rewrite lookup_delete_ne by done.
    destruct (decide (k ∈ map Path_String ps)).
    + rewrite !bool_decide_true; [done|by right|done].
    + rewrite !bool_decide_false; [done| |done]. rewrite elem_of_cons. naive_solver.
Qed.

(** Each withdrawal looks its own prior up, so removing the entries on the way makes no difference. *)
Lemma withdraw_obj claimed prev : forall obj priors priors0,
  forallb claim_path (dropped claimed prev) = true -> disjoint_paths (dropped claimed prev) = true ->
  (forall p, p ∈ dropped claimed prev -> priors !! Path_String p = priors0 !! Path_String p) ->
  (foldl (withdraw claimed) (obj, priors) prev).1 =
  foldl (fun obj p => restoreOrDelete obj p priors0) obj (dropped claimed prev).
Proof.
  induction prev as [|p prev IH]; intros obj priors priors0 Hc Hd Heq; [done|]. cbn [foldl withdraw].
  case_bool_decide as H.
  { rewrite dropped_cons_in in * by done. by apply IH. }
  rewrite dropped_cons_out in * by done. cbn in Hc, Hd. apply andb_prop in Hc as [Hcp Hcs].
  apply andb_prop in Hd as [Hdp Hds]. cbn [foldl].
  assert (restoreOrDelete obj p priors = restoreOrDelete obj p priors0) as ->.
  { unfold restoreOrDelete. rewrite (Heq p); [done|left]. }
  apply IH; [done|done|]. intros q Hq. rewrite lookup_delete_ne; [apply Heq; by right|].
  intros E. rewrite forallb_forall in Hdp, Hcs. apply list_elem_of_In in Hq.
  apply Path_String_inj in E; [|done|by apply Hcs]. subst q.
  specialize (Hdp p Hq). cbv beta in Hdp. rewrite diverge_irrefl in Hdp. done.
Qed.

Lemma disjoint_app ps qs :
  disjoint_paths (ps ++ qs) = true ->
  disjoint_paths ps = true /\ disjoint_paths qs = true /\
  forall p q, p ∈ ps -> q ∈ qs -> diverge p q = true.
Proof.
  induction ps as [|p ps IH]; cbn; intros H; [split; [done|split; [done|]]; by intros p q ?%elem_of_nil|].
  apply andb_prop in H as [Hp H]. rewrite forallb_app in Hp. apply andb_prop in Hp as [Hp Hq].
  destruct (IH H) as (H1 & H2 & H3). rewrite Hp, H1. split; [done|]. split; [done|].
  intros a b [->|Ha]%elem_of_cons Hb; [|by apply H3].
  rewrite forallb_forall in Hq. by apply Hq, list_elem_of_In.
Qed.

(** The priors before withdrawal. *)
Definition priors_before (req : Request) (c : Contribution) (live : gmap string value) : gmap string value :=
  if Req_PriorValuesCaptured req then Req_PriorValues req
  else foldl (capture live (Object c)) (Req_PriorValues req) (Paths c).

Lemma plan_update_inv req c live desired priors :
  plan_update req c live = Ok (desired, priors) ->
  let claimed := map Path_String (Paths c) in
  let st := foldl (withdraw claimed) (live, priors_before req c live) (Req_PreviousPaths req) in
  write_claims st.1 (Object c) (Paths c) = Ok desired /\ priors = st.2.
Proof.
  unfold plan_update. fold (priors_before req c live). cbv zeta.
  destruct (foldl _ (live, priors_before req c live) _) as [obj pr]. cbn [fst snd].
  intros (d & Hw & [= <- <-])%res_bind_ok. done.
Qed.

(** ** A concrete update *)

Definition sample_live : gmap string value :=
  {["metadata" := VMap {["name" := VStr "web"; "labels" := VMap {["old" := VStr "mine"; "keep" := VStr "k"]}]};
    "spec" := VMap {["rules" := VList [VMap {["host" := VStr "a.example.com"; "weight" := VInt 1]}]]}]}.

Definition team_path : Path := [FieldSegment "metadata"; FieldSegment "labels"; FieldSegment "team"].
Definition old_path : Path := [FieldSegment "metadata"; FieldSegment "labels"; FieldSegment "old"].
Definition rule_path (host : string) : Path := [FieldSegment "spec"; FieldSegment "rules"; KeySegment "host" host].

Definition sample_contribution : Contribution :=
  mkContribution
    {["metadata" := VMap {["labels" := VMap {["team" := VStr "a"]}]};
      "spec" := VMap {["rules" := VList [VMap {["host" := VStr "a.example.com"; "weight" := VInt 7]}]]}]}
    [team_path; rule_path "a.example.com"] "".

Definition sample_request (prev : list Path) (priors : gmap string value) (captured : bool) : Request :=
  mkRequest (mkRenderTarget "v1" "Service" "web" "demo") (Some sample_contribution) "patch-operator/p" ""
    prev priors captured None false.

(** ** Properties *)

(** (C28) A client-side update writes each claimed path, takes each path that is no longer claimed
    back to its recorded prior value, or deletes it when there was none, and changes nothing
    else. *)
Theorem csa_update_confined (req : Request) (c : Contribution) (live desired priors : gmap string value)
    (Hclaims : forallb claim_path (Paths c) = true)
    (Hdropped : forallb claim_path (dropped (map Path_String (Paths c)) (Req_PreviousPaths req)) = true)
    (Hdisj : disjoint_paths (dropped (map Path_String (Paths c)) (Req_PreviousPaths req) ++ Paths c) = true)
    (Hpresent : forall p, p ∈ dropped (map Path_String (Paths c)) (Req_PreviousPaths req) ->
       is_Some (Get (VMap live) p))
    (Hpriors : forall p v, p ∈ dropped (map Path_String (Paths c)) (Req_PreviousPaths req) ->
       priors_before req c live !! Path_String p = Some v -> carries_key p v = true)
    (Hplan : plan_update req c live = Ok (desired, priors)) :
  let drop := dropped (map Path_String (Paths c)) (Req_PreviousPaths req) in
  (forall p, p ∈ Paths c ->
     exists v, Get (VMap (Object c)) p = Some v /\ Get (VMap desired) p = Some v) /\
  (forall p v, p ∈ drop -> priors_before req c live !! Path_String p = Some v ->
     Get (VMap desired) p = Some v) /\
  (forall p, p ∈ drop -> priors_before req c live !! Path_String p = None -> ends_in_field p = true ->
     Get (VMap desired) p = None) /\
  (forall q, readable q = true -> (forall p, p ∈ drop ++ Paths c -> diverge p q = true) ->
     Get (VMap desired) q = Get (VMap live) q).
Proof.
  cbv zeta. apply plan_update_inv in Hplan as [Hw _]. cbv zeta in Hw.
  set (drop := dropped _ _) in *. destruct (disjoint_app _ _ Hdisj) as (Hd1 & Hd2 & Hd3).
  rewrite (withdraw_obj _ _ _ _ (priors_before req c live)) in Hw by done. fold drop in Hw.
  destruct (revert_fold_spec drop live (priors_before req c live)) as (Rf & Rr & Rg); [done..|].
  destruct (write_claims_spec _ _ _ _ Hclaims Hd2 Hw) as [Wc Wf].
  assert (forall p, p ∈ drop -> readable p = true) as Hread.
  { intros p Hp. rewrite forallb_forall in Hdropped. by apply claim_readable, Hdropped, list_elem_of_In. }
  assert (forall p, p ∈ drop -> forall q, q ∈ Paths c -> diverge q p = true) as Hback.
  { intros p Hp q Hq. rewrite diverge_sym. auto. }
  split; [done|]. split; [|split].
  - intros p v Hp Hv. rewrite Wf by auto. by apply Rr.
  - intros p Hp Hv He. rewrite Wf by auto. by apply Rg.
  - intros q Hq Hall. rewrite Wf by (intros; try apply Hall; try apply elem_of_app; auto).
    apply Rf; [done|]. intros p Hp. apply Hall, elem_of_app. by left.
Qed.

Lemma csa_update_confined_witness :
  exists desired priors,
    plan_update (sample_request [old_path] {["metadata.labels.old" := VStr "theirs"]} true)
      sample_contribution sample_live = Ok (desired, priors) /\
    Get (VMap desired) team_path = Some (VStr "a") /\
    Get (VMap desired) old_path = Some (VStr "theirs") /\
    Get (VMap desired) [FieldSegment "metadata"; FieldSegment "labels"; FieldSegment "keep"] = Some (VStr "k").
Proof.
  destruct (is_ok_inv (plan_update (sample_request [old_path] {["metadata.labels.old" := VStr "theirs"]} true)
    sample_contribution sample_live)) as [[desired priors] E];
    [by vm_compute|].
  assert (dropped (map Path_String (Paths sample_contribution)) [old_path] = [old_path]) as Hdrop by by vm_compute.
  destruct (csa_update_confined (sample_request [old_path] {["metadata.labels.old" := VStr "theirs"]} true)
    sample_contribution sample_live desired priors eq_refl eq_refl eq_refl
    ltac:(cbn [Req_PreviousPaths sample_request]; rewrite Hdrop; intros p ->%list_elem_of_singleton; vm_compute; by eexists)
    ltac:(cbn [Req_PreviousPaths sample_request]; rewrite Hdrop; by intros p v ->%list_elem_of_singleton) E)
    as (Hw & Hr & _ & Hf).
  cbn [Req_PreviousPaths sample_request] in Hr, Hf. rewrite Hdrop in Hr, Hf.
  exists desired, priors. split; [done|]. split; [|split].
  - destruct (Hw team_path ltac:(left)) as (v & Hv & ->).
    vm_compute in Hv. by symmetry.
  - apply Hr; [left|by vm_compute].
  - rewrite Hf; [by vm_compute|done|].
    intros p Hp. apply list_elem_of_In in Hp. vm_compute in Hp.
    destruct Hp as [<-|[<-|[<-|[]]]]; reflexivity.
Defined.

(** Prior values are captured once: after the capture is marked finished an update records
    nothing new, and whether or not it is, a recorded prior of a path that is still claimed is
    never replaced. *)
Theorem csa_priors_captured_once (req : Request) (c : Contribution) (live desired priors : gmap string value)
    (Hplan : plan_update req c live = Ok (desired, priors)) :
  (Req_PriorValuesCaptured req = true ->
   forall k v, priors !! k = Some v -> Req_PriorValues req !! k = Some v) /\
  (forall k v, Req_PriorValues req !! k = Some v ->
   k ∉ map Path_String (dropped (map Path_String (Paths c)) (Req_PreviousPaths req)) ->
   priors !! k = Some v).
Proof.
  apply plan_update_inv in Hplan as [_ ->]. rewrite withdraw_priors.
  split.
  - intros Hcap k v. rewrite delete_all_lookup. unfold priors_before. rewrite Hcap.
    by case_bool_decide.
  - intros k v Hv Hk. rewrite delete_all_lookup, bool_decide_false by done.
    unfold priors_before. destruct (Req_PriorValuesCaptured req); [done|]. by apply capture_keeps.
Qed.

(** (C4) Applying a contribution and reverting it is the identity on everything one can read: paths
    outside the contribution never change; a value it overwrote is restored; a field it introduced
    is gone again.  (A value that already equalled the contribution's counts as introduced by
    it.) *)
Theorem csa_apply_revert (req : Request) (c : Contribution) (live desired priors : gmap string value)
    (target : RenderTarget) (manager : string)
    (Hfresh : Req_PreviousPaths req = [] /\ Req_PriorValues req = ∅ /\ Req_PriorValuesCaptured req = false)
    (Hclaims : forallb claim_path (Paths c) = true) (Hdisj : disjoint_paths (Paths c) = true)
    (Hplan : plan_update req c live = Ok (desired, priors)) :
  let reverted := plan_revert (mkRevertRequest target manager (Paths c) priors) desired in
  (forall q, readable q = true -> (forall p, p ∈ Paths c -> diverge p q = true) ->
     Get (VMap reverted) q = Get (VMap live) q) /\
  (forall p old new, p ∈ Paths c -> Get (VMap live) p = Some old -> Get (VMap (Object c)) p = Some new ->
     sameValue old new = false -> Get (VMap reverted) p = Some old) /\
  (forall p, p ∈ Paths c -> Get (VMap live) p = None -> ends_in_field p = true ->
     Get (VMap reverted) p = None).
Proof.
  destruct Hfresh as (Hprev & Hpv & Hcap). apply plan_update_inv in Hplan as [Hw Hpri].
  rewrite Hprev in Hw, Hpri. cbn in Hw, Hpri. unfold priors_before in Hpri. rewrite Hcap, Hpv in Hpri.
  destruct (write_claims_spec _ _ _ _ Hclaims Hdisj Hw) as [Wc Wf].
  assert (forall p, p ∈ Paths c -> claim_path p = true) as Hcl.
  { intros p Hp. rewrite forallb_forall in Hclaims. by apply Hclaims, list_elem_of_In. }
  assert (forall p, p ∈ Paths c -> priors !! Path_String p = prior_of live (Object c) p) as Hprior.
  { intros p Hp. rewrite Hpri. apply capture_spec; [done|done|by apply Hcl|done]. }
  unfold plan_revert. cbn [Rev_PriorValues Rev_OwnedPaths].
  destruct (revert_fold_spec (Paths c) desired priors) as (Rf & Rr & Rg); [done|done| | |].
  { intros p Hp. destruct (Wc p Hp) as (v & _ & ->). by eexists. }
  { intros p v Hp Hv. rewrite Hprior in Hv by done. unfold prior_of in Hv.
    destruct (Get (VMap live) p) as [w|] eqn:Hg; [|done].
    assert (v = w) as -> by (repeat case_match; congruence).
    destruct (claim_path_inv p (Hcl p Hp)) as (_ & Hpp & _). by eapply Get_carries_key. }
  split; [|split].
  - intros q Hq Hall. by rewrite Rf, Wf.
  - intros p old new Hp Hold Hnew Hne. apply Rr; [done|]. rewrite Hprior by done.
    unfold prior_of. by rewrite Hold, Hnew, Hne.
  - intros p Hp Hnone He. apply Rg; [done| |done]. rewrite Hprior by done. unfold prior_of. by rewrite Hnone.
Qed.

Lemma csa_apply_revert_witness :
  exists desired priors,
    plan_update (sample_request [] ∅ false) sample_contribution sample_live = Ok (desired, priors) /\
    let reverted := plan_revert (mkRevertRequest (mkRenderTarget "v1" "Service" "web" "demo")
      "patch-operator/p" (Paths sample_contribution) priors) desired in
    Get (VMap reverted) (rule_path "a.example.com") =
      Some (VMap {["host" := VStr "a.example.com"; "weight" := VInt 1]}) /\
    Get (VMap reverted) team_path = None.
Proof.
  destruct (is_ok_inv (plan_update (sample_request [] ∅ false) sample_contribution sample_live)) as [[desired priors] E];
    [by vm_compute|].
  destruct (csa_apply_revert (sample_request [] ∅ false) sample_contribution sample_live desired priors (mkRenderTarget "v1" "Service" "web" "demo") "patch-operator/p"
    (conj eq_refl (conj eq_refl eq_refl)) eq_refl eq_refl E) as (_ & Hr & Hg).
  exists desired, priors. split; [done|]. split.
  - eapply Hr; [right; left|by vm_compute..].
  - apply Hg; [left|by vm_compute|done].
Defined.

End CsaSpec.
