(* ===== verification/CsaSettles.v ===== *)
(** Client-side apply reaches a fixed point after one write: an object that holds what a contribution
    claims is left alone, and its values are not mistaken for prior ones, even when the bookkeeping
    of the first write was lost ([internal/apply/csa.go]). *)
From stdpp Require Import strings base list gmap fin_maps.
From Stdlib Require Import Ascii NArith ZArith Lia.
From S2P Require Import Prelude GoStrings Values Json FieldPath FieldPathNotation FieldPathUpdate.
From S2P Require Import FieldPathRoundTrip FieldPathPresence ApiTypes Render Client Applier CsaSpec.
Local Open Scope string_scope.
Local Open Scope list_scope.

Module CsaSettles.
Import GoStrings Values Json FieldPath FieldPathNotation FieldPathUpdate FieldPathPresence.
Import FieldPathRoundTrip ApiTypes Render Client Applier CsaSpec.

(** ** Encoding a changed value *)

(** The encoding of a map depends on the encodings of its members only. *)
Lemma marshal_map_fmap m :
  marshal (VMap m) =
  let kvs := sort key_less (map_fold (fun k t acc => (k, t) :: acc) [] (marshal <$> m)) in
  "{" +:+ String.concat "," (map (fun kv => json_string kv.1 +:+ ":" +:+ kv.2) kvs) +:+ "}".
Proof. cbn [marshal]. by rewrite map_fold_fmap. Qed.

Lemma marshal_map_insert m k v w :
  m !! k = Some w -> marshal v = marshal w -> marshal (VMap (<[k := v]> m)) = marshal (VMap m).
Proof.
  intros Hk E. rewrite !marshal_map_fmap, fmap_insert, insert_id; [done|].
  by rewrite lookup_fmap, Hk, E.
Qed.

Lemma marshal_list_insert l i v w :
  l !! i = Some w -> marshal v = marshal w -> marshal (VList (<[i := v]> l)) = marshal (VList l).
Proof.
  intros Hi E. cbn [marshal].
  assert (map marshal (<[i := v]> l) = map marshal l) as ->; [|done].
  change (marshal <$> <[i := v]> l = marshal <$> l).
  rewrite list_fmap_insert, list_insert_id; [done|]. by rewrite list_lookup_fmap, Hi, E.
Qed.

(** Writing a value where one with the same encoding is leaves the encoding of the whole as it was. *)
Lemma set_child_same p : forall c v w c',
  p <> [] -> Forall (fun s => proper s = true) p -> Get c p = Some w -> marshal v = marshal w ->
  set_child c p v = Some c' -> marshal c' = marshal c.
Proof.
  induction p as [|s rest IH]; [done|]. intros c v w c' _ Hp Hg E Hs. inversion_clear Hp as [|? ? Hps Hpr].
  destruct (IsField s) eqn:Hf.
  - destruct c as [| | | | |l|m]; try (by rewrite Get_scalar in Hg); [by rewrite Get_list_field in Hg|].
    rewrite Get_field in Hg by done. destruct (m !! Field s) as [e|] eqn:He; [|done]. cbn in Hg.
    rewrite set_child_map in Hs by done. destruct rest as [|next rest].
    + cbn in Hg. simplify_eq. by eapply marshal_map_insert.
    + rewrite He in Hs. cbn [child_of] in Hs. rewrite (child_of_Get _ _ _ _ Hg (Forall_inv Hpr)) in Hs.
      apply fmap_Some in Hs as (x & Hx & ->). eapply marshal_map_insert; [done|]. by eapply IH.
  - destruct c as [| | | | |l|m]; try (by rewrite Get_scalar in Hg); [|by rewrite Get_map_list in Hg].
    rewrite Get_list in Hg by done. destruct (read_at l s) as [j|] eqn:Ej; [|done]. cbn in Hg.
    destruct (l !! j) as [e|] eqn:He; [|done]. cbn in Hg. pose proof (lookup_lt_Some _ _ _ He) as Hlt.
    rewrite (set_child_list l s rest v l j) in Hs by (try done; by apply locate_present).
    destruct rest as [|next rest].
    + cbn in Hg. simplify_eq. by eapply marshal_list_insert.
    + rewrite He in Hs. cbn [child_of] in Hs. rewrite (child_of_Get _ _ _ _ Hg (Forall_inv Hpr)) in Hs.
      apply fmap_Some in Hs as (x & Hx & ->). eapply marshal_list_insert; [done|]. by eapply IH.
Qed.

Lemma SetPath_same obj p v w obj' :
  Forall (fun s => proper s = true) p -> Get (VMap obj) p = Some w -> marshal v = marshal w ->
  SetPath obj p v = (obj', None) -> marshal (VMap obj') = marshal (VMap obj).
Proof. intros Hp Hg E [Hne Hs]%SetPath_child. by eapply set_child_same. Qed.

(** ** Settled objects *)

(** The object holds what the contribution claims. *)
Definition settled (live contribution : gmap string value) (p : Path) : Prop :=
  exists v w, Get (VMap contribution) p = Some v /\ Get (VMap live) p = Some w /\ sameValue w v = true.

Lemma sameValue_marshal v w : sameValue v w = true <-> marshal v = marshal w.
Proof. unfold sameValue. apply String.eqb_eq. Qed.

Lemma capture_settled live contribution ps : forall priors,
  (forall p, p ∈ ps -> settled live contribution p) ->
  foldl (capture live contribution) priors ps = priors.
Proof.
  induction ps as [|p ps IH]; intros priors H; [done|]. cbn [foldl].
  destruct (H p ltac:(left)) as (v & w & Hv & Hw & E).
  rewrite capture_step. unfold prior_of. rewrite Hv, Hw, E.
  replace (match priors !! Path_String p with Some _ => priors | None => priors end) with priors
    by (by destruct (priors !! _)).
  apply IH. intros q Hq. apply H. by right.
Qed.

Lemma withdraw_none claimed prev : forall st,
  dropped claimed prev = [] -> foldl (withdraw claimed) st prev = st.
Proof.
  induction prev as [|p prev IH]; intros [obj priors] H; [done|]. cbn [foldl withdraw].
  case_bool_decide as Hin; [rewrite dropped_cons_in in H by done; by apply IH|].
  by rewrite dropped_cons_out in H.
Qed.

Lemma write_claims_settled ps : forall live contribution,
  forallb claim_path ps = true -> disjoint_paths ps = true ->
  (forall p, p ∈ ps -> settled live contribution p) ->
  exists obj, write_claims live contribution ps = Ok obj /\ marshal (VMap obj) = marshal (VMap live).
Proof.
  induction ps as [|p ps IH]; intros live contribution Hc Hd Hs; [by exists live|].
  cbn in Hc, Hd. apply andb_prop in Hc as [Hcp Hcs]. apply andb_prop in Hd as [Hdp Hds].
  destruct (Hs p ltac:(left)) as (v & w & Hv & Hw & E%sameValue_marshal).
  pose proof (claim_path_inv p Hcp) as ((s & rest & Ep & Hf) & Hp & _ & _ & Hav).
  destruct (SetPath_total live s rest v w) as [live1 H1]; [by subst p..|]. rewrite <- Ep in H1.
  destruct (IH live1 contribution Hcs Hds) as (obj & Ho & Em).
  - intros q Hq. destruct (Hs q ltac:(by right)) as (v' & w' & Hv' & Hw' & E'). exists v', w'. split; [done|].
    split; [|done]. rewrite <- Hw'. rewrite forallb_forall in Hdp, Hcs. apply list_elem_of_In in Hq.
    destruct (readable_inv q (claim_readable q (Hcs q Hq))) as [Hpq Havq].
    eapply (SetPath_frame live p q v); eauto using keys_kept_read.
  - exists obj. split; [cbn [write_claims]; by rewrite Hv, H1|].
    rewrite Em. by eapply SetPath_same.
Qed.

Lemma equalContent_marshal a b : marshal (VMap a) = marshal (VMap b) -> equalContent a b = true.
Proof. intros E. unfold equalContent, HashObject. by rewrite E, String.eqb_refl. Qed.

(** What an update plans to store is settled. *)
Lemma plan_update_settled req c live desired priors :
  forallb claim_path (Paths c) = true -> disjoint_paths (Paths c) = true ->
  plan_update req c live = Ok (desired, priors) ->
  forall p, p ∈ Paths c -> settled desired (Object c) p.
Proof.
  intros Hc Hd [Hw _]%plan_update_inv p Hp.
  destruct (write_claims_spec _ _ _ _ Hc Hd Hw) as [H _].
  destruct (H p Hp) as (v & Hv & Hv'). exists v, v. split; [done|]. split; [done|]. by apply sameValue_marshal.
Qed.

(** The update after it. *)
Definition again (req : Request) (c : Contribution) (priors : gmap string value) (captured : bool) : Request :=
  mkRequest (Req_Target req) (Some c) (Req_FieldManager req) (Req_ConflictPolicy req) (Paths c) priors captured
    (Req_Base req) (AllowCreate req).

Lemma dropped_claimed claimed prev :
  (forall p, p ∈ prev -> Path_String p ∈ claimed) -> dropped claimed prev = [].
Proof.
  induction prev as [|p prev IH]; intros H; [done|].
  rewrite dropped_cons_in by (apply H; left). apply IH. intros q Hq. apply H. by right.
Qed.

(** An update of a settled object with nothing to withdraw calls nobody. *)
Lemma csa_update_settled req c live :
  forallb claim_path (Paths c) = true -> disjoint_paths (Paths c) = true ->
  dropped (map Path_String (Paths c)) (Req_PreviousPaths req) = [] ->
  (forall p, p ∈ Paths c -> settled live (Object c) p) ->
  csa_update req c live =
    Ret (Ok (mkResult false false (Some live) (Paths c) (Req_PriorValues req) true None)).
Proof.
  intros Hclaims Hdisj Hdrop Hs. unfold csa_update, plan_update.
  rewrite capture_settled by done.
  replace (if Req_PriorValuesCaptured req then _ else _) with (Req_PriorValues req)
    by (by destruct (Req_PriorValuesCaptured req)).
  rewrite withdraw_none by done.
  destruct (write_claims_settled (Paths c) live (Object c)) as (obj & -> & E); [done..|].
  cbn [res_bind]. by rewrite equalContent_marshal.
Qed.

(** ** Properties *)

(** (C22) Client-side apply settles.  On an object that already holds, up to encoding, every value a
    contribution claims, and with nothing left to withdraw, an update calls nobody, reports the object
    unchanged, and keeps the recorded priors exactly as they are: the contribution's own values never
    become priors, although the flag that the capture is finished may be unset.  What an update
    stores is such an object, so the next update does nothing, whether the bookkeeping of the
    first one was recorded or lost. *)
Theorem csa_apply_settles (req : Request) (c : Contribution) (live : gmap string value)
    (Hclaims : forallb claim_path (Paths c) = true) (Hdisj : disjoint_paths (Paths c) = true) :
  (dropped (map Path_String (Paths c)) (Req_PreviousPaths req) = [] ->
   (forall p, p ∈ Paths c -> settled live (Object c) p) ->
   csa_update req c live =
     Ret (Ok (mkResult false false (Some live) (Paths c) (Req_PriorValues req) true None))) /\
  (forall desired priors, plan_update req c live = Ok (desired, priors) ->
   forall recorded captured,
   csa_update (again req c recorded captured) c desired =
     Ret (Ok (mkResult false false (Some desired) (Paths c) recorded true None))).
Proof.
  split; [by apply csa_update_settled|]. intros desired priors Hplan recorded captured.
  apply (csa_update_settled (again req c recorded captured)); [done..|apply dropped_claimed; intros p Hp; by apply list_elem_of_fmap_2|].
  by eapply plan_update_settled.
Qed.

Lemma csa_apply_settles_witness :
  exists desired priors,
    plan_update (sample_request [] ∅ false) sample_contribution sample_live = Ok (desired, priors) /\
    csa_update (again (sample_request [] ∅ false) sample_contribution ∅ false) sample_contribution desired =
      Ret (Ok (mkResult false false (Some desired) (Paths sample_contribution) ∅ true None)).
Proof.
  destruct (is_ok_inv (plan_update (sample_request [] ∅ false) sample_contribution sample_live)) as [[desired priors] E];
    [by vm_compute|].
  exists desired, priors. split; [done|].
  by apply (csa_apply_settles (sample_request [] ∅ false) sample_contribution sample_live eq_refl eq_refl) with (1 := E).
Defined.

End CsaSettles.
