(* ===== verification/CsaCompose.v ===== *)
(** Several contributors of one target under client-side apply: as long as no two claim the same place,
    each arrives, is applied again and leaves as if it were alone ([internal/apply/csa.go]). *)
From stdpp Require Import strings base list gmap fin_maps relations.
From S2P Require Import Prelude GoStrings Values FieldPath FieldPathUpdate FieldPathDelete FieldPathRoundTrip FieldPathPresence.
From S2P Require Import ApiTypes Render Client Applier CsaSpec CsaSettles.
Local Open Scope string_scope.
Local Open Scope list_scope.

Module CsaCompose.
Import GoStrings Values FieldPath FieldPathUpdate FieldPathDelete FieldPathRoundTrip FieldPathPresence.
Import ApiTypes Render Client Applier CsaSpec CsaSettles.

(** ** The target and what is recorded of each contributor *)

Record Book := mkBook { b_owned : list Path; b_priors : gmap string value }.

Record Company := mkCompany { co_target : gmap string value; co_books : gmap nat Book }.

Section Company.
Variable target : RenderTarget.
Variable manager : string.

(** Contributors are known by their position. *)
Variable members : list Contribution.

(** What an apply is told: the last one's record, if there was one. *)
Definition request_for (c : Contribution) (b : option Book) : Request :=
  match b with
  | None => mkRequest target (Some c) manager "" [] ∅ false None false
  | Some b => mkRequest target (Some c) manager "" (b_owned b) (b_priors b) true None false
  end.

(** A member is applied; an error leaves the target as it is and nothing is recorded. *)
Definition applied (i : nat) (s : Company) : Company :=
  match members !! i with
  | None => s
  | Some c =>
      match plan_update (request_for c (co_books s !! i)) c (co_target s) with
      | Ok (desired, priors) => mkCompany desired (<[i := mkBook (Paths c) priors]> (co_books s))
      | Err _ => s
      end
  end.

(** A member's contribution is reverted and its record dropped. *)
Definition withdrawn (i : nat) (s : Company) : Company :=
  match co_books s !! i with
  | None => s
  | Some b =>
      mkCompany (plan_revert (mkRevertRequest target manager (b_owned b) (b_priors b)) (co_target s)) (base.delete i (co_books s))
  end.

(** Others write the target too, but not where a member claims. *)
Inductive move (s : Company) : Company -> Prop :=
| applies i : move s (applied i s)
| leaves i : move s (withdrawn i s)
| others t :
    (forall c p, c ∈ members -> p ∈ Paths c -> Get (VMap t) p = Get (VMap (co_target s)) p) ->
    move s (mkCompany t (co_books s)).

Definition claims : list Path := members ≫= Paths.

Lemma claims_of i c p : members !! i = Some c -> p ∈ Paths c -> p ∈ claims.
Proof. intros Hi Hp. apply list_elem_of_bind. exists c. split; [done|]. by eapply list_elem_of_lookup_2. Qed.

Hypothesis Hclaims : forallb claim_path claims = true.
Hypothesis Hdisj : disjoint_paths claims = true.

Lemma claims_ok i c : members !! i = Some c -> forallb claim_path (Paths c) = true.
Proof.
  intros Hi. apply forallb_forall. intros p Hp. rewrite forallb_forall in Hclaims.
  apply Hclaims, list_elem_of_In. eapply claims_of; [done|]. by apply list_elem_of_In.
Qed.

Lemma claim_ok i c p : members !! i = Some c -> p ∈ Paths c -> claim_path p = true.
Proof. intros Hi Hp. pose proof (claims_ok i c Hi) as H. rewrite forallb_forall in H. by apply H, list_elem_of_In. Qed.

Lemma disjoint_bind ms : disjoint_paths (ms ≫= Paths) = true ->
  (forall i c, ms !! i = Some c -> disjoint_paths (Paths c) = true) /\
  (forall i j c d p q, ms !! i = Some c -> ms !! j = Some d -> i <> j -> p ∈ Paths c -> q ∈ Paths d -> diverge p q = true).
Proof.
  induction ms as [|m ms IH]; [by split|]. intros H. apply disjoint_app in H as (Hm & Hms & Hx). destruct (IH Hms) as [IH1 IH2].
  assert (forall j d q, ms !! j = Some d -> q ∈ Paths d -> q ∈ ms ≫= Paths) as Hin.
  { intros j d q Hj Hq. apply list_elem_of_bind. exists d. split; [done|]. by eapply list_elem_of_lookup_2. }
  split.
  - intros [|i] c Hi; [by injection Hi as <-|by eapply IH1].
  - intros [|i] [|j] c d p q Hi Hj N Hp Hq; [done| | |].
    + injection Hi as <-. apply Hx; [done|]. by eapply Hin.
    + injection Hj as <-. rewrite diverge_sym. apply Hx; [done|]. by eapply Hin.
    + eapply (IH2 i j); eauto.
Qed.

(** ** What a member finds and leaves *)

Variable start : gmap string value.

(** A path is as it was at the start, unless it held what is claimed for it, and is gone. *)
Definition as_found (t : gmap string value) (c : Contribution) (p : Path) : Prop :=
  Get (VMap t) p = Get (VMap start) p \/
  Get (VMap t) p = None /\ exists old new,
    Get (VMap start) p = Some old /\ Get (VMap (Object c)) p = Some new /\ sameValue old new = true.

Lemma as_found_prior t c p : as_found t c p -> prior_of t (Object c) p = prior_of start (Object c) p.
Proof. unfold prior_of. intros [->|(-> & old & new & -> & -> & ->)]; done. Qed.

(** What is recorded of a member whose contribution is on the target. *)
Record present (t : gmap string value) (c : Contribution) (b : Book) : Prop := {
  pr_owned : b_owned b = Paths c;
  pr_there : forall p, p ∈ Paths c -> exists v, Get (VMap (Object c)) p = Some v /\ Get (VMap t) p = Some v;
  pr_priors : forall p, p ∈ Paths c -> b_priors b !! Path_String p = prior_of start (Object c) p;
}.

Definition stands (t : gmap string value) (c : Contribution) (b : option Book) : Prop :=
  match b with Some b => present t c b | None => forall p, p ∈ Paths c -> as_found t c p end.

(** Only what is read at the member's own claims matters. *)
Lemma stands_frame t t' c b :
  stands t c b -> (forall p, p ∈ Paths c -> Get (VMap t') p = Get (VMap t) p) -> stands t' c b.
Proof.
  intros H Hf. destruct b as [b|]; cbn in *.
  - destruct H as [H1 H2 H3]. split; [done| |done]. intros p Hp. rewrite Hf by done. by apply H2.
  - intros p Hp. unfold as_found. rewrite Hf by done. by apply H.
Qed.

(** A path outside the claims of [c]. *)
Definition elsewhere (c : Contribution) (q : Path) : Prop := readable q = true /\ forall p, p ∈ Paths c -> diverge p q = true.

(** Nothing is withdrawn when the claims are what they were. *)
Lemma dropped_none ps : dropped (map Path_String ps) ps = [].
Proof.
  enough (forall qs, (forall q, q ∈ qs -> q ∈ ps) -> dropped (map Path_String ps) qs = []) as H by by apply H.
  induction qs as [|q qs IH]; intros Hq; [done|]. rewrite dropped_cons_in; [apply IH; intros; apply Hq; by right|].
  apply list_elem_of_fmap. exists q. split; [done|]. apply Hq. left.
Qed.

Lemma apply_stands i c t b d priors :
  members !! i = Some c -> stands t c b -> plan_update (request_for c b) c t = Ok (d, priors) ->
  present d c (mkBook (Paths c) priors) /\ forall q, elsewhere c q -> Get (VMap d) q = Get (VMap t) q.
Proof.
  intros Hi Hs [Hw ->]%plan_update_inv. pose proof (claims_ok i c Hi) as Hc. pose proof (proj1 (disjoint_bind members Hdisj) i c Hi) as Hd.
  assert (foldl (withdraw (map Path_String (Paths c))) (t, priors_before (request_for c b) c t) (Req_PreviousPaths (request_for c b)) =
    (t, priors_before (request_for c b) c t)) as E.
  { destruct b as [b|]; [|done]. cbn [request_for Req_PreviousPaths]. rewrite (pr_owned _ _ _ Hs). apply withdraw_none, dropped_none. }
  rewrite E in *. cbn [fst snd] in *. destruct (write_claims_spec _ _ _ _ Hc Hd Hw) as [Hthere Hframe].
  split; [split; [done|done|]|by intros q [Hq Hall]; apply Hframe].
  intros p Hp. cbn [b_priors]. unfold priors_before. destruct b as [b|]; cbn [request_for Req_PriorValuesCaptured Req_PriorValues].
  - by apply (pr_priors _ _ _ Hs).
  - rewrite capture_spec; [|done|done|by eapply claim_ok|done]. by apply as_found_prior, Hs.
Qed.

(** A claim that is deleted when it is withdrawn has to end in a field. *)
Hypothesis Hends : forall c p, c ∈ members -> p ∈ Paths c -> ends_in_field p = true \/ is_Some (prior_of start (Object c) p).

Lemma withdraw_stands i c t b :
  members !! i = Some c -> present t c b ->
  let t' := plan_revert (mkRevertRequest target manager (b_owned b) (b_priors b)) t in
  stands t' c None /\ forall q, elsewhere c q -> Get (VMap t') q = Get (VMap t) q.
Proof.
  intros Hi [Hown Hthere Hpriors]. cbv zeta. unfold plan_revert. cbn [Rev_OwnedPaths Rev_PriorValues]. rewrite Hown.
  assert (c ∈ members) as Hin by by eapply list_elem_of_lookup_2.
  destruct (revert_fold_spec (Paths c) t (b_priors b)) as (Hf & Hr & Hg);
    [by eapply claims_ok|by apply (proj1 (disjoint_bind members Hdisj) i)| | |].
  { intros p Hp. destruct (Hthere p Hp) as (v & _ & ->). by eexists. }
  { intros p v Hp Hv. rewrite Hpriors in Hv by done. unfold prior_of in Hv. destruct (Get (VMap start) p) as [w|] eqn:Hg; [|done].
    assert (v = w) as -> by (repeat case_match; congruence).
    destruct (claim_path_inv p) as (_ & Hpp & _); [by eapply claim_ok|]. by eapply Get_carries_key. }
  split; [|intros q [Hq Hall]; by apply Hf]. intros p Hp. pose proof (Hpriors p Hp) as Hpr. unfold as_found.
  destruct (prior_of start (Object c) p) as [v|] eqn:E.
  - left. rewrite (Hr p v Hp Hpr). unfold prior_of in E. repeat case_match; congruence.
  - destruct (Hends c p Hin Hp) as [He|Hsome]; [|rewrite E in Hsome; by destruct Hsome]. rewrite (Hg p Hp Hpr He). unfold prior_of in E.
    destruct (Get (VMap start) p) as [old|] eqn:Eold; [|by left]. right. split; [done|]. exists old.
    destruct (Get (VMap (Object c)) p) as [new|]; [|done]. exists new. by destruct (sameValue old new).
Qed.

(** ** The company *)

Definition stands_all (s : Company) : Prop := forall i c, members !! i = Some c -> stands (co_target s) c (co_books s !! i).

Definition known (s : Company) : Prop := forall i, is_Some (co_books s !! i) -> is_Some (members !! i).

(** The others' claims lie elsewhere. *)
Lemma others_elsewhere i j c d p :
  members !! i = Some c -> members !! j = Some d -> i <> j -> p ∈ Paths d -> elsewhere c p.
Proof.
  intros Hi Hj N Hp. split; [apply claim_readable; by eapply claim_ok|]. intros q Hq.
  by apply (proj2 (disjoint_bind members Hdisj) i j c d).
Qed.

Lemma stands_move s s' : known s /\ stands_all s -> move s s' -> known s' /\ stands_all s'.
Proof.
  intros [Hk Hs] [i|i|t Ht].
  - unfold applied. destruct (members !! i) as [c|] eqn:Hi; [|done].
    destruct (plan_update _ _ _) as [[d priors]|e] eqn:E; [|done].
    destruct (apply_stands i c _ _ _ _ Hi (Hs i c Hi) E) as [Hp Hf]. split.
    + intros j. cbn. destruct (decide (j = i)) as [->|N]; [by rewrite Hi|]. rewrite lookup_insert_ne by done. apply Hk.
    + intros j d' Hj. cbn. destruct (decide (j = i)) as [->|N]; [rewrite lookup_insert_eq; by simplify_eq|].
      rewrite lookup_insert_ne by done. eapply stands_frame; [by apply Hs|]. intros p Hpj. apply Hf. by eapply (others_elsewhere i j).
  - unfold withdrawn. destruct (co_books s !! i) as [b|] eqn:Eb; [|done]. destruct (Hk i ltac:(by rewrite Eb)) as [c Hi].
    pose proof (Hs i c Hi) as Hpi. rewrite Eb in Hpi. destruct (withdraw_stands i c _ b Hi Hpi) as [Hp Hf]. split.
    + intros j. cbn. destruct (decide (j = i)) as [->|N]; [by rewrite Hi|]. rewrite lookup_delete_ne by done. apply Hk.
    + intros j d' Hj. cbn [co_target co_books]. destruct (decide (j = i)) as [->|N]; [rewrite lookup_delete_eq; by simplify_eq|].
      rewrite lookup_delete_ne by done. eapply stands_frame; [by apply Hs|]. intros p Hpj. apply Hf. by eapply (others_elsewhere i j).
  - split; [done|]. intros i c Hi. eapply stands_frame; [by apply Hs|]. intros p Hp. apply (Ht c); [by eapply list_elem_of_lookup_2|done].
Qed.

Lemma stands_reachable s : rtc move (mkCompany start ∅) s -> known s /\ stands_all s.
Proof.
  intros H. eapply (rtc_ind_r (fun s => known s /\ stands_all s)); [|intros; by eapply stands_move|exact H].
  split; [intros i; cbn; rewrite lookup_empty; by intros [? ?]|]. intros i c Hi. cbn. rewrite lookup_empty. intros p Hp. by left.
Qed.

(** (C5) Contributors compose.  Members of one target whose claims lie apart are applied, applied again
    and withdrawn in any order and any number of times, with failures, and others write the rest of the
    target meanwhile.  Whenever one looks: a member that is applied has every one of its claims on the
    target; at the claims of one that is not, a value that was there before it came is there again and
    a field that was not is gone, except that a value that already equalled the claim may have been
    removed with it; and neither applying nor withdrawing a member changes anything that can be read
    outside its own claims, so nobody's arrival or departure shows in what another contributed. *)
Theorem contributors_compose (s : Company) (Hreach : rtc move (mkCompany start ∅) s) (i : nat) (c : Contribution)
    (Hi : members !! i = Some c) :
  (is_Some (co_books s !! i) -> forall p, p ∈ Paths c ->
     exists v, Get (VMap (Object c)) p = Some v /\ Get (VMap (co_target s)) p = Some v) /\
  (co_books s !! i = None -> forall p, p ∈ Paths c -> as_found (co_target s) c p) /\
  (forall q, readable q = true -> (forall p, p ∈ Paths c -> diverge p q = true) ->
     Get (VMap (co_target (applied i s))) q = Get (VMap (co_target s)) q /\
     Get (VMap (co_target (withdrawn i s))) q = Get (VMap (co_target s)) q).
Proof.
  destruct (stands_reachable s Hreach) as [_ Hs]. pose proof (Hs i c Hi) as H.
  split; [intros [b Eb]; rewrite Eb in H; apply (pr_there _ _ _ H)|].
  split; [intros Eb; by rewrite Eb in H|]. intros q Hq Hall. split.
  - unfold applied. rewrite Hi. destruct (plan_update _ _ _) as [[d priors]|e] eqn:E; [|done].
    by apply (proj2 (apply_stands i c _ _ _ _ Hi H E)).
  - unfold withdrawn. destruct (co_books s !! i) as [b|]; [|done]. by apply (proj2 (withdraw_stands i c _ b Hi H)).
Qed.

End Company.

(** ** Two members of one Service *)

(** The second one overwrites a label that was there, next to the one the first adds. *)
Definition two_members : list Contribution :=
  [sample_contribution; mkContribution {["metadata" := VMap {["labels" := VMap {["old" := VStr "yours"]}]}]} [old_path] ""].

Definition web : RenderTarget := mkRenderTarget "v1" "Service" "web" "demo".

(** Both arrive, the first is applied again and leaves. *)
Definition visited : Company :=
  withdrawn web "m" 0 (applied web "m" two_members 0 (applied web "m" two_members 1 (applied web "m" two_members 0 (mkCompany sample_live ∅)))).

Lemma visited_reachable : rtc (move web "m" two_members) (mkCompany sample_live ∅) visited.
Proof. do 3 (eapply rtc_l; [apply applies|]). apply rtc_once, leaves. Qed.

Lemma two_members_end c p : c ∈ two_members -> p ∈ Paths c ->
  ends_in_field p = true \/ is_Some (prior_of sample_live (Object c) p).
Proof.
  intros [->|[->|[]%elem_of_nil]%elem_of_cons]%elem_of_cons Hp.
  - apply elem_of_cons in Hp as [->|[->|[]%elem_of_nil]%elem_of_cons]; [by left|right]. exists (VMap {["host" := VStr "a.example.com"; "weight" := VInt 1]}). vm_refl.
  - apply elem_of_cons in Hp as [->|[]%elem_of_nil]. by left.
Qed.

Lemma contributors_compose_witness :
  co_books visited !! 0 = None /\ Get (VMap (co_target visited)) old_path = Some (VStr "yours") /\
  forall p, p ∈ Paths sample_contribution -> as_found sample_live (co_target visited) sample_contribution p.
Proof.
  assert (co_books visited !! 0 = None) as E by vm_refl. split; [exact E|]. split; [vm_refl|].
  exact (proj1 (proj2 (contributors_compose web "m" two_members ltac:(vm_refl) ltac:(vm_refl) sample_live two_members_end
    visited visited_reachable 0 sample_contribution eq_refl)) E).
Defined.

End CsaCompose.
