(* ===== verification/SsaSpec.v ===== *)
(** Server-side apply against any server: when it forces, when it creates, what it reads from a
    rejection ([internal/apply/ssa.go], [conflict.go]); and field manager names. *)
From stdpp Require Import strings base list gmap fin_maps.
From Stdlib Require Import Ascii NArith ZArith Lia.
From S2P Require Import Prelude GoStrings Values Json Sha256 ApiTypes Scope TrackerNames FieldPath Render Client Conflict Applier.
Local Open Scope string_scope.
Local Open Scope list_scope.

Module SsaSpec.
Import GoStrings Values Json Sha256 ApiTypes TrackerNames FieldPath Render Client Conflict Applier.

(** ** Reading a trace *)

(** A server-side apply call: object, manager, force, reply. *)
Definition apply_of (ev : event targetE)
    : option (gmap string value * string * bool * res goerror (gmap string value)) :=
  match ev_call ev in targetE R return R -> option _ with
  | ApplyTarget o m f => fun r => Some (o, m, f, r)
  | _ => fun _ => None
  end (ev_reply ev).

(** A read of the target, with its reply. *)
Definition get_of (ev : event targetE) : option (RenderTarget * res goerror (gmap string value)) :=
  match ev_call ev in targetE R return R -> option _ with
  | GetTarget t => fun r => Some (t, r)
  | _ => fun _ => None
  end (ev_reply ev).

(** The object an update or a create sends. *)
Definition update_of (ev : event targetE) : option (gmap string value) :=
  match ev_call ev with UpdateTarget o => Some o | _ => None end.
Definition create_of (ev : event targetE) : option (gmap string value) :=
  match ev_call ev with CreateTarget o => Some o | _ => None end.

Definition is_write (ev : event targetE) : bool :=
  match ev_call ev with GetTarget _ => false | _ => true end.

(** *** Who holds the fields of a rejected apply *)

(** A cause of a rejected apply says that [m] manages a field. *)
Definition named_in (causes : list StatusCause) (m : string) : Prop :=
  exists c, c ∈ causes /\ Cause_Type c = CauseTypeFieldManagerConflict /\ head (find_owners 0 (Cause_Message c)) = Some m.

(** The rejection says that [m] holds a field that was asked for: in one of its causes, or, when none
    of them names anybody, in its message. *)
Definition holds_field (e : goerror) (m : string) : Prop :=
  exists message causes, error_causes e = Some (message, causes) /\
    (named_in causes m \/ (forall m', ~ named_in causes m') /\ m ∈ find_owners 0 message).

(** A conflict over managed fields. *)
Definition field_conflict (e : goerror) : Prop :=
  IsConflict e = true /\
  exists message causes c, error_causes e = Some (message, causes) /\ c ∈ causes /\
    Cause_Type c = CauseTypeFieldManagerConflict.

(** A rejection that priority may override: a field conflict that names somebody, and nobody but this
    operator's managers. *)
Definition internal_conflict (e : goerror) : Prop :=
  field_conflict e /\ (exists m, holds_field e m) /\
  (forall m, holds_field e m -> String.prefix FieldManagerPrefix m = true).

Lemma elem_of_sorted_set x l : x ∈ sorted_set l <-> x ∈ l.
Proof. unfold sorted_set, sort_strings. by rewrite elem_of_sort, elem_of_elements, elem_of_list_to_set. Qed.

Lemma is_manager_cause_iff c : is_manager_cause c = true <-> Cause_Type c = CauseTypeFieldManagerConflict.
Proof. apply String.eqb_eq. Qed.

(** The owners found in the causes. *)
Lemma elem_of_cause_owners (causes : list StatusCause) (m : string) :
  m ∈ concat (map (fun c => match find_owners 0 (Cause_Message c) with m :: _ => [m] | [] => [] end)
    (filter is_manager_cause causes)) <-> named_in causes m.
Proof.
  rewrite list_elem_of_In, in_concat. unfold named_in. split.
  - intros (l & (c & <- & Hc)%in_map_iff & Hm). apply list_elem_of_In, list_elem_of_filter in Hc as [Ht Hc].
    apply Is_true_true, is_manager_cause_iff in Ht. exists c. split; [done|]. split; [done|].
    destruct (find_owners _ _); [done|]. destruct Hm as [->|[]]. done.
  - intros (c & Hc & Ht & Hm). destruct (find_owners 0 (Cause_Message c)) as [|m' l] eqn:E; [done|].
    injection Hm as ->. exists [m]. split; [|by left]. apply in_map_iff. exists c. rewrite E. split; [done|].
    apply list_elem_of_In, list_elem_of_filter. split; [|done]. by apply Is_true_true, is_manager_cause_iff.
Qed.

Lemma elem_of_ConflictingManagers e m : m ∈ ConflictingManagers e <-> holds_field e m.
Proof.
  unfold ConflictingManagers, holds_field. destruct (error_causes e) as [[message causes]|].
  2: { split; [by intros ?%elem_of_nil|by intros (? & ? & ? & _)]. }
  cbv zeta. rewrite elem_of_sorted_set.
  destruct (Nat.eqb_spec (length (concat (map (fun c => match find_owners 0 (Cause_Message c) with m :: _ => [m] | [] => [] end)
    (filter is_manager_cause causes)))) 0) as [E|E].
  - apply nil_length_inv in E.
    assert (forall m', ~ named_in causes m') as Hnone by (intros m'; rewrite <- elem_of_cause_owners, E; apply not_elem_of_nil).
    split; [intros H; exists message, causes; auto|]. intros (? & ? & [= <- <-] & [H|[_ H]]); [by destruct (Hnone m)|done].
  - rewrite elem_of_cause_owners. split; [intros H; exists message, causes; auto|].
    intros (? & ? & [= <- <-] & [H|[Hnone _]]); [done|]. exfalso. apply E.
    destruct (concat _) as [|m' l] eqn:Ec; [done|]. destruct (Hnone m'). rewrite <- elem_of_cause_owners, Ec. by left.
Qed.

Lemma IsFieldConflict_iff e : IsFieldConflict e = true <-> field_conflict e.
Proof.
  unfold IsFieldConflict, field_conflict. rewrite andb_true_iff. f_equiv.
  destruct (error_causes e) as [[message causes]|]; [|naive_solver]. rewrite existsb_exists. split.
  - intros (c & Hc & Ht). exists message, causes, c. rewrite list_elem_of_In. by rewrite is_manager_cause_iff in Ht.
  - intros (? & ? & c & [= <- <-] & Hc & Ht). exists c. by rewrite <- list_elem_of_In, is_manager_cause_iff.
Qed.

Lemma AllOurs_internal e :
  IsFieldConflict e = true -> AllOurs (ConflictingManagers e) = true -> internal_conflict e.
Proof.
  intros Hc [Hn Ho]%andb_true_iff. split; [by apply IsFieldConflict_iff|]. split.
  - destruct (ConflictingManagers e) as [|m l] eqn:E; [done|]. exists m. apply elem_of_ConflictingManagers. rewrite E. by left.
  - intros m Hm%elem_of_ConflictingManagers%list_elem_of_In. rewrite forallb_forall in Ho. exact (Ho m Hm).
Qed.

(** The first call the server got was an unforced apply that met an internal conflict. *)
Definition after_internal_conflict (tr : list (event targetE)) (obj : gmap string value) (manager : string) : Prop :=
  exists ev e, ev ∈ tr /\ apply_of ev = Some (obj, manager, false, Err e) /\ internal_conflict e.

(** *** The traces of [patch] *)

Lemma patch_traces obj manager policy tr r :
  exec (patch obj manager policy) tr r ->
  (exists reply, tr = [mkEvent _ (ApplyTarget obj manager (String.eqb policy ConflictPolicyForce)) reply]) \/
  (policy = ConflictPolicyPriority /\ exists e reply,
     tr = [mkEvent _ (ApplyTarget obj manager false) (Err e); mkEvent _ (ApplyTarget obj manager true) reply] /\
     internal_conflict e).
Proof.
  unfold patch. cbv zeta. cbn [bind call]. intros H.
  apply exec_vis_inv in H as (reply & tr' & -> & H).
  destruct reply as [live|e]; [apply exec_ret_inv in H as [-> _]; left; by eexists|].
  destruct (IsFieldConflict e) eqn:Hc; cbn [negb] in H; [|apply exec_ret_inv in H as [-> _]; left; by eexists].
  cbn [Conflict_AllOurs] in H.
  destruct (String.eqb_spec policy ConflictPolicyPriority) as [->|];
    [|apply exec_ret_inv in H as [-> _]; left; by eexists].
  destruct (AllOurs (ConflictingManagers e)) eqn:Ho; cbn [negb] in H;
    [|apply exec_ret_inv in H as [-> _]; left; by eexists].
  apply exec_vis_inv in H as (r2 & tr2 & -> & H). right. split; [done|].
  exists e, r2. split; [|by apply AllOurs_internal].
  destruct r2 as [?|e2]; [|destruct (IsFieldConflict e2)]; by apply exec_ret_inv in H as [-> _].
Qed.

Lemma exists_traces t tr r :
  exec (exists_ t) tr r -> exists reply, tr = [mkEvent _ (GetTarget t) reply] /\
    match reply with
    | Ok _ => r = Ok true
    | Err e => if IsNotFound e then r = Ok false else r = Err e
    end.
Proof.
  unfold exists_. cbn [bind call]. intros H. apply exec_vis_inv in H as (reply & tr' & -> & H).
  exists reply. destruct reply as [|e]; [|destruct (IsNotFound e)]; by apply exec_ret_inv in H as [-> ->].
Qed.

(** *** The traces of [ssa_Apply] and [csa_Apply] *)

(** Nothing is sent after the read, or [patch] runs for an object, which the read shows to exist or
    the request allows to create. *)
Lemma ssa_Apply_traces req tr r :
  exec (ssa_Apply req) tr r ->
  tr = [] \/
  exists reply rest, tr = mkEvent _ (GetTarget (Req_Target req)) reply :: rest /\
    (rest = [] \/
     (exists obj out, exec (patch obj (Req_FieldManager req) (Req_ConflictPolicy req)) rest out /\
        (is_ok reply = true \/ AllowCreate req = true))).
Proof.
  unfold ssa_Apply. intros H. destruct (Req_Contribution req) as [c|]; [|apply exec_ret_inv in H as [-> _]; by left].
  destruct (String.eqb _ ""); [apply exec_ret_inv in H as [-> _]; by left|].
  apply exec_bind_inv in H as (tr1 & tr2 & a & -> & H1 & H2).
  apply exists_traces in H1 as (reply & -> & Ha). right. exists reply, tr2. split; [done|].
  destruct a as [existed|e]; [|apply exec_ret_inv in H2 as [-> _]; by left].
  destruct (negb existed && negb (AllowCreate req))%bool eqn:Hguard; [apply exec_ret_inv in H2 as [-> _]; by left|].
  match type of H2 with exec (match ?o with _ => _ end) _ _ => destruct o as [obj|e] end;
    [|apply exec_ret_inv in H2 as [-> _]; by left].
  apply exec_bind_inv in H2 as (tr3 & tr4 & out & -> & H3 & H4). right. exists obj, out.
  assert (tr4 = []) as ->.
  { destruct out as [[|]|]; by apply exec_ret_inv in H4 as [-> _]. }
  rewrite (right_id_L [] (++)). split; [done|].
  destruct reply as [l|e]; [by left|]. right.
  destruct (IsNotFound e); [|done]. injection Ha as ->. cbn in Hguard. by apply negb_false_iff in Hguard.
Qed.

Lemma csa_Apply_traces req tr r :
  exec (csa_Apply req) tr r ->
  tr = [] \/
  exists reply rest, tr = mkEvent _ (GetTarget (Req_Target req)) reply :: rest /\
    (rest = [] \/
     (exists obj reply', rest = [mkEvent _ (CreateTarget obj) reply'] /\ AllowCreate req = true /\
        exists e, reply = Err e /\ IsNotFound e = true) \/
     (exists c live desired priors reply', Req_Contribution req = Some c /\ reply = Ok live /\
        plan_update req c live = Ok (desired, priors) /\ equalContent live desired = false /\
        rest = [mkEvent _ (UpdateTarget desired) reply'])).
Proof.
  unfold csa_Apply. intros H. destruct (Req_Contribution req) as [c|]; [|apply exec_ret_inv in H as [-> _]; by left].
  cbn [bind call] in H. apply exec_vis_inv in H as (reply & rest & -> & H). right. exists reply, rest.
  split; [done|]. destruct reply as [live|e].
  - unfold csa_update in H. destruct (plan_update req c live) as [[desired priors]|e] eqn:E;
      [|apply exec_ret_inv in H as [-> _]; by left].
    destruct (equalContent live desired) eqn:Eq; [apply exec_ret_inv in H as [-> _]; by left|].
    cbn [bind call] in H. apply exec_vis_inv in H as (reply' & tr' & -> & H). right; right.
    exists c, live, desired, priors, reply'. repeat (split; [done|]).
    destruct reply'; by apply exec_ret_inv in H as [-> _].
  - destruct (IsNotFound e) eqn:Hnf; [|apply exec_ret_inv in H as [-> _]; by left].
    destruct (AllowCreate req); [|apply exec_ret_inv in H as [-> _]; by left]. cbn [negb] in H.
    unfold csa_create in H. cbv zeta in H.
    match type of H with exec (match ?o with _ => _ end) _ _ => destruct o as [content|e'] end;
      [|apply exec_ret_inv in H as [-> _]; by left].
    cbn [bind call] in H. apply exec_vis_inv in H as (reply' & tr' & -> & H). right; left.
    eexists _, reply'. split; [|split; [done|by exists e]].
    destruct reply'; by apply exec_ret_inv in H as [-> _].
Qed.

(** *** Field managers *)

Lemma prefix_stake p n s :
  String.length p <= n -> String.prefix p s = true -> String.prefix p (stake n s) = true.
Proof.
  intros Hn [t ->]%prefix_spec. rewrite stake_le_app by done. apply prefix_app.
Qed.

Lemma suffix_length h : String.length ("-" +:+ stake 16 h) <= 17.
Proof. rewrite str_length_app, length_stake. change (String.length "-") with 1. lia. Qed.

Lemma truncate_prefix p s :
  String.length p <= 111 -> String.prefix p s = true -> String.prefix p (truncateFieldManager s) = true.
Proof.
  intros Hp Hs. unfold truncateFieldManager. destruct (Nat.leb_spec (String.length s) maxFieldManagerLength); [done|].
  cbv zeta. set (suffix := "-" +:+ _).
  pose proof (suffix_length (sdrop (String.length "sha256:") (HashObject (VStr s)))) as Hl. fold suffix in Hl.
  assert (String.length p <= maxFieldManagerLength - String.length suffix) as Hn by (unfold maxFieldManagerLength; lia).
  pose proof (prefix_stake p _ s Hn Hs) as Hs'. clear Hs. rename Hs' into Hs.
  apply prefix_spec in Hs as [t ->]. rewrite str_app_assoc. apply prefix_app.
Qed.

Lemma truncate_length s : String.length (truncateFieldManager s) <= maxFieldManagerLength.
Proof.
  unfold truncateFieldManager. destruct (Nat.leb_spec (String.length s) maxFieldManagerLength); [done|].
  cbv zeta. set (suffix := "-" +:+ _).
  pose proof (suffix_length (sdrop (String.length "sha256:") (HashObject (VStr s)))) as Hl. fold suffix in Hl.
  rewrite str_length_app, length_stake. unfold maxFieldManagerLength in *. lia.
Qed.

(** ** Properties *)

(** (C12) Server-side apply takes ownership by force only under policy Force, or under policy Priority
    after the server rejected the same apply with a field conflict that names somebody, and names
    nobody but managers whose name starts with this operator's prefix: a foreign controller that the
    server names is never forced out under Priority, whatever the server answers. *)
Theorem ssa_forces_only_ours (req : Request) (tr : list (event targetE)) (r : res goerror Result)
    (ev : event targetE) (obj : gmap string value) (manager : string) (reply : res goerror (gmap string value))
    (Hexec : exec (ssa_Apply req) tr r) (Hev : ev ∈ tr)
    (Hforced : apply_of ev = Some (obj, manager, true, reply)) :
  manager = Req_FieldManager req /\
  (Req_ConflictPolicy req = ConflictPolicyForce \/
   (Req_ConflictPolicy req = ConflictPolicyPriority /\ after_internal_conflict tr obj manager)).
Proof.
  apply ssa_Apply_traces in Hexec as [->|(reply0 & rest & -> & Hrest)]; [by apply elem_of_nil in Hev|].
  apply elem_of_cons in Hev as [->|Hev]; [done|].
  destruct Hrest as [->|(o & out & Hp & _)]; [by apply elem_of_nil in Hev|].
  apply patch_traces in Hp as [(rep & ->)|(Hpol & e & rep & -> & Hi)].
  - apply list_elem_of_singleton in Hev as ->. cbn in Hforced. injection Hforced as -> -> Hf _.
    split; [done|]. left. by apply String.eqb_eq.
  - apply elem_of_cons in Hev as [->|Hev]; [done|]. apply list_elem_of_singleton in Hev as ->.
    cbn in Hforced. injection Hforced as -> -> _. split; [done|]. right. split; [done|].
    eexists (mkEvent _ (ApplyTarget obj manager false) (Err e)), e.
    split; [right; left|done].
Qed.

Definition held_by_ours : goerror :=
  StatusError "Conflict" "" (Some [mkStatusCause CauseTypeFieldManagerConflict
    ("conflict with " +:+ quote +:+ "patch-operator/other" +:+ quote) ".spec.x"]).

Definition ssa_request : Request :=
  mkRequest (mkRenderTarget "v1" "ConfigMap" "cm" "demo") (Some (mkContribution {["data" := VMap ∅]} [] ""))
    "patch-operator/p" ConflictPolicyPriority [] ∅ false None false.

Lemma ssa_forces_only_ours_witness :
  let obj := {["data" := VMap ∅]} in
  let tr := [mkEvent _ (GetTarget (Req_Target ssa_request)) (Ok ∅);
             mkEvent _ (ApplyTarget obj "patch-operator/p" false) (Err held_by_ours);
             mkEvent _ (ApplyTarget obj "patch-operator/p" true) (Ok obj)] in
  after_internal_conflict tr obj "patch-operator/p".
Proof.
  intros obj tr.
  destruct (ssa_forces_only_ours ssa_request tr
    (Ok (mkResult false true (Some obj) [] ∅ false None))
    (mkEvent _ (ApplyTarget obj "patch-operator/p" true) (Ok obj)) obj "patch-operator/p" (Ok obj))
    as [_ [H|[_ H]]].
  - unfold tr, ssa_Apply. cbn [Req_Contribution ssa_request Req_FieldManager String.eqb Ascii.eqb Bool.eqb].
    constructor. cbn. repeat constructor.
  - right; right; left.
  - done.
  - discriminate H.
  - exact H.
Defined.

(** A contributor that may not create never brings a missing target into existence: without
    AllowCreate neither applier sends a write unless the server has just answered that the target
    exists. *)
Theorem Apply_creates_only_when_allowed (a : ApplierKind) (req : Request) (tr : list (event targetE))
    (r : res goerror Result) (ev : event targetE)
    (Hexec : exec (Apply a req) tr r) (Hno : AllowCreate req = false) (Hev : ev ∈ tr)
    (Hwrite : is_write ev = true) :
  create_of ev = None /\
  exists read live, read ∈ tr /\ get_of read = Some (Req_Target req, Ok live).
Proof.
  destruct a; cbn [Apply] in Hexec.
  - apply ssa_Apply_traces in Hexec as [->|(reply0 & rest & -> & Hrest)]; [by apply elem_of_nil in Hev|].
    apply elem_of_cons in Hev as [->|Hev]; [done|].
    destruct Hrest as [->|(o & out & Hp & [Hok|?])]; [by apply elem_of_nil in Hev| |congruence].
    destruct reply0 as [live|]; [|done]. split.
    + apply patch_traces in Hp as [(rep & ->)|(_ & e & rep & -> & _)].
      * by apply list_elem_of_singleton in Hev as ->.
      * apply elem_of_cons in Hev as [->|Hev]; [done|]. by apply list_elem_of_singleton in Hev as ->.
    + eexists _, live. split; [left|done].
  - apply csa_Apply_traces in Hexec as [->|(reply0 & rest & -> & Hrest)]; [by apply elem_of_nil in Hev|].
    apply elem_of_cons in Hev as [->|Hev]; [done|].
    destruct Hrest as [->|[(obj & rep & -> & ? & _)|(c & live & d & p & rep & _ & -> & _ & _ & ->)]];
      [by apply elem_of_nil in Hev|congruence|].
    apply list_elem_of_singleton in Hev as ->. split; [done|]. eexists _, live. split; [left|done].
Qed.

(** The manager name of this contributor is not shortened. *)
Definition fits (namespace name : string) : Prop :=
  String.length namespace + String.length name <= 112 /\ no_slash namespace = true /\ no_slash name = true.

(** A field manager name fits the API server's limit of 128 bytes and is recognisable as this
    operator's; and contributors whose names fit unshortened get different managers unless they have
    the same namespace and name. *)
Theorem FieldManagerFor_ok (kind namespace name kind' namespace' name' : string) :
  String.length (FieldManagerFor kind namespace name) <= maxFieldManagerLength /\
  IsOurManager (FieldManagerFor kind namespace name) = true /\
  (fits namespace name -> fits namespace' name' ->
   FieldManagerFor kind namespace name = FieldManagerFor kind' namespace' name' ->
   namespace = namespace' /\ name = name').
Proof.
  split; [apply truncate_length|]. split.
  - unfold IsOurManager, has_prefix, FieldManagerFor. cbv zeta. apply truncate_prefix; [cbn; lia|].
    destruct (String.eqb namespace ""); [apply prefix_app|]. rewrite str_app_assoc. apply prefix_app.
  - assert (forall ns n, String.length ns + String.length n <= 112 ->
      truncateFieldManager ((if String.eqb ns "" then FieldManagerPrefix else FieldManagerPrefix +:+ ns +:+ "/") +:+ n) =
      FieldManagerPrefix +:+ (if String.eqb ns "" then n else ns +:+ String "/" n)) as Hshort.
    { intros ns n Hl. unfold truncateFieldManager.
      assert (((if String.eqb ns "" then FieldManagerPrefix else FieldManagerPrefix +:+ ns +:+ "/") +:+ n) =
        FieldManagerPrefix +:+ (if String.eqb ns "" then n else ns +:+ String "/" n)) as ->.
      { destruct (String.eqb ns ""); [done|]. by rewrite !str_app_assoc. }
      rewrite (proj2 (Nat.leb_le _ _)); [done|]. rewrite str_length_app. unfold maxFieldManagerLength.
      change (String.length FieldManagerPrefix) with 15.
      destruct (String.eqb ns ""); [lia|]. rewrite str_length_app. cbn. lia. }
    intros (Hl & Hns & Hn) (Hl' & Hns' & Hn'). unfold FieldManagerFor. cbv zeta. rewrite !Hshort by done.
    intros E%str_app_inj_r.
    destruct (String.eqb_spec namespace "") as [->|N], (String.eqb_spec namespace' "") as [->|N'].
    + done.
    + by apply no_slash_neq in E.
    + symmetry in E. by apply no_slash_neq in E.
    + by apply cut_slash_inj in E.
Qed.

End SsaSpec.
