(* ===== verification/Memory.v ===== *)
(** Unstructured objects as they are in memory: maps and slices are references, writes go through
    them.  [Set] and [Delete] of src/internal/render/fieldpath.go, the deep copies of render.go, and
    what the appliers do with them (csa.go and ssa.go of src/internal/apply).  [MemorySpec] shows that the
    functions on trees are what these come to. *)
From stdpp Require Import strings base list gmap fin_maps.
From S2P Require Import Prelude GoStrings Values ApiTypes FieldPath Render Applier.
Local Open Scope string_scope.
Local Open Scope list_scope.

Module Memory.
Import GoStrings Values ApiTypes FieldPath Render Applier.

(** ** Memory

    A value of type [any] is an immediate, a map or a slice header.  The elements of a slice are the
    first of its array; those up to its capacity are there for [append]. *)

Abbreviation loc := positive.

Record Slice := mkSlice { s_array : loc; s_len : nat; s_cap : nat }.

Inductive word :=
| Imm (v : value)
| MapAt (l : loc)
| SliceAt (s : Slice).

Inductive cell :=
| MapCell (m : gmap string word)
| ArrayCell (ws : list word).

Abbreviation memory := (gmap loc cell).

(** Code that works on memory; [None] is a panic. *)
Definition memM (A : Type) : Type := memory -> option (A * memory).

Definition mret {A} (a : A) : memM A := fun h => Some (a, h).

Definition mthen {A B} (m : memM A) (k : A -> memM B) : memM B :=
  fun h => match m h with Some (a, h') => k a h' | None => None end.

Notation "'mem!' x ':=' m 'in' k" := (mthen m (fun x => k))
  (at level 200, x pattern, m at level 100, k at level 200, format "'mem!'  x  ':='  m  'in' '//' k").

Definition new (c : cell) : memM loc := fun h => let l := fresh (dom h) in Some (l, <[l := c]> h).

Definition read_map (l : loc) : memM (gmap string word) :=
  fun h => match h !! l with Some (MapCell m) => Some (m, h) | _ => None end.

Definition read_array (a : loc) : memM (list word) :=
  fun h => match h !! a with Some (ArrayCell ws) => Some (ws, h) | _ => None end.

Definition write (l : loc) (c : cell) : memM unit := fun h => Some (tt, <[l := c]> h).

(** [m[k] = w]. *)
Definition set_key (l : loc) (k : string) (w : word) : memM unit :=
  mem! m := read_map l in write l (MapCell (<[k := w]> m)).

(** [s[i]] and [s[i] = w]. *)
Definition index_at (s : Slice) (i : nat) : memM word :=
  mem! ws := read_array (s_array s) in
  fun h => match take (s_len s) ws !! i with Some w => Some (w, h) | None => None end.

Definition store_at (s : Slice) (i : nat) (w : word) : memM unit :=
  mem! ws := read_array (s_array s) in
  if (i <? s_len s)%nat then write (s_array s) (ArrayCell (<[i := w]> ws)) else fun _ => None.

(** The value a word stands for.  No object is nested deeper than there are cells. *)
Fixpoint load (fuel : nat) (h : memory) (w : word) : value :=
  match fuel with
  | O => VNil
  | S fuel' =>
      match w with
      | Imm v => v
      | MapAt l => match h !! l with Some (MapCell m) => VMap (load fuel' h <$> m) | _ => VNil end
      | SliceAt s =>
          match h !! s_array s with Some (ArrayCell ws) => VList (load fuel' h <$> take (s_len s) ws) | _ => VNil end
      end
  end.

Definition loaded (w : word) : memM value := fun h => Some (load (S (size (dom h))) h w, h).

Definition is_nil_word (w : word) : bool := match w with Imm v => is_nil v | _ => false end.

Section Code.
(** How much room [append] leaves in an array it allocates is up to the runtime. *)
Variable slack : nat -> nat -> nat.

(** [append(s, ws...)]. *)
Definition append (s : Slice) (ws : list word) : memM Slice :=
  mem! arr := read_array (s_array s) in
  let n := s_len s in
  let n' := n + length ws in
  if (n' <=? s_cap s)%nat
  then mem! _ := write (s_array s) (ArrayCell (take n arr ++ ws ++ drop n' arr)) in mret (mkSlice (s_array s) n' (s_cap s))
  else
    mem! a := new (ArrayCell (take n arr ++ ws ++ replicate (slack n n') (Imm VNil))) in
    mret (mkSlice a n' (n' + slack n n')).

(** ** Reading *)

Definition find_key (s : Slice) (key val : string) : memM (option nat) :=
  mem! ws := read_array (s_array s) in
  fun h => Some (findByKey (load (S (size (dom h))) h <$> take (s_len s) ws) key val, h).

Fixpoint get_at (cur : word) (p : Path) : memM (option word) :=
  match p with
  | [] => mret (Some cur)
  | seg :: p' =>
      if IsField seg then
        match cur with
        | MapAt l =>
            mem! m := read_map l in
            match m !! Field seg with Some w => get_at w p' | None => mret None end
        | _ => mret None
        end
      else if IsIndex seg then
        match cur with
        | SliceAt s =>
            let i := Z.to_nat (Index seg) in
            if (s_len s <=? i)%nat then mret None else mem! w := index_at s i in get_at w p'
        | _ => mret None
        end
      else if IsKeyMatch seg then
        match cur with
        | SliceAt s =>
            mem! f := find_key s (Key seg) (Value seg) in
            match f with Some i => mem! w := index_at s i in get_at w p' | None => mret None end
        | _ => mret None
        end
      else get_at cur p'
  end.

(** ** Copying *)

(** The loops of [deepCopyMap] and [deepCopyValue], given how an entry is copied. *)
Fixpoint copy_entries (copy : word -> memM word) (out : loc) (kws : list (string * word)) : memM unit :=
  match kws with
  | [] => mret tt
  | (k, w) :: rest => mem! w' := copy w in mem! _ := set_key out k w' in copy_entries copy out rest
  end.

Fixpoint copy_elements (copy : word -> memM word) (out : Slice) (i : nat) (ws : list word) : memM unit :=
  match ws with
  | [] => mret tt
  | w :: rest => mem! w' := copy w in mem! _ := store_at out i w' in copy_elements copy out (S i) rest
  end.

(** [deepCopyMap] and [deepCopyValue]: the fuel bounds the nesting. *)
Fixpoint deepCopyValue (fuel : nat) (w : word) : memM word :=
  match fuel with
  | O => fun _ => None
  | S fuel' =>
      match w with
      | Imm v => mret (Imm v)
      | MapAt l =>
          mem! m := read_map l in
          mem! out := new (MapCell ∅) in
          mem! _ := copy_entries (deepCopyValue fuel') out (map_to_list m) in
          mret (MapAt out)
      | SliceAt s =>
          mem! ws := read_array (s_array s) in
          let n := s_len s in
          mem! a := new (ArrayCell (replicate n (Imm VNil))) in
          mem! _ := copy_elements (deepCopyValue fuel') (mkSlice a n n) 0 (take n ws) in
          mret (SliceAt (mkSlice a n n))
      end
  end.

Definition deep_copy (w : word) : memM word := fun h => deepCopyValue (S (size (dom h))) w h.

(** ** Writing *)

Definition empty_for (next : Segment) : memM word :=
  if IsIndex next || IsKeyMatch next
  then mem! a := new (ArrayCell []) in mret (SliceAt (mkSlice a 0 0))
  else mem! l := new (MapCell ∅) in mret (MapAt l).

(** The loop that appends empty maps up to an index. *)
Fixpoint pad (s : Slice) (n : nat) : memM Slice :=
  match n with
  | O => mret s
  | S n' => mem! l := new (MapCell ∅) in mem! s' := append s [MapAt l] in pad s' n'
  end.

(** The first part of [setInList]: the slice to go on with, and the position addressed. *)
Definition locate_at (s : Slice) (seg : Segment) : memM (option (Slice * nat)) :=
  if IsIndex seg then
    let i := Z.to_nat (Index seg) in
    mem! s' := pad s (S i - s_len s) in mret (Some (s', i))
  else if IsKeyMatch seg then
    mem! f := find_key s (Key seg) (Value seg) in
    match f with
    | Some i => mret (Some (s, i))
    | None =>
        mem! l := new (MapCell {[Key seg := Imm (VStr (Value seg))]}) in
        mem! s' := append s [MapAt l] in
        mret (Some (s', s_len s))
    end
  else mret None.

Fixpoint set_in (container : word) (p : Path) (w : word) {struct p} : memM (option set_error) :=
  match p with
  | [] => mret (Some IndexPanic)
  | seg :: rest =>
      if IsField seg then
        match container with
        | MapAt l =>
            match rest with
            | [] => mem! _ := set_key l (Field seg) w in mret None
            | next :: _ =>
                mem! m := read_map l in
                let fresh_child := mem! c := empty_for next in mem! _ := set_key l (Field seg) c in mret c in
                mem! child := match m !! Field seg with
                  | Some c => if is_nil_word c then fresh_child else mret c
                  | None => fresh_child
                  end in
                match child with
                | SliceAt s =>
                    mem! r := set_in_list s rest w in
                    match r with
                    | Err e => mret (Some e)
                    | Ok updated => mem! _ := set_key l (Field seg) (SliceAt updated) in mret None
                    end
                | _ => set_in child rest w
                end
            end
        | _ => mret (Some (ExpectedMap (Field seg)))
        end
      else if IsIndex seg || IsKeyMatch seg then mret (Some (ListSegmentInSetIn seg))
      else mret (Some (UnhandledSegment seg))
  end
with set_in_list (s : Slice) (p : Path) (w : word) {struct p} : memM (res set_error Slice) :=
  match p with
  | [] => mret (Err IndexPanic)
  | seg :: rest =>
      mem! at_ := locate_at s seg in
      match at_ with
      | None => mret (Err (ExpectedListSegment seg))
      | Some (s1, idx) =>
          match rest with
          | [] => mem! _ := store_at s1 idx w in mret (Ok s1)
          | next :: _ =>
              mem! e := index_at s1 idx in
              mem! elem := (if is_nil_word e
                then mem! c := empty_for next in mem! _ := store_at s1 idx c in mret c
                else mret e) in
              match elem with
              | SliceAt s2 =>
                  mem! r := set_in_list s2 rest w in
                  match r with
                  | Err e => mret (Err e)
                  | Ok updated => mem! _ := store_at s1 idx (SliceAt updated) in mret (Ok s1)
                  end
              | _ =>
                  mem! e := set_in elem rest w in
                  match e with Some e => mret (Err e) | None => mret (Ok s1) end
              end
          end
      end
  end.

Definition set_path (obj : word) (p : Path) (w : word) : memM (option set_error) :=
  match p with
  | [] => mret (Some EmptySetPath)
  | seg :: _ => if IsField seg then set_in obj p w else mret (Some (MustStartWithField p))
  end.

(** ** Deleting *)

Definition delete_key (l : loc) (k : string) : memM unit :=
  mem! m := read_map l in write l (MapCell (base.delete k m)).

(** [append(l[:idx:idx], l[idx+1:]...)]: the bound on the capacity keeps the shared array as it is. *)
Definition without (s : Slice) (idx : nat) : memM Slice :=
  mem! ws := read_array (s_array s) in
  append (mkSlice (s_array s) idx idx) (drop (S idx) (take (s_len s) ws)).

Fixpoint delete_in (container : word) (p : Path) {struct p} : memM bool :=
  match p with
  | [] => mret false
  | seg :: rest =>
      if IsField seg then
        match container with
        | MapAt l =>
            mem! m := read_map l in
            match m !! Field seg with
            | None => mret false
            | Some child =>
                match rest with
                | [] => mem! _ := delete_key l (Field seg) in mret true
                | _ :: _ =>
                    match child with
                    | SliceAt s =>
                        mem! (updated, removed) := delete_in_list s rest in
                        if removed then mem! _ := set_key l (Field seg) (SliceAt updated) in mret true else mret false
                    | _ => delete_in child rest
                    end
                end
            end
        | _ => mret false
        end
      else mret false
  end
with delete_in_list (s : Slice) (p : Path) {struct p} : memM (Slice * bool) :=
  match p with
  | [] => mret (s, false)
  | seg :: rest =>
      mem! at_ := (if IsIndex seg then
          let i := Z.to_nat (Index seg) in mret (if (i <? s_len s)%nat then Some i else None)
        else if IsKeyMatch seg then find_key s (Key seg) (Value seg)
        else mret None) in
      match at_ with
      | None => mret (s, false)
      | Some idx =>
          match rest with
          | [] => mem! s' := without s idx in mret (s', true)
          | _ :: _ =>
              mem! e := index_at s idx in
              match e with
              | SliceAt next =>
                  mem! (updated, removed) := delete_in_list next rest in
                  if removed then mem! _ := store_at s idx (SliceAt updated) in mret (s, true) else mret (s, false)
              | _ => mem! removed := delete_in e rest in mret (s, removed)
              end
          end
      end
  end.

Fixpoint prune_at (i : nat) (obj : word) (p : Path) : memM unit :=
  match i with
  | O => mret tt
  | S i' =>
      let prefix := firstn i p in
      mem! v := get_at obj prefix in
      match v with
      | None => prune_at i' obj p
      | Some (MapAt l) =>
          mem! m := read_map l in
          if bool_decide (m = ∅) then
            mem! removed := delete_in obj prefix in
            if removed then prune_at i' obj p else mret tt
          else mret tt
      | Some _ => mret tt
      end
  end.

Definition delete_path (obj : word) (p : Path) : memM bool :=
  match p with
  | [] => mret false
  | _ :: _ =>
      mem! removed := delete_in obj p in
      if removed then mem! _ := prune_at (length p - 1) obj p in mret true else mret false
  end.

(** ** The content of a new object

    What [create], and [Apply] of the server-side applier, build from the contribution and the base.  A
    list of the contribution is put into the merged object as it is, so the two share its array. *)

(** [deepMerge]: the loop over the source, given how two maps are merged, and its body. *)
Fixpoint merge_entries (merge : loc -> loc -> memM unit) (dst : loc) (kws : list (string * word)) : memM unit :=
  match kws with
  | [] => mret tt
  | (k, sv) :: rest =>
      mem! _ := match sv with
        | MapAt sm =>
            mem! m := read_map dst in
            match m !! k with
            | Some (MapAt dm) => merge dm sm
            | _ => mem! w := deep_copy sv in set_key dst k w
            end
        | _ => set_key dst k sv
        end in
      merge_entries merge dst rest
  end.

Fixpoint deep_merge_at (fuel : nat) (dst src : loc) : memM unit :=
  match fuel with
  | O => fun _ => None
  | S fuel' => mem! m := read_map src in merge_entries (deep_merge_at fuel') dst (map_to_list m)
  end.

Definition deep_merge (dst src : loc) : memM unit := fun h => deep_merge_at (S (size (dom h))) dst src h.

(** [DeepCopyMap]. *)
Definition deep_copy_map (l : loc) : memM loc :=
  mem! w := deep_copy (MapAt l) in match w with MapAt out => mret out | _ => fun _ => None end.

Definition merge_base_at (base contribution : loc) : memM (res goerror loc) :=
  mem! out := deep_copy_map base in
  mem! _ := deep_merge out contribution in
  mem! m := read_map out in
  if Nat.eqb (size m) 0
  then mret (Err (Errorf "merging base and contribution produced an empty object" []))
  else mret (Ok out).

Definition content_at (base : option loc) (contribution : loc) : memM (res goerror loc) :=
  match base with
  | Some base => merge_base_at base contribution
  | None => mem! out := deep_copy_map contribution in mret (Ok out)
  end.

(** ** Client-side apply

    What [update] and [Revert] do between reading the object and writing it.  [live] is the object
    they were given, [object] the contribution's; the maps from paths to prior values are locals. *)

(** The copy of an object that apimachinery makes ([live.DeepCopy()]). *)
Variable DeepCopy : word -> memM word.

(** [sameValue]. *)
Definition same_value_at (a b : word) : memM bool :=
  mem! va := loaded a in mem! vb := loaded b in mret (sameValue va vb).

Definition restore_or_delete_at (obj : word) (p : Path) (priors : gmap string word) : memM unit :=
  match priors !! Path_String p with
  | Some prior =>
      mem! w := deep_copy prior in
      mem! e := set_path obj p w in
      match e with
      | None => mret tt
      | Some _ => mem! _ := delete_path obj p in mret tt
      end
  | None => mem! _ := delete_path obj p in mret tt
  end.

Definition capture_at (live object : word) (priors : gmap string word) (p : Path) : memM (gmap string word) :=
  match priors !! Path_String p with
  | Some _ => mret priors
  | None =>
      mem! existing := get_at live p in
      match existing with
      | None => mret priors
      | Some existing =>
          mem! want := get_at object p in
          mem! same := match want with Some want => same_value_at existing want | None => mret false end in
          if same then mret priors
          else mem! w := deep_copy existing in mret (<[Path_String p := w]> priors)
      end
  end.

Fixpoint capture_all_at (live object : word) (priors : gmap string word) (paths : list Path) : memM (gmap string word) :=
  match paths with
  | [] => mret priors
  | p :: rest => mem! priors := capture_at live object priors p in capture_all_at live object priors rest
  end.

(** The withdrawal loop. *)
Fixpoint withdraw_all_at (claimed : list string) (desired : word) (priors : gmap string word) (paths : list Path)
    : memM (gmap string word) :=
  match paths with
  | [] => mret priors
  | p :: rest =>
      if bool_decide (Path_String p ∈ claimed) then withdraw_all_at claimed desired priors rest
      else
        mem! _ := restore_or_delete_at desired p priors in
        withdraw_all_at claimed desired (base.delete (Path_String p) priors) rest
  end.

Fixpoint write_claims_at (desired object : word) (paths : list Path) : memM (option goerror) :=
  match paths with
  | [] => mret None
  | p :: rest =>
      mem! value := get_at object p in
      match value with
      | None => mret (Some (Errorf "internal: rendered path %q missing from the contribution" [AStr (Path_String p)]))
      | Some value =>
          mem! w := deep_copy value in
          mem! e := set_path desired p w in
          match e with
          | None => write_claims_at desired object rest
          | Some _ => mret (Some (Wrapf "setting %q: %w" [AStr (Path_String p)] (OtherError "fieldpath")))
          end
      end
  end.

Definition plan_update_at (live object : word) (paths previous : list Path) (captured : bool) (recorded : gmap string word)
    : memM (res goerror (word * gmap string word)) :=
  mem! desired := DeepCopy live in
  mem! priors := (if captured then mret recorded else capture_all_at live object recorded paths) in
  mem! priors := withdraw_all_at (map Path_String paths) desired priors previous in
  mem! e := write_claims_at desired object paths in
  match e with Some e => mret (Err e) | None => mret (Ok (desired, priors)) end.

Fixpoint revert_all_at (desired : word) (paths : list Path) (priors : gmap string word) : memM unit :=
  match paths with
  | [] => mret tt
  | p :: rest => mem! _ := restore_or_delete_at desired p priors in revert_all_at desired rest priors
  end.

Definition plan_revert_at (live : word) (paths : list Path) (priors : gmap string word) : memM word :=
  mem! desired := DeepCopy live in
  mem! _ := revert_all_at desired paths priors in
  mret desired.

End Code.

End Memory.
