(* ===== verification/MemorySpec.v ===== *)
(** [Memory] against the functions on trees: a representation of trees in memory by cells they do not
    share, and what each operation does to the cells of its argument and to no others. *)
From stdpp Require Import strings base list gmap fin_maps.
From S2P Require Import Prelude GoStrings Values ApiTypes FieldPath FieldPathUpdate FieldPathDelete FieldPathPresence Render Applier CsaSpec Memory.
Local Open Scope string_scope.
Local Open Scope list_scope.

Module MemorySpec.
Import GoStrings Values ApiTypes FieldPath FieldPathUpdate FieldPathDelete FieldPathPresence Render Applier CsaSpec Memory.

(** ** Programs *)

(** The code does not panic, and ends with [Q]. *)
Definition runs {A} (m : memM A) (h : memory) (Q : A -> memory -> Prop) : Prop :=
  exists a h', m h = Some (a, h') /\ Q a h'.

Lemma runs_ret {A} (a : A) h (Q : A -> memory -> Prop) : Q a h -> runs (mret a) h Q.
Proof. intros H. by exists a, h. Qed.

Lemma runs_then {A B} (m : memM A) (k : A -> memM B) h (Q : B -> memory -> Prop) :
  runs m h (fun a h' => runs (k a) h' Q) -> runs (mthen m k) h Q.
Proof. intros (a & h' & E & b & h'' & E' & HQ). exists b, h''. unfold mthen. by rewrite E. Qed.

Lemma runs_mono {A} (m : memM A) h (P Q : A -> memory -> Prop) :
  runs m h P -> (forall a h', P a h' -> Q a h') -> runs m h Q.
Proof. intros (a & h' & E & HP) H. exists a, h'. auto. Qed.

Lemma runs_step {A B} (m : memM A) (k : A -> memM B) h a h' (Q : B -> memory -> Prop) :
  m h = Some (a, h') -> runs (k a) h' Q -> runs (mthen m k) h Q.
Proof. intros E H. apply runs_then. by exists a, h'. Qed.

Lemma runs_seq {A B} (m : memM A) (k : A -> memM B) h (P : A -> memory -> Prop) (Q : B -> memory -> Prop) :
  runs m h P -> (forall a h', P a h' -> runs (k a) h' Q) -> runs (mthen m k) h Q.
Proof. intros H HQ. apply runs_then. by eapply runs_mono. Qed.

(** ** Cells *)

(** From [h] to [h'] only cells of [T] were written; others may have come. *)
Definition moves (h h' : memory) (T : gset loc) : Prop :=
  dom h ⊆ dom h' /\ forall x, x ∈ dom h -> x ∉ T -> h' !! x = h !! x.

Lemma moves_refl h T : moves h h T.
Proof. done. Qed.

Lemma moves_weaken h h' T T' : moves h h' T -> T ⊆ T' -> moves h h' T'.
Proof. intros [Hd H] Hs. split; [done|]. intros x Hx Hn. apply H; set_solver. Qed.

Lemma moves_trans h h1 h2 T T2 :
  moves h h1 T -> moves h1 h2 T2 -> T2 ⊆ T ∪ (dom h1 ∖ dom h) -> moves h h2 T.
Proof.
  intros [Hd H] [Hd2 H2] Hs. split; [set_solver|]. intros x Hx Hn. rewrite H2; [by apply H|set_solver|set_solver].
Qed.

Lemma moves_new h c : moves h (<[fresh (dom h) := c]> h) ∅ /\ fresh (dom h) ∉ dom h.
Proof.
  assert (fresh (dom h) ∉ dom h) as Hn by apply is_fresh. split; [|done]. split; [rewrite dom_insert_L; set_solver|].
  intros x Hx _. apply lookup_insert_ne. intros E. by rewrite E in Hn.
Qed.

Lemma moves_write h l c T : l ∈ dom h -> l ∈ T -> moves h (<[l := c]> h) T.
Proof.
  intros Hl HT. split; [rewrite dom_insert_L; set_solver|]. intros x _ Hn. apply lookup_insert_ne. by intros ->.
Qed.

Lemma moves_subseteq h h' T : h ⊆ h' -> moves h h' T.
Proof.
  intros Hs. split; [by apply subseteq_dom|]. intros x [c Hx]%elem_of_dom _. rewrite Hx. by eapply lookup_weaken.
Qed.

Lemma moves_keeps h h' T (h0 : memory) : moves h h' T -> h0 ⊆ h -> T ## dom h0 -> h0 ⊆ h'.
Proof.
  intros [Hd H] Hs Hdis. apply map_subseteq_spec. intros x c Hx. apply elem_of_dom_2 in Hx as Hin.
  pose proof (lookup_weaken _ _ _ _ Hx Hs) as Hc. rewrite H; [done|by apply elem_of_dom_2 in Hc|set_solver].
Qed.

(** ** Trees

    [rep h w v F]: the word stands for the tree [v], whose cells are among [F], each in one place of the
    tree only. *)

Definition scalar (v : value) : bool := match v with VList _ | VMap _ => false | _ => true end.

(** The cell of a node and those of its children. *)
Definition apart {I} (l : loc) (Fs : I -> gset loc) (F : gset loc) : Prop :=
  l ∈ F /\ (forall i, Fs i ⊆ F ∖ {[l]}) /\ forall i j, i <> j -> Fs i ## Fs j.

Inductive rep (h : memory) : word -> value -> gset loc -> Prop :=
| rep_imm v F : scalar v = true -> rep h (Imm v) v F
| rep_map l m vs (Fs : string -> gset loc) F :
    h !! l = Some (MapCell m) -> dom m = dom vs ->
    (forall k w v, m !! k = Some w -> vs !! k = Some v -> rep h w v (Fs k)) -> apart l Fs F ->
    rep h (MapAt l) (VMap vs) F
| rep_slice s ws vs (Fs : nat -> gset loc) F :
    h !! s_array s = Some (ArrayCell ws) -> s_len s = length vs -> s_len s <= s_cap s -> s_cap s <= length ws ->
    (forall i w v, ws !! i = Some w -> vs !! i = Some v -> rep h w v (Fs i)) -> apart (s_array s) Fs F ->
    rep h (SliceAt s) (VList vs) F.

Lemma apart_weaken {I} l (Fs : I -> gset loc) F F' : apart l Fs F -> F ⊆ F' -> apart l Fs F'.
Proof. intros (H1 & H2 & H3) Hs. split; [set_solver|]. split; [|done]. intros i. specialize (H2 i). set_solver. Qed.

Lemma rep_weaken h w v F F' : rep h w v F -> F ⊆ F' -> rep h w v F'.
Proof. intros [] Hs; econstructor; eauto using apart_weaken. Qed.

Lemma rep_frame h h' w v F : rep h w v F -> (forall x, x ∈ F -> h' !! x = h !! x) -> rep h' w v F.
Proof.
  intros H. induction H as [v F Hv|l m vs Fs F Hl Hd Hk IH Ha|s ws vs Fs F Hl Hn Hc Hw Hk IH Ha]; intros Hf; [by constructor| |].
  - pose proof Ha as (Hin & Hsub & _). apply (rep_map h' l m vs Fs); [by rewrite Hf|done| |done].
    intros k w v Hm Hv. eapply IH; [done..|]. intros x Hx. apply Hf. specialize (Hsub k). set_solver.
  - pose proof Ha as (Hin & Hsub & _). apply (rep_slice h' s ws vs Fs); [by rewrite Hf|done|done|done| |done].
    intros i w v Hm Hv. eapply IH; [done..|]. intros x Hx. apply Hf. specialize (Hsub i). set_solver.
Qed.

Lemma rep_moves h h' w v F T : rep h w v F -> moves h h' T -> F ⊆ dom h -> F ## T -> rep h' w v F.
Proof. intros Hr [_ H] Hd HT. eapply rep_frame; [done|]. intros x Hx. apply H; set_solver. Qed.

Lemma rep_subseteq h h' w v F : rep h w v F -> F ⊆ dom h -> h ⊆ h' -> rep h' w v F.
Proof. intros Hr Hd Hs. eapply rep_moves; [done|by apply (moves_subseteq _ _ ∅)|done|set_solver]. Qed.

(** Reading a tree back. *)
Lemma rep_load h w v F : rep h w v F -> forall n, size F < n -> load n h w = v.
Proof.
  assert (forall {I} l (Fs : I -> gset loc) F i n, apart l Fs F -> size F < S n -> size (Fs i) < n) as Hsize.
  { intros I l Fs F0 i n (Hin & Hsub & _) Hn. specialize (Hsub i). apply subseteq_size in Hsub.
    rewrite size_difference in Hsub by set_solver. rewrite size_singleton in Hsub.
    assert (size F0 <> 0) by (intros E%size_empty_inv; set_solver). lia. }
  intros H. induction H as [v F Hv|l m vs Fs F Hl Hd Hk IH Ha|s ws vs Fs F Hl Hn Hc Hw Hk IH Ha]; intros [|n] Hlt; try lia.
  - done.
  - cbn. rewrite Hl. f_equal. apply map_eq. intros k. rewrite lookup_fmap.
    destruct (m !! k) as [w|] eqn:Em, (vs !! k) as [v|] eqn:Ev; cbn.
    + f_equal. eapply IH; eauto.
    + apply not_elem_of_dom in Ev. apply elem_of_dom_2 in Em. set_solver.
    + apply not_elem_of_dom in Em. apply elem_of_dom_2 in Ev. set_solver.
    + done.
  - cbn. rewrite Hl. f_equal. apply list_eq. intros i. rewrite list_lookup_fmap.
    destruct (vs !! i) as [v|] eqn:Ev.
    + apply lookup_lt_Some in Ev as Hi. destruct (lookup_lt_is_Some_2 ws i) as [w Ew]; [lia|].
      rewrite lookup_take_lt, Ew by lia. cbn. f_equal. eapply IH; eauto.
    + apply lookup_ge_None in Ev. rewrite lookup_take_ge by lia. done.
Qed.

Lemma rep_loaded h w v F : rep h w v F -> F ⊆ dom h -> load (S (size (dom h))) h w = v.
Proof. intros Hr Hs. eapply rep_load; [done|]. apply subseteq_size in Hs. lia. Qed.

(** *** Looking into a node, and putting something else there *)

Definition instead {I} `{EqDecision I} (Fs : I -> gset loc) (i : I) (Fc : gset loc) : I -> gset loc :=
  fun j => if decide (j = i) then Fc else Fs j.

Lemma apart_instead {I} `{EqDecision I} l (Fs : I -> gset loc) F i Fc :
  apart l Fs F -> Fc ## F ∖ Fs i -> apart l (instead Fs i Fc) (F ∖ Fs i ∪ Fc).
Proof.
  intros (Hin & Hsub & Hdis) Hc. pose proof (Hsub i) as Hi. split; [set_solver|]. split.
  - intros j. unfold instead. destruct (decide (j = i)) as [->|N]; [set_solver|]. specialize (Hsub j). specialize (Hdis j i N). set_solver.
  - intros j j' N. unfold instead. destruct (decide (j = i)) as [->|Nj], (decide (j' = i)) as [->|Nj']; [done| | |auto].
    + pose proof (Hsub j'). pose proof (Hdis j' i Nj'). set_solver.
    + pose proof (Hsub j). pose proof (Hdis j i Nj). set_solver.
Qed.

Lemma map_focus h l vs F k c :
  rep h (MapAt l) (VMap vs) F -> vs !! k = Some c ->
  exists m w Fk, h !! l = Some (MapCell m) /\ m !! k = Some w /\ rep h w c Fk /\ l ∈ F /\ Fk ⊆ F ∖ {[l]} /\
    forall h' w' c' Fc, h' !! l = Some (MapCell (<[k := w']> m)) -> (forall x, x ∈ F -> x <> l -> x ∉ Fk -> h' !! x = h !! x) ->
      rep h' w' c' Fc -> Fc ## F ∖ Fk -> rep h' (MapAt l) (VMap (<[k := c']> vs)) (F ∖ Fk ∪ Fc).
Proof.
  intros H Hk. inversion H as [|? m ? Fs ? Hl Hd Hr Ha|]; subst.
  assert (is_Some (m !! k)) as [w Hw] by (apply elem_of_dom; rewrite Hd; by eapply elem_of_dom_2).
  pose proof Ha as (Hin & Hsub & Hdis).
  exists m, w, (Fs k). split; [done|]. split; [done|]. split; [eauto|]. split; [done|]. split; [apply Hsub|].
  intros h' w' c' Fc Hl' Hf Hc Hdc. apply (rep_map h' l (<[k := w']> m) _ (instead Fs k Fc)); [done| | |by apply apart_instead].
  - rewrite !dom_insert_L. by rewrite Hd.
  - intros j x y Hx Hy. unfold instead. destruct (decide (j = k)) as [->|N].
    + rewrite lookup_insert_eq in Hx; rewrite lookup_insert_eq in Hy. by simplify_eq.
    + rewrite lookup_insert_ne in Hx by done; rewrite lookup_insert_ne in Hy by done. eapply rep_frame; [by eapply Hr|]. intros z Hz.
      specialize (Hsub j). specialize (Hdis j k N). apply Hf; set_solver.
Qed.

Lemma map_write h l vs F :
  rep h (MapAt l) (VMap vs) F ->
  exists m, h !! l = Some (MapCell m) /\ dom m = dom vs /\ l ∈ F /\
    (forall h' k w' c' Fc, h' !! l = Some (MapCell (<[k := w']> m)) -> (forall x, x ∈ F -> x <> l -> h' !! x = h !! x) ->
       rep h' w' c' Fc -> Fc ## F -> rep h' (MapAt l) (VMap (<[k := c']> vs)) (F ∪ Fc)) /\
    (forall h' k, h' !! l = Some (MapCell (base.delete k m)) -> (forall x, x ∈ F -> x <> l -> h' !! x = h !! x) ->
       rep h' (MapAt l) (VMap (base.delete k vs)) F).
Proof.
  intros H. inversion H as [|? m ? Fs ? Hl Hd Hr Ha|]; subst. pose proof Ha as (Hin & Hsub & Hdis).
  exists m. split; [done|]. split; [done|]. split; [done|]. split.
  - intros h' k w' c' Fc Hl' Hf Hc Hdc.
    apply (rep_weaken _ _ _ (F ∖ Fs k ∪ Fc)); [|set_solver].
    apply (rep_map h' l (<[k := w']> m) _ (instead Fs k Fc)); [done| | |apply apart_instead; [done|set_solver]].
    + rewrite !dom_insert_L. by rewrite Hd.
    + intros j x y Hx Hy. unfold instead. destruct (decide (j = k)) as [->|N].
      * rewrite lookup_insert_eq in Hx; rewrite lookup_insert_eq in Hy. by simplify_eq.
      * rewrite lookup_insert_ne in Hx by done; rewrite lookup_insert_ne in Hy by done. eapply rep_frame; [by eapply Hr|]. intros z Hz.
        specialize (Hsub j). apply Hf; set_solver.
  - intros h' k Hl' Hf. apply (rep_map h' l (base.delete k m) _ Fs); [done|rewrite !dom_delete_L; by rewrite Hd| |done].
    intros j x y Hx Hy. apply lookup_delete_Some in Hx as [_ Hx], Hy as [_ Hy].
    eapply rep_frame; [by eapply Hr|]. intros z Hz. specialize (Hsub j). apply Hf; set_solver.
Qed.

Lemma slice_focus h s vs F i c :
  rep h (SliceAt s) (VList vs) F -> vs !! i = Some c ->
  exists ws w Fi, h !! s_array s = Some (ArrayCell ws) /\ ws !! i = Some w /\ i < s_len s /\ rep h w c Fi /\ s_array s ∈ F /\ Fi ⊆ F ∖ {[s_array s]} /\
    forall h' w' c' Fc, h' !! s_array s = Some (ArrayCell (<[i := w']> ws)) -> (forall x, x ∈ F -> x <> s_array s -> x ∉ Fi -> h' !! x = h !! x) ->
      rep h' w' c' Fc -> Fc ## F ∖ Fi -> rep h' (SliceAt s) (VList (<[i := c']> vs)) (F ∖ Fi ∪ Fc).
Proof.
  intros H Hi. inversion H as [| |? ws ? Fs ? Hl Hn Hc Hw Hr Ha]; subst. apply lookup_lt_Some in Hi as Hlt.
  destruct (lookup_lt_is_Some_2 ws i) as [w Ew]; [lia|]. pose proof Ha as (Hin & Hsub & Hdis).
  exists ws, w, (Fs i). split; [done|]. split; [done|]. split; [lia|]. split; [eauto|]. split; [done|]. split; [apply Hsub|].
  intros h' w' c' Fc Hl' Hf Hcc Hdc.
  apply (rep_slice h' s (<[i := w']> ws) _ (instead Fs i Fc)); [done|by rewrite length_insert|done|by rewrite length_insert| |by apply apart_instead].
  intros j x y Hx Hy. unfold instead. destruct (decide (j = i)) as [->|N].
  - rewrite list_lookup_insert_eq in Hx by lia; rewrite list_lookup_insert_eq in Hy by lia. by simplify_eq.
  - rewrite list_lookup_insert_ne in Hx by done; rewrite list_lookup_insert_ne in Hy by done. eapply rep_frame; [by eapply Hr|]. intros z Hz.
    specialize (Hsub j). specialize (Hdis j i N). apply Hf; set_solver.
Qed.

(** A write to one element. *)
Lemma slice_store h s vs F i w' c' Fc :
  rep h (SliceAt s) (VList vs) F -> i < length vs -> F ⊆ dom h -> rep h w' c' Fc -> Fc ## F -> Fc ⊆ dom h ->
  runs (store_at s i w') h (fun _ h' => moves h h' F /\ dom h' = dom h /\ rep h' (SliceAt s) (VList (<[i := c']> vs)) (F ∪ Fc) /\
    exists ws, h' !! s_array s = Some (ArrayCell ws) /\ ws !! i = Some w').
Proof.
  intros H Hi HF Hc Hdis HFc. destruct (lookup_lt_is_Some_2 vs i Hi) as [c Ec].
  destruct (slice_focus _ _ _ _ _ _ H Ec) as (ws & w & Fi & Hl & Hw & Hlen & _ & Hin & Hsub & Hput).
  unfold store_at. eapply runs_step; [unfold read_array; by rewrite Hl|].
  rewrite (proj2 (Nat.ltb_lt _ _) Hlen). eexists _, _. split; [reflexivity|].
  assert (moves h (<[s_array s := ArrayCell (<[i := w']> ws)]> h) F) as Hm by (apply moves_write; set_solver).
  split; [done|]. split; [rewrite dom_insert_L; set_solver|]. split.
  - apply (rep_weaken _ _ _ (F ∖ Fi ∪ Fc)); [|set_solver]. apply (Hput _ w'); [apply lookup_insert_eq| | |set_solver].
    + intros x _ Hx _. by apply lookup_insert_ne.
    + eapply rep_frame; [exact Hc|]. intros x Hx. apply lookup_insert_ne. set_solver.
  - eexists. split; [apply lookup_insert_eq|]. rewrite list_lookup_insert_eq; [done|]. by eapply lookup_lt_Some.
Qed.

Lemma apart_moved {I} l l' (Fs : I -> gset loc) F : apart l Fs F -> l' ∉ F -> apart l' Fs (F ∪ {[l']}).
Proof. intros (Hin & Hsub & Hdis) Hn. split; [set_solver|]. split; [|done]. intros i. specialize (Hsub i). set_solver. Qed.

Lemma slice_elem h s vs F i c :
  rep h (SliceAt s) (VList vs) F -> vs !! i = Some c ->
  exists w Fi, index_at s i h = Some (w, h) /\ rep h w c Fi /\ Fi ⊆ F ∖ {[s_array s]}.
Proof.
  intros H Hi. destruct (slice_focus _ _ _ _ _ _ H Hi) as (ws & w & Fi & Hl & Hw & Hlen & Hr & _ & Hsub & _).
  exists w, Fi. split; [|done]. unfold index_at, mthen, read_array. rewrite Hl, lookup_take_lt by done. by rewrite Hw.
Qed.

Lemma slice_len h s vs F : rep h (SliceAt s) (VList vs) F -> s_len s = length vs.
Proof. intros H. by inversion H. Qed.

Lemma run_find_key h s vs F key val :
  rep h (SliceAt s) (VList vs) F -> F ⊆ dom h -> find_key s key val h = Some (findByKey vs key val, h).
Proof.
  intros H Hd. pose proof (rep_load _ _ _ _ H (S (S (size (dom h)))) ltac:(apply subseteq_size in Hd; lia)) as E.
  unfold find_key, mthen, read_array. inversion H as [| |? ws ? Fs ? Hl Hn Hc Hw Hr Ha]; subst.
  change (match h !! s_array s with Some (ArrayCell ws) => VList (load (S (size (dom h))) h <$> take (s_len s) ws) | _ => VNil end = VList vs) in E.
  rewrite Hl in *. assert (forall a b, VList a = VList b -> a = b) as Hinj by congruence. apply Hinj in E. by rewrite E.
Qed.

(** ** Reading a path *)

Definition found (h : memory) (F : gset loc) (w : option word) (v : option value) : Prop :=
  match w, v with
  | Some w, Some v => exists F', rep h w v F' /\ F' ⊆ F
  | None, None => True
  | _, _ => False
  end.

Lemma run_get_at p : forall h w v F, rep h w v F -> F ⊆ dom h ->
  exists r, get_at w p h = Some (r, h) /\ found h F r (Get v p).
Proof.
  induction p as [|seg p IH]; intros h w v F H Hd; [eexists; split; [done|]; by exists F|].
  assert (forall w' v' F', rep h w' v' F' -> F' ⊆ F -> exists r, get_at w' p h = Some (r, h) /\ found h F r (Get v' p)) as Hgo.
  { intros w' v' F' Hr' Hs. destruct (IH h w' v' F' Hr' ltac:(set_solver)) as (r & E & Hf). exists r. split; [done|].
    unfold found in *. destruct r, (Get v' p); try done. destruct Hf as (F2 & ? & ?). exists F2. split; [done|set_solver]. }
  cbn [get_at Get]. destruct (IsField seg).
  { inversion H as [? ? Hv|l m vs Fs ? Hl Hm Hk Ha|s ws vs Fs ? Hl Hn Hc Hw Hk Ha]; subst.
    - exists None. split; [done|]. by destruct v.
    - unfold mthen, read_map. rewrite Hl. destruct (m !! Field seg) as [w'|] eqn:Ew, (vs !! Field seg) as [v'|] eqn:Ev.
      + apply (Hgo w' v' (Fs (Field seg))); [eauto|]. destruct Ha as (_ & Hsub & _). specialize (Hsub (Field seg)). set_solver.
      + apply elem_of_dom_2 in Ew. apply not_elem_of_dom in Ev. set_solver.
      + apply elem_of_dom_2 in Ev. apply not_elem_of_dom in Ew. set_solver.
      + by exists None.
    - by exists None. }
  destruct (IsIndex seg).
  { inversion H as [? ? Hv|l m vs Fs ? Hl Hm Hk Ha|s ws vs Fs ? Hl Hn Hc Hw Hk Ha]; subst.
    - exists None. split; [done|]. by destruct v.
    - by exists None.
    - cbv zeta. destruct (vs !! Z.to_nat (Index seg)) as [v'|] eqn:Ev.
      + apply lookup_lt_Some in Ev as Hlt. rewrite (proj2 (Nat.leb_gt _ _)) by lia.
        destruct (slice_elem _ _ _ _ _ _ H Ev) as (w' & Fi & Ei & Hr & Hs). unfold mthen. rewrite Ei. apply (Hgo w' v' Fi); [done|set_solver].
      + apply lookup_ge_None in Ev. rewrite (proj2 (Nat.leb_le _ _)) by lia. by exists None. }
  destruct (IsKeyMatch seg); [|by apply (Hgo w v F)].
  inversion H as [? ? Hv|l m vs Fs ? Hl Hm Hk Ha|s ws vs Fs ? Hl Hn Hc Hw Hk Ha]; subst.
  - exists None. split; [done|]. by destruct v.
  - by exists None.
  - unfold mthen. rewrite (run_find_key _ _ _ _ _ _ H Hd). destruct (findByKey vs (Key seg) (Value seg)) as [i|] eqn:Ef; [|by exists None].
    apply findByKey_lt in Ef. destruct (lookup_lt_is_Some_2 vs i Ef) as [v' Ev]. rewrite Ev.
    destruct (slice_elem _ _ _ _ _ _ H Ev) as (w' & Fi & Ei & Hr & Hs). rewrite Ei. apply (Hgo w' v' Fi); [done|set_solver].
Qed.

Lemma runs_get_at {B} h w v F p (k : option word -> memM B) Q :
  rep h w v F -> F ⊆ dom h -> (forall r, found h F r (Get v p) -> runs (k r) h Q) -> runs (mthen (get_at w p) k) h Q.
Proof. intros H Hd Hk. destruct (run_get_at p h w v F H Hd) as (r & E & Hf). eapply runs_step; [exact E|]. auto. Qed.

(** ** Copying *)

Lemma runs_set_key h l vs F k w c Fc :
  rep h (MapAt l) (VMap vs) F -> rep h w c Fc -> Fc ## F -> F ⊆ dom h ->
  runs (set_key l k w) h (fun _ h' => moves h h' F /\ dom h' = dom h /\ rep h' (MapAt l) (VMap (<[k := c]> vs)) (F ∪ Fc) /\
    exists m, h' !! l = Some (MapCell m) /\ m !! k = Some w).
Proof.
  intros H Hc Hdis Hd. destruct (map_write _ _ _ _ H) as (m & Hl & _ & Hin & Hput & _).
  unfold set_key. eapply runs_step; [unfold read_map; by rewrite Hl|]. eexists _, _. split; [reflexivity|].
  split; [apply moves_write; set_solver|]. split; [rewrite dom_insert_L; set_solver|]. split.
  - apply (Hput _ k w); [apply lookup_insert_eq| | |done].
    + intros x _ Hx. by apply lookup_insert_ne.
    + eapply rep_frame; [exact Hc|]. intros x Hx. apply lookup_insert_ne. set_solver.
  - eexists. split; [apply lookup_insert_eq|apply lookup_insert_eq].
Qed.

Lemma rep_new_map h : rep (<[fresh (dom h) := MapCell ∅]> h) (MapAt (fresh (dom h))) (VMap ∅) {[fresh (dom h)]}.
Proof.
  apply (rep_map _ _ ∅ _ (fun _ => ∅)); [apply lookup_insert_eq|done|by intros k w v ?%lookup_empty_Some|].
  split; [set_solver|]. split; [set_solver|done].
Qed.

(** A copy: all there was is still there, and the copy is made of new cells only. *)
Definition copies (h : memory) (v : value) (w : word) (h' : memory) : Prop :=
  h ⊆ h' /\ exists F, rep h' w v F /\ F ⊆ dom h' ∖ dom h.

Section Copying.
Variable copy : word -> memM word.
Variable n : nat.
Hypothesis Hcopy : forall h w v F, rep h w v F -> F ⊆ dom h -> size F < n -> runs (copy w) h (copies h v).

Definition entered (vs : gmap string value) (got : gmap string value) (kws : list (string * word)) : gmap string value :=
  foldl (fun acc kw => <[kw.1 := default VNil (vs !! kw.1)]> acc) got kws.

Lemma entered_lookup vs kws : forall got k,
  entered vs got kws !! k = if decide (k ∈ map fst kws) then Some (default VNil (vs !! k)) else got !! k.
Proof.
  unfold entered. induction kws as [|[k0 w] kws IH]; intros got k; [done|]. cbn [foldl map fst]. rewrite IH.
  destruct (decide (k ∈ map fst kws)) as [Hin|Hn].
  - rewrite decide_True by (by right). done.
  - destruct (decide (k = k0)) as [->|N].
    + rewrite decide_True by (by left). by rewrite lookup_insert_eq.
    + rewrite decide_False by (by rewrite not_elem_of_cons). by rewrite lookup_insert_ne.
Qed.

Lemma entered_all (m : gmap string word) vs : dom m = dom vs -> entered vs ∅ (map_to_list m) = vs.
Proof.
  intros Hd. apply map_eq. intros k. rewrite entered_lookup.
  assert (k ∈ map fst (map_to_list m) <-> is_Some (vs !! k)) as Hk.
  { rewrite <- elem_of_dom, <- Hd, elem_of_dom. split.
    - intros ([k' w] & -> & Hin%elem_of_map_to_list)%list_elem_of_fmap. by eexists.
    - intros [w Hw]. apply list_elem_of_fmap. exists (k, w). by rewrite elem_of_map_to_list. }
  destruct (decide _) as [Hin|Hn].
  - apply Hk in Hin as [v ->]. done.
  - rewrite lookup_empty. symmetry. apply eq_None_not_Some. tauto.
Qed.

Lemma copy_entries_spec h vs out kws : forall got hc Fd,
  h ⊆ hc -> rep hc (MapAt out) (VMap got) Fd -> Fd ⊆ dom hc ∖ dom h ->
  (forall k w, (k, w) ∈ kws -> exists v F, vs !! k = Some v /\ rep h w v F /\ F ⊆ dom h /\ size F < n) ->
  runs (copy_entries copy out kws) hc (fun _ h' => copies h (VMap (entered vs got kws)) (MapAt out) h').
Proof.
  induction kws as [|[k w] kws IH]; intros got hc Fd Hs Hr HFd Hall; [apply runs_ret; split; [done|by exists Fd]|].
  destruct (Hall k w ltac:(left)) as (v & F & Hv & Hw & HF & Hn). pose proof (subseteq_dom _ _ Hs) as Hdom.
  cbn [copy_entries]. eapply runs_seq.
  { apply (Hcopy hc w v F); [by eapply rep_subseteq|set_solver|done]. }
  intros w' h1 (Hs1 & F' & Hr' & HF'). pose proof (subseteq_dom _ _ Hs1) as Hdom1. eapply runs_seq.
  { apply (runs_set_key h1 out got Fd k w' v F'); [eapply rep_subseteq; [done|set_solver|done]|done|set_solver|set_solver]. }
  intros _ h2 (Hm & Hd2 & Hr2 & _). unfold entered. cbn [foldl fst]. rewrite Hv. cbn [default].
  apply (IH _ h2 (Fd ∪ F')); [|done| |].
  - eapply moves_keeps; [done|by etrans|set_solver].
  - rewrite Hd2. set_solver.
  - intros k' x Hin. apply Hall. by right.
Qed.

Lemma copy_elements_spec h vs out ws : forall i hc Fd,
  h ⊆ hc -> rep hc (SliceAt out) (VList (take i vs ++ replicate (length vs - i) VNil)) Fd -> Fd ⊆ dom hc ∖ dom h ->
  i + length ws = length vs ->
  (forall j w, ws !! j = Some w -> exists v F, vs !! (i + j) = Some v /\ rep h w v F /\ F ⊆ dom h /\ size F < n) ->
  runs (copy_elements copy out i ws) hc (fun _ h' => copies h (VList vs) (SliceAt out) h').
Proof.
  induction ws as [|w ws IH]; intros i hc Fd Hs Hr HFd Hlen Hall.
  { cbn in Hlen. apply runs_ret. split; [done|]. exists Fd. split; [|done].
    rewrite take_ge in Hr by lia. replace (length vs - i) with 0 in Hr by lia. by rewrite app_nil_r in Hr. }
  cbn in Hlen. destruct (Hall 0 w eq_refl) as (v & F & Hv & Hw & HF & Hn). rewrite Nat.add_0_r in Hv.
  pose proof (subseteq_dom _ _ Hs) as Hdom.
  cbn [copy_elements]. eapply runs_seq.
  { apply (Hcopy hc w v F); [by eapply rep_subseteq|set_solver|done]. }
  intros w' h1 (Hs1 & F' & Hr' & HF'). pose proof (subseteq_dom _ _ Hs1) as Hdom1. eapply runs_seq.
  { apply (slice_store h1 out (take i vs ++ replicate (length vs - i) VNil) Fd i w' v F'); [eapply rep_subseteq; [done|set_solver|done]| |set_solver|done|set_solver|set_solver].
    rewrite length_app, length_take, length_replicate. lia. }
  intros _ h2 (Hm & Hd2 & Hr2 & _). apply (IH (S i) h2 (Fd ∪ F')); [| | |lia|].
  - eapply moves_keeps; [done|by etrans|set_solver].
  - rewrite insert_app_r_alt in Hr2 by (rewrite length_take; lia). rewrite length_take, Nat.min_l, Nat.sub_diag in Hr2 by lia.
    replace (length vs - i) with (S (length vs - S i)) in Hr2 by lia. cbn [replicate] in Hr2. 
    rewrite (take_S_r _ _ v) by done. by rewrite <- app_assoc.
  - rewrite Hd2. set_solver.
  - intros j x Hx. specialize (Hall (S j) x Hx). by replace (S i + j) with (i + S j) by lia.
Qed.

End Copying.

Lemma deepCopyValue_spec n : forall h w v F,
  rep h w v F -> F ⊆ dom h -> size F < n -> runs (deepCopyValue n w) h (copies h v).
Proof.
  induction n as [|n IH]; intros h w v F H Hd Hn; [lia|]. destruct (moves_new h (MapCell ∅)) as [_ Hfr].
  inversion H as [? ? Hv|l m vs Fs ? Hl Hm Hk Ha|s ws vs Fs ? Hl Hlen Hc Hw Hk Ha]; subst; cbn [deepCopyValue].
  - apply runs_ret. split; [done|]. exists ∅. split; [by constructor|set_solver].
  - eapply runs_step; [unfold read_map; by rewrite Hl|]. eapply runs_step; [reflexivity|].
    set (out := fresh (dom h)) in *. eapply runs_seq.
    { apply (copy_entries_spec _ n IH h vs out (map_to_list m) ∅ _ {[out]}).
      - apply insert_subseteq. by apply not_elem_of_dom.
      - apply rep_new_map.
      - rewrite dom_insert_L. set_solver.
      - intros k w Hin%elem_of_map_to_list. assert (is_Some (vs !! k)) as [v Hv] by (apply elem_of_dom; rewrite <- Hm; by eapply elem_of_dom_2).
        exists v, (Fs k). destruct Ha as (Hin' & Hsub & _). specialize (Hsub k). split; [done|]. split; [eauto|]. split; [set_solver|].
        apply subseteq_size in Hsub. rewrite size_difference, size_singleton in Hsub by set_solver.
        assert (size F <> 0) by (intros E%size_empty_inv; set_solver). lia. }
    intros [] h' Hcp. rewrite entered_all in Hcp by done. by apply runs_ret.
  - eapply runs_step; [unfold read_array; by rewrite Hl|]. cbv zeta. eapply runs_step; [reflexivity|].
    set (out := fresh (dom h)) in *. eapply runs_seq.
    { apply (copy_elements_spec _ n IH h vs (mkSlice out (s_len s) (s_len s)) (take (s_len s) ws) 0 _ {[out]}).
      - apply insert_subseteq. by apply not_elem_of_dom.
      - rewrite take_0, app_nil_l, Nat.sub_0_r, Hlen.
        apply (rep_slice _ _ (replicate (length vs) (Imm VNil)) _ (fun _ => ∅)); cbn [s_array s_len s_cap];
          rewrite ?length_replicate; [apply lookup_insert_eq|lia|lia|lia| |].
        + intros i x y [-> _]%lookup_replicate [-> _]%lookup_replicate. by constructor.
        + split; [set_solver|]. split; [set_solver|done].
      - rewrite dom_insert_L. set_solver.
      - rewrite length_take. lia.
      - intros j w Hj. rewrite lookup_take_Some in Hj. destruct Hj as [Hj Hlt]. cbn [Nat.add].
        destruct (lookup_lt_is_Some_2 vs j) as [v Hv]; [lia|].
        exists v, (Fs j). destruct Ha as (Hin' & Hsub & _). specialize (Hsub j). split; [done|]. split; [eauto|]. split; [set_solver|].
        apply subseteq_size in Hsub. rewrite size_difference, size_singleton in Hsub by set_solver.
        assert (size F <> 0) by (intros E%size_empty_inv; set_solver). lia. }
    intros [] h' Hcp. by apply runs_ret.
Qed.

Lemma runs_deep_copy h w v F : rep h w v F -> F ⊆ dom h -> runs (deep_copy w) h (copies h v).
Proof. intros H Hd. apply (deepCopyValue_spec _ _ _ _ F); [done|done|]. apply subseteq_size in Hd. lia. Qed.

End MemorySpec.
