(* ===== verification/MemoryWrites.v ===== *)
(** What [set_path] and [delete_path] do in memory: the tree becomes what [SetPath] and [DeletePath] say,
    on errors too, and no cell outside it is written. *)
From stdpp Require Import strings base list gmap fin_maps.
From S2P Require Import Prelude GoStrings Values FieldPath FieldPathUpdate FieldPathDelete FieldPathPresence Memory MemorySpec.
Local Open Scope string_scope.
Local Open Scope list_scope.

Module MemoryWrites.
Import GoStrings Values FieldPath FieldPathUpdate FieldPathDelete FieldPathPresence Memory MemorySpec.

Lemma runs_empty_for next h : runs (empty_for next) h (fun w h' => copies h (emptyFor next) w h').
Proof.
  destruct (moves_new h (MapCell ∅)) as [_ Hfr]. unfold empty_for, emptyFor. destruct (_ || _).
  - eapply runs_step; [reflexivity|]. apply runs_ret. split; [apply insert_subseteq; by apply not_elem_of_dom|].
    exists {[fresh (dom h)]}. split; [|rewrite dom_insert_L; set_solver].
    apply (rep_slice _ _ [] _ (fun _ => ∅)); [apply lookup_insert_eq|done|done|done|done|].
    split; [cbn; set_solver|]. split; [set_solver|done].
  - eapply runs_step; [reflexivity|]. apply runs_ret. split; [apply insert_subseteq; by apply not_elem_of_dom|].
    exists {[fresh (dom h)]}. split; [apply rep_new_map|rewrite dom_insert_L; set_solver].
Qed.

(** *** Appending

    [sees s0 s F]: a header made earlier, with cells [F], does not reach what [append] to [s] writes. *)

Definition sees (s0 s : Slice) (F : gset loc) : Prop :=
  s_array s = s_array s0 /\ s_len s0 <= s_len s \/ s_array s ∉ F.

(** Headers made earlier go on showing what they showed. *)
Definition unseen (h h' : memory) (s s' : Slice) : Prop :=
  forall s0 vs0 F0, rep h (SliceAt s0) (VList vs0) F0 -> F0 ⊆ dom h -> sees s0 s F0 ->
    rep h' (SliceAt s0) (VList vs0) F0 /\ sees s0 s' F0.

Lemma unseen_refl h s : unseen h h s s.
Proof. by intros s0 vs0 F0. Qed.

Lemma unseen_trans h h1 h2 s s1 s2 : dom h ⊆ dom h1 -> unseen h h1 s s1 -> unseen h1 h2 s1 s2 -> unseen h h2 s s2.
Proof. intros Hd H1 H2 s0 vs0 F0 Hr HF Hs. destruct (H1 _ _ _ Hr HF Hs) as [Hr1 Hs1]. apply H2; [done|set_solver|done]. Qed.

Lemma unseen_subseteq h h' s : h ⊆ h' -> unseen h h' s s.
Proof. intros Hs s0 vs0 F0 Hr HF Hse. split; [by eapply rep_subseteq|done]. Qed.

(** The array [append] leaves, in place or new, with something after what was appended. *)
Section Appended.
Variable h : memory.
Variable s : Slice.
Variable vs : list value.
Variable F : gset loc.
Variable w : word.
Variable c : value.
Variable Fw : gset loc.
Variable ws : list word.
Variable Fs : nat -> gset loc.
Hypothesis Hl : h !! s_array s = Some (ArrayCell ws).
Hypothesis Hn : s_len s = length vs.
Hypothesis Hlen : s_len s <= length ws.
Hypothesis Hr : forall i w v, ws !! i = Some w -> vs !! i = Some v -> rep h w v (Fs i).
Hypothesis Ha : apart (s_array s) Fs F.
Hypothesis Hw : rep h w c Fw.
Hypothesis Hdis : Fw ## F.
Variable rest : list word.
Local Abbreviation now := (take (s_len s) ws ++ [w] ++ rest).

Lemma appended_before i : i < length vs -> now !! i = ws !! i.
Proof. intros Hi. rewrite lookup_app_l by (rewrite length_take; lia). apply lookup_take_lt. lia. Qed.

Lemma appended_here : now !! length vs = Some w.
Proof. rewrite lookup_app_r by (rewrite length_take; lia). rewrite length_take. by replace (length vs - _) with 0 by lia. Qed.

Lemma appended_index a cap h' :
  h' !! a = Some (ArrayCell now) -> index_at (mkSlice a (s_len s + 1) cap) (length vs) h' = Some (w, h').
Proof.
  intros Hl'. unfold index_at, mthen, read_array. cbn [s_array s_len]. rewrite Hl', lookup_take_lt by lia. by rewrite appended_here.
Qed.

Lemma appended_rep a cap h' G :
  h' !! a = Some (ArrayCell now) -> s_len s + 1 <= cap -> cap <= length now ->
  (forall x, x ∈ F ∪ Fw -> x <> s_array s -> h' !! x = h !! x) -> s_array s ∉ Fw ->
  apart a (instead Fs (length vs) Fw) G ->
  rep h' (SliceAt (mkSlice a (s_len s + 1) cap)) (VList (vs ++ [c])) G.
Proof.
  intros Hl' Hcap Hcap' Hf Hn' HG. apply (rep_slice _ _ now _ (instead Fs (length vs) Fw)); cbn [s_array s_len s_cap];
    [done|rewrite length_app; cbn; lia|done|done| |done].
  intros i x y Hx Hy. unfold instead. apply lookup_lt_Some in Hy as Hlt. rewrite length_app in Hlt. cbn in Hlt.
  destruct (decide (i = length vs)) as [->|N].
  - rewrite appended_here in Hx. rewrite lookup_app_r, Nat.sub_diag in Hy by done. cbn in Hy. simplify_eq.
    eapply rep_frame; [exact Hw|]. intros z Hz. apply Hf; [set_solver|]. by intros ->.
  - rewrite appended_before in Hx by lia. rewrite lookup_app_l in Hy by lia.
    eapply rep_frame; [by eapply Hr|]. intros z Hz. destruct Ha as (_ & Hsub & _). specialize (Hsub i). apply Hf; set_solver.
Qed.

(** In place, it is beyond what earlier headers reach. *)
Lemma appended_unseen n cap :
  length ws <= length now -> s_len s <= n -> unseen h (<[s_array s := ArrayCell now]> h) s (mkSlice (s_array s) n cap).
Proof using Hl Hn Hlen.
  clear Hr Ha Hw Hdis Fs Fw F. intros Hall Hgrow s0 vs0 F0 Hr0 HF0 [[Ea Hle]|Hn0].
  2: { split; [|by right]. eapply rep_frame; [exact Hr0|]. intros z Hz. apply lookup_insert_ne. set_solver. }
  split; [|left; cbn; split; [done|lia]].
  inversion Hr0 as [| |? ws0 ? Fs0 ? Hl0 Hn0 Hc0 Hcl0 Hk0 Ha0]; subst. rewrite <- Ea, Hl in Hl0. injection Hl0 as <-.
  apply (rep_slice _ _ now _ Fs0); [rewrite <- Ea; apply lookup_insert_eq|done|done|lia| |done].
  intros i x y Hx Hy. apply lookup_lt_Some in Hy as Hlt. rewrite appended_before in Hx by lia.
  eapply rep_frame; [by eapply Hk0|]. intros z Hz. apply lookup_insert_ne. destruct Ha0 as (_ & Hsub0 & _). specialize (Hsub0 i).
  rewrite Ea. set_solver.
Qed.

End Appended.

Lemma grown_trans (F F1 F2 D D1 D2 : gset loc) :
  D ⊆ D1 -> D1 ⊆ D2 -> F1 ⊆ F ∪ (D1 ∖ D) -> F2 ⊆ F1 ∪ (D2 ∖ D1) -> F2 ⊆ F ∪ (D2 ∖ D).
Proof. set_solver. Qed.

Section Writes.
Variable slack : nat -> nat -> nat.

Lemma runs_append h s vs F w c Fw :
  rep h (SliceAt s) (VList vs) F -> F ⊆ dom h -> rep h w c Fw -> Fw ⊆ dom h -> Fw ## F ->
  runs (append slack s [w]) h (fun s' h' => moves h h' F /\ unseen h h' s s' /\ index_at s' (length vs) h' = Some (w, h') /\
    exists F', rep h' (SliceAt s') (VList (vs ++ [c])) F' /\ F' ⊆ F ∪ Fw ∪ (dom h' ∖ dom h)).
Proof.
  intros H HF Hw HFw Hdis. inversion H as [| |? ws ? Fs ? Hl Hn Hc Hcl Hr Ha]; subst. pose proof Ha as (Hin & Hsub & Hd).
  assert (apart (s_array s) (instead Fs (length vs) Fw) (F ∪ Fw)) as Hap.
  { eapply apart_weaken; [apply apart_instead; [done|set_solver]|set_solver]. }
  unfold append. eapply runs_step; [unfold read_array; by rewrite Hl|]. cbv zeta. cbn [length].
  assert (forall rest, length (take (s_len s) ws ++ [w] ++ rest) = s_len s + 1 + length rest) as Hlen.
  { intros rest. rewrite !length_app, length_take. cbn. lia. }
  destruct (s_len s + 1 <=? s_cap s)%nat eqn:Hroom.
  - apply Nat.leb_le in Hroom. eapply runs_step; [reflexivity|]. apply runs_ret.
    assert (length (take (s_len s) ws ++ [w] ++ drop (s_len s + 1) ws) = length ws) as Hsame by (rewrite Hlen, length_drop; lia).
    split; [apply moves_write; set_solver|]. split; [eapply (appended_unseen h s vs w ws); eauto; rewrite ?Hsame; lia|].
    split; [exact (appended_index s vs w ws Hn ltac:(lia) _ _ _ _ (lookup_insert_eq _ _ _))|].
    exists (F ∪ Fw). split; [|set_solver]. eapply (appended_rep h s vs F w c Fw ws Fs Hl Hn ltac:(lia) Hr Ha Hw Hdis);
      [apply lookup_insert_eq|lia|lia| |set_solver|exact Hap].
    intros x _ Hx. by apply lookup_insert_ne.
  - eapply runs_step; [reflexivity|]. apply runs_ret. set (rest := replicate _ _). set (cell := ArrayCell _).
    destruct (moves_new h cell) as [Hm Hfr]. set (a := fresh (dom h)) in *.
    assert (h ⊆ <[a := cell]> h) as Hs by (apply insert_subseteq; by apply not_elem_of_dom).
    split; [by eapply moves_weaken; [exact Hm|set_solver]|]. split; [|split; [exact (appended_index s vs w ws Hn ltac:(lia) _ _ _ _ (lookup_insert_eq _ _ _))|]].
    + intros s0 vs0 F0 Hr0 HF0 _. split; [by eapply rep_subseteq|]. right. cbn. set_solver.
    + exists (F ∪ Fw ∪ {[a]}). split; [|rewrite dom_insert_L; set_solver].
      eapply (appended_rep h s vs F w c Fw ws Fs Hl Hn ltac:(lia) Hr Ha Hw Hdis);
        [apply lookup_insert_eq|lia| | |set_solver|apply (apart_moved (s_array s)); [exact Hap|set_solver]].
      * rewrite Hlen. unfold rest. rewrite length_replicate. lia.
      * intros x Hx _. apply lookup_insert_ne. set_solver.
Qed.

(** *** The slice and the position [setInList] goes on with *)

(** A map with nothing of its own below it needs its own cell only. *)
Lemma rep_flat_map h l m vs :
  h !! l = Some (MapCell m) -> dom m = dom vs -> (forall k w v, m !! k = Some w -> vs !! k = Some v -> w = Imm v /\ scalar v = true) ->
  rep h (MapAt l) (VMap vs) {[l]}.
Proof.
  intros Hl Hd Hk. apply (rep_map _ _ m _ (fun _ => ∅)); [done|done| |split; [set_solver|by split; [set_solver|]]].
  intros k w v Hw Hv. destruct (Hk k w v Hw Hv) as [-> Hs]. by constructor.
Qed.

(** The element last appended: a map of its own, in a cell that was not there. *)
Definition fresh_element (h h' : memory) (s : Slice) (i : nat) (x : gmap string value) : Prop :=
  exists le, index_at s i h' = Some (MapAt le, h') /\ le ∈ dom h' ∖ dom h /\ rep h' (MapAt le) (VMap x) {[le]}.

(** [append(l, map[string]any{...})] of a new map. *)
Lemma runs_append_map h s vs F m x :
  rep h (SliceAt s) (VList vs) F -> F ⊆ dom h -> dom m = dom x ->
  (forall k w v, m !! k = Some w -> x !! k = Some v -> w = Imm v /\ scalar v = true) ->
  runs (mem! l := new (MapCell m) in append slack s [MapAt l]) h (fun s' h' => moves h h' F /\ unseen h h' s s' /\
    fresh_element h h' s' (length vs) x /\
    exists F', rep h' (SliceAt s') (VList (vs ++ [VMap x])) F' /\ F' ⊆ F ∪ (dom h' ∖ dom h)).
Proof.
  intros H HF Hd Hk. destruct (moves_new h (MapCell m)) as [Hm Hfr]. eapply runs_step; [reflexivity|].
  set (le := fresh (dom h)) in *. set (h1 := <[le := MapCell m]> h) in *.
  assert (h ⊆ h1) as Hs by (apply insert_subseteq; by apply not_elem_of_dom).
  assert (rep h1 (MapAt le) (VMap x) {[le]}) as Hle by (eapply rep_flat_map; [apply lookup_insert_eq|done|done]).
  assert (dom h1 = {[le]} ∪ dom h) as Hd1 by apply dom_insert_L.
  eapply runs_mono; [apply (runs_append h1 s vs F (MapAt le) (VMap x) {[le]}); [by eapply rep_subseteq|set_solver|done|set_solver|set_solver]|].
  cbv beta. intros s' h' (Hm' & Hun & Hidx & F' & HF' & Hs'). pose proof (proj1 Hm') as Hd'.
  split; [eapply moves_trans; [apply moves_subseteq; exact Hs|exact Hm'|set_solver]|].
  split; [apply (unseen_trans h h1 h' s s s'); [set_solver|by apply unseen_subseteq|exact Hun]|].
  split; [|exists F'; split; [done|set_solver]].
  exists le. split; [done|]. split; [set_solver|]. eapply rep_moves; [exact Hle|exact Hm'|set_solver|set_solver].
Qed.

Lemma runs_pad n : forall h s vs F,
  rep h (SliceAt s) (VList vs) F -> F ⊆ dom h ->
  runs (pad slack s n) h (fun s' h' => moves h h' F /\ unseen h h' s s' /\ (n = 0 /\ s' = s /\ h' = h \/ 0 < n /\ fresh_element h h' s' (length vs + n - 1) ∅) /\
    exists F', rep h' (SliceAt s') (VList (vs ++ replicate n (VMap ∅))) F' /\ F' ⊆ F ∪ (dom h' ∖ dom h)).
Proof.
  induction n as [|n IH]; intros h s vs F H HF.
  { apply runs_ret. split; [done|]. split; [apply unseen_refl|]. split; [by left|]. exists F. rewrite app_nil_r. split; [done|set_solver]. }
  cbn [pad]. destruct (runs_append_map h s vs F ∅ ∅ H HF ltac:(by rewrite !dom_empty_L)) as (s1 & h1 & E & Hm1 & Hun1 & Hel1 & F1 & HF1 & Hs1);
    [by intros k w v ?%lookup_empty_Some|].
  pose proof (proj1 Hm1) as Hd1. destruct (IH h1 s1 (vs ++ [VMap ∅]) F1 HF1 ltac:(set_solver)) as (s2 & h2 & E2 & Hm2 & Hun2 & Hel2 & F2 & HF2 & Hs2).
  pose proof (proj1 Hm2) as Hd2. exists s2, h2. split.
  { unfold mthen in *. destruct (new _ h) as [[l h0]|]; [|done]. rewrite E. exact E2. }
  split; [eapply moves_trans; [exact Hm1|exact Hm2|set_solver]|]. split; [by apply (unseen_trans h h1 h2 s s1 s2)|]. split.
  - right. split; [lia|]. destruct Hel2 as [(-> & -> & ->)|(_ & le & Hi & Hle & Hr)].
    + by replace (length vs + 1 - 1) with (length vs) by lia.
    + exists le. rewrite length_app in Hi. cbn in Hi. replace (length vs + S n - 1) with (length vs + 1 + n - 1) by lia.
      split; [done|]. split; [set_solver|done].
  - exists F2. rewrite <- app_assoc in HF2. split; [exact HF2|by eapply grown_trans].
Qed.

(** Either the position was there, and nothing changed; or the slice was extended up to it. *)
Definition located (h h' : memory) (s s1 : Slice) (l l1 : list value) (idx : nat) (F : gset loc) : Prop :=
  idx < length l /\ l1 = l /\ s1 = s /\ h' = h \/
  length l <= idx /\ rep h' (SliceAt s) (VList l) F /\ exists x, l1 !! idx = Some (VMap x) /\ fresh_element h h' s1 idx x.

Lemma runs_locate h s l F seg :
  rep h (SliceAt s) (VList l) F -> F ⊆ dom h ->
  match locate l seg with
  | None => locate_at slack s seg h = Some (None, h)
  | Some (l1, idx) =>
      idx < length l1 /\
      runs (locate_at slack s seg) h (fun r h' => exists s1, r = Some (s1, idx) /\ moves h h' F /\ located h h' s s1 l l1 idx F /\
        exists F1, rep h' (SliceAt s1) (VList l1) F1 /\ F1 ⊆ F ∪ (dom h' ∖ dom h))
  end.
Proof.
  intros H HF. pose proof (slice_len _ _ _ _ H) as Hn. unfold locate, locate_at.
  assert (forall h' s', unseen h h' s s' -> rep h' (SliceAt s) (VList l) F) as Hold by (intros h' s' Hu; apply (Hu s l F H HF); by left).
  destruct (IsIndex seg).
  { cbv zeta. set (i := Z.to_nat (Index seg)). split; [rewrite length_app, length_replicate; lia|]. rewrite Hn.
    eapply runs_seq; [apply (runs_pad (S i - length l) h s l F H HF)|].
    intros s' h' (Hm & Hu & Hel & F' & HF' & Hs). apply runs_ret. exists s'. split; [done|]. split; [done|].
    split; [|by exists F']. destruct Hel as [(E & -> & ->)|[Hpos Hel]].
    - left. split; [lia|]. rewrite E. by rewrite app_nil_r.
    - right. split; [lia|]. split; [by eapply Hold|]. exists ∅. split; [|by replace (length l + (S i - length l) - 1) with i in Hel by lia].
      rewrite lookup_app_r by lia. apply lookup_replicate. split; [done|lia]. }
  destruct (IsKeyMatch seg); [|done].
  destruct (findByKey l (Key seg) (Value seg)) as [i|] eqn:Ef.
  - apply findByKey_lt in Ef as Hi. split; [done|]. eapply runs_step; [by apply (run_find_key h s l F)|]. rewrite Ef.
    apply runs_ret. exists s. split; [done|]. split; [done|]. split; [by left|]. exists F. split; [done|set_solver].
  - split; [rewrite length_app; cbn; lia|]. eapply runs_step; [by apply (run_find_key h s l F)|]. rewrite Ef.
    destruct (runs_append_map h s l F {[Key seg := Imm (VStr (Value seg))]} {[Key seg := VStr (Value seg)]} H HF) as (s' & h' & E & Hm & Hu & Hel & F' & HF' & Hs);
      [by rewrite !dom_singleton_L|intros k w v [_ <-]%lookup_singleton_Some [_ <-]%lookup_singleton_Some; by split|].
    unfold mthen in E. destruct (new _ h) as [[le h0]|] eqn:En; [|done]. eapply runs_step; [exact En|]. eapply runs_step; [exact E|]. apply runs_ret.
    exists s'. rewrite Hn. split; [done|]. split; [done|]. split; [|by exists F']. right. split; [done|]. split; [by eapply Hold|].
    exists {[Key seg := VStr (Value seg)]}. split; [|done]. by rewrite lookup_app_r, Nat.sub_diag by done.
Qed.

(** *** Writing *)

Lemma is_nil_rep h w v F : rep h w v F -> is_nil_word w = is_nil v.
Proof. by intros []. Qed.

(** The child of a map to descend into. *)
Lemma runs_map_child h l m vs F f next :
  rep h (MapAt l) (VMap vs) F -> F ⊆ dom h -> h !! l = Some (MapCell m) ->
  runs (match m !! f with
        | Some c => if is_nil_word c then mem! c := empty_for next in mem! _ := set_key l f c in mret c else mret c
        | None => mem! c := empty_for next in mem! _ := set_key l f c in mret c
        end) h
    (fun w h' => moves h h' F /\ exists F' m', h' !! l = Some (MapCell m') /\ m' !! f = Some w /\
       rep h' (MapAt l) (VMap (<[f := match vs !! f with Some c => if is_nil c then emptyFor next else c | None => emptyFor next end]> vs)) F' /\
       F' ⊆ F ∪ (dom h' ∖ dom h)).
Proof.
  intros H HF Hl.
  assert (runs (mem! c := empty_for next in mem! _ := set_key l f c in mret c) h
    (fun w h' => moves h h' F /\ exists F' m', h' !! l = Some (MapCell m') /\ m' !! f = Some w /\
       rep h' (MapAt l) (VMap (<[f := emptyFor next]> vs)) F' /\ F' ⊆ F ∪ (dom h' ∖ dom h))) as Hnew.
  { eapply runs_seq; [apply runs_empty_for|]. intros c h1 (Hs1 & Fc & Hc & HFc). pose proof (subseteq_dom _ _ Hs1) as Hd1.
    eapply runs_seq; [apply (runs_set_key h1 l vs F f c (emptyFor next) Fc); [by eapply rep_subseteq|done|clear - HF HFc; set_solver|by etrans]|].
    intros _ h2 (Hm2 & Hd2 & Hr2 & m' & Hl2 & Hf2). apply runs_ret.
    split; [eapply moves_trans; [by apply moves_subseteq|exact Hm2|clear; set_solver]|].
    exists (F ∪ Fc), m'. split; [done|]. split; [done|]. split; [done|]. rewrite Hd2. clear - HFc. set_solver. }
  destruct (map_write _ _ _ _ H) as (m0 & Hl0 & Hdom & _). rewrite Hl in Hl0. injection Hl0 as <-.
  destruct (m !! f) as [c|] eqn:Em, (vs !! f) as [v|] eqn:Ev; [| | |done].
  - destruct (map_focus _ _ _ _ _ _ H Ev) as (m1 & w & Fk & Hl1 & Hw & Hr & _). rewrite Hl in Hl1. injection Hl1 as <-.
    rewrite Em in Hw. injection Hw as <-. rewrite (is_nil_rep _ _ _ _ Hr). destruct (is_nil v); [done|].
    apply runs_ret. split; [done|]. exists F, m. rewrite insert_id by done. split; [done|]. split; [done|]. split; [done|]. clear. set_solver.
  - apply elem_of_dom_2 in Em. apply not_elem_of_dom in Ev. set_solver.
  - apply elem_of_dom_2 in Ev. apply not_elem_of_dom in Em. set_solver.
Qed.

(** The element of a slice to descend into. *)
Lemma runs_slice_child h s l F i e c next :
  rep h (SliceAt s) (VList l) F -> F ⊆ dom h -> index_at s i h = Some (e, h) -> l !! i = Some c ->
  runs (if is_nil_word e then mem! c := empty_for next in mem! _ := store_at s i c in mret c else mret e) h
    (fun w h' => moves h h' F /\ (is_nil c = false -> h' = h /\ w = e) /\ exists F' ws, h' !! s_array s = Some (ArrayCell ws) /\ ws !! i = Some w /\
       rep h' (SliceAt s) (VList (<[i := if is_nil c then emptyFor next else c]> l)) F' /\ F' ⊆ F ∪ (dom h' ∖ dom h)).
Proof.
  intros H HF He Hc. destruct (slice_focus _ _ _ _ _ _ H Hc) as (ws & w & Fi & Hl & Hw & Hlen & Hr & _).
  assert (w = e) as ->.
  { unfold index_at, mthen, read_array in He. rewrite Hl, lookup_take_lt, Hw in He by done. by injection He. }
  rewrite (is_nil_rep _ _ _ _ Hr). destruct (is_nil c).
  - eapply runs_seq; [apply runs_empty_for|]. intros x h1 (Hs1 & Fc & Hx & HFc). pose proof (subseteq_dom _ _ Hs1) as Hd1.
    eapply runs_seq; [apply (slice_store h1 s l F i x (emptyFor next) Fc); [by eapply rep_subseteq|by eapply lookup_lt_Some|by etrans|done|clear - HF HFc; set_solver|clear - HFc; set_solver]|].
    intros _ h2 (Hm2 & Hd2 & Hr2 & ws' & Hl2 & Hw2). apply runs_ret.
    split; [eapply moves_trans; [by apply moves_subseteq|exact Hm2|clear; set_solver]|]. split; [done|].
    exists (F ∪ Fc), ws'. split; [done|]. split; [done|]. split; [done|]. rewrite Hd2. clear - HFc. set_solver.
  - apply runs_ret. split; [done|]. split; [done|]. exists F, ws. rewrite list_insert_id by done.
    split; [done|]. split; [done|]. split; [done|]. clear. set_solver.
Qed.

(** After a write of a tree with cells [Fw] into one with cells [F]. *)
Definition becomes (h h' : memory) (F Fw : gset loc) (w : word) (v : value) : Prop :=
  exists F', rep h' w v F' /\ F' ⊆ F ∪ Fw ∪ (dom h' ∖ dom h).

(** *** A node around one of its children

    [holds_child h w Fk F node around put]: the child [w] of [node], with cells [Fk] of [F], may change or
    be put another one for, and then the node is what [around] makes of it. *)

Definition holds_child (h : memory) (w : word) (Fk F : gset loc) (node : word) (around : value -> value) (put : word -> memM unit) : Prop :=
  (forall h', moves h h' Fk -> forall c' Fc, rep h' w c' Fc -> Fc ## F ∖ Fk -> rep h' node (around c') (F ∖ Fk ∪ Fc)) /\
  (forall h', moves h h' Fk -> forall w' c' Fc, rep h' w' c' Fc -> Fc ⊆ dom h' -> Fc ## F ∖ Fk ->
     runs (put w') h' (fun _ h'' => moves h' h'' F /\ dom h'' = dom h' /\ rep h'' node (around c') (F ∖ Fk ∪ Fc))).

Lemma map_holds h l vs F f c :
  rep h (MapAt l) (VMap vs) F -> F ⊆ dom h -> vs !! f = Some c ->
  exists m w Fk, h !! l = Some (MapCell m) /\ m !! f = Some w /\ rep h w c Fk /\ Fk ⊆ F /\
    holds_child h w Fk F (MapAt l) (fun c' => VMap (<[f := c']> vs)) (set_key l f).
Proof.
  intros H HF Hc. destruct (map_focus _ _ _ _ _ _ H Hc) as (m & w & Fk & Hl & Hw & Hr & Hin & Hsub & Hput).
  assert (l ∉ Fk) as Hlk by (clear - Hsub; set_solver). exists m, w, Fk. split; [done|]. split; [done|]. split; [done|].
  split; [clear - Hsub; set_solver|].
  assert (forall h', moves h h' Fk -> h' !! l = Some (MapCell m)) as Hcell by (intros h' [_ Hk']; rewrite Hk'; [done|by apply HF|done]).
  assert (forall h' x, moves h h' Fk -> x ∈ F -> x ∉ Fk -> h' !! x = h !! x) as Hrest by (intros h' x [_ Hk'] Hx Hn; apply Hk'; [by apply HF|done]).
  split.
  - intros h' Hmv c' Fc Hr' Hdc. apply (Hput h' w); [by rewrite insert_id by done; apply Hcell| |done|done]. intros x Hx _ Hxk. by apply Hrest.
  - intros h' Hmv w' c' Fc Hr' Hfd Hdc. unfold set_key. eapply runs_step; [unfold read_map; by rewrite (Hcell h' Hmv)|].
    eexists _, _. split; [reflexivity|]. assert (l ∈ dom h') as Hld by (apply (proj1 Hmv), HF, Hin).
    split; [by apply moves_write|]. split; [rewrite dom_insert_L; clear - Hld; set_solver|].
    apply (Hput _ w'); [apply lookup_insert_eq| | |done].
    + intros x Hx Hxl Hxk. rewrite lookup_insert_ne by done. by apply Hrest.
    + eapply rep_frame; [exact Hr'|]. intros x Hx. apply lookup_insert_ne. clear - Hdc Hx Hin Hlk. set_solver.
Qed.

(** The cells of the child may be taken to be any that are enough. *)
Lemma slice_holds h s vs F i c :
  rep h (SliceAt s) (VList vs) F -> F ⊆ dom h -> vs !! i = Some c ->
  exists ws w Fi, h !! s_array s = Some (ArrayCell ws) /\ ws !! i = Some w /\ index_at s i h = Some (w, h) /\ rep h w c Fi /\ Fi ⊆ F /\
    forall Fk, rep h w c Fk -> Fk ⊆ Fi -> holds_child h w Fk F (SliceAt s) (fun c' => VList (<[i := c']> vs)) (store_at s i).
Proof.
  intros H HF Hc. destruct (slice_focus _ _ _ _ _ _ H Hc) as (ws & w & Fi & Hl & Hw & Hlen & Hr & Hin & Hsub & Hput).
  exists ws, w, Fi. split; [done|]. split; [done|]. split; [unfold index_at, mthen, read_array; rewrite Hl, lookup_take_lt by done; by rewrite Hw|].
  split; [done|]. split; [clear - Hsub; set_solver|]. intros Fk Hrk Hki. assert (s_array s ∉ Fk) as Hak by (clear - Hsub Hki; set_solver).
  assert (forall h', moves h h' Fk -> h' !! s_array s = Some (ArrayCell ws)) as Hcell by (intros h' [_ Hk']; rewrite Hk'; [done|by apply HF|done]).
  assert (forall h' x, moves h h' Fk -> x ∈ F -> x ∉ Fi -> h' !! x = h !! x) as Hrest
    by (intros h' x [_ Hk'] Hx Hn; apply Hk'; [by apply HF|clear - Hn Hki; set_solver]).
  assert (forall Fc, F ∖ Fi ∪ Fc ⊆ F ∖ Fk ∪ Fc /\ (Fc ## F ∖ Fk -> Fc ## F ∖ Fi)) as Hset by (clear - Hki; set_solver).
  split.
  - intros h' Hmv c' Fc Hr' Hdc. eapply rep_weaken; [|apply Hset].
    apply (Hput h' w); [by rewrite list_insert_id by done; apply Hcell| |done|by apply Hset]. intros x Hx _ Hxk. by apply Hrest.
  - intros h' Hmv w' c' Fc Hr' Hfd Hdc. unfold store_at. eapply runs_step; [unfold read_array; by rewrite (Hcell h' Hmv)|].
    rewrite (proj2 (Nat.ltb_lt _ _) Hlen). eexists _, _. split; [reflexivity|]. assert (s_array s ∈ dom h') as Hld by (apply (proj1 Hmv), HF, Hin).
    split; [by apply moves_write|]. split; [rewrite dom_insert_L; clear - Hld; set_solver|]. eapply rep_weaken; [|apply Hset].
    apply (Hput _ w'); [apply lookup_insert_eq| | |by apply Hset].
    + intros x Hx Hxl Hxk. rewrite lookup_insert_ne by done. by apply Hrest.
    + eapply rep_frame; [exact Hr'|]. intros x Hx. apply lookup_insert_ne. clear - Hdc Hx Hin Hak. set_solver.
Qed.

Definition set_refines (p : Path) : Prop := forall h w c F v vw Fw,
  rep h w c F -> F ⊆ dom h -> rep h vw v Fw -> Fw ⊆ dom h -> Fw ## F ->
  runs (set_in slack w p vw) h (fun e h' => moves h h' F /\ e = (setIn c p v).2 /\ becomes h h' F Fw w (setIn c p v).1).

Definition set_list_refines (p : Path) : Prop := forall h s l F v vw Fw,
  rep h (SliceAt s) (VList l) F -> F ⊆ dom h -> rep h vw v Fw -> Fw ⊆ dom h -> Fw ## F ->
  runs (set_in_list slack s p vw) h (fun r h' => moves h h' F /\
    match (setInList l p v).2 with
    | Err e => r = Err e /\ becomes h h' F Fw (SliceAt s) (VList (setInList l p v).1)
    | Ok u => exists s', r = Ok s' /\ becomes h h' F Fw (SliceAt s') (VList u)
    end).

(** A child that is not a slice is written through its reference; a slice is, and its header stored again. *)
Definition below (set : word -> memM (option set_error)) (set_list : Slice -> memM (res set_error Slice))
    (put : word -> memM unit) (child : word) : memM (option set_error) :=
  match child with
  | SliceAt s =>
      mem! r := set_list s in
      match r with Err e => mret (Some e) | Ok updated => mem! _ := put (SliceAt updated) in mret None end
  | _ => set child
  end.

(** Writing below a node: [c] is the child, and [around] what the node is with another child in its place. *)
Definition written_below (c v : value) (rest : Path) : value * option set_error :=
  match c with
  | VList l => match setInList l rest v with (seen, Err e) => (VList seen, Some e) | (_, Ok updated) => (VList updated, None) end
  | _ => setIn c rest v
  end.

(** What is written below a node is written below what is around it. *)
Lemma runs_below rest h w c Fk F v vw Fw (node : word) (around : value -> value) (put : word -> memM unit) :
  set_refines rest -> set_list_refines rest ->
  rep h w c Fk -> Fk ⊆ F -> F ⊆ dom h -> rep h vw v Fw -> Fw ⊆ dom h -> Fw ## F ->
  holds_child h w Fk F node around put ->
  runs (below (fun x => set_in slack x rest vw) (fun s => set_in_list slack s rest vw) put w) h
    (fun e h' => moves h h' F /\ e = (written_below c v rest).2 /\ (e <> None -> moves h h' Fk) /\
      becomes h h' F Fw node (around (written_below c v rest).1)).
Proof.
  intros HA HB Hc Hk HF Hw HFw Hdis [Hstay Hput].
  assert (Fk ⊆ dom h /\ Fw ## Fk) as [Hkd Hwk] by (clear - Hk HF Hdis; set_solver).
  assert (forall h' Fc, moves h h' Fk -> Fc ⊆ Fk ∪ Fw ∪ (dom h' ∖ dom h) ->
    Fc ⊆ dom h' /\ Fc ## F ∖ Fk /\ F ∖ Fk ∪ Fc ⊆ F ∪ Fw ∪ (dom h' ∖ dom h)) as Hfc.
  { intros h' Fc [Hd _] Hs. clear - Hd Hs Hdis HF Hk HFw. set_solver. }
  destruct w as [x|l|s].
  - inversion Hc as [? ? Hv|?|?]; subst. cbn [below].
    eapply runs_mono; [by apply (HA h (Imm c) c Fk v vw Fw)|]. intros e h' (Hm & -> & Fc & Hr & Hs).
    destruct (Hfc h' Fc Hm Hs) as (Hcd & Hcf & Hcs). split; [by eapply moves_weaken|].
    assert (written_below c v rest = setIn c rest v) as -> by (by destruct c). split; [done|]. split; [done|]. eexists. split; [by eapply Hstay|done].
  - inversion Hc as [|? ? vs ? ? ? ? ? ?|]; subst. cbn [below written_below].
    eapply runs_mono; [by apply (HA h (MapAt l) (VMap vs) Fk v vw Fw)|]. intros e h' (Hm & -> & Fc & Hr & Hs).
    destruct (Hfc h' Fc Hm Hs) as (Hcd & Hcf & Hcs). split; [by eapply moves_weaken|]. split; [done|]. split; [done|]. eexists. split; [by eapply Hstay|done].
  - inversion Hc as [| |? ? vs ? ? ? ? ? ? ? ?]; subst. cbn [below written_below].
    eapply runs_seq; [by apply (HB h s vs Fk v vw Fw)|]. intros r h' [Hm Hr]. destruct (setInList vs rest v) as [seen [u|e]]; cbn [snd fst] in *.
    + destruct Hr as (s' & -> & Fc & Hr & Hs). destruct (Hfc h' Fc Hm Hs) as (Hcd & Hcf & Hcs).
      eapply runs_seq; [by apply (Hput h' Hm (SliceAt s') (VList u) Fc)|]. intros _ h2 (Hm2 & Hd2 & Hr2). apply runs_ret.
      split; [eapply moves_trans; [by eapply moves_weaken|exact Hm2|clear; set_solver]|]. split; [done|]. split; [done|]. eexists. split; [exact Hr2|by rewrite Hd2].
    + destruct Hr as (-> & Fc & Hr & Hs). destruct (Hfc h' Fc Hm Hs) as (Hcd & Hcf & Hcs). apply runs_ret.
      split; [by eapply moves_weaken|]. split; [done|]. split; [done|]. eexists. split; [by eapply Hstay|done].
Qed.

Lemma becomes_trans h h1 h2 F F1 Fw w v :
  moves h h1 F -> F1 ⊆ F ∪ (dom h1 ∖ dom h) -> dom h1 ⊆ dom h2 -> becomes h1 h2 F1 Fw w v -> becomes h h2 F Fw w v.
Proof.
  intros [Hd _] H1 Hd2 (F' & Hr & Hs). exists F'. split; [done|]. clear - Hd H1 Hd2 Hs. set_solver.
Qed.

Ltac split_writes :=
  match goal with
  | |- context [setInList ?l ?p ?v] => destruct (setInList l p v) as [? [?|?]]
  | |- context [setIn ?c ?p ?v] => destruct (setIn c p v) as [? [?|]]
  end.

Lemma setIn_below m f rest next v seg :
  IsField seg = true -> Field seg = f ->
  setIn (VMap m) (seg :: next :: rest) v =
    (let c := match m !! f with Some c => if is_nil c then emptyFor next else c | None => emptyFor next end in
     (VMap (<[f := (written_below c v (next :: rest)).1]> m), (written_below c v (next :: rest)).2)).
Proof.
  intros E <-. remember (next :: rest) as rs eqn:Ers. cbn [setIn]. rewrite E, Ers. cbv match beta zeta. rewrite <- Ers. set (c := match m !! _ with Some _ => _ | None => _ end). unfold written_below.
  destruct c; split_writes; done.
Qed.

Lemma setInList_below l l1 idx seg next rest v c :
  locate l seg = Some (l1, idx) -> l1 !! idx = Some c ->
  setInList l (seg :: next :: rest) v =
    (let r := written_below (if is_nil c then emptyFor next else c) v (next :: rest) in
     (if (idx <? length l)%nat then <[idx := r.1]> l else l, match r.2 with Some e => Err e | None => Ok (<[idx := r.1]> l1) end)).
Proof.
  intros E Ec. remember (next :: rest) as rs eqn:Ers. cbn [setInList]. rewrite E, Ers. cbv match beta zeta. rewrite Ec, <- Ers. cbv match. set (c' := if is_nil c then _ else _). unfold written_below.
  destruct c'; split_writes; done.
Qed.

Lemma set_in_map_step seg next rest :
  IsField seg = true -> set_refines (next :: rest) -> set_list_refines (next :: rest) -> set_refines (seg :: next :: rest).
Proof.
  intros Hseg HA HB h w c F v vw Fw H HF Hw HFw Hdis. remember (next :: rest) as below_ eqn:Eb. cbn [set_in]. rewrite Hseg.
  inversion H as [x ? Hv|l m vs Fs ? Hl Hm Hk Ha|s ws vs Fs ? Hl Hn Hc Hcl Hk Ha]; subst c w.
  { apply runs_ret. split; [done|]. replace (setIn x (seg :: below_) v) with (x, Some (ExpectedMap (Field seg))) by (cbn; rewrite Hseg; by destruct x).
    split; [done|]. exists F. split; [done|clear; set_solver]. }
  2: { apply runs_ret. split; [done|]. cbn [setIn]. rewrite Hseg. split; [done|]. exists F. split; [done|clear; set_solver]. }
  rewrite Eb at 1. eapply runs_step; [unfold read_map; by rewrite Hl|]. cbv zeta.
  eapply runs_seq; [by apply (runs_map_child h l m vs F (Field seg) next)|].
  intros w h1 (Hm1 & F1 & m1 & Hl1 & Hf1 & Hr1 & Hs1). pose proof (proj1 Hm1) as Hd1.
  rewrite Eb, (setIn_below vs (Field seg) rest next v seg Hseg eq_refl), <- Eb. cbv zeta.
  set (c0 := match vs !! Field seg with Some _ => _ | None => _ end) in *.
  assert (F1 ⊆ dom h1) as HF1 by (clear - HF Hd1 Hs1; set_solver).
  destruct (map_holds _ _ _ _ _ _ Hr1 HF1 (lookup_insert_eq _ _ _)) as (m2 & w2 & Fk & Hl2 & Hw2 & Hr2 & Hsub & Hholds).
  rewrite Hl1 in Hl2. injection Hl2 as <-. rewrite Hf1 in Hw2. injection Hw2 as <-.
  refine (runs_mono _ _ _ _ (runs_below below_ h1 w c0 Fk F1 v vw Fw (MapAt l) _ (set_key l (Field seg)) HA HB Hr2 Hsub HF1 _ _ _ Hholds) _).
  - eapply rep_moves; [exact Hw|exact Hm1|done|done].
  - by etrans.
  - clear - Hdis Hs1 HFw. set_solver.
  - cbv beta. intros e h2 (Hm2 & -> & _ & Hb). rewrite insert_insert_eq in Hb. cbn [fst snd]. split; [by eapply moves_trans|]. split; [done|].
    eapply becomes_trans; [exact Hm1|exact Hs1|apply Hm2|exact Hb].
Qed.

Lemma rep_own_cell h l vs F : rep h (MapAt l) (VMap vs) F -> l ∈ F.
Proof. intros H. inversion H as [|? m ? Fs ? Hl Hm Hk Ha|]; subst. apply Ha. Qed.

(** The code after [below] in a slice. *)
Lemma runs_list_below {h} {m1 : word -> memM (option set_error)} {m2 : Slice -> memM (res set_error Slice)} {put w s1} {Q : res set_error Slice -> memory -> Prop} :
  runs (below m1 m2 put w) h (fun e h' => Q (match e with Some e => Err e | None => Ok s1 end) h') ->
  runs (match w with
        | SliceAt s2 =>
            mem! r := m2 s2 in
            match r with Err e => mret (Err e) | Ok updated => mem! _ := put (SliceAt updated) in mret (Ok s1) end
        | _ => mem! e := m1 w in match e with Some e => mret (Err e) | None => mret (Ok s1) end
        end) h Q.
Proof.
  intros (e & h' & E & HQ). unfold runs. destruct w as [x|l|s]; cbn [below] in E; unfold mthen, mret in *.
  1,2: rewrite E; destruct e; by eexists _, _.
  destruct (m2 s h) as [[[u|e'] h2]|]; [| |done].
  - destruct (put (SliceAt u) h2) as [[[] h3]|]; [|done]. injection E as <- <-. by eexists _, _.
  - injection E as <- <-. by eexists _, _.
Qed.

Lemma set_in_list_step seg next rest :
  set_refines (next :: rest) -> set_list_refines (next :: rest) -> set_list_refines (seg :: next :: rest).
Proof.
  intros HA HB h s l F v vw Fw H HF Hw HFw Hdis. pose proof (runs_locate h s l F seg H HF) as Hloc.
  remember (next :: rest) as below_ eqn:Eb. cbn [set_in_list].
  destruct (locate l seg) as [[l1 idx]|] eqn:El.
  2: { eapply runs_step; [exact Hloc|]. apply runs_ret. split; [done|]. cbn [setInList]. rewrite El. split; [done|]. exists F. split; [done|clear; set_solver]. }
  destruct Hloc as [Hlt Hloc]. destruct (lookup_lt_is_Some_2 l1 idx Hlt) as [c Ec].
  rewrite Eb, (setInList_below l l1 idx seg next rest v c El Ec), <- Eb. cbv zeta. cbn [fst snd].
  eapply runs_seq; [exact Hloc|]. intros r h1 (s1 & -> & Hm1 & Hcase & F1 & Hr1 & Hs1). pose proof (proj1 Hm1) as Hd1.
  assert (F1 ⊆ dom h1) as HF1 by (clear - HF Hd1 Hs1; set_solver).
  destruct (slice_elem _ _ _ _ _ _ Hr1 Ec) as (e0 & Fe & He0 & _). eapply runs_step; [exact He0|].
  eapply runs_seq; [by apply (runs_slice_child h1 s1 l1 F1 idx e0 c next)|].
  intros w h2 (Hm2 & Hsame & F2 & ws & Hl2 & Hw2 & Hr2 & Hs2). pose proof (proj1 Hm2) as Hd2.
  set (c0 := if is_nil c then emptyFor next else c) in *.
  assert (F2 ⊆ dom h2) as HF2 by (clear - HF1 Hd2 Hs2; set_solver).
  destruct (slice_holds _ _ _ _ idx c0 Hr2 HF2) as (ws' & w' & Fi & Hl2' & Hw2' & _ & Hri & Hif & Hholds); [by apply list_lookup_insert_eq|].
  rewrite Hl2 in Hl2'. injection Hl2' as <-. rewrite Hw2 in Hw2'. injection Hw2' as <-.
  assert (exists Fk, rep h2 w c0 Fk /\ Fk ⊆ Fi /\ (length l <= idx -> rep h2 (SliceAt s) (VList l) F /\ F ⊆ dom h2 /\ Fk ## F)) as (Fk & Hrk & Hki & Hold).
  { destruct Hcase as [(Hi & _)|(Hi & Hrs & x & Hx & le & Hle & Hnew & Hrle)]; [exists Fi; split; [done|]; split; [done|lia]|].
    rewrite Hx in Ec. injection Ec as <-. destruct (Hsame eq_refl) as [-> ->]. rewrite Hle in He0. injection He0 as <-.
    exists {[le]}. split; [done|]. apply rep_own_cell in Hri. split; [clear - Hri; set_solver|]. intros _. split; [done|].
    split; [by etrans|]. clear - Hnew HF. set_solver. }
  apply (runs_list_below (m1 := fun x => set_in slack x below_ vw) (m2 := fun x => set_in_list slack x below_ vw) (put := store_at s1 idx)).
  refine (runs_mono _ _ _ _ (runs_below below_ h2 w c0 Fk F2 v vw Fw (SliceAt s1) _ (store_at s1 idx)
    HA HB Hrk _ HF2 _ _ _ (Hholds Fk Hrk Hki)) _).
  - by etrans.
  - eapply rep_moves; [eapply rep_moves; [exact Hw|exact Hm1|done|done]|exact Hm2|by etrans|]. clear - Hdis Hs1 HFw. set_solver.
  - by etrans; [|etrans].
  - clear - Hdis Hs1 Hs2 HFw Hd1. set_solver.
  - cbv beta. intros e h3 (Hm3 & -> & Herr & Hb). rewrite list_insert_insert_eq in Hb. pose proof (proj1 Hm3) as Hd3.
    assert (moves h h2 F) as Hm12 by (eapply moves_trans; [exact Hm1|exact Hm2|exact Hs1]).
    assert (F2 ⊆ F ∪ (dom h2 ∖ dom h)) as Hs12 by (by eapply grown_trans).
    split; [eapply moves_trans; [exact Hm12|exact Hm3|exact Hs12]|].
    assert (becomes h h3 F Fw (SliceAt s1) (VList (<[idx := (written_below c0 v below_).1]> l1))) as Hbig
      by (eapply becomes_trans; [exact Hm12|exact Hs12|exact Hd3|exact Hb]).
    destruct ((written_below c0 v below_).2) as [e|]; [|exists s1; by split]. split; [done|].
    destruct Hcase as [(Hi & -> & -> & ->)|(Hi & _)].
    + by rewrite (proj2 (Nat.ltb_lt _ _) Hi).
    + rewrite (proj2 (Nat.ltb_ge _ _) Hi). destruct (Hold Hi) as (Hrs & HFd & Hkf). exists F. split; [|clear; set_solver].
      eapply rep_moves; [exact Hrs|by apply Herr|done|clear - Hkf; set_solver].
Qed.

Lemma becomes_same h F Fw w v : rep h w v F -> becomes h h F Fw w v.
Proof. intros H. exists F. split; [done|]. clear. set_solver. Qed.

Lemma set_in_last seg : set_refines [seg].
Proof.
  intros h w c F v vw Fw H HF Hw HFw Hdis. cbn [set_in setIn]. destruct (IsField seg).
  2: { destruct (_ || _); apply runs_ret; (split; [done|]); (split; [done|]); by apply becomes_same. }
  inversion H as [x ? Hv|l m vs Fs ? Hl Hm Hk Ha|s ws vs Fs ? Hl Hn Hc Hcl Hk Ha]; subst.
  - apply runs_ret. split; [done|]. destruct c; (split; [done|]); by apply becomes_same.
  - eapply runs_seq; [by apply (runs_set_key h l vs F (Field seg) vw v Fw)|]. intros _ h1 (Hm1 & Hd1 & Hr1 & _).
    apply runs_ret. split; [done|]. split; [done|]. exists (F ∪ Fw). split; [done|]. clear. set_solver.
  - apply runs_ret. split; [done|]. split; [done|]. by apply becomes_same.
Qed.

Lemma set_in_list_last seg : set_list_refines [seg].
Proof.
  intros h s l F v vw Fw H HF Hw HFw Hdis. pose proof (runs_locate h s l F seg H HF) as Hloc. cbn [set_in_list setInList].
  destruct (locate l seg) as [[l1 idx]|].
  2: { eapply runs_step; [exact Hloc|]. apply runs_ret. split; [done|]. split; [done|]. by apply becomes_same. }
  destruct Hloc as [Hlt Hloc]. eapply runs_seq; [exact Hloc|]. intros r h1 (s1 & -> & Hm1 & _ & F1 & Hr1 & Hs1). pose proof (proj1 Hm1) as Hd1.
  assert (F1 ⊆ dom h1) as HF1 by (clear - HF Hd1 Hs1; set_solver). assert (Fw ## F1) as Hd by (clear - Hdis Hs1 HFw; set_solver).
  eapply runs_seq; [apply (slice_store h1 s1 l1 F1 idx vw v Fw); [done|done|done|eapply rep_moves; [exact Hw|exact Hm1|done|done]|done|by etrans]|].
  intros _ h2 (Hm2 & Hd2 & Hr2 & _). apply runs_ret. split; [eapply moves_trans; [exact Hm1|exact Hm2|exact Hs1]|]. exists s1. split; [done|].
  exists (F1 ∪ Fw). split; [done|]. rewrite Hd2. clear - Hs1. set_solver.
Qed.

Lemma set_in_refines p : set_refines p /\ set_list_refines p.
Proof.
  induction p as [|seg rest [IHA IHB]].
  - split; intros h w c F v vw Fw H HF Hw HFw Hdis; apply runs_ret; (split; [done|]); (split; [done|]); by apply becomes_same.
  - destruct rest as [|next rest]; [split; [apply set_in_last|apply set_in_list_last]|]. split; [|by apply set_in_list_step].
    destruct (IsField seg) eqn:E; [by apply set_in_map_step|]. intros h w c F v vw Fw H HF Hw HFw Hdis. cbn [set_in setIn]. rewrite E.
    destruct (_ || _); apply runs_ret; (split; [done|]); (split; [done|]); by apply becomes_same.
Qed.

Lemma obj_of_setIn obj p v : exists m, (setIn (VMap obj) p v).1 = VMap m.
Proof.
  destruct p as [|seg [|next rest]]; [by eexists| |]; destruct (IsField seg) eqn:E.
  - cbn. rewrite E. by eexists.
  - cbn. rewrite E. destruct (_ || _); by eexists.
  - rewrite (setIn_below _ (Field seg)) by done. by eexists.
  - cbn. rewrite E. destruct (_ || _); by eexists.
Qed.

(** [Set] in memory. *)
Lemma runs_set_path h w obj F p v vw Fw :
  rep h w (VMap obj) F -> F ⊆ dom h -> rep h vw v Fw -> Fw ⊆ dom h -> Fw ## F ->
  runs (set_path slack w p vw) h (fun e h' => moves h h' F /\ e = (SetPath obj p v).2 /\ becomes h h' F Fw w (VMap (SetPath obj p v).1)).
Proof.
  intros H HF Hw HFw Hdis. unfold set_path, SetPath. destruct p as [|seg rest].
  { apply runs_ret. split; [done|]. split; [done|]. by apply becomes_same. }
  destruct (IsField seg).
  - eapply runs_mono; [by apply (proj1 (set_in_refines (seg :: rest)) h w (VMap obj) F v vw Fw)|].
    intros e h' (Hm & -> & Hb). split; [done|]. destruct (obj_of_setIn obj (seg :: rest) v) as [m E].
    destruct (setIn (VMap obj) (seg :: rest) v) as [c e]. cbn [fst snd] in *. subst c. by split.
  - apply runs_ret. split; [done|]. split; [done|]. by apply becomes_same.
Qed.

(** *** Deleting *)

Lemma delete_at_take {A} (l : list A) i : base.delete i l = take i l ++ drop (S i) l.
Proof. revert i. induction l as [|x l IH]; intros [|i]; cbn; [done..|by rewrite drop_0|]. by rewrite IH. Qed.

Lemma lookup_without {A} (l : list A) i j : base.delete i l !! j = if decide (j < i) then l !! j else l !! S j.
Proof.
  destruct (decide (j < i)) as [Hlt|Hge]; [by rewrite list_lookup_delete_lt|rewrite list_lookup_delete_ge; [done|lia]].
Qed.

(** The slice without one of its elements: a new array, or the same one up to the last. *)
Lemma runs_without h s vs F idx :
  rep h (SliceAt s) (VList vs) F -> F ⊆ dom h -> idx < length vs ->
  runs (without slack s idx) h (fun s' h' => moves h h' F /\
    exists F', rep h' (SliceAt s') (VList (base.delete idx vs)) F' /\ F' ⊆ F ∪ (dom h' ∖ dom h)).
Proof.
  intros H HF Hidx. inversion H as [| |? ws ? Fs ? Hl Hn Hc Hcl Hr Ha]; subst. pose proof Ha as (Hin & Hsub & Hd).
  unfold without. eapply runs_step; [unfold read_array; by rewrite Hl|]. unfold append. cbn [s_array s_len s_cap].
  eapply runs_step; [unfold read_array; by rewrite Hl|]. cbv zeta.
  set (tail := drop (S idx) (take (s_len s) ws)). assert (length tail = length vs - S idx) as Htl by (unfold tail; rewrite length_drop, length_take; lia).
  assert (length (base.delete idx vs) = length vs - 1) as Hdl by (apply length_delete, lookup_lt_is_Some_2, Hidx).
  destruct (idx + length tail <=? idx)%nat eqn:Hroom.
  - apply Nat.leb_le in Hroom. eapply runs_step; [reflexivity|]. apply runs_ret.
    assert (tail = []) as Ht by (apply nil_length_inv; lia). rewrite Ht. cbn [length app]. rewrite Nat.add_0_r, take_drop, insert_id by done.
    split; [done|]. exists F. split; [|clear; set_solver].
    apply (rep_slice _ _ ws _ Fs); cbn [s_array s_len s_cap]; [done|lia|lia|lia| |done].
    intros i x y Hx Hy. apply lookup_lt_Some in Hy as Hi. rewrite lookup_without, decide_True in Hy by lia. eauto.
  - apply Nat.leb_gt in Hroom. eapply runs_step; [reflexivity|]. apply runs_ret. set (cell := ArrayCell _).
    destruct (moves_new h cell) as [Hm Hfr]. set (a := fresh (dom h)) in *.
    assert (h ⊆ <[a := cell]> h) as Hs by (apply insert_subseteq; by apply not_elem_of_dom).
    split; [by eapply moves_weaken; [exact Hm|set_solver]|]. exists (F ∪ {[a]}). split; [|rewrite dom_insert_L; set_solver].
    eapply (rep_slice _ _ _ _ (fun i => Fs (if decide (i < idx) then i else S i))); cbn [s_array s_len s_cap];
      [apply lookup_insert_eq|lia|lia|rewrite !length_app, length_take, length_replicate; lia| |].
    + intros i x y Hx Hy. apply lookup_lt_Some in Hy as Hi. rewrite lookup_without in Hy. eapply (rep_subseteq h); [|etrans; [apply Hsub|clear - HF; set_solver]|exact Hs].
      destruct (decide (i < idx)) as [Hlt|Hge].
      * rewrite lookup_app_l, lookup_take_lt in Hx by (rewrite ?length_take; lia). eauto.
      * rewrite lookup_app_r, length_take, Nat.min_l in Hx by (rewrite ?length_take; lia). rewrite lookup_app_l in Hx by lia.
        unfold tail in Hx. rewrite lookup_drop, lookup_take_lt in Hx by lia. replace (S idx + (i - idx)) with (S i) in Hx by lia. eauto.
    + split; [clear; set_solver|]. split; [intros i; etrans; [apply Hsub|clear - HF Hfr; set_solver]|].
      intros i j N. apply Hd. repeat case_decide; lia.
Qed.

Definition delete_refines (p : Path) : Prop := forall h w c F, rep h w c F -> F ⊆ dom h ->
  runs (delete_in slack w p) h (fun b h' => moves h h' F /\ b = (deleteIn c p).2 /\ becomes h h' F ∅ w (deleteIn c p).1).

Definition delete_list_refines (p : Path) : Prop := forall h s l F, rep h (SliceAt s) (VList l) F -> F ⊆ dom h ->
  runs (delete_in_list slack s p) h (fun r h' => moves h h' F /\ r.2 = (deleteInList l p).2 /\ (r.2 = false -> r.1 = s) /\
    becomes h h' F ∅ (SliceAt r.1) (VList (deleteInList l p).1)).

(** A slice that lost an element is stored again by whoever holds it. *)
Definition delete_below (del : word -> memM bool) (del_list : Slice -> memM (Slice * bool)) (put : word -> memM unit) (child : word) : memM bool :=
  match child with
  | SliceAt s =>
      mem! (updated, removed) := del_list s in
      if removed then mem! _ := put (SliceAt updated) in mret true else mret false
  | _ => del child
  end.

Definition deleted_below (c : value) (rest : Path) : value * bool :=
  match c with
  | VList l => let '(updated, removed) := deleteInList l rest in (VList updated, removed)
  | _ => deleteIn c rest
  end.

Lemma runs_delete_below rest h w c Fk F (node : word) (around : value -> value) (put : word -> memM unit) :
  delete_refines rest -> delete_list_refines rest ->
  rep h w c Fk -> Fk ⊆ F -> F ⊆ dom h ->
  holds_child h w Fk F node around put ->
  runs (delete_below (fun x => delete_in slack x rest) (fun s => delete_in_list slack s rest) put w) h
    (fun b h' => moves h h' F /\ b = (deleted_below c rest).2 /\ becomes h h' F ∅ node (around (deleted_below c rest).1)).
Proof.
  intros HA HB Hc Hk HF [Hstay Hput]. assert (Fk ⊆ dom h) as Hkd by (clear - Hk HF; set_solver).
  assert (forall h' Fc, moves h h' Fk -> Fc ⊆ Fk ∪ ∅ ∪ (dom h' ∖ dom h) ->
    Fc ⊆ dom h' /\ Fc ## F ∖ Fk /\ F ∖ Fk ∪ Fc ⊆ F ∪ ∅ ∪ (dom h' ∖ dom h)) as Hfc.
  { intros h' Fc [Hd _] Hs. clear - Hd Hs HF Hk. set_solver. }
  assert (forall h', moves h h' Fk -> moves h h' F) as Hup by (intros h' Hm; by eapply moves_weaken).
  assert ((forall s, w <> SliceAt s) -> deleted_below c rest = deleteIn c rest) as Hplain.
  { intros Hns. inversion Hc as [x ? Hv| |s ws vs]; subst; [by destruct c|done|by destruct (Hns s)]. }
  destruct w as [x|l|s]; cbn [delete_below].
  1,2: rewrite Hplain by done; eapply runs_mono; [by apply (HA h _ c Fk)|]; intros b h' (Hm & -> & Fc & Hr & Hs);
    destruct (Hfc h' Fc Hm Hs) as (Hcd & Hcf & Hcs); split; [by apply Hup|]; (split; [done|]); eexists; (split; [by eapply Hstay|done]).
  inversion Hc as [| |? ? vs ? ? ? ? ? ? ? ?]; subst. unfold deleted_below. clear Hplain.
  eapply runs_seq; [by apply (HB h s vs Fk)|]. intros [updated removed] h' (Hm & Hb & Hsame & Fc & Hr & Hs).
  destruct (deleteInList vs rest) as [u b]. cbn [fst snd] in *. subst removed.
  destruct (Hfc h' Fc Hm Hs) as (Hcd & Hcf & Hcs). destruct b.
  - eapply runs_seq; [by apply (Hput h' Hm (SliceAt updated) (VList u) Fc)|]. intros _ h2 (Hm2 & Hd2 & Hr2). apply runs_ret.
    split; [eapply moves_trans; [by apply Hup|exact Hm2|clear; set_solver]|]. split; [done|]. eexists. split; [exact Hr2|by rewrite Hd2].
  - apply runs_ret. rewrite Hsame in Hr by done. split; [by apply Hup|]. split; [done|]. eexists. split; [by eapply Hstay|done].
Qed.

Lemma deleteIn_below m f rest next seg c :
  IsField seg = true -> Field seg = f -> m !! f = Some c ->
  deleteIn (VMap m) (seg :: next :: rest) =
    (VMap (<[f := (deleted_below c (next :: rest)).1]> m), (deleted_below c (next :: rest)).2).
Proof.
  intros E <- Ec. remember (next :: rest) as rs eqn:Ers. cbn [deleteIn]. rewrite E, Ec, Ers. cbv match beta. rewrite <- Ers. unfold deleted_below.
  destruct c; try (by destruct (deleteIn _ rs)). by destruct (deleteInList _ rs).
Qed.

(** The element [deleteInList] addresses. *)
Definition addressed (l : list value) (seg : Segment) : option nat :=
  if IsIndex seg then let i := Z.to_nat (Index seg) in if (i <? length l)%nat then Some i else None
  else if IsKeyMatch seg then findByKey l (Key seg) (Value seg) else None.

Lemma addressed_lt l seg i : addressed l seg = Some i -> i < length l.
Proof.
  unfold addressed. destruct (IsIndex seg); [|destruct (IsKeyMatch seg); [apply findByKey_lt|done]].
  cbv zeta. destruct (_ <? _)%nat eqn:E; [|done]. intros [= <-]. by apply Nat.ltb_lt in E.
Qed.

Lemma deleteInList_below l seg next rest i c :
  addressed l seg = Some i -> l !! i = Some c ->
  deleteInList l (seg :: next :: rest) = (<[i := (deleted_below c (next :: rest)).1]> l, (deleted_below c (next :: rest)).2).
Proof.
  intros E Ec. remember (next :: rest) as rs eqn:Ers. unfold addressed in E. cbn [deleteInList]. rewrite E, Ers. cbv match beta.
  rewrite Ec, <- Ers. cbv match. unfold deleted_below. destruct c; try (by destruct (deleteIn _ rs)). by destruct (deleteInList _ rs).
Qed.

Lemma run_addressed h s l F seg :
  rep h (SliceAt s) (VList l) F -> F ⊆ dom h ->
  (if IsIndex seg then let i := Z.to_nat (Index seg) in mret (if (i <? s_len s)%nat then Some i else None)
   else if IsKeyMatch seg then find_key s (Key seg) (Value seg) else mret None) h = Some (addressed l seg, h).
Proof.
  intros H HF. unfold addressed. rewrite (slice_len _ _ _ _ H). destruct (IsIndex seg); [done|]. destruct (IsKeyMatch seg); [|done].
  by apply (run_find_key h s l F).
Qed.

Lemma delete_map_step seg next rest :
  delete_refines (next :: rest) -> delete_list_refines (next :: rest) -> delete_refines (seg :: next :: rest).
Proof.
  intros HA HB h w c F H HF. remember (next :: rest) as below_ eqn:Eb. cbn [delete_in]. destruct (IsField seg) eqn:Hseg.
  2: { apply runs_ret. split; [done|]. cbn [deleteIn]. rewrite Hseg. split; [done|]. by apply becomes_same. }
  inversion H as [x ? Hv|l m vs Fs ? Hl Hm Hk Ha|s ws vs Fs ? Hl Hn Hc Hcl Hk Ha]; subst c w.
  1,3: apply runs_ret; (split; [done|]); cbn [deleteIn]; rewrite Hseg; try destruct x; (split; [done|]); by apply becomes_same.
  eapply runs_step; [unfold read_map; by rewrite Hl|]. destruct (vs !! Field seg) as [c|] eqn:Ec.
  - destruct (map_holds _ _ _ _ _ _ H HF Ec) as (m' & w & Fk & Hl' & Hw & Hr & Hsub & Hholds). rewrite Hl in Hl'. injection Hl' as <-.
    rewrite Hw, Eb, (deleteIn_below vs (Field seg) rest next seg c Hseg eq_refl Ec), <- Eb.
    exact (runs_delete_below below_ h w c Fk F (MapAt l) _ (set_key l (Field seg)) HA HB Hr Hsub HF Hholds).
  - assert (m !! Field seg = None) as -> by (apply not_elem_of_dom; rewrite Hm; by apply not_elem_of_dom).
    apply runs_ret. split; [done|]. cbn [deleteIn]. rewrite Hseg, Ec. split; [done|]. by apply becomes_same.
Qed.

Lemma delete_list_step seg next rest :
  delete_refines (next :: rest) -> delete_list_refines (next :: rest) -> delete_list_refines (seg :: next :: rest).
Proof.
  intros HA HB h s l F H HF. remember (next :: rest) as below_ eqn:Eb. cbn [delete_in_list].
  eapply runs_step; [by apply (run_addressed h s l F)|]. destruct (addressed l seg) as [i|] eqn:Ei.
  2: { apply runs_ret. cbn [fst snd deleteInList]. fold (addressed l seg). rewrite Ei.
       split; [done|]. split; [done|]. split; [done|]. by apply becomes_same. }
  destruct (lookup_lt_is_Some_2 l i (addressed_lt _ _ _ Ei)) as [c Ec].
  rewrite Eb, (deleteInList_below l seg next rest i c Ei Ec), <- Eb.
  destruct (slice_holds _ _ _ _ _ _ H HF Ec) as (ws & w & Fi & Hl & Hw & He & Hri & Hif & Hholds).
  eapply runs_step; [exact He|]. cbn [fst snd].
  destruct (runs_delete_below below_ h w c Fi F (SliceAt s) _ (store_at s i) HA HB Hri Hif HF (Hholds Fi Hri ltac:(done)))
    as (b & h' & E & Hm & -> & Hb).
  exists (s, (deleted_below c below_).2), h'. split; [|done]. unfold delete_below, mthen, mret in *.
  destruct w as [x|lw|sw]; cbn [delete_below] in E; [by rewrite E..|].
  destruct (delete_in_list slack sw below_ h) as [[[u [|]] h2]|]; [|by injection E as <- <-|done].
  destruct (store_at s i (SliceAt u) h2) as [[[] h3]|]; [|done]. by injection E as <- <-.
Qed.

Lemma runs_delete_key h l vs F k :
  rep h (MapAt l) (VMap vs) F -> F ⊆ dom h ->
  runs (delete_key l k) h (fun _ h' => moves h h' F /\ dom h' = dom h /\ rep h' (MapAt l) (VMap (base.delete k vs)) F).
Proof.
  intros H HF. destruct (map_write _ _ _ _ H) as (m & Hl & _ & Hin & _ & Hdel).
  unfold delete_key. eapply runs_step; [unfold read_map; by rewrite Hl|]. eexists _, _. split; [reflexivity|].
  pose proof (HF _ Hin) as Hld. split; [by apply moves_write|]. split; [rewrite dom_insert_L; clear - Hld; set_solver|].
  apply (Hdel _ k); [apply lookup_insert_eq|]. intros x _ Hx. by apply lookup_insert_ne.
Qed.

Lemma delete_map_last seg : delete_refines [seg].
Proof.
  intros h w c F H HF. cbn [delete_in deleteIn]. destruct (IsField seg).
  2: { apply runs_ret. split; [done|]. split; [done|]. by apply becomes_same. }
  inversion H as [x ? Hv|l m vs Fs ? Hl Hm Hk Ha|s ws vs Fs ? Hl Hn Hc Hcl Hk Ha]; subst.
  1,3: apply runs_ret; (split; [done|]); try destruct c; (split; [done|]); by apply becomes_same.
  eapply runs_step; [unfold read_map; by rewrite Hl|].
  destruct (m !! Field seg) as [w|] eqn:Ew, (vs !! Field seg) as [c|] eqn:Ec.
  - eapply runs_seq; [by apply (runs_delete_key h l vs F)|]. intros _ h' (Hm' & Hd' & Hr). apply runs_ret.
    split; [done|]. split; [done|]. exists F. split; [done|clear; set_solver].
  - apply elem_of_dom_2 in Ew. apply not_elem_of_dom in Ec. by rewrite Hm in Ew.
  - apply elem_of_dom_2 in Ec. apply not_elem_of_dom in Ew. by rewrite Hm in Ew.
  - apply runs_ret. split; [done|]. split; [done|]. by apply becomes_same.
Qed.

Lemma delete_list_last seg : delete_list_refines [seg].
Proof.
  intros h s l F H HF. cbn [delete_in_list deleteInList]. fold (addressed l seg).
  eapply runs_step; [by apply (run_addressed h s l F)|]. destruct (addressed l seg) as [i|] eqn:Ei.
  2: { apply runs_ret. split; [done|]. split; [done|]. split; [done|]. by apply becomes_same. }
  eapply runs_seq; [apply (runs_without h s l F i H HF); by eapply addressed_lt|]. intros s' h' (Hm & F' & Hr & Hs). apply runs_ret.
  split; [done|]. split; [done|]. split; [done|]. exists F'. split; [done|]. clear - Hs. set_solver.
Qed.

Lemma delete_refines_all p : delete_refines p /\ delete_list_refines p.
Proof.
  induction p as [|seg rest [IHA IHB]].
  { split; intros h w c F H; intros; apply runs_ret; (split; [done|]); (split; [done|]); [|split; [done|]]; by apply becomes_same. }
  destruct rest as [|next rest]; [split; [apply delete_map_last|apply delete_list_last]|split; [by apply delete_map_step|by apply delete_list_step]].
Qed.

(** A deletion that removes nothing changes nothing. *)
Lemma deleteIn_false_both p :
  (forall c c', deleteIn c p = (c', false) -> c' = c) /\ (forall l l', deleteInList l p = (l', false) -> l' = l).
Proof.
  induction p as [|seg rest [IHA IHB]]; [split; [by intros ? ? [= ->]|by intros ? ? [= ->]]|].
  assert (forall c next rest', rest = next :: rest' -> (deleted_below c rest).2 = false -> (deleted_below c rest).1 = c) as Hbelow.
  { intros c next rest' _ Hf. unfold deleted_below in *. destruct c as [| | | | |l|]; try (destruct (deleteIn _ rest) as [c' ok] eqn:E; cbn in *; subst ok; by apply IHA in E).
    destruct (deleteInList l rest) as [u b] eqn:E. cbn in *. subst b. by apply IHB in E as ->. }
  split.
  - intros c c' H. destruct (IsField seg) eqn:Hseg; [|cbn [deleteIn] in H; rewrite Hseg in H; by injection H as ->].
    destruct c as [| | | | | |m]; try (cbn [deleteIn] in H; rewrite Hseg in H; by injection H as ->).
    destruct (m !! Field seg) as [x|] eqn:Ex; [|cbn [deleteIn] in H; rewrite Hseg, Ex in H; by injection H as ->].
    destruct rest as [|next rest]; [cbn [deleteIn] in H; by rewrite Hseg, Ex in H|].
    rewrite (deleteIn_below m (Field seg) rest next seg x) in H by done. injection H as <- Hf.
    rewrite (Hbelow x next rest) by done. by rewrite insert_id.
  - intros l l' H. destruct (addressed l seg) as [i|] eqn:Ei.
    2: { cbn [deleteInList] in H. fold (addressed l seg) in H. rewrite Ei in H. by injection H as ->. }
    destruct (lookup_lt_is_Some_2 l i (addressed_lt _ _ _ Ei)) as [x Ex].
    destruct rest as [|next rest]; [cbn [deleteInList] in H; fold (addressed l seg) in H; by rewrite Ei in H|].
    rewrite (deleteInList_below l seg next rest i x) in H by done. injection H as <- Hf.
    rewrite (Hbelow x next rest) by done. by rewrite list_insert_id.
Qed.

Lemma deleteIn_false c p c' : deleteIn c p = (c', false) -> c' = c.
Proof. apply deleteIn_false_both. Qed.

(** [pruneEmpty] in memory. *)
Lemma runs_prune_at i p : forall h w obj F,
  rep h w (VMap obj) F -> F ⊆ dom h ->
  runs (prune_at slack i w p) h (fun _ h' => moves h h' F /\ becomes h h' F ∅ w (VMap (prune_loop i obj p))).
Proof.
  induction i as [|i IH]; intros h w obj F H HF; [apply runs_ret; split; [done|]; by apply becomes_same|].
  assert (runs (mret tt) h (fun _ h' => moves h h' F /\ becomes h h' F ∅ w (VMap obj))) as Hstop
    by (apply runs_ret; split; [done|]; by apply becomes_same).
  cbn [prune_at prune_loop]. cbv zeta. set (n := S i).
  eapply runs_get_at; [done..|]. intros r Hr. unfold found in Hr. destruct (Get (VMap obj) (take n p)) as [v|], r as [wv|]; try done; [|by apply IH].
  destruct Hr as (Fv & Hv & _). inversion Hv as [x ? Hx|l m vs Fs ? Hl Hm Hk Ha|s ws vs Fs ? Hl Hn Hc Hcl Hk Ha]; subst v wv.
  - by destruct x.
  - eapply runs_step; [unfold read_map; by rewrite Hl|].
    assert (bool_decide (m = ∅) = bool_decide (vs = ∅)) as ->.
    { apply bool_decide_ext. rewrite <- (dom_empty_iff_L m), <- (dom_empty_iff_L vs), Hm. done. }
    destruct (bool_decide (vs = ∅)); [|done].
    eapply runs_seq; [by apply (proj1 (delete_refines_all (take n p)) h w (VMap obj) F)|]. intros b h1 (Hm1 & -> & F1 & Hr1 & Hs1).
    pose proof (proj1 Hm1) as Hd1. destruct (deleteIn (VMap obj) (take n p)) as [c [|]] eqn:Ed; cbn [fst snd] in *.
    + destruct (deleteIn_obj _ _ _ Ed) as [m1 ->]. cbn [obj_of]. 
      eapply runs_mono; [apply (IH h1 w m1 F1); [done|clear - HF Hs1 Hd1; set_solver]|]. intros [] h2 [Hm2 Hb2].
      split; [eapply moves_trans; [exact Hm1|exact Hm2|clear - Hs1; set_solver]|].
      apply (becomes_trans h h1 h2 F F1); [exact Hm1|clear - Hs1; set_solver|apply Hm2|exact Hb2].
    + apply runs_ret. split; [done|]. apply deleteIn_false in Ed as ->. by exists F1.
  - done.
Qed.

(** [Delete] in memory. *)
Lemma runs_delete_path h w obj F p :
  rep h w (VMap obj) F -> F ⊆ dom h ->
  runs (delete_path slack w p) h (fun b h' => moves h h' F /\ b = (DeletePath obj p).2 /\ becomes h h' F ∅ w (VMap (DeletePath obj p).1)).
Proof.
  intros H HF. unfold delete_path, DeletePath. destruct p as [|seg rest]; [apply runs_ret; split; [done|]; split; [done|]; by apply becomes_same|].
  set (p := seg :: rest). eapply runs_seq; [by apply (proj1 (delete_refines_all p) h w (VMap obj) F)|].
  intros b h1 (Hm1 & -> & F1 & Hr1 & Hs1). pose proof (proj1 Hm1) as Hd1.
  destruct (deleteIn (VMap obj) p) as [c [|]] eqn:Ed; cbn [fst snd] in *.
  - destruct (deleteIn_obj _ _ _ Ed) as [m1 ->]. cbn [obj_of].
    eapply runs_seq; [apply (runs_prune_at (length p - 1) p h1 w m1 F1); [done|clear - HF Hs1 Hd1; set_solver]|].
    intros [] h2 [Hm2 Hb2]. apply runs_ret. split; [eapply moves_trans; [exact Hm1|exact Hm2|clear - Hs1; set_solver]|]. split; [done|].
    apply (becomes_trans h h1 h2 F F1); [exact Hm1|clear - Hs1; set_solver|apply Hm2|exact Hb2].
  - apply runs_ret. split; [done|]. split; [done|]. apply deleteIn_false in Ed as ->. by exists F1.
Qed.

(** (C23) [Set] and [Delete] in memory.  On an object in cells [F], whose slices may have room beyond
    their length, each ends without a panic; it answers what [SetPath] and [DeletePath] answer, the error
    or that nothing was removed included; the object then stands for what they give, also after an
    error, when intermediate maps and padding have been left behind; and no cell outside [F] is written,
    so nothing that does not share a cell with the object changes. *)
Theorem set_and_delete_in_memory h w obj F p :
  rep h w (VMap obj) F -> F ⊆ dom h ->
  (forall v vw Fw, rep h vw v Fw -> Fw ⊆ dom h -> Fw ## F ->
     exists h', set_path slack w p vw h = Some ((SetPath obj p v).2, h') /\ moves h h' F /\
       becomes h h' F Fw w (VMap (SetPath obj p v).1)) /\
  (exists h', delete_path slack w p h = Some ((DeletePath obj p).2, h') /\ moves h h' F /\
     becomes h h' F ∅ w (VMap (DeletePath obj p).1)).
Proof.
  intros H HF. split.
  - intros v vw Fw Hw HFw Hdis. destruct (runs_set_path h w obj F p v vw Fw H HF Hw HFw Hdis) as (e & h' & E & Hm & -> & Hb). eauto.
  - destruct (runs_delete_path h w obj F p H HF) as (b & h' & E & Hm & -> & Hb). eauto.
Qed.

End Writes.

(** ** Small objects *)

Lemma rep_single h l k w v F :
  h !! l = Some (MapCell {[k := w]}) -> rep h w v F -> l ∉ F -> rep h (MapAt l) (VMap {[k := v]}) ({[l]} ∪ F).
Proof.
  intros Hl Hw Hn. apply (rep_map _ _ {[k := w]} _ (fun j => if decide (j = k) then F else ∅)); [done|by rewrite !dom_singleton_L| |].
  - intros j x y [<- <-]%lookup_singleton_Some [_ <-]%lookup_singleton_Some. by rewrite decide_True.
  - split; [clear; set_solver|]. split; [intros j; destruct (decide (j = k)); set_solver|].
    intros i j N. destruct (decide (i = k)), (decide (j = k)); subst; [done|set_solver..].
Qed.

(** [{data: {k: old}}] in two cells, beside [{data: {k: new}}] in two others. *)
Definition two_objects : memory :=
  {[1%positive := MapCell {["data" := MapAt 2]}; 2%positive := MapCell {["k" := Imm (VStr "old")]};
    3%positive := MapCell {["data" := MapAt 4]}; 4%positive := MapCell {["k" := Imm (VStr "new")]}]}.

Definition data_k (s : string) : gmap string value := {["data" := VMap {["k" := VStr s]}]}.

Lemma two_objects_live : rep two_objects (MapAt 1) (VMap (data_k "old")) {[1; 2]}%positive.
Proof.
  apply (rep_single _ _ "data" (MapAt 2)); [reflexivity| |clear; set_solver].
  eapply rep_weaken; [apply (rep_single _ _ "k" (Imm (VStr "old")) (VStr "old") ∅); [reflexivity|by constructor|clear; set_solver]|clear; set_solver].
Qed.

Lemma two_objects_contribution : rep two_objects (MapAt 3) (VMap (data_k "new")) {[3; 4]}%positive.
Proof.
  apply (rep_single _ _ "data" (MapAt 4)); [reflexivity| |clear; set_solver].
  eapply rep_weaken; [apply (rep_single _ _ "k" (Imm (VStr "new")) (VStr "new") ∅); [reflexivity|by constructor|clear; set_solver]|clear; set_solver].
Qed.

Lemma two_objects_cells : {[1; 2]}%positive ⊆ dom two_objects /\ {[3; 4]}%positive ⊆ dom two_objects.
Proof. unfold two_objects. rewrite !dom_insert_L. split; clear; set_solver. Qed.

Lemma set_and_delete_in_memory_witness :
  exists h', delete_path (fun _ _ => 0) (MapAt 1) [FieldSegment "data"; FieldSegment "k"] two_objects = Some (true, h') /\
    moves two_objects h' {[1; 2]}%positive /\ becomes two_objects h' {[1; 2]}%positive ∅ (MapAt 1) (VMap ∅).
Proof.
  exact (proj2 (set_and_delete_in_memory (fun _ _ => 0) two_objects (MapAt 1) (data_k "old") {[1; 2]}%positive
    [FieldSegment "data"; FieldSegment "k"] two_objects_live (proj1 two_objects_cells))).
Defined.

End MemoryWrites.
