(* ===== verification/MemoryPlan.v ===== *)
(** What client-side apply and revert do in memory between reading the live object and writing it: the
    desired object is built from copies, so the live object, the contribution and the recorded prior
    values, which others hold too, are what they were. *)
From stdpp Require Import strings base list gmap fin_maps.
From S2P Require Import Prelude GoStrings Values ApiTypes FieldPath FieldPathDelete Render Applier Memory MemorySpec MemoryWrites.
Local Open Scope string_scope.
Local Open Scope list_scope.

Module MemoryPlan.
Import GoStrings Values ApiTypes FieldPath FieldPathDelete Render Applier Memory MemorySpec MemoryWrites.

(** A map from paths to prior values, whose cells are among [T]. *)
Definition priors_rep (h : memory) (pw : gmap string word) (pv : gmap string value) (T : gset loc) : Prop :=
  dom pw = dom pv /\ forall k w v, pw !! k = Some w -> pv !! k = Some v -> rep h w v T.

Lemma priors_lookup h pw pv T k : priors_rep h pw pv T ->
  match pw !! k, pv !! k with Some w, Some v => rep h w v T | None, None => True | _, _ => False end.
Proof.
  intros [Hd Hr]. destruct (pw !! k) as [w|] eqn:Ew, (pv !! k) as [v|] eqn:Ev; [eauto| | |done].
  - apply elem_of_dom_2 in Ew. apply not_elem_of_dom in Ev. by rewrite Hd in Ew.
  - apply elem_of_dom_2 in Ev. apply not_elem_of_dom in Ew. by rewrite Hd in Ew.
Qed.

Lemma priors_weaken h pw pv T T' : priors_rep h pw pv T -> T ⊆ T' -> priors_rep h pw pv T'.
Proof. intros [Hd Hr] Hs. split; [done|]. intros k w v Hw Hv. eapply rep_weaken; eauto. Qed.

Lemma priors_moves h h' pw pv T F : priors_rep h pw pv T -> moves h h' F -> T ⊆ dom h -> T ## F -> priors_rep h' pw pv T.
Proof. intros [Hd Hr] Hm HT Hdis. split; [done|]. intros k w v Hw Hv. eapply rep_moves; eauto. Qed.

Lemma priors_subseteq h h' pw pv T : priors_rep h pw pv T -> T ⊆ dom h -> h ⊆ h' -> priors_rep h' pw pv T.
Proof. intros Hp HT Hs. eapply priors_moves; [exact Hp|by apply (moves_subseteq _ _ ∅)|done|clear; set_solver]. Qed.

Lemma priors_insert h pw pv T k w v F :
  priors_rep h pw pv T -> rep h w v F -> priors_rep h (<[k := w]> pw) (<[k := v]> pv) (T ∪ F).
Proof.
  intros [Hd Hr] Hw. split; [rewrite !dom_insert_L; by rewrite Hd|]. intros j x y Hx Hy.
  destruct (decide (j = k)) as [->|N].
  - rewrite lookup_insert_eq in Hx; rewrite lookup_insert_eq in Hy. simplify_eq. eapply rep_weaken; [done|clear; set_solver].
  - rewrite lookup_insert_ne in Hx by done; rewrite lookup_insert_ne in Hy by done. eapply rep_weaken; [by eapply Hr|clear; set_solver].
Qed.

Lemma priors_delete h pw pv T k : priors_rep h pw pv T -> priors_rep h (base.delete k pw) (base.delete k pv) T.
Proof.
  intros [Hd Hr]. split; [rewrite !dom_delete_L; by rewrite Hd|]. intros j x y Hx Hy.
  apply lookup_delete_Some in Hx as [_ Hx]. apply lookup_delete_Some in Hy as [_ Hy]. eauto.
Qed.

Section Plan.
Variable slack : nat -> nat -> nat.

(** ** Changing the desired object *)

Definition edited (h h' : memory) (F : gset loc) (w : word) (o : gmap string value) : Prop :=
  moves h h' F /\ becomes h h' F ∅ w (VMap o).

Lemma edited_refl h F w o : rep h w (VMap o) F -> edited h h F w o.
Proof. intros H. split; [done|]. by apply becomes_same. Qed.

(** One edit after another. *)
Lemma edited_trans h h1 h2 F F1 w o :
  moves h h1 F -> F1 ⊆ F ∪ (dom h1 ∖ dom h) -> edited h1 h2 F1 w o -> edited h h2 F w o.
Proof.
  intros Hm Hs [Hm2 Hb]. split; [eapply moves_trans; [exact Hm|exact Hm2|exact Hs]|].
  apply (becomes_trans h h1 h2 F F1); [exact Hm|exact Hs|apply Hm2|exact Hb].
Qed.

(** Something new was built, and put into the object. *)
Lemma edited_new h h1 h2 F Fc w o :
  h ⊆ h1 -> Fc ⊆ dom h1 ∖ dom h -> moves h1 h2 F -> becomes h1 h2 F Fc w (VMap o) -> edited h h2 F w o.
Proof.
  intros Hs HFc Hm (F2 & Hr & HF2). pose proof (subseteq_dom _ _ Hs) as Hd1. pose proof (proj1 Hm) as Hd2. split.
  - eapply moves_trans; [by apply moves_subseteq|exact Hm|clear; set_solver].
  - exists F2. split; [done|]. clear - HF2 HFc Hd1 Hd2. set_solver.
Qed.

Lemma runs_restore_or_delete h obj o F p pw pv T :
  rep h obj (VMap o) F -> F ⊆ dom h -> priors_rep h pw pv T -> T ⊆ dom h -> T ## F ->
  runs (restore_or_delete_at slack obj p pw) h (fun _ h' => edited h h' F obj (restoreOrDelete o p pv)).
Proof.
  intros H HF Hp HT Hdis. pose proof (priors_lookup _ _ _ _ (Path_String p) Hp) as Hk. unfold restore_or_delete_at, restoreOrDelete.
  destruct (pw !! _) as [w|], (pv !! _) as [v|]; try done.
  2: { eapply runs_seq; [by apply (runs_delete_path slack h obj o F)|]. intros b h1 (Hm & _ & Hb). by apply runs_ret. }
  eapply runs_seq; [by apply (runs_deep_copy h w v T)|]. intros c h1 (Hs1 & Fc & Hc & HFc). pose proof (subseteq_dom _ _ Hs1) as Hd1.
  eapply runs_seq; [apply (runs_set_path slack h1 obj o F p v c Fc); [by eapply rep_subseteq|by etrans|done|clear - HFc; set_solver|clear - HFc HF; set_solver]|].
  intros e h2 (Hm2 & -> & Hb2). destruct (SetPath o p v) as [o' e]. cbn [fst snd] in *.
  pose proof (edited_new _ _ _ _ _ _ _ Hs1 HFc Hm2 Hb2) as He. destruct e as [e|]; [|by apply runs_ret].
  destruct He as [Hm (F2 & Hr2 & HF2)]. pose proof (proj1 Hm) as Hd2.
  eapply runs_seq; [apply (runs_delete_path slack h2 obj o' F2 p Hr2); clear - HF2 HF Hd2; set_solver|]. intros b h3 (Hm3 & _ & Hb3).
  apply runs_ret. apply (edited_trans h h2 h3 F F2); [done|clear - HF2; set_solver|done].
Qed.

(** The loops over paths: the priors stay what they were while the object changes. *)
Lemma still_there h h1 F F1 T pw pv :
  moves h h1 F -> F1 ⊆ F ∪ (dom h1 ∖ dom h) -> F ⊆ dom h -> priors_rep h pw pv T -> T ⊆ dom h -> T ## F ->
  F1 ⊆ dom h1 /\ priors_rep h1 pw pv T /\ T ⊆ dom h1 /\ T ## F1.
Proof.
  intros Hm HF1 HF Hp HT Hdis. pose proof (proj1 Hm) as Hd. split; [clear - HF1 HF Hd; set_solver|].
  split; [by eapply priors_moves|]. split; [by etrans|clear - HF1 HT Hdis; set_solver].
Qed.

Lemma runs_revert_all paths : forall h obj o F pw pv T,
  rep h obj (VMap o) F -> F ⊆ dom h -> priors_rep h pw pv T -> T ⊆ dom h -> T ## F ->
  runs (revert_all_at slack obj paths pw) h (fun _ h' => edited h h' F obj (foldl (fun o p => restoreOrDelete o p pv) o paths)).
Proof.
  induction paths as [|p paths IH]; intros h obj o F pw pv T H HF Hp HT Hdis; [by apply runs_ret, edited_refl|].
  cbn [revert_all_at foldl]. eapply runs_seq; [by apply (runs_restore_or_delete h obj o F p pw pv T)|].
  intros _ h1 [Hm (F1 & Hr1 & HF1)]. rewrite union_empty_r_L in HF1.
  destruct (still_there _ _ _ _ _ _ _ Hm HF1 HF Hp HT Hdis) as (HF1d & Hp1 & HT1 & Hdis1).
  eapply runs_mono; [by apply (IH h1 obj (restoreOrDelete o p pv) F1 pw pv T)|]. intros [] h2 He. by apply (edited_trans h h1 h2 F F1).
Qed.

Lemma runs_withdraw_all claimed paths : forall h obj o F pw pv T,
  rep h obj (VMap o) F -> F ⊆ dom h -> priors_rep h pw pv T -> T ⊆ dom h -> T ## F ->
  runs (withdraw_all_at slack claimed obj pw paths) h (fun pw' h' =>
    let '(o', pv') := foldl (withdraw claimed) (o, pv) paths in edited h h' F obj o' /\ priors_rep h' pw' pv' T).
Proof.
  induction paths as [|p paths IH]; intros h obj o F pw pv T H HF Hp HT Hdis; [apply runs_ret; split; [by apply edited_refl|done]|].
  cbn [withdraw_all_at foldl]. unfold withdraw at 2. destruct (bool_decide _); [by apply IH|].
  eapply runs_seq; [by apply (runs_restore_or_delete h obj o F p pw pv T)|].
  intros _ h1 [Hm (F1 & Hr1 & HF1)]. rewrite union_empty_r_L in HF1.
  destruct (still_there _ _ _ _ _ _ _ Hm HF1 HF Hp HT Hdis) as (HF1d & Hp1 & HT1 & Hdis1).
  eapply runs_mono; [apply (IH h1 obj (restoreOrDelete o p pv) F1 (base.delete (Path_String p) pw) (base.delete (Path_String p) pv) T); auto using priors_delete|].
  intros pw' h2. destruct (foldl _ _ paths) as [o' pv']. intros [He Hp']. split; [by apply (edited_trans h h1 h2 F F1)|done].
Qed.

(** The contribution is read, its values are copied into the object. *)
Lemma runs_write_claims paths : forall h obj o F object c Fo,
  rep h obj (VMap o) F -> F ⊆ dom h -> rep h object (VMap c) Fo -> Fo ⊆ dom h -> Fo ## F ->
  runs (write_claims_at slack obj object paths) h (fun e h' =>
    match write_claims o c paths with Ok o' => e = None /\ edited h h' F obj o' | Err g => e = Some g /\ moves h h' F end).
Proof.
  induction paths as [|p paths IH]; intros h obj o F object c Fo H HF Hc HFo Hdis; [apply runs_ret; split; [done|by apply edited_refl]|].
  cbn [write_claims_at write_claims]. eapply runs_get_at; [done..|]. intros r Hr. unfold found in Hr.
  destruct (Get (VMap c) p) as [v|], r as [w|]; try done; [|by apply runs_ret]. destruct Hr as (Fv & Hv & HFv).
  eapply runs_seq; [apply (runs_deep_copy h w v Fv Hv); by etrans|]. intros x h1 (Hs1 & Fx & Hx & HFx). pose proof (subseteq_dom _ _ Hs1) as Hd1.
  eapply runs_seq; [apply (runs_set_path slack h1 obj o F p v x Fx); [by eapply rep_subseteq|by etrans|done|clear - HFx; set_solver|clear - HFx HF; set_solver]|].
  intros e h2 (Hm2 & -> & Hb2). destruct (SetPath o p v) as [o' e]. cbn [fst snd] in *.
  pose proof (edited_new _ _ _ _ _ _ _ Hs1 HFx Hm2 Hb2) as [Hm (F2 & Hr2 & HF2)]. destruct e as [e|]; [by apply runs_ret|].
  pose proof (proj1 Hm) as Hd2. rewrite union_empty_r_L in HF2.
  eapply runs_mono; [apply (IH h2 obj o' F2 object c Fo Hr2)|].
  - clear - HF2 HF Hd2. set_solver.
  - eapply rep_moves; eauto.
  - by etrans.
  - clear - HF2 HFo Hdis. set_solver.
  - intros e h3. cbv beta. destruct (write_claims o' c paths) as [o''|g]; intros [-> Hx3]; (split; [done|]).
    + by apply (edited_trans h h2 h3 F F2).
    + by eapply moves_trans.
Qed.

(** ** Capturing the prior values *)

Definition captured_from (h h' : memory) (T : gset loc) (pw : gmap string word) (pv : gmap string value) : Prop :=
  h ⊆ h' /\ exists T', priors_rep h' pw pv T' /\ T' ⊆ T ∪ (dom h' ∖ dom h).

Lemma captured_refl h T pw pv : priors_rep h pw pv T -> captured_from h h T pw pv.
Proof. intros H. split; [done|]. exists T. split; [done|]. clear. set_solver. Qed.

Lemma runs_capture h live lv Fl object c Fo pw pv T p :
  rep h live (VMap lv) Fl -> Fl ⊆ dom h -> rep h object (VMap c) Fo -> Fo ⊆ dom h -> priors_rep h pw pv T -> T ⊆ dom h ->
  runs (capture_at live object pw p) h (fun pw' h' => captured_from h h' T pw' (capture lv c pv p)).
Proof.
  intros Hl HFl Hc HFo Hp HT. pose proof (priors_lookup _ _ _ _ (Path_String p) Hp) as Hk. unfold capture_at, capture.
  destruct (pw !! _) as [?|], (pv !! _) as [?|]; try done; [by apply runs_ret, captured_refl|]. clear Hk.
  eapply runs_get_at; [done..|]. intros r Hr. unfold found in Hr.
  destruct (Get (VMap lv) p) as [v|], r as [w|]; try done; [|by apply runs_ret, captured_refl]. destruct Hr as (Fv & Hv & HFv).
  assert (Fv ⊆ dom h) as HFvd by by etrans.
  assert (runs (mem! w' := deep_copy w in mret (<[Path_String p := w']> pw)) h
    (fun pw' h' => captured_from h h' T pw' (<[Path_String p := v]> pv))) as Hrecord.
  { eapply runs_seq; [by apply (runs_deep_copy h w v Fv)|]. intros x h1 (Hs1 & Fx & Hx & HFx). apply runs_ret. split; [done|].
    exists (T ∪ Fx). split; [|clear - HFx; set_solver]. apply priors_insert; [by eapply priors_subseteq|done]. }
  eapply runs_get_at; [done..|]. intros r Hr. unfold found in Hr.
  destruct (Get (VMap c) p) as [want|], r as [ww|]; try done.
  destruct Hr as (Fw & Hw & HFw). eapply runs_step.
  { unfold same_value_at, mthen, loaded, mret. rewrite (rep_loaded _ _ _ _ Hv HFvd), (rep_loaded _ _ _ _ Hw ltac:(by etrans)). done. }
  cbv beta. destruct (sameValue v want); [by apply runs_ret, captured_refl|done].
Qed.

Lemma runs_capture_all paths : forall h live lv Fl object c Fo pw pv T,
  rep h live (VMap lv) Fl -> Fl ⊆ dom h -> rep h object (VMap c) Fo -> Fo ⊆ dom h -> priors_rep h pw pv T -> T ⊆ dom h ->
  runs (capture_all_at live object pw paths) h (fun pw' h' => captured_from h h' T pw' (foldl (capture lv c) pv paths)).
Proof.
  induction paths as [|p paths IH]; intros h live lv Fl object c Fo pw pv T Hl HFl Hc HFo Hp HT; [by apply runs_ret, captured_refl|].
  cbn [capture_all_at foldl]. eapply runs_seq; [by apply (runs_capture h live lv Fl object c Fo pw pv T)|].
  intros pw1 h1 (Hs1 & T1 & Hp1 & HT1). pose proof (subseteq_dom _ _ Hs1) as Hd1.
  eapply runs_mono; [apply (IH h1 live lv Fl object c Fo pw1 (capture lv c pv p) T1)|].
  - by eapply rep_subseteq.
  - by etrans.
  - by eapply rep_subseteq.
  - by etrans.
  - done.
  - clear - HT1 HT Hd1. set_solver.
  - intros pw2 h2 (Hs2 & T2 & Hp2 & HT2). split; [by etrans|]. exists T2. split; [done|]. apply subseteq_dom in Hs2. by eapply grown_trans.
Qed.

(** ** The two plans *)

(** The copy apimachinery makes of an object is one: what was there stays, and it shares nothing with it. *)
Variable DeepCopy : word -> memM word.
Hypothesis DeepCopy_copies : forall h w v F, rep h w v F -> F ⊆ dom h -> runs (DeepCopy w) h (copies h v).

(** The result of [m] is the object that [plan] says, in cells that were not there before. *)
Definition built (h h' : memory) (dw : word) (d : gmap string value) (Fd : gset loc) : Prop :=
  h ⊆ h' /\ rep h' dw (VMap d) Fd /\ Fd ⊆ dom h' ∖ dom h.

Lemma built_edit h h1 h2 dw F o :
  h ⊆ h1 -> F ⊆ dom h1 ∖ dom h -> edited h1 h2 F dw o -> exists Fd, built h h2 dw o Fd /\ Fd ⊆ F ∪ (dom h2 ∖ dom h1).
Proof.
  intros Hs HF [Hm (Fd & Hr & HFd)]. pose proof (subseteq_dom _ _ Hs) as Hd1. pose proof (proj1 Hm) as Hd2. rewrite union_empty_r_L in HFd.
  exists Fd. split; [|done]. split; [eapply moves_keeps; [exact Hm|exact Hs|clear - HF; set_solver]|].
  split; [done|]. clear - HFd HF Hd1 Hd2. set_solver.
Qed.

(** The recorded priors are used as they are, or the missing ones are captured. *)
Lemma runs_priors h live lv object c pw pv T paths (captured : bool) :
  rep h live (VMap lv) (dom h) -> rep h object (VMap c) (dom h) -> priors_rep h pw pv T -> T ⊆ dom h ->
  forall h1 dw F, h ⊆ h1 -> rep h1 dw (VMap lv) F -> F ⊆ dom h1 ∖ dom h ->
  runs (if captured then mret pw else capture_all_at live object pw paths) h1 (fun pw' h2 =>
    h1 ⊆ h2 /\ rep h2 dw (VMap lv) F /\ exists T',
      priors_rep h2 pw' (if captured then pv else foldl (capture lv c) pv paths) T' /\ T' ⊆ dom h2 /\ T' ## F).
Proof.
  intros Hl Hc Hp HT h1 dw F Hs Hd HF. pose proof (subseteq_dom _ _ Hs) as Hd1.
  assert (priors_rep h1 pw pv T) as Hp1 by by eapply priors_subseteq. assert (F ⊆ dom h1) as HF1 by (clear - HF; set_solver).
  destruct captured.
  - apply runs_ret. split; [done|]. split; [done|]. exists T. split; [done|]. split; [by etrans|]. clear - HT HF. set_solver.
  - eapply runs_mono; [apply (runs_capture_all paths h1 live lv (dom h) object c (dom h) pw pv T); [by eapply rep_subseteq|done|by eapply rep_subseteq|done|done|by etrans]|].
    intros pw' h2 (Hs2 & T' & Hp' & HT'). pose proof (subseteq_dom _ _ Hs2) as Hd2. split; [done|]. split; [by eapply rep_subseteq|].
    exists T'. split; [done|]. split; [clear - HT' HT Hd1 Hd2; set_solver|]. clear - HT' HT HF. set_solver.
Qed.

(** (C7) Client-side apply in memory.  [update] gets the live object, the contribution and the recorded
    prior values as maps and slices in memory, which its callers go on holding, and which may share
    cells.  Whatever they are, it comes to an end without a panic; its outcome is the one [plan_update]
    gives for the values they stand for, the error included; every cell there was before is what it
    was, so the contribution that is rendered once per pass, the live object the result reports and
    the recorded priors keep their values; and the desired object is made of new cells only, none of
    them a cell of a captured prior, so that setting fields of it cannot change what will be restored. *)
Theorem plan_update_in_memory h live lv object pw req c :
  rep h live (VMap lv) (dom h) -> rep h object (VMap (Object c)) (dom h) -> priors_rep h pw (Req_PriorValues req) (dom h) ->
  exists r h',
    plan_update_at slack DeepCopy live object (Paths c) (Req_PreviousPaths req) (Req_PriorValuesCaptured req) pw h = Some (r, h') /\
    h ⊆ h' /\
    match plan_update req c lv, r with
    | Ok (d, priors), Ok (dw, pw') =>
        exists Fd T, rep h' dw (VMap d) Fd /\ Fd ## dom h /\ priors_rep h' pw' priors T /\ T ## Fd
    | Err e, Err e' => e = e'
    | _, _ => False
    end.
Proof.
  intros Hl Hc Hp.
  enough (runs (plan_update_at slack DeepCopy live object (Paths c) (Req_PreviousPaths req) (Req_PriorValuesCaptured req) pw) h
    (fun r h' => h ⊆ h' /\ match plan_update req c lv, r with
      | Ok (d, priors), Ok (dw, pw') => exists Fd T, rep h' dw (VMap d) Fd /\ Fd ## dom h /\ priors_rep h' pw' priors T /\ T ## Fd
      | Err e, Err e' => e = e' | _, _ => False end)) as (r & h' & E & H) by (exists r, h'; by split).
  unfold plan_update_at, plan_update. eapply runs_seq; [by apply (DeepCopy_copies h live (VMap lv) (dom h))|].
  intros dw h1 (Hs1 & F1 & Hd1 & HF1).
  eapply runs_seq; [by apply (runs_priors h live lv object (Object c) pw (Req_PriorValues req) (dom h) (Paths c) (Req_PriorValuesCaptured req))|].
  set (priors := if Req_PriorValuesCaptured req then _ else _). intros pw2 h2 (Hs2 & Hd2 & T & Hp2 & HT & Hdis).
  pose proof (subseteq_dom _ _ Hs1) as Hdom1. pose proof (subseteq_dom _ _ Hs2) as Hdom2. assert (h ⊆ h2) as Hs by by etrans.
  assert (F1 ⊆ dom h2) as HF1d by (clear - HF1 Hdom2; set_solver).
  eapply runs_seq; [by apply (runs_withdraw_all _ (Req_PreviousPaths req) h2 dw lv F1 pw2 priors T)|].
  intros pw3 h3. destruct (foldl _ (lv, priors) _) as [o3 priors3]. intros [[Hm3 (F3 & Hd3 & HF3)] Hp3].
  rewrite union_empty_r_L in HF3. pose proof (proj1 Hm3) as Hdom3.
  assert (h ⊆ h3) as Hs3 by (eapply moves_keeps; [exact Hm3|exact Hs|clear - HF1; set_solver]).
  assert (F3 ⊆ dom h3 ∖ dom h) as HF3d by (clear - HF3 HF1 HF1d Hdom1 Hdom2 Hdom3; set_solver).
  assert (T ## F3) as Hdis3 by (clear - HF3 HT Hdis; set_solver).
  eapply runs_seq; [apply (runs_write_claims (Paths c) h3 dw o3 F3 object (Object c) (dom h) Hd3); [clear - HF3d; set_solver|by eapply rep_subseteq|by apply subseteq_dom|clear - HF3d; set_solver]|].
  intros e h4. destruct (write_claims o3 (Object c) (Paths c)) as [o4|g]; intros [-> H4]; apply runs_ret.
  2: { split; [|done]. eapply moves_keeps; [exact H4|exact Hs3|clear - HF3d; set_solver]. }
  destruct (built_edit h h3 h4 dw F3 o4 Hs3 HF3d H4) as (F4 & (Hs4 & Hd4 & HF4) & Hsub). split; [done|].
  exists F4, T. split; [done|]. split; [clear - HF4; set_solver|]. split; [|clear - Hsub HT Hdom3 Hdis3; set_solver].
  destruct H4 as [Hm4 _]. eapply priors_moves; [exact Hp3|exact Hm4|by etrans|done].
Qed.

(** [Revert] in memory: the object to write is built from a copy, the live object and the priors stay. *)
Theorem plan_revert_in_memory h live lv pw req :
  rep h live (VMap lv) (dom h) -> priors_rep h pw (Rev_PriorValues req) (dom h) ->
  exists dw h' Fd, plan_revert_at slack DeepCopy live (Rev_OwnedPaths req) pw h = Some (dw, h') /\ built h h' dw (plan_revert req lv) Fd.
Proof.
  intros Hl Hp.
  enough (runs (plan_revert_at slack DeepCopy live (Rev_OwnedPaths req) pw) h (fun dw h' => exists Fd, built h h' dw (plan_revert req lv) Fd))
    as (dw & h' & E & Fd & H) by (exists dw, h', Fd; by split).
  unfold plan_revert_at, plan_revert. eapply runs_seq; [by apply (DeepCopy_copies h live (VMap lv) (dom h))|].
  intros dw h1 (Hs1 & F1 & Hd1 & HF1). pose proof (subseteq_dom _ _ Hs1) as Hdom1.
  eapply runs_seq; [apply (runs_revert_all (Rev_OwnedPaths req) h1 dw lv F1 pw (Rev_PriorValues req) (dom h) Hd1)|].
  - clear - HF1. set_solver.
  - by eapply priors_subseteq.
  - done.
  - clear - HF1. set_solver.
  - intros [] h2 He. apply runs_ret. destruct (built_edit h h1 h2 dw F1 _ Hs1 HF1 He) as (Fd & Hb & _). by exists Fd.
Qed.

End Plan.
(** ** A recorded prior that is a part of the live object itself *)

Definition data_path (k : string) : Path := [FieldSegment "data"; FieldSegment k].

Definition aliased_request : Request :=
  mkRequest (mkRenderTarget "v1" "ConfigMap" "t" "default") (Some (mkContribution (data_k "new") [data_path "k"] "")) "f" "" [data_path "q"]
    {["data.q" := VMap {["k" := VStr "old"]}]} false None false.

Lemma aliased_priors : priors_rep two_objects {["data.q" := MapAt 2]} (Req_PriorValues aliased_request) (dom two_objects).
Proof.
  change (Req_PriorValues aliased_request) with ({["data.q" := VMap {["k" := VStr "old"]}]} : gmap string value).
  split; [by rewrite !dom_singleton_L|].
  intros k w v [<- <-]%lookup_singleton_Some [_ <-]%lookup_singleton_Some.
  eapply rep_weaken; [apply (rep_single _ _ "k" (Imm (VStr "old")) (VStr "old") ∅); [reflexivity|by constructor|clear; set_solver]|].
  pose proof (proj1 two_objects_cells). set_solver.
Qed.

(** The withdrawn path gets its prior back, the claimed one the new value, the old one is captured. *)
Lemma plan_update_in_memory_witness :
  plan_update aliased_request (mkContribution (data_k "new") [data_path "k"] "") (data_k "old") =
    Ok ({["data" := VMap {["k" := VStr "new"; "q" := VMap {["k" := VStr "old"]}]}]}, {["data.k" := VStr "old"]}) /\
  exists r h',
    plan_update_at (fun _ _ => 0) deep_copy (MapAt 1) (MapAt 3) [data_path "k"] [data_path "q"] false {["data.q" := MapAt 2]} two_objects = Some (r, h') /\
    two_objects ⊆ h' /\
    match plan_update aliased_request (mkContribution (data_k "new") [data_path "k"] "") (data_k "old"), r with
    | Ok (d, priors), Ok (dw, pw') =>
        exists Fd T, rep h' dw (VMap d) Fd /\ Fd ## dom two_objects /\ priors_rep h' pw' priors T /\ T ## Fd
    | Err e, Err e' => e = e'
    | _, _ => False
    end.
Proof.
  split; [reflexivity|].
  exact (plan_update_in_memory (fun _ _ => 0) deep_copy runs_deep_copy two_objects (MapAt 1) (data_k "old") (MapAt 3)
    {["data.q" := MapAt 2]} aliased_request (mkContribution (data_k "new") [data_path "k"] "")
    (rep_weaken _ _ _ _ _ two_objects_live (proj1 two_objects_cells))
    (rep_weaken _ _ _ _ _ two_objects_contribution (proj2 two_objects_cells)) aliased_priors).
Defined.

End MemoryPlan.
