(* ===== verification/MemoryContent.v ===== *)
(** What the appliers build in memory for an object that is not there yet: the merge of the base and the
    contribution computes what [mergeBaseAndContribution] says, without a write to either. *)
From stdpp Require Import strings base list gmap fin_maps.
From S2P Require Import Prelude GoStrings Values ApiTypes FieldPath Render Applier Memory MemorySpec.
Local Open Scope string_scope.
Local Open Scope list_scope.

Module MemoryContent.
Import GoStrings Values ApiTypes FieldPath Render Applier Memory MemorySpec.

(** ** Merging trees *)

Lemma deepMerge_lookup dst src k :
  deepMerge dst src !! k = match src !! k with Some s => Some (merge_value (dst !! k) s) | None => dst !! k end.
Proof.
  unfold deepMerge.
  apply (map_fold_weak_ind (fun acc src => acc !! k = match src !! k with Some s => Some (merge_value (dst !! k) s) | None => dst !! k end)).
  - by rewrite lookup_empty.
  - intros i x m r Hn IH. destruct (decide (i = k)) as [->|N]; [by rewrite !lookup_insert_eq|by rewrite !lookup_insert_ne by done].
Qed.

Lemma merge_value_map dm sm : merge_value (Some (VMap dm)) (VMap sm) = VMap (deepMerge dm sm).
Proof. done. Qed.

Lemma merge_value_new dv v : (forall dm sm, dv = Some (VMap dm) -> v = VMap sm -> False) -> merge_value dv v = v.
Proof. intros H. destruct v; try done. destruct dv as [[]|]; try done. by destruct (H _ _ eq_refl eq_refl). Qed.

(** ** Whose maps they are

    [mine h w v F]: as [rep], and no map reached through maps only is among the cells of [h0].  Lists
    may be. *)

Section Content.
Variable h0 : memory.
Local Abbreviation D := (dom h0).

Inductive mine (h : memory) : word -> value -> gset loc -> Prop :=
| mine_other w v F : rep h w v F -> (forall l, w <> MapAt l) -> mine h w v F
| mine_map l m vs (Fs : string -> gset loc) F :
    l ∉ D -> h !! l = Some (MapCell m) -> dom m = dom vs ->
    (forall k w v, m !! k = Some w -> vs !! k = Some v -> mine h w v (Fs k)) -> apart l Fs F ->
    mine h (MapAt l) (VMap vs) F.

Lemma mine_rep h w v F : mine h w v F -> rep h w v F.
Proof. induction 1; [done|by econstructor]. Qed.

Lemma mine_weaken h w v F F' : mine h w v F -> F ⊆ F' -> mine h w v F'.
Proof. intros [] Hs; [apply mine_other; [by eapply rep_weaken|done]|eapply mine_map; eauto using apart_weaken]. Qed.

Lemma mine_frame h h' w v F : mine h w v F -> (forall x, x ∈ F -> h' !! x = h !! x) -> mine h' w v F.
Proof.
  intros H. induction H as [w v F Hr Hw|l m vs Fs F Hn Hl Hd Hk IH Ha]; intros Hf; [apply mine_other; [by eapply rep_frame|done]|].
  pose proof Ha as (Hin & Hsub & _). apply (mine_map h' l m vs Fs); [done|by rewrite Hf|done| |done].
  intros k w v Hm Hv. eapply IH; [done..|]. intros x Hx. apply Hf. specialize (Hsub k). set_solver.
Qed.

Lemma mine_new h w v F : rep h w v F -> F ## D -> mine h w v F.
Proof.
  intros H. induction H as [v F Hv|l m vs Fs F Hl Hd Hk IH Ha|s ws vs Fs F Hl Hn Hc Hw Hk IH Ha]; intros Hdis;
    [by apply mine_other; [constructor|]| |apply mine_other; [by econstructor|done]].
  pose proof Ha as (Hin & Hsub & _). apply (mine_map h l m vs Fs); [clear - Hin Hdis; set_solver|done|done| |done].
  intros k w v Hm Hv. eapply IH; [done..|]. specialize (Hsub k). clear - Hsub Hdis. set_solver.
Qed.

(** Changing one of the children, or putting another one. *)
Lemma mine_child h l vs F :
  mine h (MapAt l) (VMap vs) F ->
  exists m (Fs : string -> gset loc), l ∉ D /\ h !! l = Some (MapCell m) /\ dom m = dom vs /\ apart l Fs F /\
    (forall k w c, m !! k = Some w -> vs !! k = Some c -> mine h w c (Fs k)) /\
    forall h' k w' c' Fc, h' !! l = Some (MapCell (<[k := w']> m)) -> (forall x, x ∈ F -> x <> l -> x ∉ Fs k -> h' !! x = h !! x) ->
      mine h' w' c' Fc -> Fc ## F ∖ Fs k -> mine h' (MapAt l) (VMap (<[k := c']> vs)) (F ∖ Fs k ∪ Fc).
Proof.
  intros H. inversion H as [? ? ? _ Hn|? m ? Fs ? Hn Hl Hd Hk Ha]; subst; [by destruct (Hn l)|].
  exists m, Fs. do 5 (split; [done|]). intros h' k w' c' Fc Hl' Hf Hc Hdis.
  apply (mine_map h' l (<[k := w']> m) _ (instead Fs k Fc)); [done|done|by rewrite !dom_insert_L, Hd| |by apply apart_instead].
  pose proof Ha as (_ & Hsub & Hap). intros j w v Hw Hv. unfold instead. destruct (decide (j = k)) as [->|N].
  - rewrite lookup_insert_eq in Hw; rewrite lookup_insert_eq in Hv. by simplify_eq.
  - rewrite lookup_insert_ne in Hw by done; rewrite lookup_insert_ne in Hv by done. eapply mine_frame; [by eapply Hk|].
    intros x Hx. pose proof (Hsub j) as Hj. pose proof (Hap j k N) as Hjk. apply Hf; clear - Hx Hj Hjk; set_solver.
Qed.

(** [dst[k] = w]. *)
Lemma runs_set_own h l vs F k w c Fc :
  mine h (MapAt l) (VMap vs) F -> F ⊆ dom h -> mine h w c Fc -> Fc ## F ->
  runs (set_key l k w) h (fun _ h' => moves h h' (F ∖ D) /\ dom h' = dom h /\ mine h' (MapAt l) (VMap (<[k := c]> vs)) (F ∪ Fc)).
Proof.
  intros H HF Hc Hdis. destruct (mine_child _ _ _ _ H) as (m & Fs & Hn & Hl & Hd & Ha & _ & Hput). pose proof Ha as (Hin & Hsub & _).
  unfold set_key. eapply runs_step; [unfold read_map; by rewrite Hl|]. eexists _, _. split; [reflexivity|].
  pose proof (HF _ Hin) as Hld. split; [apply moves_write; [done|clear - Hin Hn; set_solver]|].
  split; [rewrite dom_insert_L; clear - Hld; set_solver|].
  eapply mine_weaken; [apply (Hput _ k w c Fc); [apply lookup_insert_eq| | |]|clear; set_solver].
  - intros x _ Hx _. by apply lookup_insert_ne.
  - eapply mine_frame; [exact Hc|]. intros x Hx. apply lookup_insert_ne. intros <-. clear - Hx Hin Hdis. set_solver.
  - clear - Hdis. set_solver.
Qed.

(** ** Merging in memory *)

(** The map became [vs]; what was put into it is new or one of the cells [G] of the source. *)
Definition merged (h h' : memory) (F G : gset loc) (l : loc) (vs : gmap string value) : Prop :=
  moves h h' (F ∖ D) /\ exists F', mine h' (MapAt l) (VMap vs) F' /\ F' ⊆ F ∪ G ∪ (dom h' ∖ dom h).

(** [dst[k] = DeepCopyMap(sm)]. *)
Lemma runs_put_copy h dst dv F k w v G :
  h0 ⊆ h -> mine h (MapAt dst) (VMap dv) F -> F ⊆ dom h -> rep h w v G -> G ⊆ D ->
  runs (mem! w' := deep_copy w in set_key dst k w') h (fun _ h' => merged h h' F G dst (<[k := v]> dv)).
Proof.
  intros Hs H HF Hw HG. pose proof (subseteq_dom _ _ Hs) as Hdom.
  eapply runs_seq; [apply (runs_deep_copy h w v G Hw); by etrans|]. intros c h1 (Hs1 & Fc & Hc & HFc). pose proof (subseteq_dom _ _ Hs1) as Hd1.
  eapply runs_mono; [apply (runs_set_own h1 dst dv F k c v Fc)|].
  - eapply mine_frame; [exact H|]. intros x Hx. pose proof (HF _ Hx) as [y Hy]%elem_of_dom. rewrite Hy. by eapply lookup_weaken.
  - by etrans.
  - apply mine_new; [done|]. clear - HFc Hdom. set_solver.
  - clear - HFc HF. set_solver.
  - intros [] h2 (Hm2 & Hd2 & Hr2). split; [eapply moves_trans; [by apply moves_subseteq|exact Hm2|clear; set_solver]|].
    exists (F ∪ Fc). split; [done|]. rewrite Hd2. clear - HFc. set_solver.
Qed.

Section Merging.
Variable merge : loc -> loc -> memM unit.
Variable n : nat.
Hypothesis Hmerge : forall h dst dv F src sv G,
  h0 ⊆ h -> mine h (MapAt dst) (VMap dv) F -> F ⊆ dom h -> rep h0 (MapAt src) (VMap sv) G -> G ⊆ D -> F ## G -> size G < n ->
  runs (merge dst src) h (fun _ h' => merged h h' F G dst (deepMerge dv sv)).

(** The body of the loop. *)
Lemma runs_merge_entry h dst dv F k w v G :
  h0 ⊆ h -> mine h (MapAt dst) (VMap dv) F -> F ⊆ dom h -> rep h0 w v G -> G ⊆ D -> F ## G -> size G < n ->
  runs (match w with
    | MapAt sm =>
        mem! m := read_map dst in
        match m !! k with
        | Some (MapAt dm) => merge dm sm
        | _ => mem! w' := deep_copy w in set_key dst k w'
        end
    | _ => set_key dst k w
    end) h (fun _ h' => merged h h' F G dst (<[k := merge_value (dv !! k) v]> dv)).
Proof.
  intros Hs H HF Hw HG Hdis Hn. pose proof (subseteq_dom _ _ Hs) as Hdom. assert (rep h w v G) as Hwh by by eapply rep_subseteq.
  assert ((forall sm, w <> MapAt sm) ->
    runs (set_key dst k w) h (fun _ h' => merged h h' F G dst (<[k := merge_value (dv !! k) v]> dv))) as Hplain.
  { intros Hnm. rewrite merge_value_new; [|intros dm sm _ ->; inversion Hw; subst; [done|by eapply Hnm]].
    eapply runs_mono; [apply (runs_set_own h dst dv F k w v G); [done|done|by apply mine_other|by symmetry]|].
    intros [] h' (Hm & _ & Hr). split; [done|]. exists (F ∪ G). split; [done|]. clear. set_solver. }
  destruct w as [x|sm|s]; [by apply Hplain| |by apply Hplain]. clear Hplain.
  assert (exists sv, v = VMap sv) as [sv ->] by (inversion Hw; subst; by eexists).
  destruct (mine_child _ _ _ _ H) as (m & Fs & Hnd & Hl & Hd & Ha & Hk & Hput). pose proof Ha as (Hin & Hsub & _).
  eapply runs_step; [unfold read_map; by rewrite Hl|]. specialize (Hsub k).
  assert ((forall dm, dv !! k <> Some (VMap dm)) ->
    runs (mem! w' := deep_copy (MapAt sm) in set_key dst k w') h (fun _ h' => merged h h' F G dst (<[k := merge_value (dv !! k) (VMap sv)]> dv))) as Hcopy.
  { intros Hnm. rewrite merge_value_new; [by apply runs_put_copy|intros dm sm' E _; by apply (Hnm dm)]. }
  destruct (m !! k) as [c|] eqn:Em.
  2: { apply Hcopy. intros dm E%elem_of_dom_2. apply not_elem_of_dom in Em. by rewrite Hd in Em. }
  destruct (dv !! k) as [cv|] eqn:Ev; [|apply elem_of_dom_2 in Em; apply not_elem_of_dom in Ev; by rewrite Hd in Em].
  pose proof (Hk k c cv Em Ev) as Hc.
  destruct c as [x|dm|s];
    [apply Hcopy; intros dm [= ->]; apply mine_rep in Hc; by inversion Hc| |apply Hcopy; intros dm [= ->]; apply mine_rep in Hc; by inversion Hc].
  assert (exists dcv, cv = VMap dcv) as [dcv ->] by (apply mine_rep in Hc; inversion Hc; subst; by eexists).
  rewrite merge_value_map. assert (Fs k ⊆ F) as HkF by (clear - Hsub; set_solver).
  eapply runs_mono; [apply (Hmerge h dm dcv (Fs k) sm sv G); [done|done|by etrans|done|done|clear - HkF Hdis; set_solver|done]|].
  intros [] h' (Hm' & F2 & Hr2 & HF2). pose proof (proj1 Hm') as Hd'. split; [eapply moves_weaken; [exact Hm'|clear - HkF; set_solver]|].
  exists (F ∖ Fs k ∪ F2). split; [|clear - HF2 HkF; set_solver].
  assert (forall x, x ∈ F -> x ∉ Fs k -> h' !! x = h !! x) as Hsame.
  { intros x Hx Hnx. apply (proj2 Hm'); [by apply HF|]. clear - Hnx. set_solver. }
  apply (Hput h' k (MapAt dm)); [|intros; by apply Hsame|done|clear - HF2 HF Hdis; set_solver].
  rewrite insert_id by done. rewrite Hsame; [done|done|]. clear - Hsub. set_solver.
Qed.

(** The loop: each key of the source is merged once. *)
Lemma runs_merge_entries kws : forall h dst dv F (svs : gmap string value) (Gs : string -> gset loc) G,
  h0 ⊆ h -> mine h (MapAt dst) (VMap dv) F -> F ⊆ dom h -> NoDup (map fst kws) -> G ⊆ D ->
  (forall k w, (k, w) ∈ kws -> exists v, svs !! k = Some v /\ rep h0 w v (Gs k) /\ Gs k ⊆ G /\ F ## Gs k /\ size (Gs k) < n) ->
  (forall k j, k <> j -> Gs k ## Gs j) ->
  runs (merge_entries merge dst kws) h (fun _ h' => exists vs, merged h h' F G dst vs /\
    forall k, vs !! k = if decide (k ∈ map fst kws) then Some (merge_value (dv !! k) (default VNil (svs !! k))) else dv !! k).
Proof.
  induction kws as [|[k w] kws IH]; intros h dst dv F svs Gs G Hs H HF Hnd HG Hall Hap.
  { apply runs_ret. exists dv. split; [|done]. split; [done|]. exists F. split; [done|]. clear. set_solver. }
  cbn [merge_entries map fst] in *. apply NoDup_cons in Hnd as [Hnk Hnd].
  destruct (Hall k w ltac:(left)) as (v & Hv & Hw & HkG & Hdis & Hn).
  eapply runs_seq; [by apply (runs_merge_entry h dst dv F k w v (Gs k)); try done; etrans|].
  intros [] h1 (Hm1 & F1 & Hr1 & HF1). pose proof (proj1 Hm1) as Hd1. pose proof (subseteq_dom _ _ Hs) as Hdom.
  assert (h0 ⊆ h1) as Hs1 by (eapply moves_keeps; [exact Hm1|exact Hs|clear; set_solver]).
  eapply runs_mono; [apply (IH h1 dst _ F1 svs Gs G Hs1 Hr1)|]; [|done|done| |done|].
  - clear - HF1 HF HkG HG Hdom Hd1. set_solver.
  - intros j x Hj. destruct (Hall j x ltac:(by right)) as (y & Hy & Hx & HjG & Hjdis & Hjn). exists y. do 3 (split; [done|]).
    split; [|done]. assert (j <> k) as N by (intros ->; apply Hnk; apply list_elem_of_fmap; by exists (k, x)).
    pose proof (Hap j k N) as Hjk. clear - HF1 HjG HG Hdom Hd1 Hjdis Hjk. set_solver.
  - intros [] h2 (vs & [Hm2 (F2 & Hr2 & HF2)] & Hvs). pose proof (proj1 Hm2) as Hd2. exists vs. split; [split|].
    + eapply moves_trans; [exact Hm1|exact Hm2|]. clear - HF1 HkG HG. set_solver.
    + exists F2. split; [done|]. clear - HF2 HF1 HkG Hd1 Hd2. set_solver.
    + intros j. rewrite Hvs. destruct (decide (j = k)) as [->|N].
      * rewrite decide_False by done. rewrite decide_True by left. by rewrite lookup_insert_eq, Hv.
      * rewrite lookup_insert_ne by done. destruct (decide (j ∈ map fst kws)) as [Hj|Hj];
          [by rewrite decide_True by (by right)|by rewrite decide_False by (by rewrite not_elem_of_cons)].
Qed.

End Merging.

Lemma merged_all (m : gmap string word) vs dv sv : dom m = dom sv ->
  (forall k, vs !! k = if decide (k ∈ map fst (map_to_list m)) then Some (merge_value (dv !! k) (default VNil (sv !! k))) else dv !! k) ->
  vs = deepMerge dv sv.
Proof.
  intros Hd Hvs. apply map_eq. intros k. rewrite Hvs, deepMerge_lookup.
  assert (k ∈ map fst (map_to_list m) <-> is_Some (sv !! k)) as Hk.
  { rewrite <- elem_of_dom, <- Hd, elem_of_dom. split.
    - intros ([k' w] & -> & Hin%elem_of_map_to_list)%list_elem_of_fmap. by eexists.
    - intros [w Hw]. apply list_elem_of_fmap. exists (k, w). by rewrite elem_of_map_to_list. }
  destruct (decide _) as [Hin|Hn]; [by apply Hk in Hin as [v ->]|].
  destruct (sv !! k) eqn:E; [|done]. destruct Hn. apply Hk. by eexists.
Qed.

Lemma runs_deep_merge_at n : forall h dst dv F src sv G,
  h0 ⊆ h -> mine h (MapAt dst) (VMap dv) F -> F ⊆ dom h -> rep h0 (MapAt src) (VMap sv) G -> G ⊆ D -> F ## G -> size G < n ->
  runs (deep_merge_at n dst src) h (fun _ h' => merged h h' F G dst (deepMerge dv sv)).
Proof.
  induction n as [|n IH]; intros h dst dv F src sv G Hs H HF Hsrc HG Hdis Hn; [lia|].
  inversion Hsrc as [|? m ? Gs ? Hl Hd Hk Ha|]; subst. pose proof Ha as (Hin & Hsub & Hap). cbn [deep_merge_at].
  eapply runs_step; [unfold read_map; by rewrite (lookup_weaken _ _ _ _ Hl Hs)|].
  eapply runs_mono; [apply (runs_merge_entries _ n IH (map_to_list m) h dst dv F sv Gs G Hs H HF (NoDup_fst_map_to_list m) HG)|]; [|done|].
  - intros k w Hkw%elem_of_map_to_list. assert (is_Some (sv !! k)) as [v Hv] by (apply elem_of_dom; rewrite <- Hd; by eapply elem_of_dom_2).
    exists v. split; [done|]. split; [by apply Hk|]. specialize (Hsub k).
    split; [clear - Hsub; set_solver|]. split; [clear - Hsub Hdis; set_solver|].
    apply subseteq_size in Hsub. rewrite size_difference in Hsub by (clear - Hin; set_solver). rewrite size_singleton in Hsub.
    assert (size G <> 0) by (intros E%size_empty_inv; clear - E Hin; set_solver). lia.
  - intros [] h' (vs & Hm & Hvs). by rewrite <- (merged_all m vs dv sv Hd Hvs).
Qed.

Lemma runs_deep_copy_map l v F :
  rep h0 (MapAt l) (VMap v) F -> F ⊆ D ->
  runs (deep_copy_map l) h0 (fun out h' => h0 ⊆ h' /\ exists F', mine h' (MapAt out) (VMap v) F' /\ F' ⊆ dom h' ∖ D).
Proof.
  intros H HF. eapply runs_seq; [by apply (runs_deep_copy h0 (MapAt l) (VMap v) F)|]. intros w h1 (Hs & F1 & Hr & HF1).
  inversion Hr as [? ? Hv|out m ? Fs ? Hl Hd Hk Ha|]; subst; [done|]. apply runs_ret. split; [done|]. exists F1. split; [|done].
  apply mine_new; [done|]. clear - HF1. set_solver.
Qed.

Lemma runs_merge_base base bv contribution cv :
  rep h0 (MapAt base) (VMap bv) D -> rep h0 (MapAt contribution) (VMap cv) D ->
  runs (merge_base_at base contribution) h0 (fun r h' => h0 ⊆ h' /\
    match mergeBaseAndContribution bv cv, r with
    | Ok v, Ok out => exists F, mine h' (MapAt out) (VMap v) F
    | Err e, Err e' => e = e'
    | _, _ => False
    end).
Proof.
  intros Hb Hc. eapply runs_seq; [by apply (runs_deep_copy_map base bv D)|]. intros out h1 (Hs1 & F1 & Hr1 & HF1).
  pose proof (subseteq_dom _ _ Hs1) as Hd1. assert (runs (deep_merge_at (S (size (dom h1))) out contribution) h1 (fun _ h' => merged h1 h' F1 D out (deepMerge bv cv))) as Hmerge.
  { apply (runs_deep_merge_at _ h1 out bv F1 contribution cv D); [done|done| |done|done| |].
    - clear - HF1. set_solver.
    - clear - HF1. set_solver.
    - apply subseteq_size in Hd1. lia. }
  eapply runs_seq; [exact Hmerge|].
  intros [] h2 (Hm2 & F2 & Hr2 & HF2). destruct (mine_child _ _ _ _ Hr2) as (m & Fs & _ & Hl & Hd & _).
  eapply runs_step; [unfold read_map; by rewrite Hl|]. unfold mergeBaseAndContribution. cbv zeta.
  rewrite <- (size_dom (deepMerge bv cv)), <- Hd, (size_dom m).
  assert (h0 ⊆ h2) as Hs2 by (eapply moves_keeps; [exact Hm2|exact Hs1|clear; set_solver]).
  destruct (Nat.eqb (size m) 0); apply runs_ret; (split; [done|]); [done|]. by exists F2.
Qed.

End Content.

(** The base that is merged in, if there is one. *)
Definition base_rep (h : memory) (base : option loc) (bv : option (gmap string value)) : Prop :=
  match base, bv with
  | Some l, Some v => rep h (MapAt l) (VMap v) (dom h)
  | None, None => True
  | _, _ => False
  end.

(** What a new object starts as. *)
Definition new_content (bv : option (gmap string value)) (cv : gmap string value) : res goerror (gmap string value) :=
  match bv with Some b => mergeBaseAndContribution b cv | None => Ok cv end.

(** Building a new object from the contribution, over the base if there is one, leaves both as they
    were; its value, or the error, is the one [csa_create] and [ssa_Apply] take; and all maps of the
    object that are reached through maps are new, so that setting its kind, name and namespace
    afterwards reaches neither of the two, though its lists may be the contribution's. *)
Theorem content_in_memory h base bv contribution cv :
  base_rep h base bv -> rep h (MapAt contribution) (VMap cv) (dom h) ->
  exists r h', content_at base contribution h = Some (r, h') /\ h ⊆ h' /\
    match new_content bv cv, r with
    | Ok v, Ok out => exists F, mine h h' (MapAt out) (VMap v) F
    | Err e, Err e' => e = e'
    | _, _ => False
    end.
Proof.
  intros Hb Hc. unfold content_at, new_content. destruct base as [l|], bv as [b|]; try done.
  - destruct (runs_merge_base h l b contribution cv Hb Hc) as (r & h' & E & H). by exists r, h'.
  - assert (runs (mem! out := deep_copy_map contribution in mret (Ok out)) h (fun r h' => h ⊆ h' /\
      match r : res goerror loc with Ok out => exists F, mine h h' (MapAt out) (VMap cv) F | Err _ => False end)) as (r & h' & E & Hs & H).
    { eapply runs_seq; [by apply (runs_deep_copy_map h contribution cv (dom h))|]. intros out h1 (Hs & F & Hr & _).
      apply runs_ret. split; [done|]. by exists F. }
    exists r, h'. split; [done|]. split; [done|]. by destruct r.
Qed.

(** A list of the contribution is shared: the array of the new object's [rules] is the contribution's. *)
Lemma merged_lists_are_shared :
  exists out h' m m', content_at (Some 1%positive) 2%positive
    {[1%positive := MapCell ∅; 2%positive := MapCell {["rules" := SliceAt (mkSlice 3 0 0)]}; 3%positive := ArrayCell []]} = Some (Ok out, h') /\
    h' !! 2%positive = Some (MapCell m) /\ h' !! out = Some (MapCell m') /\ out <> 2%positive /\ m !! "rules" = m' !! "rules" /\ is_Some (m !! "rules").
Proof. do 4 eexists. split; [vm_compute; reflexivity|]. repeat (split; [reflexivity || done|]). by eexists. Qed.

End MemoryContent.
