(* ===== verification/TrackerLogic.v ===== *)
(** The decisions a tracker takes about its contributors: the pure parts of
    [internal/controller/tracker_controller.go] and [helpers.go].

    A Go map is ranged over in an unspecified order; a function that does so takes the order, the
    list of the map's entries, as an argument. *)
From stdpp Require Import strings base list gmap fin_maps.
From Stdlib Require Import Ascii ZArith Lia.
From S2P Require Import Prelude GoStrings Values Json ApiTypes Scope FieldPath Render Client Applier.
Local Open Scope string_scope.
Local Open Scope list_scope.
Local Open Scope go_scope.

Module TrackerLogic.
Import GoStrings Values Json ApiTypes Scope FieldPath Render Client Applier.

(** ** States and phases *)

Definition ContributorStateApplied : string := "Applied".
Definition ContributorStateSuperseded : string := "Superseded".
Definition ContributorStateConflicted : string := "Conflicted".
Definition TrackerPhaseWaiting : string := "Waiting".
Definition TrackerPhaseApplied : string := "Applied".
Definition TrackerPhaseConflicted : string := "Conflicted".
Definition TrackerPhaseReleasing : string := "Releasing".
Definition TrackerPhasePromoting : string := "Promoting".

Definition ConditionTrue : string := "True".
Definition ConditionFalse : string := "False".

(** ** Status updates *)

Definition with_phase (ph : string) (s : SharedResourceStatus) : SharedResourceStatus :=
  mkSharedResourceStatus ph (SR_Conditions s) (PromotedTo s) (CreatedByOperator s) (CreatorPatchRef s)
    (ObservedBaseHash s) (ObservedTargetUID s) (ObservedResourceVersion s) (Contributors s)
    (ContributorCount s) (Conflicts s).
Definition with_conditions (cs : list Condition) (s : SharedResourceStatus) : SharedResourceStatus :=
  mkSharedResourceStatus (Phase s) cs (PromotedTo s) (CreatedByOperator s) (CreatorPatchRef s)
    (ObservedBaseHash s) (ObservedTargetUID s) (ObservedResourceVersion s) (Contributors s)
    (ContributorCount s) (Conflicts s).
Definition with_promoted (p : option PromotionRef) (s : SharedResourceStatus) : SharedResourceStatus :=
  mkSharedResourceStatus (Phase s) (SR_Conditions s) p (CreatedByOperator s) (CreatorPatchRef s)
    (ObservedBaseHash s) (ObservedTargetUID s) (ObservedResourceVersion s) (Contributors s)
    (ContributorCount s) (Conflicts s).
Definition with_creator (b : bool) (c : option ContributorRef) (h : string) (s : SharedResourceStatus) : SharedResourceStatus :=
  mkSharedResourceStatus (Phase s) (SR_Conditions s) (PromotedTo s) b c
    h (ObservedTargetUID s) (ObservedResourceVersion s) (Contributors s)
    (ContributorCount s) (Conflicts s).
Definition with_observed (uid rv : string) (s : SharedResourceStatus) : SharedResourceStatus :=
  mkSharedResourceStatus (Phase s) (SR_Conditions s) (PromotedTo s) (CreatedByOperator s) (CreatorPatchRef s)
    (ObservedBaseHash s) uid rv (Contributors s) (ContributorCount s) (Conflicts s).
Definition with_contributors (l : list ContributorStatus) (s : SharedResourceStatus) : SharedResourceStatus :=
  mkSharedResourceStatus (Phase s) (SR_Conditions s) (PromotedTo s) (CreatedByOperator s) (CreatorPatchRef s)
    (ObservedBaseHash s) (ObservedTargetUID s) (ObservedResourceVersion s) l
    (Z.of_nat (length l)) (Conflicts s).
Definition with_conflicts (l : list ConflictStatus) (s : SharedResourceStatus) : SharedResourceStatus :=
  mkSharedResourceStatus (Phase s) (SR_Conditions s) (PromotedTo s) (CreatedByOperator s) (CreatorPatchRef s)
    (ObservedBaseHash s) (ObservedTargetUID s) (ObservedResourceVersion s) (Contributors s)
    (ContributorCount s) l.

Definition setTrackerCond (now : Z) (condType s reason : string) (msg : message) (st : SharedResourceStatus)
    : SharedResourceStatus :=
  with_conditions (SetCondition now (SR_Conditions st) (mkCondition condType s 0 None reason msg)) st.

Definition setCond (now : Z) (condType s reason : string) (msg : message) (st : ResourcePatchStatus)
    : ResourcePatchStatus :=
  mkResourcePatchStatus (SetCondition now (Conditions st) (mkCondition condType s 0 None reason msg))
    (ObservedTargets st) (SharedResourceRefs st) (AppliedGeneration st) (AuthorizedAs st)
    (LastAuthorizedTime st).

Definition boolCondition (b : bool) : string := if b then ConditionTrue else ConditionFalse.

(** ** Trackers as objects *)

Definition empty_status : SharedResourceStatus :=
  mkSharedResourceStatus "" [] None false None "" "" "" [] 0 [].

Definition newTracker (kind name namespace : string) (key : TargetKey) : res goerror Tracker :=
  let ref := mkTrackerTargetRef (Key_APIVersion key) (Key_Kind key) (Key_Name key) (Key_Namespace key) in
  let obj ns := mkTrackerObject (mkObjectMeta name ns "" "" 0 0 None [] ∅) ref empty_status in
  if String.eqb kind KindSharedResource then Ok (SharedResource (obj namespace))
  else if String.eqb kind KindClusterSharedResource then Ok (ClusterSharedResource (obj ""))
  else Err (Errorf "unknown tracker kind %q" [AStr kind]).

Definition emptyTracker (kind : string) : res goerror Tracker :=
  let obj := mkTrackerObject (mkObjectMeta "" "" "" "" 0 0 None [] ∅) (mkTrackerTargetRef "" "" "" "") empty_status in
  if String.eqb kind KindSharedResource then Ok (SharedResource obj)
  else if String.eqb kind KindClusterSharedResource then Ok (ClusterSharedResource obj)
  else Err (Errorf "unknown tracker kind %q" [AStr kind]).

(** ** Event filters *)

Definition deleting (m : ObjectMeta) : bool := is_some (DeletionTimestamp m).

Definition generationOrFinalizerChanged (old new : ObjectMeta) : bool :=
  if negb (Generation old =? Generation new)%Z then true
  else if negb (Bool.eqb (deleting new) (deleting old)) then true
  else negb (Nat.eqb (length (Finalizers old)) (length (Finalizers new))).

Definition trackerChanged (old new : Tracker) : bool :=
  let om := t_meta (tracker_object old) in
  let nm := t_meta (tracker_object new) in
  let os := GetTrackerStatus old in
  let ns := GetTrackerStatus new in
  if negb (Generation om =? Generation nm)%Z then true
  else if negb (Bool.eqb (deleting om) (deleting nm)) then true
  else if negb (Nat.eqb (length (Finalizers om)) (length (Finalizers nm))) then true
  else if negb (Bool.eqb (IsFenced os) (IsFenced ns)) then true
  else
    let adoption :=
      match PromotedTo os, PromotedTo ns with
      | Some a, Some b => negb (Bool.eqb (Adopted a) (Adopted b))
      | _, _ => false
      end in
    if adoption then true else negb (ContributorCount os =? ContributorCount ns)%Z.

(** ** Ordering contributors *)

Definition contributor_less (a b : ContributorStatus) : bool :=
  if negb (CS_Priority a =? CS_Priority b)%Z then (CS_Priority b <? CS_Priority a)%Z
  else
    let by_uid := sltb (Ref_UID (PatchRef a)) (Ref_UID (PatchRef b)) in
    match CS_CreationTimestamp a, CS_CreationTimestamp b with
    | Some at_, Some bt => if negb (at_ =? bt)%Z then (at_ <? bt)%Z else by_uid
    | Some _, None => true
    | None, Some _ => false
    | None, None => by_uid
    end.

Definition sortContributors (l : list ContributorStatus) : list ContributorStatus := sort contributor_less l.

(** ** Contributor records *)

Record contributorRecord := mkRecord { cr_obj : Contributor; cr_status : ContributorStatus }.

Definition recordFor (c : Contributor) (existing : SharedResourceStatus) : ContributorStatus :=
  let ref := ContributorRefOf c in
  let default_manager :=
    FieldManagerFor (ContributorKind c) (Namespace (c_meta c)) (Name (c_meta c)) in
  match FindContributor existing ref with
  | Some prev =>
      mkContributorStatus ref (Generation (c_meta c)) (Priority (GetPatchSpec c))
        (if String.eqb (CS_FieldManager prev) "" then default_manager else CS_FieldManager prev)
        (State prev) (LastAppliedHash prev) (OwnedPaths prev) (PriorValues prev) (PriorValuesCaptured prev)
        (Some (CreationTimestamp (c_meta c)))
  | None =>
      mkContributorStatus ref (Generation (c_meta c)) (Priority (GetPatchSpec c)) default_manager
        "" "" [] None false (Some (CreationTimestamp (c_meta c)))
  end.

Definition record_of (existing : SharedResourceStatus) (c : Contributor) : contributorRecord :=
  mkRecord c (recordFor c existing).

Definition record_key (r : contributorRecord) : string := ContributorRef_String (PatchRef (cr_status r)).

(** The selector-mode contributors of a list that are registered with the tracker. *)
Definition selector_bound (self : TrackerRef) (existing : SharedResourceStatus) (seen : list string)
    (cs : list Contributor) : list contributorRecord :=
  map (record_of existing)
    (filter (fun c =>
        negb (bool_decide (ContributorRef_String (ContributorRefOf c) ∈ seen)) &&
        String.eqb (Target_Mode (Target (GetPatchSpec c))) TargetModeSelector &&
        bool_decide (self ∈ SharedResourceRefs (GetPatchStatus c))) cs).

(** The end of [listContributors]: sort the records and pair each with its object again. *)
Definition pair_sorted (out : list contributorRecord) : list contributorRecord :=
  let byKey := foldl (fun m r => <[record_key r := cr_obj r]> m) (∅ : gmap string Contributor) out in
  omap (fun rec =>
      match byKey !! ContributorRef_String (PatchRef rec) with
      | Some obj => Some (mkRecord obj rec)
      | None => None
      end) (sortContributors (map cr_status out)).

Definition splitReleasing (l : list contributorRecord) : list contributorRecord * list contributorRecord :=
  (filter (fun c => deleting (c_meta (cr_obj c))) l,
   filter (fun c => negb (deleting (c_meta (cr_obj c)))) l).

(** ** Conflicts between contributions *)

(** Every claim, in contribution order: path, contributor index, hash of the value there. *)
Definition claims_of (i : nat) (c : Contribution) : list (string * (nat * string)) :=
  map (fun p => (Path_String p, (i, HashObject (default VNil (Get (VMap (Object c)) p))))) (Paths c).

Fixpoint all_claims (i : nat) (rendered : list Contribution) : list (string * (nat * string)) :=
  match rendered with
  | [] => []
  | c :: rest => claims_of i c ++ all_claims (S i) rest
  end.

Definition claims_on (path : string) (cs : list (string * (nat * string))) : list (nat * string) :=
  map snd (filter (fun x => String.eqb x.1 path) cs).

(** The claims on a path are contested when at least two of them have different values. *)
Definition contested (cs : list (nat * string)) : bool :=
  match cs with
  | [] => false
  | c :: rest => existsb (fun d => negb (String.eqb c.2 d.2)) rest
  end.

Definition detectPathConflicts (rendered : list Contribution) : gmap string (list nat) :=
  let cs := all_claims 0 rendered in
  foldl (fun out path =>
      let on := claims_on path cs in
      if contested on then <[path := map fst on]> out else out) ∅ (map fst cs).

(** The holder of the first contested path, in range order, that a higher priority claims too. *)
Fixpoint find_holder (myIdx : nat) (mine : Z) (active : list contributorRecord) (order : list (string * list nat))
    : option string :=
  match order with
  | [] => None
  | (_, claimants) :: rest =>
      if existsb (Nat.eqb myIdx) claimants then
        match List.find (fun idx =>
            negb (Nat.eqb idx myIdx) &&
            match active !! idx with
            | Some other => (mine <? CS_Priority (cr_status other))%Z
            | None => false
            end) claimants with
        | Some idx => match active !! idx with Some other => Some (record_key other) | None => None end
        | None => find_holder myIdx mine active rest
        end
      else find_holder myIdx mine active rest
  end.

Fixpoint index_of (ref : ContributorRef) (l : list contributorRecord) : option nat :=
  match l with
  | [] => None
  | r :: rest => if SameContributor (PatchRef (cr_status r)) ref then Some 0 else S <$> index_of ref rest
  end.

(** [isSupersededOn]: the holder a contributor loses to, if it loses. *)
Definition isSupersededOn (c : contributorRecord) (active : list contributorRecord)
    (order : list (string * list nat)) : option string :=
  if negb (String.eqb (ConflictPolicy (ApiTypes.Apply (GetPatchSpec (cr_obj c)))) ConflictPolicyPriority) then None
  else
    match index_of (PatchRef (cr_status c)) active with
    | None => None
    | Some myIdx => find_holder myIdx (CS_Priority (cr_status c)) active order
    end.

Definition appendConflict (conflicts : list ConflictStatus) (order : list (string * list nat))
    (c : contributorRecord) (holder : string) : list ConflictStatus :=
  match order with
  | [] => conflicts
  | (path, _) :: _ => conflicts ++ [mkConflictStatus path [record_key c; holder] holder]
  end.

(** ** Stored values *)

Definition baseFor (c : Contributor) : res goerror (option (gmap string value)) :=
  match Base (GetPatchSpec c) with
  | None => Ok None
  | Some r => if raw_empty r then Ok None else let! m := DecodeBase (Some r) in Ok (Some m)
  end.

(** What decoding the encoding of a value yields: every number becomes a float64. *)
Fixpoint json_decoded (v : value) : value :=
  match v with
  | VInt z => VFloat (flt_of_Z z)
  | VList l => VList (map json_decoded l)
  | VMap m => VMap (map_fold (fun k e acc => <[k := json_decoded e]> acc) ∅ m)
  | _ => v
  end.

Definition encodePriorValues (m : gmap string value) : option RawExtension :=
  if Nat.eqb (size m) 0 then None else Some (RawJSON (json_decoded (VMap m))).

Definition decodePriorValues (r : option RawExtension) : res goerror (gmap string value) :=
  match r with
  | None => Ok ∅
  | Some r =>
      if raw_empty r then Ok ∅
      else match unmarshal_map r with
           | Err e => Err (Wrapf "decoding prior values: %w" [] e)
           | Ok m => Ok m
           end
  end.

Definition firstOr (l : list string) (fallback : string) : string :=
  match l with [] => fallback | x :: _ => x end.

(** ** Deleting the target *)

(** The condition under which [maybeDeleteTarget] deletes. *)
Definition wantsDelete (st : SharedResourceStatus) (contributors : list contributorRecord) : bool :=
  CreatedByOperator st &&
  match CreatorPatchRef st with
  | None => false
  | Some creator =>
      existsb (fun c => String.eqb (OnRelease (Lifecycle (GetPatchSpec (cr_obj c)))) OnReleaseDelete &&
                        SameContributor (PatchRef (cr_status c)) creator) contributors
  end.

(** ** What a status write changes *)

(** The mutation of [writeStatus]; [records] is nil when the contributor list is to be left alone. *)
Definition write_mutation (computed : SharedResourceStatus) (records : option (list ContributorStatus))
    (conflicts : list ConflictStatus) (st : SharedResourceStatus) : SharedResourceStatus :=
  let contributors := match records with Some l => l | None => Contributors st end in
  mkSharedResourceStatus (Phase computed) (SR_Conditions computed) (PromotedTo st)
    (if CreatedByOperator computed then true else CreatedByOperator st)
    (match CreatorPatchRef computed, CreatorPatchRef st with
     | Some c, None => Some c
     | _, old => old
     end)
    (if negb (String.eqb (ObservedBaseHash computed) "") && String.eqb (ObservedBaseHash st) ""
     then ObservedBaseHash computed else ObservedBaseHash st)
    (if String.eqb (ObservedTargetUID computed) "" then ObservedTargetUID st else ObservedTargetUID computed)
    (if String.eqb (ObservedResourceVersion computed) "" then ObservedResourceVersion st
     else ObservedResourceVersion computed)
    contributors (Z.of_nat (length contributors)) conflicts.

(** The mutation of [recordProvenance]. *)
Definition provenance_mutation (creator : ContributorRef) (baseHash : string) (st : SharedResourceStatus)
    : SharedResourceStatus :=
  with_creator true
    (match CreatorPatchRef st with None => Some creator | old => old end)
    (if negb (String.eqb baseHash "") && String.eqb (ObservedBaseHash st) "" then baseHash else ObservedBaseHash st)
    st.

(** ** Waking trackers *)

Record NamespacedName := mkNamespacedName { nn_Namespace : string; nn_Name : string }.

Definition trackersOfContributor (wantKind : string) (c : Contributor) : list NamespacedName :=
  let out := map (fun r => mkNamespacedName (TrackerRef_Namespace r) (TrackerRef_Name r))
    (filter (fun r => String.eqb (TrackerRef_Kind r) wantKind) (SharedResourceRefs (GetPatchStatus c))) in
  if Nat.eqb (length out) 0 && negb (String.eqb (Target_Mode (Target (GetPatchSpec c))) TargetModeSelector) then
    let key := TargetKeyFor c in
    let kind := TrackerKindFor key (IsClusterScoped c) in
    if String.eqb kind wantKind
    then [mkNamespacedName (TrackerNamespace kind key) (TrackerName key)] else []
  else out.

(** The tracker a watched object maps to: none when the kind never owns such a target. *)
Definition watch_request (trackerKind : string) (key : TargetKey) : option NamespacedName :=
  if existsb (fun b => String.eqb (TrackerKindFor key b) trackerKind) [false; true]
  then Some (mkNamespacedName (TrackerNamespace trackerKind key) (TrackerName key)) else None.

End TrackerLogic.
