(* ===== verification/TrackerSpec.v ===== *)
(** The tracker's decisions: contributor order, conflict detection, arbitration by priority, carried
    bookkeeping, status writes and the delete-safety rule. *)
From stdpp Require Import strings base list gmap fin_maps.
From Stdlib Require Import Ascii ZArith Sorted Lia.
From S2P Require Import Prelude GoStrings Values Json ApiTypes Scope Containment FieldPath Render Client Applier TrackerLogic.
Local Open Scope string_scope.
Local Open Scope list_scope.

Module TrackerSpec.
Import GoStrings Values Json ApiTypes Scope Containment FieldPath Render Client Applier TrackerLogic.

(** *** The contributor order *)

Lemma contributor_less_asym a b : contributor_less a b = true -> contributor_less b a = false.
Proof.
  unfold contributor_less.
  destruct (Z.eqb_spec (CS_Priority a) (CS_Priority b)) as [->|]; cbn [negb].
  2: { destruct (Z.eqb_spec (CS_Priority b) (CS_Priority a)); [congruence|]. cbn. rewrite Z.ltb_lt, Z.ltb_ge. lia. }
  rewrite Z.eqb_refl. cbn [negb].
  destruct (CS_CreationTimestamp a) as [x|], (CS_CreationTimestamp b) as [y|]; cbv zeta; try done;
    [|apply sltb_asym].
  destruct (Z.eqb_spec x y) as [->|]; cbn [negb].
  - rewrite Z.eqb_refl. cbn. apply sltb_asym.
  - destruct (Z.eqb_spec y x); [congruence|]. cbn. rewrite Z.ltb_lt, Z.ltb_ge. lia.
Qed.

(** Times, none last. *)
Definition time_le (a b : option Z) : Prop :=
  match a, b with Some x, Some y => (x <= y)%Z | None, Some _ => False | _, None => True end.

Definition uid (a : ContributorStatus) : string := Ref_UID (PatchRef a).

Lemma contributor_le_iff a b :
  contributor_less b a = false <->
  (CS_Priority b < CS_Priority a)%Z \/
  (CS_Priority a = CS_Priority b /\
   (time_le (CS_CreationTimestamp a) (CS_CreationTimestamp b) /\
    (CS_CreationTimestamp a = CS_CreationTimestamp b -> sltb (uid b) (uid a) = false))).
Proof.
  unfold contributor_less, time_le, uid.
  destruct (Z.eqb_spec (CS_Priority b) (CS_Priority a)) as [->|]; cbn [negb].
  2: { rewrite Z.ltb_ge. split; [left; lia|intros [?|[? _]]; lia]. }
  destruct (CS_CreationTimestamp a) as [x|], (CS_CreationTimestamp b) as [y|]; cbv zeta.
  - destruct (Z.eqb_spec y x) as [->|]; cbn [negb].
    + split; [right; repeat split; [lia|done]|]. intros [?|(_ & _ & H)]; [lia|by apply H].
    + rewrite Z.ltb_ge. split.
      * right. split; [done|]. split; [lia|]. intros [= ->]. done.
      * intros [?|(_ & ? & _)]; lia.
  - split; [|done]. right. by split.
  - split; [done|]. intros [?|(_ & [] & _)]. lia.
  - split; [right; by repeat split|]. intros [?|(_ & _ & H)]; [lia|by apply H].
Qed.

#[export] Instance contributor_le_trans : Transitive (less_le contributor_less).
Proof.
  intros a b c. unfold less_le. rewrite !contributor_le_iff.
  intros [H1|(E1 & T1 & U1)] [H2|(E2 & T2 & U2)]; try (left; lia). right. split; [congruence|].
  unfold time_le in *.
  destruct (CS_CreationTimestamp a) as [x|], (CS_CreationTimestamp b) as [y|], (CS_CreationTimestamp c) as [z|];
    try done.
  - split; [lia|]. intros [= ->]. assert (y = z) as -> by lia.
    specialize (U1 eq_refl). specialize (U2 eq_refl). exact (sltb_le_trans _ _ _ U1 U2).
  - split; [done|]. intros _. specialize (U1 eq_refl). specialize (U2 eq_refl). exact (sltb_le_trans _ _ _ U1 U2).
Qed.

Lemma contributor_le_antisym a b :
  contributor_less a b = false -> contributor_less b a = false -> uid a = uid b.
Proof.
  rewrite !contributor_le_iff. intros [H1|(E1 & T1 & U1)] [H2|(E2 & T2 & U2)]; try lia.
  assert (CS_CreationTimestamp a = CS_CreationTimestamp b) as E.
  { unfold time_le in *. destruct (CS_CreationTimestamp a), (CS_CreationTimestamp b); try done. f_equal. lia. }
  apply sltb_total; auto.
Qed.

Lemma SameContributor_refl r : SameContributor r r = true.
Proof. unfold SameContributor. destruct (_ && _); by rewrite !String.eqb_refl. Qed.

(** Records with different UIDs. *)
Definition distinct_uids (l : list ContributorStatus) : Prop := NoDup (map uid l).

Lemma distinct_uids_eq l a b : distinct_uids l -> a ∈ l -> b ∈ l -> uid a = uid b -> a = b.
Proof. apply NoDup_map_inj. Qed.

(** *** Conflict detection *)

(** The hash of what a contribution puts at a path. *)
Definition value_hash (c : Contribution) (p : Path) : string :=
  HashObject (default VNil (Get (VMap (Object c)) p)).

Lemma elem_of_all_claims rendered : forall k path i h,
  (path, (i, h)) ∈ all_claims k rendered <->
  exists j c p, rendered !! j = Some c /\ i = k + j /\ p ∈ Paths c /\ path = Path_String p /\
    h = HashObject (default VNil (Get (VMap (Object c)) p)).
Proof.
  induction rendered as [|c rendered IH]; intros k path i h; cbn [all_claims].
  { rewrite elem_of_nil. split; [done|]. intros (j & c & p & H & _). by rewrite lookup_nil in H. }
  rewrite elem_of_app, IH. unfold claims_of. rewrite list_elem_of_fmap. split.
  - intros [(p & [= -> -> ->] & Hp)|(j & c' & p & H & -> & Hp & -> & ->)].
    + exists 0, c, p. rewrite Nat.add_0_r. done.
    + exists (S j), c', p. rewrite Nat.add_succ_r. done.
  - intros ([|j] & c' & p & H & -> & Hp & -> & ->); cbn in H.
    + simplify_eq. left. exists p. by rewrite Nat.add_0_r.
    + right. exists j, c', p. by rewrite Nat.add_succ_r.
Qed.

Lemma elem_of_claims_on path cs x : x ∈ claims_on path cs <-> (path, x) ∈ cs.
Proof.
  unfold claims_on. rewrite list_elem_of_fmap. split.
  - intros ([p y] & -> & H). apply list_elem_of_filter in H as [Hp H]. cbn in *.
    apply Is_true_true, String.eqb_eq in Hp as ->. done.
  - intros H. exists (path, x). split; [done|]. apply list_elem_of_filter. cbn. by rewrite String.eqb_refl.
Qed.

Lemma contested_iff cs : contested cs = true <-> exists a b, a ∈ cs /\ b ∈ cs /\ a.2 <> b.2.
Proof.
  destruct cs as [|c cs]; cbn; [split; [done|by intros (a & b & ?%elem_of_nil & _)]|].
  rewrite existsb_exists. split.
  - intros (d & Hd & Hne). exists c, d. split; [left|]. split; [right; by apply list_elem_of_In|].
    by apply negb_true_iff, String.eqb_neq in Hne.
  - intros (a & b & Ha & Hb & Hne).
    assert (exists d, d ∈ c :: cs /\ d.2 <> c.2) as (d & Hd & Hdne).
    { destruct (decide (a.2 = c.2)) as [E|?]; [exists b; split; [done|congruence]|by exists a]. }
    apply elem_of_cons in Hd as [->|Hd]; [done|]. exists d. split; [by apply list_elem_of_In|].
    apply negb_true_iff, String.eqb_neq. congruence.
Qed.

Lemma detect_lookup rendered path :
  detectPathConflicts rendered !! path =
    if contested (claims_on path (all_claims 0 rendered))
    then Some (map fst (claims_on path (all_claims 0 rendered))) else None.
Proof.
  unfold detectPathConflicts. set (cs := all_claims 0 rendered). cbv zeta.
  set (step := fun (out : gmap string (list nat)) p =>
    if contested (claims_on p cs) then <[p := map fst (claims_on p cs)]> out else out).
  assert (forall l out, path ∈ l \/ out !! path = (if contested (claims_on path cs)
      then Some (map fst (claims_on path cs)) else None) ->
      (path ∉ l -> out !! path = (if contested (claims_on path cs)
      then Some (map fst (claims_on path cs)) else None)) ->
      (contested (claims_on path cs) = false -> out !! path = None) ->
      foldl step out l !! path =
      if contested (claims_on path cs) then Some (map fst (claims_on path cs)) else None) as Hfold.
  { induction l as [|p l IH]; intros out Hin Hout Hnone; cbn [foldl].
    - destruct Hin as [?%elem_of_nil|?]; done.
    - assert (Hs : step out p !! path = if decide (p = path) then
          (if contested (claims_on path cs) then Some (map fst (claims_on path cs)) else out !! path)
          else out !! path).
      { unfold step. destruct (decide (p = path)) as [->|Hne].
        - destruct (contested (claims_on path cs)); [by rewrite lookup_insert_eq|done].
        - destruct (contested (claims_on p cs)); [by rewrite lookup_insert_ne|done]. }
      apply IH.
      + rewrite Hs. destruct (decide (p = path)) as [->|Hne].
        * right. destruct (contested (claims_on path cs)) eqn:E; auto.
        * destruct Hin as [[?|?]%elem_of_cons|?]; [congruence|by left|by right].
      + intros Hl. rewrite Hs. destruct (decide (p = path)) as [->|Hne].
        * destruct (contested (claims_on path cs)) eqn:E; auto.
        * apply Hout. rewrite elem_of_cons. naive_solver.
      + intros E. rewrite Hs, E. destruct (decide (p = path)); auto. }
  apply Hfold; [| |by rewrite lookup_empty].
  - destruct (decide (path ∈ map fst cs)) as [H|H]; [by left|]. right.
    rewrite lookup_empty. destruct (claims_on path cs) as [|x l] eqn:E; [done|]. destruct H.
    assert ((path, x) ∈ cs) as Hx by (apply elem_of_claims_on; rewrite E; left).
    by apply (list_elem_of_fmap_2 fst) in Hx.
  - intros H. rewrite lookup_empty. destruct (claims_on path cs) as [|x l] eqn:E; [done|]. destruct H.
    assert ((path, x) ∈ cs) as Hx by (apply elem_of_claims_on; rewrite E; left).
    by apply (list_elem_of_fmap_2 fst) in Hx.
Qed.

(** *** Arbitration *)

(** [idx] claims a contested path together with [myIdx] at a higher priority. *)
Definition outranked_by (myIdx : nat) (mine : Z) (active : list contributorRecord)
    (claims : list (string * list nat)) (idx : nat) (other : contributorRecord) : Prop :=
  exists path claimants, (path, claimants) ∈ claims /\ myIdx ∈ claimants /\ idx ∈ claimants /\
    idx <> myIdx /\ active !! idx = Some other /\ (mine < CS_Priority (cr_status other))%Z.

Lemma find_holder_spec myIdx mine active order :
  match find_holder myIdx mine active order with
  | Some holder => exists idx other, outranked_by myIdx mine active order idx other /\ holder = record_key other
  | None => forall idx other, ~ outranked_by myIdx mine active order idx other
  end.
Proof.
  induction order as [|[path claimants] order IH]; cbn [find_holder].
  { intros idx other (p & cl & ?%elem_of_nil & _). done. }
  assert (forall idx other, outranked_by myIdx mine active order idx other ->
            outranked_by myIdx mine active ((path, claimants) :: order) idx other) as Hmono.
  { intros idx other (p & cl & Hin & H). exists p, cl. split; [by right|done]. }
  set (good := fun idx => (negb (Nat.eqb idx myIdx) &&
    match active !! idx with Some other => (mine <? CS_Priority (cr_status other))%Z | None => false end)%bool).
  destruct (existsb (Nat.eqb myIdx) claimants) eqn:Hmine.
  - apply existsb_exists in Hmine as (m & Hm & E). apply Nat.eqb_eq in E as <-. apply list_elem_of_In in Hm.
    destruct (List.find good claimants) as [idx|] eqn:Hf.
    + apply find_some in Hf as [Hin Hg]. unfold good in Hg. bool_simpl.
      destruct (active !! idx) as [other|] eqn:Ho; [|done]. bool_simpl.
      exists idx, other. split; [|done]. exists path, claimants. apply list_elem_of_In in Hin.
      repeat split; [left|done|done|by apply Nat.eqb_neq|done|done].
    + destruct (find_holder myIdx mine active order).
      * destruct IH as (idx & other & H & ->). exists idx, other. auto.
      * intros idx other (p & cl & Hin & Hme & Hidx & Hne & Ho & Hlt).
        apply elem_of_cons in Hin as [[= -> ->]|Hin].
        -- apply list_elem_of_In in Hidx. pose proof (find_none _ _ Hf idx Hidx) as Hg. unfold good in Hg.
           rewrite Ho in Hg. rewrite (proj2 (Nat.eqb_neq _ _) Hne), (proj2 (Z.ltb_lt _ _) Hlt) in Hg. done.
        -- apply (IH idx other). by exists p, cl.
  - destruct (find_holder myIdx mine active order).
    + destruct IH as (idx & other & H & ->). exists idx, other. auto.
    + intros idx other (p & cl & Hin & Hme & Hrest). apply elem_of_cons in Hin as [[= -> ->]|Hin].
      * apply list_elem_of_In in Hme. assert (existsb (Nat.eqb myIdx) claimants = true) as ?; [|congruence].
        apply existsb_exists. exists myIdx. by rewrite Nat.eqb_refl.
      * apply (IH idx other). by exists p, cl.
Qed.

Lemma outranked_perm myIdx mine active o1 o2 idx other :
  o1 ≡ₚ o2 -> outranked_by myIdx mine active o1 idx other -> outranked_by myIdx mine active o2 idx other.
Proof. intros Hp (path & cl & Hin & H). exists path, cl. by rewrite <- Hp. Qed.

Lemma isSupersededOn_perm c active o1 o2 :
  o1 ≡ₚ o2 -> is_some (isSupersededOn c active o1) = is_some (isSupersededOn c active o2).
Proof.
  intros Hp. unfold isSupersededOn. destruct (negb _); [done|]. destruct (index_of _ _) as [i|]; [|done].
  pose proof (find_holder_spec i (CS_Priority (cr_status c)) active o1) as H1.
  pose proof (find_holder_spec i (CS_Priority (cr_status c)) active o2) as H2.
  destruct (find_holder i _ active o1), (find_holder i _ active o2); try done; cbn.
  - destruct H1 as (idx & other & H & _). destruct (H2 idx other). by eapply outranked_perm.
  - destruct H2 as (idx & other & H & _). destruct (H1 idx other). eapply outranked_perm; [|done]. done.
Qed.

(** *** Encoded values *)

Lemma json_decoded_map (m : gmap string value) k :
  map_fold (fun k e (acc : gmap string value) => <[k := json_decoded e]> acc) ∅ m !! k = json_decoded <$> m !! k.
Proof.
  revert k. apply (map_fold_weak_ind (fun (acc : gmap string value) m => forall k, acc !! k = json_decoded <$> m !! k)).
  - intros k. by rewrite !lookup_empty.
  - intros i x m' acc Hi IH k. destruct (decide (i = k)) as [->|Hne].
    + by rewrite !lookup_insert_eq.
    + by rewrite !lookup_insert_ne.
Qed.

(** ** Samples *)

Definition sample_meta (name uid : string) : ObjectMeta := mkObjectMeta name "team-a" uid "1" 3 0 None [] ∅.

Definition sample_contributor (name uid : string) (prio : Z) (onRelease : string) : Contributor :=
  ResourcePatch (mkPatchObject (sample_meta name uid)
    (mkResourcePatchSpec (Target (p_spec (sample_patch ""))) (mkLifecycleSpec "Create" onRelease None "")
       (mkApplySpec "" "" ConflictPolicyPriority) prio None None (Patch (p_spec (sample_patch ""))))
    (mkResourcePatchStatus [] [] [] 0 "" None)).

Definition sample_record (name uid : string) (prio : Z) : contributorRecord :=
  record_of empty_status (sample_contributor name uid prio "Delete").

(** ** Properties *)

(** The contributor order is a function of the set of contributors: however the API server
    lists them, records with different UIDs sort to the same list, in which no contributor is
    preceded by one of lower priority. *)
Theorem sortContributors_deterministic (l1 l2 : list ContributorStatus)
    (Hu : distinct_uids l1) (Hp : l1 ≡ₚ l2) :
  sortContributors l1 = sortContributors l2 /\
  sortContributors l1 ≡ₚ l1 /\
  StronglySorted (fun a b => (CS_Priority b <= CS_Priority a)%Z) (sortContributors l1).
Proof.
  split; [|split].
  - apply (sort_perm_eq _ _ _ contributor_less_asym); [|done].
    intros a b Ha Hb H1 H2. eapply distinct_uids_eq; eauto. by apply contributor_le_antisym.
  - apply sort_perm.
  - pose proof (sort_sorted contributor_less l1 contributor_less_asym) as H.
    unfold sortContributors. induction H as [|a l _ IH Ha]; constructor; [done|].
    eapply Forall_impl; [exact Ha|]. intros b. unfold less_le. rewrite contributor_le_iff. lia.
Qed.

(** (C36) Conflict detection is exact: a path is reported precisely when two contributions claim it
    with values of different hash, and the report lists every claimant of the path in contributor
    order. *)
Theorem detectPathConflicts_exact (rendered : list Contribution) (path : string) :
  (is_Some (detectPathConflicts rendered !! path) <->
   exists i j ci cj p q, rendered !! i = Some ci /\ rendered !! j = Some cj /\
     p ∈ Paths ci /\ q ∈ Paths cj /\ Path_String p = path /\ Path_String q = path /\
     value_hash ci p <> value_hash cj q) /\
  (forall idxs, detectPathConflicts rendered !! path = Some idxs ->
   forall i, i ∈ idxs <-> exists c p, rendered !! i = Some c /\ p ∈ Paths c /\ Path_String p = path).
Proof.
  rewrite detect_lookup. split.
  - destruct (contested (claims_on path (all_claims 0 rendered))) eqn:E.
    + split; [intros _|by eexists]. apply contested_iff in E as ([i h] & [j h'] & Ha & Hb & Hne).
      apply elem_of_claims_on, elem_of_all_claims in Ha as (i' & ci & p & Hi & -> & Hp & Ep & ->).
      apply elem_of_claims_on, elem_of_all_claims in Hb as (j' & cj & q & Hj & -> & Hq & Eq & ->).
      by exists i', j', ci, cj, p, q.
    + split; [by intros [? ?]|]. intros (i & j & ci & cj & p & q & Hi & Hj & Hp & Hq & Ep & Eq & Hne).
      assert (contested (claims_on path (all_claims 0 rendered)) = true) as ?; [|congruence].
      apply contested_iff. eexists (i, _), (j, _).
      split; [apply elem_of_claims_on, elem_of_all_claims; by exists i, ci, p|].
      split; [apply elem_of_claims_on, elem_of_all_claims; by exists j, cj, q|done].
  - intros idxs. destruct (contested _); [|done]. intros [= <-] i. rewrite list_elem_of_fmap. split.
    + intros ([i' h] & -> & Hin). apply elem_of_claims_on, elem_of_all_claims in Hin as (j & c & p & Hj & -> & Hp & -> & _).
      by exists c, p.
    + intros (c & p & Hc & Hp & <-). eexists (i, _). split; [done|].
      apply elem_of_claims_on, elem_of_all_claims. by exists i, c, p.
Qed.

(** [c] is among the active contributors, and one of them claims a contested path together with it at
    a strictly higher priority. *)
Definition outranked (c : contributorRecord) (active : list contributorRecord) (claims : list (string * list nat))
    (other : contributorRecord) : Prop :=
  exists i idx, index_of (PatchRef (cr_status c)) active = Some i /\
    outranked_by i (CS_Priority (cr_status c)) active claims idx other.

(** (C29) Arbitration: a contributor is superseded exactly when its own conflict policy is Priority and
    another active contributor claims one of its contested paths with strictly higher priority; under
    Fail and Force, and when it is not itself among the active contributors, it never is. The holder
    reported is such a contributor, and whether it loses does not depend on the order a Go map is
    ranged in. *)
Theorem isSupersededOn_correct (c : contributorRecord) (active : list contributorRecord)
    (order order' : list (string * list nat)) (Hp : order ≡ₚ order') :
  is_some (isSupersededOn c active order) = is_some (isSupersededOn c active order') /\
  (is_some (isSupersededOn c active order) = true <->
   ConflictPolicy (ApiTypes.Apply (GetPatchSpec (cr_obj c))) = ConflictPolicyPriority /\
   exists other, outranked c active order other) /\
  (forall holder, isSupersededOn c active order = Some holder ->
   exists other, outranked c active order other /\ holder = record_key other).
Proof.
  split; [by apply isSupersededOn_perm|].
  unfold isSupersededOn, outranked. destruct (String.eqb_spec (ConflictPolicy (ApiTypes.Apply (GetPatchSpec (cr_obj c)))) ConflictPolicyPriority)
    as [Hpolicy|Hpolicy]; cbn [negb]; [|naive_solver].
  destruct (index_of _ active) as [i|] eqn:Hi; [|naive_solver].
  pose proof (find_holder_spec i (CS_Priority (cr_status c)) active order) as H.
  destruct (find_holder i _ active order) as [holder|]; cbn.
  - destruct H as (idx & other & H & ->). split; [split; [intros _; split; [done|]; by exists other, i, idx|done]|].
    intros h [= <-]. exists other. split; [by exists i, idx|done].
  - split; [|done]. split; [done|]. intros (_ & other & i' & idx & [= <-] & Ho). by destruct (H idx other).
Qed.

Lemma isSupersededOn_correct_witness :
  let a := sample_record "a" "u1" 1 in
  let b := sample_record "b" "u2" 5 in
  exists other, outranked a [a; b] [("data.k", [0; 1])] other.
Proof.
  intros a b.
  apply (isSupersededOn_correct a [a; b] [("data.k", [0; 1])] [("data.k", [0; 1])]); vm_refl || done.
Defined.

(** What an apply or a revert needs to know from the last pass. *)
Definition same_bookkeeping (a b : ContributorStatus) : Prop :=
  OwnedPaths a = OwnedPaths b /\ PriorValues a = PriorValues b /\
  PriorValuesCaptured a = PriorValuesCaptured b /\ LastAppliedHash a = LastAppliedHash b /\ State a = State b.

(** A contributor's bookkeeping survives every rebuild of the contributor list: if the tracker
    holds a record of the same contributor, its owned paths, prior values, capture flag, applied
    hash, state and non-empty field manager are carried over unchanged, while identity, generation
    and priority are read afresh from the contributor. *)
Theorem recordFor_carries (c : Contributor) (existing : SharedResourceStatus) (prev : ContributorStatus)
    (Hprev : FindContributor existing (ContributorRefOf c) = Some prev) :
  let rec := recordFor c existing in
  same_bookkeeping rec prev /\
  (CS_FieldManager prev <> "" -> CS_FieldManager rec = CS_FieldManager prev) /\
  CS_FieldManager rec <> "" /\
  PatchRef rec = ContributorRefOf c /\ CS_Priority rec = Priority (GetPatchSpec c) /\
  CS_ObservedGeneration rec = Generation (c_meta c).
Proof.
  unfold recordFor. rewrite Hprev. cbv zeta. cbn.
  split; [done|]. split.
  - intros H. apply String.eqb_neq in H. by rewrite H.
  - split; [|done]. destruct (String.eqb_spec (CS_FieldManager prev) "") as [_|H]; [|done].
    unfold FieldManagerFor, truncateFieldManager. cbv zeta.
    destruct (_ <=? _)%nat; [by destruct (String.eqb _ "")|].
    intros E. apply str_app_eq_nil in E as [_ E]. done.
Qed.

Definition sample_status (created : bool) (creator : option ContributorRef) : SharedResourceStatus :=
  mkSharedResourceStatus "Applied" [] None created creator "" "" ""
    [mkContributorStatus (mkContributorRef "ResourcePatch" "a" "team-a" "u1") 1 1 "patch-operator/team-a/a" "Applied"
       "h" ["data.k"] (Some (RawJSON (VMap {["data.k" := VStr "old"]}))) true (Some 0%Z)] 1 [].

(** Provenance recorded in [st] is still there, unchanged, in [st']. *)
Definition provenance_kept (st st' : SharedResourceStatus) : Prop :=
  (CreatedByOperator st = true -> CreatedByOperator st' = true) /\
  (forall c, CreatorPatchRef st = Some c -> CreatorPatchRef st' = Some c) /\
  (ObservedBaseHash st <> "" -> ObservedBaseHash st' = ObservedBaseHash st).

(** (C34) A status write by the tracker can be repeated without further effect, keeps the promotion
    fence, which belongs to the contributor controller, and never forgets or replaces recorded
    provenance: once the creator of the target is known it stays known. The contributor list is the
    one the pass computed, whatever was there before, and is kept as it is when the pass computed
    none. (A pass that computed an empty list therefore empties it.) *)
Theorem write_mutation_safe (computed st : SharedResourceStatus) (records : option (list ContributorStatus))
    (conflicts : list ConflictStatus) :
  let st' := write_mutation computed records conflicts st in
  write_mutation computed records conflicts st' = st' /\
  PromotedTo st' = PromotedTo st /\
  Contributors st' = default (Contributors st) records /\
  ContributorCount st' = Z.of_nat (length (Contributors st')) /\
  provenance_kept st st'.
Proof.
  cbv zeta. unfold provenance_kept, write_mutation. cbn.
  split; [|split; [done|split; [by destruct records|split; [done|split; [|split]]]]].
  - f_equal.
    + by destruct (CreatedByOperator computed).
    + by destruct (CreatorPatchRef computed), (CreatorPatchRef st).
    + destruct (String.eqb_spec (ObservedBaseHash computed) "") as [E|E]; cbn [negb andb]; [done|].
      destruct (String.eqb_spec (ObservedBaseHash st) "") as [E'|E'].
      * by rewrite (proj2 (String.eqb_neq _ _) E).
      * by rewrite (proj2 (String.eqb_neq _ _) E').
    + by destruct (String.eqb (ObservedTargetUID computed) "").
    + by destruct (String.eqb (ObservedResourceVersion computed) "").
    + by destruct records.
    + by destruct records.
  - by destruct (CreatedByOperator computed).
  - intros c ->. by destruct (CreatorPatchRef computed).
  - intros H. apply String.eqb_neq in H. by rewrite H, andb_false_r.
Qed.

(** The same contributor: by UID where both references have one, else by kind, name and namespace. *)
Definition identifies (ref creator : ContributorRef) : Prop :=
  (Ref_UID ref <> "" -> Ref_UID creator <> "" -> Ref_UID ref = Ref_UID creator) /\
  (Ref_UID ref = "" \/ Ref_UID creator = "" ->
   Ref_Kind ref = Ref_Kind creator /\ Ref_Name ref = Ref_Name creator /\ Ref_Namespace ref = Ref_Namespace creator).

(** Delete safety: the target is deleted only if the operator created it and a departing
    contributor that asked for deletion is, by UID where both are known, the very contributor that
    created it. *)
Theorem wantsDelete_only_creator (st : SharedResourceStatus) (contributors : list contributorRecord)
    (H : wantsDelete st contributors = true) :
  CreatedByOperator st = true /\
  exists creator c, CreatorPatchRef st = Some creator /\ c ∈ contributors /\
    OnRelease (Lifecycle (GetPatchSpec (cr_obj c))) = OnReleaseDelete /\
    identifies (PatchRef (cr_status c)) creator.
Proof.
  unfold wantsDelete in H. bool_simpl. split; [done|].
  destruct (CreatorPatchRef st) as [creator|]; [|done].
  apply existsb_exists in H0 as (c & Hin & Hc). bool_simpl. exists creator, c.
  split; [done|]. split; [by apply list_elem_of_In|]. split; [done|].
  unfold SameContributor, identifies in *.
  destruct (String.eqb_spec (Ref_UID (PatchRef (cr_status c))) "") as [E|N],
    (String.eqb_spec (Ref_UID creator) "") as [E'|N']; cbn in *; bool_simpl; split; intros; naive_solver.
Qed.

(** Every value of a map as it is after being stored as JSON. *)
Definition decoded_map (m : gmap string value) : gmap string value := json_decoded <$> m.

(** Prior values survive storage in the tracker's status up to the one thing JSON cannot keep:
    decoding what was encoded gives back every recorded path with its value, numbers turned from
    int64 into float64. *)
Theorem priors_roundtrip (m : gmap string value) :
  decodePriorValues (encodePriorValues m) = Ok (decoded_map m).
Proof.
  unfold encodePriorValues. destruct (Nat.eqb_spec (size m) 0) as [E|E].
  - apply map_size_empty_inv in E as ->. by unfold decoded_map; rewrite fmap_empty.
  - cbn [decodePriorValues raw_empty json_decoded unmarshal_map]. f_equal. apply map_eq. intros k.
    rewrite json_decoded_map. unfold decoded_map. by rewrite lookup_fmap.
Qed.

(** Storing them a second time changes nothing more. *)
Lemma json_decoded_idemp v : json_decoded (json_decoded v) = json_decoded v.
Proof.
  induction v as [| | | | |l IH|m IH] using value_rec_ind; try done.
  - cbn. f_equal. rewrite map_map. induction IH as [|x l Hx _ IHl]; [done|]. cbn. by rewrite Hx, IHl.
  - cbn. f_equal. apply map_eq. intros k. rewrite !json_decoded_map.
    destruct (m !! k) as [x|] eqn:E; [|done]. cbn. by rewrite (IH k x E).
Qed.

Lemma encode_decoded m : encodePriorValues (decoded_map m) = encodePriorValues m.
Proof.
  unfold encodePriorValues, decoded_map. rewrite map_size_fmap. destruct (Nat.eqb _ _); [done|].
  do 2 f_equal. cbn. f_equal. apply map_eq. intros k. rewrite !json_decoded_map, lookup_fmap.
  destruct (m !! k) as [x|]; [|done]. cbn. by rewrite json_decoded_idemp.
Qed.

End TrackerSpec.
