(* ===== verification/Controller.v ===== *)
(** What the controllers ask of the cluster, and the pieces both share: the calls, the result of a
    reconcile, the retry loop of client-go, and the naming of impersonated identities
    ([internal/impersonate/impersonate.go]). *)
From stdpp Require Import strings base list gmap fin_maps.
From Stdlib Require Import Ascii ZArith Lia.
From S2P Require Import Prelude GoStrings Values ApiTypes Identity Scope Render Client Applier TrackerLogic.
Local Open Scope string_scope.
Local Open Scope list_scope.
Local Open Scope go_scope.

Module Controller.
Import GoStrings Values ApiTypes Identity Scope Render Client Applier TrackerLogic.

(** ** Calls

    [as_] is the user a call to a target is made as; the empty string is the operator itself.
    [live] tells a read that bypasses the informer cache. *)
Inductive ctlE : Type -> Type :=
| OnTarget (as_ : string) (R : Type) (c : targetE R) : ctlE R
| DeleteTarget (as_ : string) (t : RenderTarget) : ctlE (option goerror)
| BuildClient (username : string) : ctlE (option goerror)
| GetTracker (live : bool) (kind namespace name : string) : ctlE (res goerror Tracker)
| CreateTracker (t : Tracker) : ctlE (option goerror)
| UpdateTracker (t : Tracker) : ctlE (res goerror Tracker)
| UpdateTrackerStatus (t : Tracker) : ctlE (res goerror Tracker)
| DeleteTracker (t : Tracker) : ctlE (option goerror)
| GetContributor (kind namespace name : string) : ctlE (res goerror Contributor)
| ListContributors (kind : string) (index namespace : option string) : ctlE (res goerror (list Contributor))
| UpdateContributor (c : Contributor) : ctlE (res goerror Contributor)
| UpdateContributorStatus (c : Contributor) : ctlE (res goerror Contributor)
| ListTargets (apiVersion kind : string) (selector : option LabelSelector) (namespace : option string)
    : ctlE (res goerror (list (string * string)))
| ListNamespaces (selector : LabelSelector) : ctlE (res goerror (list string))
| AuthorizeAs (user : UserInfo) (c : Contributor) : ctlE (res goerror (bool * string))
| EnsureWatch (trackerKind apiVersion kind : string) : ctlE (option goerror)
| Now : ctlE Z.

Abbreviation ctlM A := (prog ctlE A).

(** ** Results *)

Record outcome := mkOutcome { Requeue : bool; RequeueAfter : Z; Err_of : option goerror }.

(** [ctrl.Result{}, err]; delays are in milliseconds. *)
Definition done_ : outcome := mkOutcome false 0 None.
Definition failed (e : goerror) : outcome := mkOutcome false 0 (Some e).
Definition finished (e : option goerror) : outcome := mkOutcome false 0 e.
Definition requeue : outcome := mkOutcome true 0 None.
Definition requeue_after (ms : Z) : outcome := mkOutcome false ms None.

Definition ignoreNotFound (e : option goerror) : option goerror :=
  match e with Some e => if IsNotFound e then None else Some e | None => None end.

Definition err_of {A} (r : res goerror A) : option goerror :=
  match r with Ok _ => None | Err e => Some e end.

(** ** [retry.RetryOnConflict]

    The closure runs again while it reports a conflict, [n] more times at most; [s] is what it
    captures and mutates. *)
Fixpoint retry_on_conflict {S} (n : nat) (attempt : S -> ctlM (S * option goerror)) (s : S)
    : ctlM (S * option goerror) :=
  match n with
  | O => attempt s
  | S n' =>
      do! (s', e) <- attempt s in
      match e with
      | Some err => if IsConflict err then retry_on_conflict n' attempt s' else Ret (s', e)
      | None => Ret (s', None)
      end
  end.

(** [retry.DefaultBackoff] makes four attempts. *)
Definition backoff_retries : nat := 3.

(** ** Metadata updates *)

Definition with_finalizers (l : list string) (m : ObjectMeta) : ObjectMeta :=
  mkObjectMeta (Name m) (Namespace m) (UID m) (ResourceVersion m) (Generation m) (CreationTimestamp m)
    (DeletionTimestamp m) l (Annotations m).

Definition with_resource_version (rv : string) (m : ObjectMeta) : ObjectMeta :=
  mkObjectMeta (Name m) (Namespace m) (UID m) rv (Generation m) (CreationTimestamp m)
    (DeletionTimestamp m) (Finalizers m) (Annotations m).

Definition ContainsFinalizer (f : string) (m : ObjectMeta) : bool := bool_decide (f ∈ Finalizers m).

Definition AddFinalizer (f : string) (m : ObjectMeta) : ObjectMeta :=
  if ContainsFinalizer f m then m else with_finalizers (Finalizers m ++ [f]) m.

Definition RemoveFinalizer (f : string) (m : ObjectMeta) : ObjectMeta :=
  with_finalizers (filter (fun x => x <> f) (Finalizers m)) m.

Definition map_tracker (f : TrackerObject -> TrackerObject) (t : Tracker) : Tracker :=
  match t with
  | SharedResource o => SharedResource (f o)
  | ClusterSharedResource o => ClusterSharedResource (f o)
  end.

Definition set_tracker_meta (m : ObjectMeta) (t : Tracker) : Tracker :=
  map_tracker (fun o => mkTrackerObject m (t_targetRef o) (t_status o)) t.
Definition set_tracker_status (s : SharedResourceStatus) (t : Tracker) : Tracker :=
  map_tracker (fun o => mkTrackerObject (t_meta o) (t_targetRef o) s) t.
Definition tracker_meta (t : Tracker) : ObjectMeta := t_meta (tracker_object t).
Definition targetRef (t : Tracker) : TrackerTargetRef := t_targetRef (tracker_object t).

Definition map_contributor (f : PatchObject -> PatchObject) (c : Contributor) : Contributor :=
  match c with
  | ResourcePatch o => ResourcePatch (f o)
  | ClusterResourcePatch o => ClusterResourcePatch (f o)
  end.
Definition set_contributor_meta (m : ObjectMeta) (c : Contributor) : Contributor :=
  map_contributor (fun o => mkPatchObject m (p_spec o) (p_status o)) c.
Definition set_contributor_status (s : ResourcePatchStatus) (c : Contributor) : Contributor :=
  map_contributor (fun o => mkPatchObject (p_meta o) (p_spec o) s) c.

Definition trackerCond (t : Tracker) (condType s reason : string) (msg : message) : ctlM Tracker :=
  do! now <- call Now in
  Ret (set_tracker_status (setTrackerCond now condType s reason msg (GetTrackerStatus t)) t).

Definition contributorCond (c : Contributor) (condType s reason : string) (msg : message) : ctlM Contributor :=
  do! now <- call Now in
  Ret (set_contributor_status (setCond now condType s reason msg (GetPatchStatus c)) c).

(** ** Impersonation *)

Definition ServiceAccountUsername (namespace name : string) : string :=
  "system:serviceaccount:" +:+ namespace +:+ ":" +:+ name.

(** The identity a contributor's writes run as: the operator's own when none is named. *)
Definition identity_of (c : Contributor) : res goerror string :=
  match Spec_ServiceAccountRef (GetPatchSpec c) with
  | None => Ok ""
  | Some ref =>
      if String.eqb (SA_Name ref) "" then Ok ""
      else
        let namespace := if IsClusterScoped c then SA_Namespace ref else Namespace (c_meta c) in
        if String.eqb namespace "" then
          Err (Errorf "serviceAccountRef.namespace is required on a cluster-scoped contributor" [])
        else Ok (ServiceAccountUsername namespace (SA_Name ref))
  end.

(** [Factory.For]: the user whose client is handed out.  [BuildClient] stands for looking the client
    up in the cache or building it. *)
Definition Factory_For (c : Contributor) : ctlM (res goerror string) :=
  match identity_of c with
  | Err e => Ret (Err e)
  | Ok username =>
      if String.eqb username "" then Ret (Ok "")
      else
        do! e <- call (BuildClient username) in
        match e with
        | None => Ret (Ok username)
        | Some err =>
            Ret (Err (Wrapf "building an impersonating client for %s: %w" [AStr username] err))
        end
  end.

(** [applierFor]; without a factory every write is the operator's own. *)
Definition applierFor (impersonation : bool) (c : Contributor) : ctlM (res goerror (ApplierKind * string)) :=
  do! w <- (if impersonation then Factory_For c else Ret (Ok "")) in
  match w with
  | Err e => Ret (Err e)
  | Ok as_ =>
      match For (Apply_Mode (ApiTypes.Apply (GetPatchSpec c))) with
      | Err e => Ret (Err e)
      | Ok kind => Ret (Ok (kind, as_))
      end
  end.

Definition apply_as (as_ : string) (kind : ApplierKind) (req : Request) : ctlM (res goerror Result) :=
  translate (OnTarget as_) (Applier.Apply kind req).

Definition revert_as (as_ : string) (kind : ApplierKind) (req : RevertRequest) : ctlM (res goerror unit) :=
  translate (OnTarget as_) (Revert kind req).

End Controller.
