(* ===== verification/Traces.v ===== *)
(** What the trace of a controller tells, and the specification of the retry loop. *)
From stdpp Require Import strings base list.
From S2P Require Import Prelude GoStrings Values ApiTypes Client ProgramLogic Controller.
Local Open Scope string_scope.
Local Open Scope list_scope.

Module Traces.
Import GoStrings Values ApiTypes Client ProgramLogic Controller.

(** The tracker a reconcile works on: the answer to its first call. *)
Definition tracker_read (e : event ctlE) : option Tracker :=
  match ev_call e in ctlE R return R -> option Tracker with
  | GetTracker _ _ _ _ => fun r => match r with Ok t => Some t | Err _ => None end
  | _ => fun _ => None
  end (ev_reply e).

Definition read_tracker (h : list (event ctlE)) : option Tracker :=
  match h with e :: _ => tracker_read e | [] => None end.

(** A tracker the server returned, from a read or a write. *)
Definition tracker_returned (e : event ctlE) : option Tracker :=
  match ev_call e in ctlE R return R -> option Tracker with
  | GetTracker _ _ _ _ | UpdateTracker _ | UpdateTrackerStatus _ =>
      fun r => match r with Ok t => Some t | Err _ => None end
  | _ => fun _ => None
  end (ev_reply e).

Definition returned (h : list (event ctlE)) (t : Tracker) : Prop := exists e, e ∈ h /\ tracker_returned e = Some t.

Lemma returned_prefix h h' t : h `prefix_of` h' -> returned h t -> returned h' t.
Proof. intros [k ->] (e & H & He). exists e. split; [|done]. apply elem_of_app. by left. Qed.

Lemma returned_last h e t : tracker_returned e = Some t -> returned (h ++ [e]) t.
Proof. intros H. exists e. split; [|done]. apply elem_of_app. right. by apply list_elem_of_singleton. Qed.

Lemma read_tracker_prefix h h' t : h `prefix_of` h' -> read_tracker h = Some t -> read_tracker h' = Some t.
Proof. intros [k ->]. by destruct h. Qed.

(** A read, a listing or a write of targets. *)
Definition touches_target {R} (c : ctlE R) : bool :=
  match c with OnTarget _ _ _ | DeleteTarget _ _ | ListTargets _ _ _ _ => true | _ => false end.

(** A creation, a write or a deletion of a tracker. *)
Definition changes_tracker {R} (c : ctlE R) : bool :=
  match c with CreateTracker _ | UpdateTracker _ | UpdateTrackerStatus _ | DeleteTracker _ => true | _ => false end.

(** Some call of the trace, with its reply, is one [f] accepts. *)
Definition seen (f : event ctlE -> bool) (h : list (event ctlE)) : Prop := exists e, e ∈ h /\ f e = true.

Lemma seen_prefix f h h' : h `prefix_of` h' -> seen f h -> seen f h'.
Proof. intros [k ->] (e & H & ?). exists e. split; [|done]. apply elem_of_app. by left. Qed.

Lemma seen_last (f : event ctlE -> bool) h e : f e = true -> seen f (h ++ [e]).
Proof. intros H. exists e. split; [|done]. apply elem_of_app. right. by apply list_elem_of_singleton. Qed.

Lemma prefix_last {A} (h : list A) e : h `prefix_of` h ++ [e].
Proof. by eexists. Qed.

Lemma status_set_status s t : GetTrackerStatus (set_tracker_status s t) = s.
Proof. by destruct t. Qed.

Lemma status_set_meta m t : GetTrackerStatus (set_tracker_meta m t) = GetTrackerStatus t.
Proof. by destruct t. Qed.

(** [I] holds before each attempt, [P] after it. *)
Lemma retry_wp (al : policy ctlE) {S} (attempt : S -> ctlM (S * option goerror)) (I : list (event ctlE) -> S -> Prop)
    (P : list (event ctlE) -> S -> option goerror -> Prop) n :
  (forall h s, I h s -> wp al (attempt s) h (fun h' '(s', e) => P h' s' e)) ->
  (forall h s e, P h s (Some e) -> IsConflict e = true -> I h s) ->
  forall h s, I h s -> wp al (retry_on_conflict n attempt s) h (fun h' '(s', e) => P h' s' e).
Proof.
  intros Ha HP. induction n as [|n IH]; intros h s HI; cbn [retry_on_conflict]; [by apply Ha|].
  eapply wp_use; [by apply Ha|]. intros h' [s' [e|]] _ HP'; [|done].
  destruct (IsConflict e) eqn:Ec; [eapply IH, HP; eauto|done].
Qed.

End Traces.
