(* ===== verification/Promotion.v ===== *)
(** Promotion of a namespaced tracker to a cluster-scoped one:
    [internal/controller/promotion.go], the contributor's side. *)
From stdpp Require Import strings base list gmap fin_maps.
From Stdlib Require Import Ascii ZArith Lia.
From S2P Require Import Prelude GoStrings Values ApiTypes Scope Render Client Applier TrackerLogic Controller.
Local Open Scope string_scope.
Local Open Scope list_scope.
Local Open Scope go_scope.

Module Promotion.
Import GoStrings Values ApiTypes Scope Render Client Applier TrackerLogic Controller.

(** ** Merging the predecessor's state *)

(** The revert state of a record the successor already has, filled in from the predecessor's. *)
Definition merge_record (existing src : ContributorStatus) : ContributorStatus :=
  let take := negb (PriorValuesCaptured existing) && (PriorValuesCaptured src || is_some (PriorValues src)) in
  mkContributorStatus (PatchRef existing) (CS_ObservedGeneration existing) (CS_Priority existing)
    (if String.eqb (CS_FieldManager existing) "" then CS_FieldManager src else CS_FieldManager existing)
    (State existing)
    (if String.eqb (LastAppliedHash existing) "" then LastAppliedHash src else LastAppliedHash existing)
    (if Nat.eqb (length (OwnedPaths existing)) 0 then OwnedPaths src else OwnedPaths existing)
    (if take then match PriorValues src with Some v => Some v | None => PriorValues existing end
     else PriorValues existing)
    (if take then true else PriorValuesCaptured existing)
    (CS_CreationTimestamp existing).

(** One turn of the loop: [FindContributor] returns a pointer into the list. *)
Fixpoint adopt_record (dst : list ContributorStatus) (src : ContributorStatus) : list ContributorStatus :=
  match dst with
  | [] => [src]
  | d :: rest =>
      if SameContributor (PatchRef d) (PatchRef src) then merge_record d src :: rest
      else d :: adopt_record rest src
  end.

Definition adopt_records (dst src : list ContributorStatus) : list ContributorStatus := foldl adopt_record dst src.

Definition adoptStatus (now : Z) (dst src : SharedResourceStatus) (srcNamespace srcName : string)
    : SharedResourceStatus :=
  let contributors := adopt_records (Contributors dst) (Contributors src) in
  let ph := Phase dst in
  setTrackerCond now "Synced" ConditionTrue "AdoptedFromPromotion"
    (Msg "adopted %d contributor(s) from SharedResource %s/%s"
       [AInt (Z.of_nat (length contributors)); AStr srcNamespace; AStr srcName])
    (mkSharedResourceStatus
       (if String.eqb ph "" || String.eqb ph TrackerPhasePromoting then TrackerPhaseApplied else ph)
       (SR_Conditions dst) None
       (CreatedByOperator dst || CreatedByOperator src)
       (match CreatorPatchRef dst with None => CreatorPatchRef src | c => c end)
       (if String.eqb (ObservedBaseHash dst) "" then ObservedBaseHash src else ObservedBaseHash dst)
       (if String.eqb (ObservedTargetUID dst) "" then ObservedTargetUID src else ObservedTargetUID dst)
       (if String.eqb (ObservedResourceVersion dst) "" then ObservedResourceVersion src else ObservedResourceVersion dst)
       contributors (Z.of_nat (length contributors)) (Conflicts dst)).

(** ** The protocol

    [uncached] tells whether an uncached reader is configured. *)
Section Protocol.
Variable uncached : bool.

(** The status step 1 commits. *)
Definition fenced (now : Z) (trackerName : string) (st : SharedResourceStatus) : SharedResourceStatus :=
  setTrackerCond now "Synced" ConditionFalse "Promoting"
    (text "a ClusterResourcePatch joined this target; migrating to a ClusterSharedResource")
    (with_phase TrackerPhasePromoting (with_promoted (Some (mkPromotionRef trackerName false)) st)).

Definition fence_attempt (namespace trackerName : string) (s : unit) : ctlM (unit * option goerror) :=
  do! g <- call (GetTracker uncached KindSharedResource namespace trackerName) in
  match g with
  | Err e => Ret (s, Some e)
  | Ok old =>
      if is_some (PromotedTo (GetTrackerStatus old)) then Ret (s, None)
      else
        do! now <- call Now in
        do! r <- call (UpdateTrackerStatus
          (set_tracker_status (fenced now trackerName (GetTrackerStatus old)) old)) in
        Ret (s, err_of r)
  end.

Definition adopt_attempt (old : Tracker) (clusterName : string) (s : unit) : ctlM (unit * option goerror) :=
  do! g <- call (GetTracker uncached KindClusterSharedResource "" clusterName) in
  match g with
  | Err e => Ret (s, Some e)
  | Ok current =>
      do! now <- call Now in
      let m := tracker_meta old in
      do! r <- call (UpdateTrackerStatus (set_tracker_status
        (adoptStatus now (GetTrackerStatus current) (GetTrackerStatus old) (Namespace m) (Name m)) current)) in
      Ret (s, err_of r)
  end.

Definition successor_for (clusterName : string) (key : TargetKey) : Tracker :=
  ClusterSharedResource (mkTrackerObject
    (mkObjectMeta clusterName "" "" "" 0 0 None [TrackerFinalizer] ∅)
    (mkTrackerTargetRef (Key_APIVersion key) (Key_Kind key) (Key_Name key) (Key_Namespace key)) empty_status).

Definition already_adopted (st : SharedResourceStatus) : bool :=
  match PromotedTo st with Some p => Adopted p | None => false end.

Definition createSuccessor (old : Tracker) (clusterName : string) (key : TargetKey) : ctlM (option goerror) :=
  if already_adopted (GetTrackerStatus old) then Ret None
  else
    do! g <- call (GetTracker false KindClusterSharedResource "" clusterName) in
    do! created <-
      (match g with
       | Ok _ => Ret None
       | Err e =>
           if IsNotFound e then
             do! c <- call (CreateTracker (successor_for clusterName key)) in
             match c with
             | None => Ret None
             | Some ce =>
                 if IsAlreadyExists ce then Ret None
                 else Ret (Some (Wrapf "creating successor %s: %w" [AStr clusterName] ce))
             end
           else Ret (Some e)
       end) in
    match created with
    | Some e => Ret (Some e)
    | None =>
        do! (_, e) <- retry_on_conflict backoff_retries (adopt_attempt old clusterName) tt in
        Ret e
    end.

(** Step 3, on a fresh read. *)
Definition flag_attempt (namespace trackerName : string) (s : unit) : ctlM (unit * option goerror) :=
  do! g <- call (GetTracker uncached KindSharedResource namespace trackerName) in
  match g with
  | Err e => Ret (s, ignoreNotFound (Some e))
  | Ok current =>
      match PromotedTo (GetTrackerStatus current) with
      | None => Ret (s, None)
      | Some p =>
          if Adopted p then Ret (s, None)
          else
            do! r <- call (UpdateTrackerStatus (set_tracker_status
              (with_promoted (Some (mkPromotionRef (Promotion_Name p) true)) (GetTrackerStatus current)) current)) in
            Ret (s, err_of r)
      end
  end.

Definition promoteIfNeeded (key : TargetKey) : ctlM (option goerror) :=
  let trackerName := TrackerName key in
  let namespace := Key_Namespace key in
  do! (_, fenceErr) <- retry_on_conflict backoff_retries (fence_attempt namespace trackerName) tt in
  match fenceErr with
  | Some e =>
      if IsNotFound e then Ret None
      else Ret (Some (Wrapf "fencing tracker %s: %w" [AStr (namespace +:+ "/" +:+ trackerName)] e))
  | None =>
      do! g <- call (GetTracker uncached KindSharedResource namespace trackerName) in
      match g with
      | Err e => Ret (ignoreNotFound (Some e))
      | Ok old =>
          do! e <- createSuccessor old trackerName key in
          match e with
          | Some err => Ret (Some err)
          | None =>
              do! (_, e) <- retry_on_conflict backoff_retries (flag_attempt namespace trackerName) tt in
              Ret e
          end
      end
  end.

End Protocol.

End Promotion.
