(* ===== verification/PromotionSpec.v ===== *)
(** Promotion: what the successor inherits, that adopting twice is adopting once, and that the
    successor is written only behind a committed fence. *)
From stdpp Require Import strings base list gmap fin_maps.
From Stdlib Require Import Ascii ZArith Lia.
From S2P Require Import Prelude GoStrings Values ApiTypes Conditions Scope Client Applier ProgramLogic TrackerLogic TrackerSpec Controller Traces Promotion.
Local Open Scope string_scope.
Local Open Scope list_scope.
Local Open Scope go_scope.

Module PromotionSpec.
Import GoStrings Values ApiTypes Conditions Scope Client Applier ProgramLogic TrackerLogic TrackerSpec Controller Traces Promotion.

(** ** Merging records *)

(** The revert state of [src] is in [d], unless [d] had its own. *)
Definition revert_state_kept (src d : ContributorStatus) : Prop :=
  (PriorValuesCaptured src = true -> PriorValuesCaptured d = true) /\
  (PriorValues src <> None -> PriorValuesCaptured d = true \/ PriorValues d = PriorValues src) /\
  (OwnedPaths src <> [] -> OwnedPaths d <> []) /\
  (LastAppliedHash src <> "" -> LastAppliedHash d <> "") /\
  (CS_FieldManager src <> "" -> CS_FieldManager d <> "").

(** [d'] is the record [d] with nothing of it lost. *)
Definition extends (d d' : ContributorStatus) : Prop :=
  PatchRef d' = PatchRef d /\ State d' = State d /\ CS_Priority d' = CS_Priority d /\
  (PriorValuesCaptured d = true -> PriorValues d' = PriorValues d /\ PriorValuesCaptured d' = true) /\
  (PriorValues d <> None -> PriorValues d' = PriorValues d \/ PriorValuesCaptured d' = true) /\
  (OwnedPaths d <> [] -> OwnedPaths d' = OwnedPaths d) /\
  (LastAppliedHash d <> "" -> LastAppliedHash d' = LastAppliedHash d) /\
  (CS_FieldManager d <> "" -> CS_FieldManager d' = CS_FieldManager d).

#[export] Instance extends_refl : Reflexive extends.
Proof. intros d. unfold extends. tauto. Qed.

#[export] Instance extends_trans : Transitive extends.
Proof.
  intros a b c (H1 & H2 & H3 & H4 & H8 & H5 & H6 & H7) (K1 & K2 & K3 & K4 & K8 & K5 & K6 & K7). unfold extends.
  split; [congruence|]. split; [congruence|]. split; [congruence|].
  split; [intros H; destruct (H4 H) as [E F]; destruct (K4 F); split; congruence|].
  split; [intros H; destruct (H8 H) as [E|E]; [|right; by apply K4]|].
  { destruct K8 as [F|F]; [by rewrite E|left; congruence|by right]. }
  split; [intros H; pose proof (H5 H) as E; rewrite <- E in H; rewrite <- E; auto|].
  split; [intros H; pose proof (H6 H) as E; rewrite <- E in H; rewrite <- E; auto|].
  intros H; pose proof (H7 H) as E; rewrite <- E in H; rewrite <- E; auto.
Qed.

Lemma length_zero_eqb {A} (l : list A) : Nat.eqb (length l) 0 = bool_decide (l = []).
Proof. by destruct l. Qed.

(** Case analysis on what decides the merge of two records. *)
Ltac merge_cases d s :=
  unfold merge_record; cbn;
  rewrite ?length_zero_eqb;
  destruct (String.eqb_spec (CS_FieldManager d) ""), (String.eqb_spec (LastAppliedHash d) ""),
    (bool_decide_reflect (OwnedPaths d = [])), (PriorValuesCaptured d) eqn:?,
    (PriorValuesCaptured s) eqn:?, (PriorValues s) eqn:?; cbn in *.

Lemma merge_extends d s : extends d (merge_record d s).
Proof. unfold extends. merge_cases d s; naive_solver. Qed.

Lemma merge_keeps d s : revert_state_kept s (merge_record d s).
Proof. unfold revert_state_kept. merge_cases d s; naive_solver. Qed.

Lemma revert_state_extends s d d' : extends d d' -> revert_state_kept s d -> revert_state_kept s d'.
Proof.
  intros (_ & _ & _ & H4 & H8 & H5 & H6 & H7) (K1 & K0 & K2 & K3 & K4). unfold revert_state_kept.
  split; [intros H; by apply H4, K1|].
  split; [intros H; destruct (K0 H) as [E|E]; [left; by apply H4|]|].
  { destruct H8 as [G|G]; [by rewrite E|right; congruence|by left]. }
  split; [intros H; specialize (K2 H); by rewrite (H5 K2)|].
  split; [intros H; specialize (K3 H); by rewrite (H6 K3)|].
  intros H; specialize (K4 H); by rewrite (H7 K4).
Qed.

(** Adopting a record into a list. *)
Lemma adopt_record_extends l s : forall d, d ∈ l -> exists d', d' ∈ adopt_record l s /\ extends d d'.
Proof.
  induction l as [|x l IH]; intros d Hd; [by apply elem_of_nil in Hd|]. cbn.
  apply elem_of_cons in Hd as [->|Hd]; destruct (SameContributor _ _).
  - exists (merge_record x s). split; [left|apply merge_extends].
  - exists x. split; [left|done].
  - exists d. split; [by right|done].
  - destruct (IH _ Hd) as (d' & ? & ?). exists d'. split; [by right|done].
Qed.

Lemma adopt_record_has l s :
  exists d, d ∈ adopt_record l s /\ SameContributor (PatchRef d) (PatchRef s) = true /\ revert_state_kept s d.
Proof.
  induction l as [|x l IH]; cbn.
  - exists s. split; [left|]. split; [apply SameContributor_refl|]. unfold revert_state_kept. tauto.
  - destruct (SameContributor _ _) eqn:E.
    + exists (merge_record x s). split; [left|]. split; [done|apply merge_keeps].
    + destruct IH as (d & ? & ?). exists d. split; [by right|done].
Qed.

Lemma adopt_records_extends src : forall l d, d ∈ l -> exists d', d' ∈ adopt_records l src /\ extends d d'.
Proof.
  induction src as [|s src IH]; intros l d Hd; cbn; [by exists d|].
  destruct (adopt_record_extends _ s _ Hd) as (d1 & H1 & E1). destruct (IH _ _ H1) as (d2 & H2 & E2).
  exists d2. split; [done|]. by etrans.
Qed.

Lemma adopt_records_has src : forall l s, s ∈ src ->
  exists d, d ∈ adopt_records l src /\ SameContributor (PatchRef d) (PatchRef s) = true /\ revert_state_kept s d.
Proof.
  induction src as [|x src IH]; intros l s Hs; [by apply elem_of_nil in Hs|]. cbn.
  apply elem_of_cons in Hs as [->|Hs]; [|by apply IH].
  destruct (adopt_record_has l x) as (d & Hd & Hsame & Hk).
  destruct (adopt_records_extends src _ _ Hd) as (d' & Hd' & He). exists d'. split; [done|].
  split; [by destruct He as [-> _]|]. by eapply revert_state_extends.
Qed.

(** *** Adopting twice *)

(** Field by field, by cases on what is empty. *)
Ltac by_fields :=
  f_equal; rewrite ?length_zero_eqb; repeat case_match; bool_simpl;
  repeat match goal with
  | H : bool_decide _ = true |- _ => apply bool_decide_eq_true in H
  | H : bool_decide _ = false |- _ => apply bool_decide_eq_false in H
  end; congruence.

Lemma merge_idemp d s : merge_record (merge_record d s) s = merge_record d s.
Proof. destruct d as [? ? ? ? ? ? ? ? [] ?], s as [? ? ? ? ? ? ? [] [] ?]; unfold merge_record; cbn; by_fields. Qed.

Lemma merge_absorb d s x : merge_record d s = d -> merge_record (merge_record d x) s = merge_record d x.
Proof.
  destruct d as [? ? ? ? ? ? ? ? [] ?], s as [? ? ? ? ? ? ? [] [] ?], x as [? ? ? ? ? ? ? [] [] ?];
    unfold merge_record; cbn; rewrite ?length_zero_eqb; intros [=]; by_fields.
Qed.

(** A record that carries values carries the flag that they were captured: every record but those
    written before the flag existed. *)
Definition flagged (s : ContributorStatus) : Prop := PriorValues s <> None -> PriorValuesCaptured s = true.

Lemma merge_self s : flagged s -> merge_record s s = s.
Proof.
  unfold flagged. destruct s as [? ? ? ? ? ? ? [] [] ?]; unfold merge_record; cbn; intros H;
    try discriminate (H ltac:(discriminate)); by_fields.
Qed.

Lemma adopt_record_idemp l s : flagged s -> adopt_record (adopt_record l s) s = adopt_record l s.
Proof.
  intros Hs. induction l as [|d l IH]; cbn.
  - by rewrite SameContributor_refl, merge_self.
  - destruct (SameContributor (PatchRef d) (PatchRef s)) eqn:E; cbn; [by rewrite E, merge_idemp|by rewrite E, IH].
Qed.

Lemma adopt_record_absorb l s x :
  adopt_record l s = l -> adopt_record (adopt_record l x) s = adopt_record l x.
Proof.
  induction l as [|d l IH]; cbn; [done|].
  destruct (SameContributor (PatchRef d) (PatchRef s)) eqn:E; intros [= H].
  - destruct (SameContributor (PatchRef d) (PatchRef x)); cbn; rewrite E; [|by rewrite H].
    by rewrite (merge_absorb _ _ x H).
  - destruct (SameContributor (PatchRef d) (PatchRef x)); cbn; rewrite E; [by rewrite H|by rewrite IH].
Qed.

Lemma adopt_records_absorbed src : forall l s, adopt_record l s = l -> adopt_record (adopt_records l src) s = adopt_records l src.
Proof.
  induction src as [|x src IH]; intros l s H; cbn; [done|]. apply IH. by apply adopt_record_absorb.
Qed.

Lemma adopt_records_idemp src l : Forall flagged src -> adopt_records (adopt_records l src) src = adopt_records l src.
Proof.
  intros Hsrc. rewrite Forall_forall in Hsrc.
  assert (forall l', (forall s, s ∈ src -> adopt_record l' s = l') -> adopt_records l' src = l') as Hfix.
  { clear l Hsrc. induction src as [|x src IH]; intros l' H; cbn; [done|]. rewrite (H x) by left. apply IH.
    intros s Hs. apply H. by right. }
  apply Hfix. clear Hfix. revert l. induction src as [|x src IH]; intros l s Hs; [by apply elem_of_nil in Hs|]. cbn.
  apply elem_of_cons in Hs as [->|Hs].
  - apply adopt_records_absorbed, adopt_record_idemp, Hsrc. left.
  - apply IH; [|done]. intros y Hy. apply Hsrc. by right.
Qed.

(** ** The protocol *)

(** The tracker read under a name. *)
Definition read_under (id : string * string * string) (e : event ctlE) : option Tracker :=
  match ev_call e in ctlE R return R -> option Tracker with
  | GetTracker _ kind ns name => fun r =>
      if bool_decide ((kind, ns, name) = id) then match r with Ok t => Some t | Err _ => None end else None
  | _ => fun _ => None
  end (ev_reply e).

Definition was_read (id : string * string * string) (h : list (event ctlE)) (t : Tracker) : Prop :=
  exists e, e ∈ h /\ read_under id e = Some t.

(** An update of the status was sent and accepted. *)
Definition was_stored (h : list (event ctlE)) (t : Tracker) : Prop :=
  exists t', mkEvent _ (UpdateTrackerStatus t) (Ok t') ∈ h.

Lemma was_read_prefix id h h' t : h `prefix_of` h' -> was_read id h t -> was_read id h' t.
Proof. intros [k ->] (e & H & ?). exists e. split; [|done]. apply elem_of_app. by left. Qed.

Lemma was_stored_prefix h h' t : h `prefix_of` h' -> was_stored h t -> was_stored h' t.
Proof. intros [k ->] [t' H]. exists t'. apply elem_of_app. by left. Qed.

Lemma was_read_last h live kind ns name t :
  was_read (kind, ns, name) (h ++ [mkEvent _ (GetTracker live kind ns name) (Ok t)]) t.
Proof.
  eexists. split; [apply elem_of_app; right; by apply list_elem_of_singleton|]. unfold read_under. cbn. by rewrite bool_decide_true.
Qed.

Lemma was_stored_last h t t' : was_stored (h ++ [mkEvent _ (UpdateTrackerStatus t) (Ok t')]) t.
Proof. exists t'. apply elem_of_app. right. by apply list_elem_of_singleton. Qed.

(** The two trackers of a promotion: the namespaced one it starts from, and its successor. *)
Section Roles.
Variable key : TargetKey.

Definition old_tracker : string * string * string := (KindSharedResource, Key_Namespace key, TrackerName key).
Definition successor : string * string * string := (KindClusterSharedResource, "", TrackerName key).

(** [t] is the old tracker as it was read, with the fence put up. *)
Definition fencing (h : list (event ctlE)) (t : Tracker) : Prop :=
  exists now old, was_read old_tracker h old /\ PromotedTo (GetTrackerStatus old) = None /\
    t = set_tracker_status (fenced now (TrackerName key) (GetTrackerStatus old)) old.

(** [t] is the successor as it was read, with what it had merged with what the old tracker had. *)
Definition adopting (h : list (event ctlE)) (t : Tracker) : Prop :=
  exists now current old, was_read successor h current /\ was_read old_tracker h old /\
    t = set_tracker_status (adoptStatus now (GetTrackerStatus current) (GetTrackerStatus old)
      (Namespace (tracker_meta old)) (Name (tracker_meta old))) current.

(** [t] is the old tracker as it was read, fenced, with the fence flagged as adopted. *)
Definition flagging (h : list (event ctlE)) (t : Tracker) : Prop :=
  exists old p, was_read old_tracker h old /\ PromotedTo (GetTrackerStatus old) = Some p /\ Adopted p = false /\
    t = set_tracker_status (with_promoted (Some (mkPromotionRef (Promotion_Name p) true)) (GetTrackerStatus old)) old.

(** The old tracker's fence is committed: it was read fenced, or the server took the update fencing it. *)
Definition fence_committed (h : list (event ctlE)) : Prop :=
  (exists old, was_read old_tracker h old /\ IsFenced (GetTrackerStatus old) = true) \/
  exists t, was_stored h t /\ fencing h t.

(** The successor has the old tracker's state: the server took the update giving it that state, or the
    old tracker was read as already adopted. *)
Definition succession_committed (h : list (event ctlE)) : Prop :=
  (exists old, was_read old_tracker h old /\ already_adopted (GetTrackerStatus old) = true) \/
  exists t, was_stored h t /\ adopting h t.

Definition promotion_policy : policy ctlE := fun h R c =>
  match c with
  | CreateTracker t => fence_committed h /\ t = successor_for (TrackerName key) key
  | UpdateTrackerStatus t =>
      fencing h t \/ (fence_committed h /\ adopting h t) \/ (succession_committed h /\ flagging h t)
  | GetTracker _ kind ns name => (kind, ns, name) = old_tracker \/ (kind, ns, name) = successor
  | Now => True
  | _ => False
  end.

Lemma fencing_prefix h h' t : h `prefix_of` h' -> fencing h t -> fencing h' t.
Proof. intros Hp (now & old & H & ?). exists now, old. split; [by eapply was_read_prefix|done]. Qed.

Lemma adopting_prefix h h' t : h `prefix_of` h' -> adopting h t -> adopting h' t.
Proof. intros Hp (now & c & old & H & H' & ?). exists now, c, old. split; [by eapply was_read_prefix|]. split; [by eapply was_read_prefix|done]. Qed.

Lemma fence_prefix h h' : h `prefix_of` h' -> fence_committed h -> fence_committed h'.
Proof.
  intros Hp [(old & H & ?)|(t & H & H')]; [left; exists old; split; [by eapply was_read_prefix|done]|right; exists t].
  split; [by eapply was_stored_prefix|by eapply fencing_prefix].
Qed.

Lemma succession_prefix h h' : h `prefix_of` h' -> succession_committed h -> succession_committed h'.
Proof.
  intros Hp [(old & H & ?)|(t & H & H')]; [left; exists old; split; [by eapply was_read_prefix|done]|right; exists t].
  split; [by eapply was_stored_prefix|by eapply adopting_prefix].
Qed.

Variable uncached : bool.

Lemma fence_attempt_wp h :
  wp promotion_policy (fence_attempt uncached (Key_Namespace key) (TrackerName key) tt) h
    (fun h' '(_, e) => e = None -> fence_committed h').
Proof.
  unfold fence_attempt. cbn [bind call wp]. split; [by left|]. intros [old|e]; [|done].
  set (h1 := h ++ _). assert (was_read old_tracker h1 old) as Hold by apply was_read_last. clearbody h1.
  destruct (PromotedTo (GetTrackerStatus old)) as [p|] eqn:E; cbn [is_some].
  - intros _. left. exists old. split; [done|]. unfold IsFenced. by rewrite E.
  - cbn [bind call wp]. split; [done|]. intros now.
    assert (fencing (h1 ++ [mkEvent _ Now now]) (set_tracker_status (fenced now (TrackerName key) (GetTrackerStatus old)) old)) as Hf.
    { exists now, old. split; [|done]. eapply was_read_prefix; [apply prefix_last|done]. }
    split; [by left|]. intros [t|e]; [|done]. intros _. right. eexists. split; [apply was_stored_last|].
    eapply fencing_prefix; [apply prefix_last|exact Hf].
Qed.

Lemma adopt_attempt_wp old h :
  fence_committed h -> was_read old_tracker h old ->
  wp promotion_policy (adopt_attempt uncached old (TrackerName key) tt) h
    (fun h' '(_, e) => e = None -> succession_committed h').
Proof.
  intros Hf Ho. unfold adopt_attempt. cbn [bind call wp]. split; [by right|]. intros [current|e]; [|done].
  cbn [bind call wp]. split; [done|]. intros now. cbv zeta. cbn [bind call wp].
  set (h1 := h ++ _). set (h2 := h1 ++ _). assert (h `prefix_of` h2) as Hp by (etrans; apply prefix_last).
  assert (was_read successor h2 current) as Hc by (eapply was_read_prefix; [apply prefix_last|apply was_read_last]).
  set (t := set_tracker_status _ current). assert (adopting h2 t) as Ha.
  { exists now, current, old. split; [done|]. split; [by eapply was_read_prefix|done]. }
  clearbody h2. split; [right; left; split; [by eapply fence_prefix|done]|].
  intros [t'|e]; [|done]. intros _. right. exists t. split; [apply was_stored_last|].
  eapply adopting_prefix; [apply prefix_last|done].
Qed.

Lemma createSuccessor_wp old h :
  fence_committed h -> was_read old_tracker h old -> (already_adopted (GetTrackerStatus old) = true -> succession_committed h) ->
  wp promotion_policy (createSuccessor uncached old (TrackerName key) key) h (fun h' e => e = None -> succession_committed h').
Proof.
  intros Hf Ho Ha. unfold createSuccessor. destruct (already_adopted _); [by intros _; apply Ha|].
  cbn [bind call wp]. split; [by right|]. intros g.
  eapply (wp_use _ _ _ _ (fun h' _ => True)).
  - destruct g as [t|e]; [done|]. destruct (IsNotFound e); [|done]. cbn [bind call wp].
    split; [split; [eapply fence_prefix; [apply prefix_last|done]|done]|].
    intros [ce|]; [by destruct (IsAlreadyExists ce)|done].
  - intros h1 [e|] Hp1 _; [done|].
    assert (h `prefix_of` h1) as Hp by (etrans; [apply prefix_last|exact Hp1]).
    eapply wp_use.
    { apply (retry_wp _ _ (fun h' _ => fence_committed h' /\ was_read old_tracker h' old)
        (fun h' _ e => (fence_committed h' /\ was_read old_tracker h' old) /\ (e = None -> succession_committed h'))).
      - intros h2 [] [Hf2 Ho2].
        eapply wp_post; [apply wp_extends; by apply adopt_attempt_wp|]. intros h3 [[] e] [Hp3 Ha3].
        split; [|done]. split; [by eapply fence_prefix|by eapply was_read_prefix].
      - by intros h2 [] e [? _].
      - split; [by eapply fence_prefix|by eapply was_read_prefix]. }
    by intros h2 [[] e] _ [_ ?].
Qed.

Lemma flag_attempt_wp h :
  succession_committed h ->
  wp promotion_policy (flag_attempt uncached (Key_Namespace key) (TrackerName key) tt) h (fun _ _ => True).
Proof.
  intros Ha. unfold flag_attempt. cbn [bind call wp]. split; [by left|]. intros [current|e]; [|done].
  destruct (PromotedTo (GetTrackerStatus current)) as [p|] eqn:Ep; [|done]. destruct (Adopted p) eqn:Ead; [done|].
  cbn [bind call wp]. split; [|by intros ?]. right; right. split; [eapply succession_prefix; [apply prefix_last|done]|].
  exists current, p. split; [apply was_read_last|done].
Qed.

Lemma promoteIfNeeded_wp h : wp promotion_policy (promoteIfNeeded uncached key) h (fun _ _ => True).
Proof.
  unfold promoteIfNeeded. cbv zeta. eapply wp_use.
  { apply (retry_wp _ _ (fun _ _ => True) (fun h' _ e => e = None -> fence_committed h')); [|done..].
    intros h' [] _. apply fence_attempt_wp. }
  intros h1 [[] [e|]] _ Hf; [by destruct (IsNotFound e)|]. specialize (Hf eq_refl).
  cbn [bind call wp]. split; [by left|]. intros [old|e]; [|done].
  eapply wp_use; [apply createSuccessor_wp|].
  - eapply fence_prefix; [apply prefix_last|done].
  - apply was_read_last.
  - intros H. left. exists old. split; [apply was_read_last|done].
  - intros h2 [e|] _ Ha; [done|]. specialize (Ha eq_refl).
    eapply wp_use; [|by intros h3 [[] e] _ _].
    apply (retry_wp _ _ (fun h' _ => succession_committed h') (fun h' _ _ => succession_committed h')); [|done|done].
    intros h3 [] H3. eapply wp_post; [apply wp_extends; by apply flag_attempt_wp|].
    intros h4 [[] e] [Hp4 _]. by eapply succession_prefix.
Qed.

End Roles.

(** ** Properties *)

(** What a successor inherits: the provenance that decides who may delete the target is never
    lost and is taken over where the successor has none; every record the successor had keeps its
    identity and its captured prior values; every contributor of the old tracker is in the list with
    its revert state; and the successor is not fenced. *)
Theorem adoptStatus_inherits (now : Z) (dst src : SharedResourceStatus) (ns name : string) :
  let st := adoptStatus now dst src ns name in
  provenance_kept dst st /\
  (CreatedByOperator src = true -> CreatedByOperator st = true) /\
  (CreatorPatchRef dst = None -> CreatorPatchRef st = CreatorPatchRef src) /\
  (forall d, d ∈ Contributors dst -> exists d', d' ∈ Contributors st /\ extends d d') /\
  (forall s, s ∈ Contributors src -> exists d, d ∈ Contributors st /\
     SameContributor (PatchRef d) (PatchRef s) = true /\ revert_state_kept s d) /\
  ContributorCount st = Z.of_nat (length (Contributors st)) /\ IsFenced st = false.
Proof.
  cbv zeta. unfold provenance_kept, adoptStatus, setTrackerCond. cbn.
  split; [split; [by intros ->|split; [by intros c ->|]]|].
  { intros H. apply String.eqb_neq in H. by rewrite H. }
  split; [intros ->; apply orb_true_r|]. split; [by intros ->|].
  split; [apply adopt_records_extends|]. split; [apply adopt_records_has|done].
Qed.

(** Adoption can be repeated: a promotion resumed after a crash adopts again and changes
    nothing, the time and condition included, provided the old tracker's records that carry prior
    values carry the capture flag. *)
Theorem adoptStatus_idempotent (now now' : Z) (dst src : SharedResourceStatus) (ns name : string)
    (Hflagged : Forall flagged (Contributors src)) :
  adoptStatus now' (adoptStatus now dst src ns name) src ns name = adoptStatus now dst src ns name.
Proof.
  unfold adoptStatus at 1. unfold setTrackerCond at 1, with_conditions at 1.
  cbn [Contributors SR_Conditions CreatedByOperator CreatorPatchRef ObservedBaseHash ObservedTargetUID
       ObservedResourceVersion Phase Conflicts PromotedTo ContributorCount adoptStatus setTrackerCond with_conditions].
  rewrite adopt_records_idemp by done. rewrite SetCondition_idemp by done.
  unfold adoptStatus, setTrackerCond, with_conditions. cbn. f_equal.
  - destruct (String.eqb_spec (Phase dst) ""), (String.eqb_spec (Phase dst) TrackerPhasePromoting); cbn; try done.
    rewrite (proj2 (String.eqb_neq (Phase dst) "")), (proj2 (String.eqb_neq (Phase dst) TrackerPhasePromoting)); done.
  - by destruct (CreatedByOperator dst), (CreatedByOperator src).
  - by destruct (CreatorPatchRef dst), (CreatorPatchRef src).
  - by destruct (String.eqb (ObservedBaseHash dst) "") eqn:E; rewrite ?E; [destruct (String.eqb (ObservedBaseHash src) "")|].
  - by destruct (String.eqb (ObservedTargetUID dst) "") eqn:E; rewrite ?E; [destruct (String.eqb (ObservedTargetUID src) "")|].
  - by destruct (String.eqb (ObservedResourceVersion dst) "") eqn:E; rewrite ?E;
      [destruct (String.eqb (ObservedResourceVersion src) "")|].
Qed.

(** (C13) The order that keeps two trackers from writing one target.  Whatever the API server answers, a
    promotion for a target reads and writes two trackers only: the namespaced one of the target's name and
    namespace, and the cluster-scoped one of the same name, its successor.
    - It fences the old tracker: its status as read, which was not fenced, with the fence.
    - It creates the successor, with its finalizer, and gives it the merge of its own state and the old
      tracker's, both as read, only once the fence of the old tracker is committed: read, or accepted.
    - It flags the fence of the old tracker, as read, as adopted, which lets it retire, only once that merge
      has been accepted for the successor, or the old tracker was read as adopted already.
    It makes no other call, to the target least of all. *)
Theorem promoteIfNeeded_fences_first (uncached : bool) (key : TargetKey) (tr pre suf : list (event ctlE))
    (o : option goerror) (R : Type) (c : ctlE R) (r : R)
    (Hexec : exec (promoteIfNeeded uncached key) tr o) (Htr : tr = pre ++ mkEvent R c r :: suf) :
  promotion_policy key pre R c.
Proof. destruct (wp_exec _ _ _ _ _ _ (promoteIfNeeded_wp key uncached []) Hexec) as [H _]. exact (H _ _ _ Htr). Qed.

(** A server with one namespaced tracker, not yet fenced when first read, and no successor until one
    is created. *)
Definition promotion_server (R : Type) (e : ctlE R) (s : nat) : R * nat :=
  let old promoted := SharedResource (mkTrackerObject
    (mkObjectMeta "t" "team-a" "u9" "1" 1 0 None [TrackerFinalizer] ∅) (mkTrackerTargetRef "v1" "ConfigMap" "cm" "team-a")
    (with_promoted promoted (sample_status true (Some (mkContributorRef "ResourcePatch" "a" "team-a" "u1"))))) in
  let new := ClusterSharedResource (mkTrackerObject
    (mkObjectMeta "t" "" "u8" "1" 1 0 None [TrackerFinalizer] ∅) (mkTrackerTargetRef "v1" "ConfigMap" "cm" "team-a")
    empty_status) in
  (match e in ctlE R return R with
   | OnTarget _ _ e' => match e' in targetE R return R with
       | GetTarget _ => Ok ∅ | CreateTarget x | UpdateTarget x | ApplyTarget x _ _ => Ok x end
   | DeleteTarget _ _ => None
   | BuildClient _ => None
   | GetTracker _ kind _ _ =>
       if String.eqb kind KindSharedResource
       then Ok (old (if (s <=? 1)%nat then None else Some (mkPromotionRef "t" false)))
       else if (s <=? 5)%nat then Err (NewNotFound "terasky.com" "clustersharedresources" "t") else Ok new
   | CreateTracker _ => None
   | UpdateTracker t' | UpdateTrackerStatus t' => Ok t'
   | DeleteTracker _ => None
   | GetContributor _ _ _ => Err (NewNotFound "" "" "")
   | ListContributors _ _ _ => Ok []
   | UpdateContributor c' | UpdateContributorStatus c' => Ok c'
   | ListTargets _ _ _ _ => Ok []
   | ListNamespaces _ => Ok []
   | AuthorizeAs _ _ => Ok (true, "")
   | EnsureWatch _ _ _ => None
   | Now => 0%Z
   end, S s).

Definition promotion_key : TargetKey := mkTargetKey "v1" "ConfigMap" "team-a" "cm".

Definition promotion_run : list (event ctlE) * option goerror :=
  behaviour promotion_server (promoteIfNeeded true promotion_key) 0.

Definition adopted_write : Tracker :=
  match promotion_run.1 !! 8 with
  | Some e => match ev_call e with UpdateTrackerStatus t => t | _ => successor_for "" promotion_key end
  | None => successor_for "" promotion_key
  end.

Lemma promoteIfNeeded_fences_first_witness :
  length promotion_run.1 = 11 /\ TrackerKind adopted_write = KindClusterSharedResource /\
  fence_committed promotion_key (take 8 promotion_run.1) /\ adopting promotion_key (take 8 promotion_run.1) adopted_write.
Proof.
  split; [vm_refl|]. split; [vm_refl|].
  assert (IsFenced (GetTrackerStatus adopted_write) = false) as Hf by vm_refl.
  destruct (promoteIfNeeded_fences_first true promotion_key promotion_run.1 (take 8 promotion_run.1)
    (drop 9 promotion_run.1) promotion_run.2 _ (UpdateTrackerStatus adopted_write) (Ok adopted_write)) as [H|[H|[_ H]]].
  - apply behaviour_exec.
  - vm_refl.
  - destruct H as (now & old & _ & _ & E). by rewrite E, status_set_status in Hf.
  - exact H.
  - destruct H as (old & p & _ & _ & _ & E). by rewrite E, status_set_status in Hf.
Defined.

End PromotionSpec.
