(* ===== verification/ContributorReconciler.v ===== *)
(** The contributor's reconcile loop: [internal/controller/contributor_controller.go],
    [getTracker] of [helpers.go] and the target index of [index.go].

    What the code takes from Kubernetes libraries is the interface [KubeLib]. *)
From stdpp Require Import strings base list gmap fin_maps.
From Stdlib Require Import Ascii ZArith Lia.
From S2P Require Import Prelude GoStrings Values ApiTypes Identity Scope Kube Render Client Applier TrackerLogic Controller Promotion.
Local Open Scope string_scope.
Local Open Scope list_scope.
Local Open Scope go_scope.

Module ContributorReconciler.
Import GoStrings Values ApiTypes Identity Scope Kube Render Client Applier TrackerLogic Controller Promotion.

(** ** The target index *)

Definition targetKeysFor (c : Contributor) : list string :=
  let spec := GetPatchSpec c in
  if negb (String.eqb (effective_mode spec) TargetModeSingle) || String.eqb (Target_Name (Target spec)) "" then []
  else [TargetKey_String (TargetKeyFor c)].

(** ** Waking contributors *)

Definition contributorsOfTracker (wantKind : string) (t : Tracker) : list NamespacedName :=
  map (fun c => mkNamespacedName (Ref_Namespace (PatchRef c)) (Ref_Name (PatchRef c)))
    (filter (fun c => String.eqb (Ref_Kind (PatchRef c)) wantKind) (Contributors (GetTrackerStatus t))).

Section Reconciling.
Context {K : KubeLib}.
(** Whether an uncached reader and an authorizer are configured, and how often, in milliseconds,
    authorization is checked again. *)
Variable uncached authorizer : bool.
Variable ReauthorizeAfter : Z.

Definition getTracker (ref : TrackerRef) : ctlM (res goerror Tracker) :=
  match emptyTracker (TrackerRef_Kind ref) with
  | Err e => Ret (Err e)
  | Ok _ => call (GetTracker false (TrackerRef_Kind ref) (TrackerRef_Namespace ref) (TrackerRef_Name ref))
  end.

Definition isNamespacedKind (apiVersion kind : string) : res goerror bool :=
  match ParseGroupVersion apiVersion with
  | Err e => Err e
  | Ok _ => let! (_, namespaced) := rest_mapping apiVersion kind in Ok namespaced
  end.

(** ** Deletion *)

(** Whether some tracker the contributor is registered with still lists it. *)
Fixpoint still_registered (ref : ContributorRef) (trs : list TrackerRef) (acc : bool) : ctlM (res goerror bool) :=
  match trs with
  | [] => Ret (Ok acc)
  | tr :: rest =>
      do! t <- getTracker tr in
      match t with
      | Err e => if IsNotFound e then still_registered ref rest acc else Ret (Err e)
      | Ok tracker =>
          still_registered ref rest (if is_some (FindContributor (GetTrackerStatus tracker) ref) then true else acc)
      end
  end.

Definition reconcileDelete (obj : Contributor) : ctlM outcome :=
  if negb (ContainsFinalizer ContributorFinalizer (c_meta obj)) then Ret done_
  else
    do! r <- still_registered (ContributorRefOf obj) (SharedResourceRefs (GetPatchStatus obj)) false in
    match r with
    | Err e => Ret (failed e)
    | Ok true => Ret (requeue_after 2000)
    | Ok false =>
        do! u <- call (UpdateContributor
          (set_contributor_meta (RemoveFinalizer ContributorFinalizer (c_meta obj)) obj)) in
        Ret (finished (ignoreNotFound (err_of u)))
    end.

(** ** Targets *)

Definition selectorNamespaces (obj : Contributor) : ctlM (res goerror (list string)) :=
  if negb (IsClusterScoped obj) then Ret (Ok [Namespace (c_meta obj)])
  else
    match Target_NamespaceSelector (Target (GetPatchSpec obj)) with
    | None => Ret (Ok [""])
    | Some sel =>
        match selector_error sel with
        | Some e => Ret (Err (Wrapf "parsing namespaceSelector: %w" [] e))
        | None =>
            do! l <- call (ListNamespaces sel) in
            match l with
            | Err e => Ret (Err (Wrapf "listing namespaces: %w" [] e))
            | Ok names => Ret (Ok names)
            end
        end
    end.

Definition effective_max (spec : ResourcePatchSpec) : Z :=
  let m := Target_MaxTargets (Target spec) in if (m <=? 0)%Z then 100%Z else m.

(** The inner loop over a list's items, given as namespace and name. *)
Fixpoint add_keys (spec : ResourcePatchSpec) (items : list (string * string)) (keys : list TargetKey)
    : res goerror (list TargetKey) :=
  match items with
  | [] => Ok keys
  | (ns, name) :: rest =>
      let keys := keys ++ [mkTargetKey (Target_APIVersion (Target spec)) (Target_Kind (Target spec)) ns name] in
      if (effective_max spec <? Z.of_nat (length keys))%Z then
        Err (Errorf "selector matched more than maxTargets=%d objects; narrow the selector or raise the cap"
          [AInt (effective_max spec)])
      else add_keys spec rest keys
  end.

Fixpoint list_targets (spec : ResourcePatchSpec) (namespaces : list string) (keys : list TargetKey)
    : ctlM (res goerror (list TargetKey)) :=
  match namespaces with
  | [] => Ret (Ok keys)
  | ns :: rest =>
      do! l <- call (ListTargets (Target_APIVersion (Target spec)) (Target_Kind (Target spec))
        (Target_Selector (Target spec)) (if String.eqb ns "" then None else Some ns)) in
      match l with
      | Err e => Ret (Err (Wrapf "listing targets: %w" [] e))
      | Ok items =>
          match add_keys spec items keys with
          | Err e => Ret (Err e)
          | Ok keys => list_targets spec rest keys
          end
      end
  end.

Definition resolveSelector (obj : Contributor) : ctlM (res goerror (list TargetKey)) :=
  let spec := GetPatchSpec obj in
  match ParseGroupVersion (Target_APIVersion (Target spec)) with
  | Err e => Ret (Err (Wrapf "parsing target apiVersion: %w" [] e))
  | Ok _ =>
      match (match Target_Selector (Target spec) with Some s => selector_error s | None => None end) with
      | Some e => Ret (Err (Wrapf "parsing target selector: %w" [] e))
      | None =>
          try! namespaces <- selectorNamespaces obj in
          list_targets spec namespaces []
      end
  end.

Definition resolveTargets (obj : Contributor) : ctlM (res goerror (list TargetKey)) :=
  if String.eqb (effective_mode (GetPatchSpec obj)) TargetModeSingle then Ret (Ok [TargetKeyFor obj])
  else resolveSelector obj.

(** ** Trackers *)

(** Create the tracker; losing the race to another creator is fine. *)
Definition create_tracker (ref : TrackerRef) (key : TargetKey) : ctlM (res goerror TrackerRef) :=
  match newTracker (TrackerRef_Kind ref) (TrackerRef_Name ref) (TrackerRef_Namespace ref) key with
  | Err e => Ret (Err e)
  | Ok created =>
      do! c <- call (CreateTracker (set_tracker_meta (AddFinalizer TrackerFinalizer (tracker_meta created)) created)) in
      match c with
      | None => Ret (Ok ref)
      | Some e => if IsAlreadyExists e then Ret (Ok ref) else Ret (Err e)
      end
  end.

Definition cluster_ref (key : TargetKey) : TrackerRef := mkTrackerRef KindClusterSharedResource (TrackerName key) "".

(** The second half of [ensureTracker]: use the tracker the rule names, or create it. *)
Definition join_tracker (obj : Contributor) (key : TargetKey) : ctlM (res goerror TrackerRef) :=
  let kind := TrackerKindFor key (IsClusterScoped obj) in
  let ref := mkTrackerRef kind (TrackerName key) (TrackerNamespace kind key) in
  do! t <- getTracker ref in
  match t with
  | Ok tracker =>
      match PromotedTo (GetTrackerStatus tracker) with
      | Some p => Ret (Ok (mkTrackerRef KindClusterSharedResource (Promotion_Name p) ""))
      | None => Ret (Ok ref)
      end
  | Err e => if IsNotFound e then create_tracker ref key else Ret (Err e)
  end.

Definition ensureTracker (obj : Contributor) (key : TargetKey) : ctlM (res goerror TrackerRef) :=
  do! promoted <-
    (if IsClusterScoped obj && negb (IsClusterScopedTarget key) then promoteIfNeeded uncached key else Ret None) in
  match promoted with
  | Some e => Ret (Err e)
  | None =>
      if negb (IsClusterScoped obj) && negb (IsClusterScopedTarget key) then
        do! existing <- call (GetTracker uncached KindClusterSharedResource "" (TrackerName key)) in
        match existing with
        | Ok _ => Ret (Ok (cluster_ref key))
        | Err e => if IsNotFound e then join_tracker obj key else Ret (Err e)
        end
      else join_tracker obj key
  end.

Fixpoint ensure_all (obj : Contributor) (keys : list TargetKey) : ctlM (res goerror (list TrackerRef)) :=
  match keys with
  | [] => Ret (Ok [])
  | key :: rest =>
      try! ref <- ensureTracker obj key in
      try! refs <- ensure_all obj rest in
      Ret (Ok (ref :: refs))
  end.

(** ** Status *)

(** How many targets are in each state. *)
Record tally := mkTally { n_applied : Z; n_conflicted : Z; n_superseded : Z; n_waiting : Z }.

Definition count_state (s : string) (n : tally) : tally :=
  if String.eqb s ContributorStateApplied
  then mkTally (n_applied n + 1) (n_conflicted n) (n_superseded n) (n_waiting n)
  else if String.eqb s ContributorStateConflicted
  then mkTally (n_applied n) (n_conflicted n + 1) (n_superseded n) (n_waiting n)
  else if String.eqb s ContributorStateSuperseded
  then mkTally (n_applied n) (n_conflicted n) (n_superseded n + 1) (n_waiting n)
  else mkTally (n_applied n) (n_conflicted n) (n_superseded n) (n_waiting n + 1).

Definition waiting_one (n : tally) : tally :=
  mkTally (n_applied n) (n_conflicted n) (n_superseded n) (n_waiting n + 1).

(** What a target's status says given its tracker, and the tally after it. *)
Definition observe_target (ref : ContributorRef) (key : TargetKey) (t : option Tracker) (n : tally)
    : TargetStatus * tally :=
  let ts := mkTargetStatus (Key_APIVersion key) (Key_Kind key) (Key_Name key) (Key_Namespace key) in
  match t with
  | None => (ts "" "", waiting_one n)
  | Some tracker =>
      let st := GetTrackerStatus tracker in
      match FindContributor st ref with
      | Some rec => (ts (ObservedTargetUID st) (State rec), count_state (State rec) n)
      | None => (ts (ObservedTargetUID st) "", waiting_one n)
      end
  end.

(** The loop of [syncStatus]; a key without a tracker is only observed. *)
Fixpoint observe_targets (ref : ContributorRef) (keys : list TargetKey) (trackers : list TrackerRef) (n : tally)
    : ctlM (res goerror (list TargetStatus * tally)) :=
  match keys, trackers with
  | [], _ => Ret (Ok ([], n))
  | key :: keys, [] =>
      try! (rest, n) <- observe_targets ref keys [] n in
      Ret (Ok (mkTargetStatus (Key_APIVersion key) (Key_Kind key) (Key_Name key) (Key_Namespace key) "" "" :: rest, n))
  | key :: keys, tr :: trackers =>
      do! t <- getTracker tr in
      let go t :=
        let '(ts, n) := observe_target ref key t n in
        try! (rest, n) <- observe_targets ref keys trackers n in
        Ret (Ok (ts :: rest, n)) in
      match t with
      | Ok tracker => go (Some tracker)
      | Err e => if IsNotFound e then go None else Ret (Err e)
      end
  end.

Definition with_targets (targets : list TargetStatus) (refs : list TrackerRef) (s : ResourcePatchStatus) : ResourcePatchStatus :=
  mkResourcePatchStatus (Conditions s) targets refs (AppliedGeneration s) (AuthorizedAs s) (LastAuthorizedTime s).
Definition with_applied_generation (g : Z) (s : ResourcePatchStatus) : ResourcePatchStatus :=
  mkResourcePatchStatus (Conditions s) (ObservedTargets s) (SharedResourceRefs s) g (AuthorizedAs s) (LastAuthorizedTime s).
Definition with_authorization (who : string) (at_ : option Z) (s : ResourcePatchStatus) : ResourcePatchStatus :=
  mkResourcePatchStatus (Conditions s) (ObservedTargets s) (SharedResourceRefs s) (AppliedGeneration s) who at_.

(** The [Ready] verdict of a tally over [total] targets: status, reason and message. *)
Definition ready_verdict (total : Z) (n : tally) : string * string * message :=
  if (total =? 0)%Z then (ConditionFalse, "WaitingForTarget", text "no targets resolved")
  else if (0 <? n_conflicted n)%Z then
    (ConditionFalse, "Conflict",
     Msg "%d of %d targets have an unresolved field conflict" [AInt (n_conflicted n); AInt total])
  else if (0 <? n_superseded n)%Z then
    (ConditionFalse, "Superseded",
     Msg "a higher-priority contributor holds contested fields on %d of %d targets; this contribution is not present"
       [AInt (n_superseded n); AInt total])
  else if (0 <? n_waiting n)%Z then
    (ConditionFalse, "WaitingForTarget", Msg "%d of %d targets not yet applied" [AInt (n_waiting n); AInt total])
  else (ConditionTrue, "Applied", Msg "applied to %d target(s)" [AInt (n_applied n)]).

Definition syncStatus (obj : Contributor) (keys : list TargetKey) (trackers : list TrackerRef) : ctlM (option goerror) :=
  do! o <- observe_targets (ContributorRefOf obj) keys trackers (mkTally 0 0 0 0) in
  match o with
  | Err e => Ret (Some e)
  | Ok (observed, n) =>
      let obj := set_contributor_status (with_targets observed trackers (GetPatchStatus obj)) obj in
      let '(status, reason, msg) := ready_verdict (Z.of_nat (length keys)) n in
      do! obj <- contributorCond obj "Ready" status reason msg in
      let obj :=
        if String.eqb status ConditionTrue
        then set_contributor_status (with_applied_generation (Generation (c_meta obj)) (GetPatchStatus obj)) obj
        else obj in
      do! obj <- contributorCond obj "Conflict" (boolCondition (0 <? n_conflicted n)%Z) "Conflict" (text "") in
      do! obj <- contributorCond obj "Synced" ConditionTrue "ReconcileSuccess" (text "") in
      do! u <- call (UpdateContributorStatus obj) in
      Ret (err_of u)
  end.

Definition setStatusError (obj : Contributor) (reason : string) (msg : message) : ctlM (option goerror) :=
  do! obj <- contributorCond obj "Ready" ConditionFalse reason msg in
  do! obj <- contributorCond obj "Synced" ConditionFalse reason msg in
  do! u <- call (UpdateContributorStatus obj) in
  Ret (err_of u).

Definition setInvalid (obj : Contributor) (msg : message) : ctlM (option goerror) :=
  setStatusError obj "InvalidSpec" msg.

(** ** Authorization *)

(** Ask the authorizer and record its verdict. *)
Definition recheck (user : UserInfo) (obj : Contributor) : ctlM (Contributor * Z * option goerror)%type :=
  do! a <- call (AuthorizeAs user obj) in
  match a with
  | Err e => Ret (obj, ReauthorizeAfter, Some e)
  | Ok (allowed, reason) =>
      do! now <- call Now in
      let st := GetPatchStatus obj in
      let obj := set_contributor_status
        (with_authorization (User_Username user)
           (if (allowed : bool) then Some now else LastAuthorizedTime st) st) obj in
      do! obj <-
        (if allowed then contributorCond obj "Authorized" ConditionTrue "Authorized" (text "")
         else contributorCond obj "Authorized" ConditionFalse "Unauthorized" (text reason)) in
      do! u <- call (UpdateContributorStatus obj) in
      match u with
      | Ok stored => Ret (stored, ReauthorizeAfter, None)
      | Err e => Ret (obj, ReauthorizeAfter, Some e)
      end
  end.

(** The contributor afterwards, the delay until the next check, and the error. *)
Definition reauthorize (obj : Contributor) : ctlM (Contributor * Z * option goerror)%type :=
  if negb authorizer || (ReauthorizeAfter <=? 0)%Z then Ret (obj, 0%Z, None)
  else
    match IdentityFromAnnotations (c_meta obj) with
    | None => Ret (obj, ReauthorizeAfter, None)
    | Some user =>
        match LastAuthorizedTime (GetPatchStatus obj) with
        | None => recheck user obj
        | Some last =>
            do! now <- call Now in
            if (now - last <? ReauthorizeAfter)%Z then
              do! now' <- call Now in
              Ret (obj, (ReauthorizeAfter - (now' - last))%Z, None)
            else recheck user obj
        end
    end.

(** ** [Reconcile], of the contributor kind [kind] *)
Definition Reconcile (kind namespace name : string) : ctlM outcome :=
  do! g <- call (GetContributor kind namespace name) in
  match g with
  | Err e => Ret (finished (ignoreNotFound (Some e)))
  | Ok obj =>
      if deleting (c_meta obj) then reconcileDelete obj
      else
        match Validate obj (Some isNamespacedKind) with
        | (_ :: _) as errs =>
            do! e <- setInvalid obj (text (aggregate_error errs)) in
            Ret (finished e)
        | [] =>
            if negb (ContainsFinalizer ContributorFinalizer (c_meta obj)) then
              do! u <- call (UpdateContributor
                (set_contributor_meta (AddFinalizer ContributorFinalizer (c_meta obj)) obj)) in
              match u with Err e => Ret (failed e) | Ok _ => Ret requeue end
            else
              do! (obj, after, err) <- reauthorize obj in
              match err with
              | Some e => Ret (failed e)
              | None =>
                  do! keys <- resolveTargets obj in
                  match keys with
                  | Err e =>
                      do! se <- setStatusError obj "InvalidSpec" (MsgError e) in
                      Ret (finished se)
                  | Ok keys =>
                      do! trackers <- ensure_all obj keys in
                      match trackers with
                      | Err e => Ret (failed e)
                      | Ok trackers =>
                          do! e <- syncStatus obj keys trackers in
                          match e with
                          | Some e => Ret (failed e)
                          | None => Ret (requeue_after after)
                          end
                      end
                  end
              end
        end
  end.

End Reconciling.

End ContributorReconciler.
