(* ===== verification/ContributorSpec.v ===== *)
(** The contributor's reconcile: what it may ask of the cluster whatever the API server answers. *)
From stdpp Require Import strings base list gmap fin_maps.
From Stdlib Require Import Ascii ZArith Lia.
From S2P Require Import Prelude GoStrings Values ApiTypes Identity Scope Kube Render Client ProgramLogic Applier TrackerLogic Controller Traces Promotion PromotionSpec ContributorReconciler.
Local Open Scope string_scope.
Local Open Scope list_scope.
Local Open Scope go_scope.

Module ContributorSpec.
Import GoStrings Values ApiTypes Identity Scope Kube Render Client ProgramLogic Applier TrackerLogic Controller Traces Promotion PromotionSpec ContributorReconciler.

(** ** What a trace tells *)

Definition contributor_returned (e : event ctlE) : option Contributor :=
  match ev_call e in ctlE R return R -> option Contributor with
  | GetContributor _ _ _ | UpdateContributorStatus _ =>
      fun r => match r with Ok c => Some c | Err _ => None end
  | _ => fun _ => None
  end (ev_reply e).

(** The contributor a reconcile works on: the answer to its first call. *)
Definition read_contributor (h : list (event ctlE)) : option Contributor :=
  match h with e :: _ => contributor_returned e | [] => None end.

Definition returned_c (h : list (event ctlE)) (c : Contributor) : Prop :=
  exists e, e ∈ h /\ contributor_returned e = Some c.

(** The reply to a read of a tracker. *)
Definition asked (tr : TrackerRef) (e : event ctlE) : option (res goerror Tracker) :=
  match ev_call e in ctlE R return R -> option (res goerror Tracker) with
  | GetTracker _ kind ns name =>
      fun r => if bool_decide (tr = mkTrackerRef kind name ns) then Some r else None
  | _ => fun _ => None
  end (ev_reply e).

(** The tracker was found absent, or not to list the contributor. *)
Definition lets_go (ref : ContributorRef) (tr : TrackerRef) (e : event ctlE) : bool :=
  match asked tr e with
  | Some (Ok t) => negb (is_some (FindContributor (GetTrackerStatus t) ref))
  | Some (Err err) => IsNotFound err
  | None => false
  end.

Definition absent (tr : TrackerRef) (e : event ctlE) : bool :=
  match asked tr e with Some (Err err) => IsNotFound err | _ => false end.

Lemma read_contributor_prefix h h' c :
  h `prefix_of` h' -> read_contributor h = Some c -> read_contributor h' = Some c.
Proof. intros [k ->]. by destruct h. Qed.

Lemma returned_c_prefix h h' c : h `prefix_of` h' -> returned_c h c -> returned_c h' c.
Proof. intros [k ->] (e & H & He). exists e. split; [|done]. apply elem_of_app. by left. Qed.

Lemma returned_c_last h e c : contributor_returned e = Some c -> returned_c (h ++ [e]) c.
Proof. intros H. exists e. split; [|done]. apply elem_of_app. right. by apply list_elem_of_singleton. Qed.

Section Spec.
Context {K : KubeLib}.
Variable uncached authorizer : bool.
Variable ReauthorizeAfter : Z.

(** The reconciled contributor may register: it is valid, not being deleted, and carries the
    finalizer that holds it until its fields are withdrawn. *)
Definition may_register (c : Contributor) : Prop :=
  Validate c (Some isNamespacedKind) = [] /\ deleting (c_meta c) = false /\
  ContainsFinalizer ContributorFinalizer (c_meta c) = true.

Definition registering (h : list (event ctlE)) : Prop :=
  exists c, read_contributor h = Some c /\ may_register c.

(** A contributor listing targets in [ns] stays in its own namespace, if it has one. *)
Definition stays_home (c : Contributor) (ns : option string) : Prop :=
  IsClusterScoped c = false -> Namespace (c_meta c) <> "" -> ns = Some (Namespace (c_meta c)).

(** The listing a contributor in Selector mode asks for. *)
Definition lists_for (c : Contributor) (R : Type) (e : ctlE R) : Prop :=
  let spec := GetPatchSpec c in
  match e with
  | ListTargets apiVersion kind selector ns =>
      effective_mode spec <> TargetModeSingle /\ apiVersion = Target_APIVersion (Target spec) /\
      kind = Target_Kind (Target spec) /\ selector = Target_Selector (Target spec) /\ stays_home c ns
  | _ => False
  end.

Definition contributor_policy : policy ctlE := fun h R c =>
  match c with
  | CreateTracker t =>
      registering h /\ ContainsFinalizer TrackerFinalizer (tracker_meta t) = true /\
      (TrackerIsClusterScoped t = false ->
       seen (absent (mkTrackerRef KindClusterSharedResource (Name (tracker_meta t)) "")) h)
  | UpdateTrackerStatus t => registering h
  | UpdateContributor c' =>
      exists c, read_contributor h = Some c /\
        (ContainsFinalizer ContributorFinalizer (c_meta c') = true \/
         deleting (c_meta c) = true /\
         forall tr, tr ∈ SharedResourceRefs (GetPatchStatus c) -> seen (lets_go (ContributorRefOf c) tr) h)
  | ListTargets _ _ _ _ as l => registering h /\ exists c, returned_c h c /\ lists_for c _ l
  | GetTracker _ _ _ _ | GetContributor _ _ _ | UpdateContributorStatus _ | ListNamespaces _
  | AuthorizeAs _ _ | Now => True
  | OnTarget _ _ _ | DeleteTarget _ _ | BuildClient _ | UpdateTracker _ | DeleteTracker _
  | ListContributors _ _ _ | EnsureWatch _ _ _ => False
  end.

Lemma registering_prefix h h' : h `prefix_of` h' -> registering h -> registering h'.
Proof. intros Hp (c & H & ?). exists c. split; [by eapply read_contributor_prefix|done]. Qed.

Lemma contributorCond_wp c ty s reason msg h :
  wp contributor_policy (contributorCond c ty s reason msg) h
    (fun _ c' => exists st, c' = set_contributor_status st c).
Proof. unfold contributorCond. cbn [bind call wp]. split; [done|]. intros now. by eexists. Qed.

Lemma getTracker_wp tr h :
  wp contributor_policy (getTracker tr) h
    (fun h' r => (exists e, e ∈ h' /\ asked tr e = Some r) \/ (exists e, r = Err e /\ IsNotFound e = false)).
Proof.
  unfold getTracker. destruct (emptyTracker _) as [t|e] eqn:E; cbn [call wp].
  - split; [done|]. intros r. left.
    eexists. split; [apply elem_of_app; right; by apply list_elem_of_singleton|].
    unfold asked. cbn. destruct tr. by rewrite bool_decide_eq_true_2.
  - right. exists e. split; [done|]. unfold emptyTracker in E. cbv zeta in E.
    destruct (String.eqb _ _); [done|]. destruct (String.eqb _ _); [done|]. by injection E as <-.
Qed.

(** *** Deletion *)

Lemma still_registered_wp ref trs : forall acc h,
  wp contributor_policy (still_registered ref trs acc) h
    (fun h' r => r = Ok false -> acc = false /\ forall tr, tr ∈ trs -> seen (lets_go ref tr) h').
Proof.
  induction trs as [|tr trs IH]; intros acc h; cbn [still_registered].
  { intros [= ->]. split; [done|]. by intros tr ?%elem_of_nil. }
  eapply wp_use; [apply getTracker_wp|]. intros h1 r Hp1 Hr.
  assert (forall acc', (acc' = false -> acc = false /\ seen (lets_go ref tr) h1) ->
    wp contributor_policy (still_registered ref trs acc') h1
      (fun h' r => r = Ok false -> acc = false /\ forall tr', tr' ∈ tr :: trs -> seen (lets_go ref tr') h')) as Hgo.
  { intros acc' Hacc. eapply wp_post; [apply wp_extends, IH|]. intros h2 r2 [Hp2 H2] Hr2.
    destruct (H2 Hr2) as [Ea Hall]. destruct (Hacc Ea) as [? ?]. split; [done|].
    intros tr' [->|?]%elem_of_cons; [by eapply seen_prefix|auto]. }
  destruct r as [t|e].
  - apply Hgo. destruct (is_some _) eqn:E; [done|]. intros ->. split; [done|].
    destruct Hr as [(e & He & Ha)|(e & [=] & _)]. exists e. split; [done|]. unfold lets_go. by rewrite Ha, E.
  - destruct (IsNotFound e) eqn:E; [|done]. apply Hgo. intros ->. split; [done|].
    destruct Hr as [(e' & He & Ha)|(e' & [= <-] & ?)]; [|congruence]. exists e'. split; [done|].
    unfold lets_go. by rewrite Ha.
Qed.

Lemma contributor_reconcileDelete_wp c h :
  read_contributor h = Some c -> deleting (c_meta c) = true ->
  wp contributor_policy (ContributorReconciler.reconcileDelete c) h (fun _ _ => True).
Proof.
  intros Hc Hd. unfold ContributorReconciler.reconcileDelete. destruct (negb _); [done|].
  eapply wp_use; [apply still_registered_wp|]. intros h1 [[|]|e] Hp Hr; [done| |done].
  cbn [bind call wp]. split; [|by intros ?].
  exists c. split; [by eapply read_contributor_prefix|]. right. split; [done|]. by apply Hr.
Qed.

(** *** Targets *)

Lemma list_targets_wp c ns h keys :
  effective_mode (GetPatchSpec c) <> TargetModeSingle ->
  registering h -> returned_c h c -> (forall n, n ∈ ns -> stays_home c (if String.eqb n "" then None else Some n)) ->
  wp contributor_policy (list_targets (GetPatchSpec c) ns keys) h (fun _ _ => True).
Proof.
  intros Hm. revert h keys. induction ns as [|n ns IH]; intros h keys Hr Hc Hns; cbn [list_targets]; [done|].
  cbn [bind call wp]. split; [split; [done|]; exists c; repeat (split; [done|]); apply Hns; left|].
  intros [items|e]; [|done]. destruct (add_keys _ _ _); [|done]. apply IH.
  - eapply registering_prefix; [apply prefix_last|done].
  - eapply returned_c_prefix; [apply prefix_last|done].
  - intros n' ?. apply Hns. by right.
Qed.

Lemma resolveTargets_wp c h :
  registering h -> returned_c h c -> wp contributor_policy (resolveTargets c) h (fun _ _ => True).
Proof.
  intros Hr Hc. unfold resolveTargets, resolveSelector. cbv zeta. destruct (String.eqb_spec (effective_mode (GetPatchSpec c)) TargetModeSingle) as [|Hm]; [done|].
  wp_step; [|done]. wp_step; [done|].
  unfold selectorNamespaces. destruct (IsClusterScoped c) eqn:Ec; cbn [negb].
  - assert (forall n, stays_home c n) as Hhome by (by unfold stays_home; rewrite Ec).
    destruct (Target_NamespaceSelector _) as [sel|].
    + destruct (selector_error sel); [done|]. cbn [bind call wp]. split; [done|]. intros [names|e]; cbn [bind wp]; [|done].
      apply list_targets_wp; [done|eapply registering_prefix; [apply prefix_last|done]|
        eapply returned_c_prefix; [apply prefix_last|done]|]. intros n _. apply Hhome.
    + cbn [bind]. apply list_targets_wp; [done..|]. intros n _. apply Hhome.
  - cbn [bind]. apply list_targets_wp; [done..|]. intros n Hn. apply list_elem_of_singleton in Hn as ->.
    intros _ Hne. apply String.eqb_neq in Hne. by rewrite Hne.
Qed.

(** *** Trackers *)

Lemma create_tracker_wp ref key h :
  registering h ->
  (TrackerRef_Kind ref = KindSharedResource ->
   seen (absent (mkTrackerRef KindClusterSharedResource (TrackerRef_Name ref) "")) h) ->
  wp contributor_policy (create_tracker ref key) h (fun _ _ => True).
Proof.
  intros Hr Ha. unfold create_tracker, newTracker. cbv zeta.
  destruct (String.eqb_spec (TrackerRef_Kind ref) KindSharedResource) as [E|E].
  - cbn [bind call wp]. split; [split; [done|split; [done|]]; intros _; by apply Ha|].
    intros [e|]; [by destruct (IsAlreadyExists e)|done].
  - destruct (String.eqb _ _); [|done]. cbn [bind call wp]. split; [done|].
    intros [e|]; [by destruct (IsAlreadyExists e)|done].
Qed.

Lemma join_tracker_wp c key h :
  registering h ->
  (TrackerKindFor key (IsClusterScoped c) = KindSharedResource -> seen (absent (cluster_ref key)) h) ->
  wp contributor_policy (join_tracker c key) h (fun _ _ => True).
Proof.
  intros Hr Ha. unfold join_tracker. cbv zeta. eapply wp_use; [apply getTracker_wp|].
  intros h1 [t|e] Hp _; [by destruct (PromotedTo _)|]. destruct (IsNotFound e); [|done].
  apply create_tracker_wp; [by eapply registering_prefix|]. intros Hk. eapply seen_prefix; [done|]. by apply Ha.
Qed.

Lemma promote_wp key h :
  registering h -> wp contributor_policy (promoteIfNeeded uncached key) h (fun _ _ => True).
Proof.
  intros Hr.
  eapply wp_mono; [apply (wp_invariant (promotion_policy key) registering); [|exact Hr|apply promoteIfNeeded_wp]| |done].
  - intros h' R c r H _. eapply registering_prefix; [apply prefix_last|done].
  - intros h' R c [H Hr']. destruct c; try done. cbn in *. destruct H as (_ & ->). done.
Qed.

Lemma ensureTracker_wp c key h :
  registering h -> wp contributor_policy (ensureTracker uncached c key) h (fun _ _ => True).
Proof.
  intros Hr. unfold ensureTracker. eapply (wp_use _ _ _ _ (fun _ _ => True)).
  { destruct (_ && _); [by apply promote_wp|done]. }
  intros h1 [e|] Hp _; [done|]. pose proof (registering_prefix _ _ Hp Hr) as Hr1.
  destruct (IsClusterScoped c) eqn:Ec; cbn [negb andb].
  { apply join_tracker_wp; [done|]. rewrite Ec. unfold TrackerKindFor. by rewrite orb_true_r. }
  destruct (IsClusterScopedTarget key) eqn:Ek; cbn [negb].
  { apply join_tracker_wp; [done|]. rewrite Ec. unfold TrackerKindFor. by rewrite Ek. }
  cbn [bind call wp]. split; [done|]. intros [t|e]; [done|]. destruct (IsNotFound e) eqn:E; [|done].
  apply join_tracker_wp; [eapply registering_prefix; [apply prefix_last|done]|]. intros _.
  apply seen_last. unfold absent, asked, cluster_ref. cbn. by rewrite bool_decide_eq_true_2.
Qed.

Lemma ensure_all_wp c keys : forall h,
  registering h -> wp contributor_policy (ensure_all uncached c keys) h (fun _ _ => True).
Proof.
  induction keys as [|key keys IH]; intros h Hr; cbn [ensure_all]; [done|].
  eapply wp_use; [by apply ensureTracker_wp|]. intros h1 [ref|e] Hp _; [|done].
  eapply wp_use; [apply IH; by eapply registering_prefix|]. by intros h2 [refs|e] _ _.
Qed.

(** *** Status and authorization *)

Lemma observe_targets_wp ref keys : forall trs n h,
  wp contributor_policy (observe_targets ref keys trs n) h (fun _ _ => True).
Proof.
  induction keys as [|key keys IH]; intros [|tr trs] n h; cbn [observe_targets]; try done.
  - eapply wp_use; [apply IH|]. by intros h1 [[rest n']|e] _ _.
  - eapply wp_use; [apply getTracker_wp|]. intros h1 r _ _. cbv zeta.
    assert (forall t, wp contributor_policy
      (let '(ts, n) := observe_target ref key t n in
       try! (rest, n) <- observe_targets ref keys trs n in Ret (Ok (ts :: rest, n))) h1 (fun _ _ => True)) as Hgo.
    { intros t. destruct (observe_target ref key t n). eapply wp_use; [apply IH|]. by intros h2 [[rest n']|e] _ _. }
    destruct r as [t|e]; [apply Hgo|]. destruct (IsNotFound e); [apply Hgo|done].
Qed.

Lemma syncStatus_wp c keys trs h : wp contributor_policy (syncStatus c keys trs) h (fun _ _ => True).
Proof.
  unfold syncStatus. eapply wp_use; [apply observe_targets_wp|]. intros h1 [[observed n]|e] _ _; [|done].
  cbv zeta. destruct (ready_verdict _ _) as [[s reason] msg].
  do 3 (eapply wp_use; [apply contributorCond_wp|]; intros ? ? _ _).
  cbn [bind call wp]. split; [done|]. by intros ?.
Qed.

Lemma setStatusError_wp c reason msg h : wp contributor_policy (setStatusError c reason msg) h (fun _ _ => True).
Proof.
  unfold setStatusError. do 2 (eapply wp_use; [apply contributorCond_wp|]; intros ? ? _ _).
  cbn [bind call wp]. split; [done|]. by intros ?.
Qed.

Lemma recheck_wp user c h :
  wp contributor_policy (recheck ReauthorizeAfter user c) h
    (fun h' '(c', _, err) => err = None -> returned_c h' c').
Proof.
  unfold recheck. cbn [bind call wp]. split; [done|]. intros [[allowed reason]|e]; cbn [bind call wp]; [|done].
  split; [done|]. intros now. eapply (wp_use _ _ _ _ (fun _ _ => True)).
  { destruct allowed; (eapply wp_post; [apply contributorCond_wp|done]). }
  intros h1 c1 _ _. cbn [bind call wp]. split; [done|]. intros [stored|e]; cbn [wp]; [|done].
  intros _. by apply returned_c_last.
Qed.

Lemma reauthorize_wp c h :
  returned_c h c ->
  wp contributor_policy (reauthorize authorizer ReauthorizeAfter c) h
    (fun h' '(c', _, err) => err = None -> returned_c h' c').
Proof.
  intros Hc. unfold reauthorize. destruct (_ || _); [by intros _|].
  destruct (IdentityFromAnnotations _) as [user|]; [|by intros _].
  destruct (LastAuthorizedTime _) as [last|]; [|apply recheck_wp].
  cbn [bind call wp]. split; [done|]. intros now. destruct (_ <? _)%Z; [|apply recheck_wp].
  cbn [bind call wp]. split; [done|]. intros now' _.
  eapply returned_c_prefix; [|exact Hc]. etrans; apply prefix_last.
Qed.

Lemma contributor_Reconcile_wp kind ns name :
  wp contributor_policy (ContributorReconciler.Reconcile uncached authorizer ReauthorizeAfter kind ns name) []
    (fun _ _ => True).
Proof.
  unfold ContributorReconciler.Reconcile. cbn [bind call wp]. split; [done|]. intros [c|e]; [|done].
  set (h := [] ++ _).
  assert (read_contributor h = Some c) as Hc by done.
  assert (returned_c h c) as Hr by (eexists; split; [left|done]). clearbody h.
  destruct (deleting (c_meta c)) eqn:Ed; [by apply contributor_reconcileDelete_wp|].
  destruct (Validate c _) as [|err errs] eqn:Ev.
  2: { unfold setInvalid. eapply wp_use; [apply setStatusError_wp|]. by intros. }
  destruct (ContainsFinalizer _ _) eqn:Ef; cbn [negb].
  2: { cbn [bind call wp]. split; [|by intros [?|?]]. exists c. split; [done|]. left.
       unfold AddFinalizer. rewrite Ef. unfold ContainsFinalizer. apply bool_decide_eq_true.
       destruct c; cbn; apply elem_of_app; right; by apply list_elem_of_singleton. }
  assert (registering h) as Hreg by (by exists c).
  eapply wp_use; [by apply reauthorize_wp|]. intros h1 [[c1 after] [e|]] Hp1 Hr1; [done|].
  specialize (Hr1 eq_refl).
  eapply wp_use; [apply resolveTargets_wp; [by eapply registering_prefix|done]|]. intros h2 [keys|e] Hp2 _.
  2: { eapply wp_use; [apply setStatusError_wp|]. by intros. }
  eapply wp_use; [apply ensure_all_wp; eapply registering_prefix; [|done]; by etrans|].
  intros h3 [trs|e] Hp3 _; [|done].
  eapply wp_use; [apply syncStatus_wp|]. by intros h4 [e|] _ _.
Qed.

End Spec.

End ContributorSpec.
