(* ===== verification/TrackerReconciler.v ===== *)
(** The tracker's reconcile loop: [internal/controller/tracker_controller.go], and the retirement of
    a fenced tracker ([finishPromotion] of [promotion.go]). *)
From stdpp Require Import strings base list gmap fin_maps.
From Stdlib Require Import Ascii ZArith Lia.
From S2P Require Import Prelude GoStrings Values ApiTypes Scope FieldPath Render Client Applier TrackerLogic Controller.
Local Open Scope string_scope.
Local Open Scope list_scope.
Local Open Scope go_scope.

Module TrackerReconciler.
Import GoStrings Values ApiTypes Scope FieldPath Render Client Applier TrackerLogic Controller.

Definition target_of (t : Tracker) : RenderTarget :=
  let r := targetRef t in mkRenderTarget (TT_APIVersion r) (TT_Kind r) (TT_Name r) (TT_Namespace r).

Definition key_of (t : Tracker) : TargetKey :=
  let r := targetRef t in mkTargetKey (TT_APIVersion r) (TT_Kind r) (TT_Namespace r) (TT_Name r).

(** ** Writing status *)

(** The closure [patchStatus] retries; it captures the caller's tracker. *)
Definition patchStatus_attempt (mutate : SharedResourceStatus -> SharedResourceStatus) (tracker : Tracker)
    : ctlM (Tracker * option goerror) :=
  let tracker := set_tracker_status (mutate (GetTrackerStatus tracker)) tracker in
  do! r <- call (UpdateTrackerStatus tracker) in
  match r with
  | Ok stored => Ret (stored, None)
  | Err updateErr =>
      if negb (IsConflict updateErr) then Ret (tracker, Some updateErr)
      else
        let m := tracker_meta tracker in
        do! g <- call (GetTracker false (TrackerKind tracker) (Namespace m) (Name m)) in
        match g with
        | Err e => Ret (tracker, Some e)
        | Ok fresh =>
            do! r2 <- call (UpdateTrackerStatus (set_tracker_status (mutate (GetTrackerStatus fresh)) fresh)) in
            match r2 with
            | Err e => Ret (tracker, Some e)
            | Ok fresh =>
                let tracker := set_tracker_status (GetTrackerStatus fresh) tracker in
                Ret (set_tracker_meta (with_resource_version (ResourceVersion (tracker_meta fresh))
                       (tracker_meta tracker)) tracker, None)
            end
        end
  end.

(** [patchStatus]: the caller's tracker afterwards and the error. *)
Definition patchStatus (tracker : Tracker) (mutate : SharedResourceStatus -> SharedResourceStatus)
    : ctlM (Tracker * option goerror) :=
  do! (tracker, err) <- retry_on_conflict backoff_retries (patchStatus_attempt mutate) tracker in
  Ret (tracker, ignoreNotFound err).

Definition writeStatus (tracker : Tracker) (records : option (list ContributorStatus))
    (conflicts : list ConflictStatus) : ctlM (Tracker * option goerror) :=
  let computed := GetTrackerStatus tracker in
  patchStatus tracker (write_mutation computed records conflicts).

Definition recordProvenance (tracker : Tracker) (creator : ContributorRef) (baseHash : string)
    : ctlM (Tracker * option goerror) :=
  patchStatus tracker (provenance_mutation creator baseHash).

(** ** Finding contributors *)

Definition own_namespace (tracker : Tracker) : option string :=
  if TrackerIsClusterScoped tracker then None else Some (Namespace (tracker_meta tracker)).

(** Cluster-scoped contributors are listed only by a cluster-scoped tracker. *)
Definition list_cluster (tracker : Tracker) (index : option string) : ctlM (res goerror (list Contributor)) :=
  if TrackerIsClusterScoped tracker then call (ListContributors KindClusterResourcePatch index None)
  else Ret (Ok []).

Definition listSelectorContributors (tracker : Tracker) (already : list contributorRecord)
    : ctlM (res goerror (list contributorRecord)) :=
  let self := mkTrackerRef (TrackerKind tracker) (Name (tracker_meta tracker)) (Namespace (tracker_meta tracker)) in
  let bound := selector_bound self (GetTrackerStatus tracker) (map record_key already) in
  try! rps <- call (ListContributors KindResourcePatch None (own_namespace tracker)) in
  try! crps <- list_cluster tracker None in
  Ret (Ok (bound rps ++ bound crps)).

Definition listContributors (tracker : Tracker) : ctlM (res goerror (list contributorRecord)) :=
  let index := Some (TargetKey_String (key_of tracker)) in
  let existing := GetTrackerStatus tracker in
  do! rps <- call (ListContributors KindResourcePatch index (own_namespace tracker)) in
  match rps with
  | Err e => Ret (Err (Wrapf "listing ResourcePatches for %s: %w" [AStr (TargetKey_String (key_of tracker))] e))
  | Ok rps =>
      do! crps <- list_cluster tracker index in
      match crps with
      | Err e => Ret (Err (Wrapf "listing ClusterResourcePatches for %s: %w" [AStr (TargetKey_String (key_of tracker))] e))
      | Ok crps =>
          let out := map (record_of existing) rps ++ map (record_of existing) crps in
          try! selectorBound <- listSelectorContributors tracker out in
          Ret (Ok (pair_sorted (out ++ selectorBound)))
      end
  end.

(** The loops of a pass over the map of contested paths: [isSupersededOn] looking for a holder of one of
    [c]'s paths, and [appendConflict] picking the path to report for [c]. *)
Inductive range_site :=
| Superseding (c : ContributorRef)
| Reporting (c : ContributorRef).

(** The order each of these loops visits the map in.  Go picks one anew every time it ranges over a map,
    so that every pass has a [ranging] of its own. *)
Definition ranging : Type := range_site -> gmap string (list nat) -> list (string * list nat).

Section Reconciling.
Context {JP : JsonPatch}.
(** Whether an impersonation factory is configured, and the orders of this pass. *)
Variable impersonation : bool.
Variable range_order : ranging.

(** ** Releasing *)

Definition releaseContributor (c : contributorRecord) (target : RenderTarget) : ctlM (option goerror) :=
  if String.eqb (OnRelease (Lifecycle (GetPatchSpec (cr_obj c)))) OnReleaseOrphan then Ret None
  else
    do! a <- applierFor impersonation (cr_obj c) in
    match a with
    | Err e => Ret (Some e)
    | Ok (applier, as_) =>
        match ParsePaths (OwnedPaths (cr_status c)) with
        | Err _ => Ret (Some (Wrapf "parsing owned paths for %s: %w" [AStr (record_key c)] (OtherError "fieldpath")))
        | Ok paths =>
            match decodePriorValues (PriorValues (cr_status c)) with
            | Err e => Ret (Some e)
            | Ok priors =>
                do! r <- revert_as as_ applier
                  (mkRevertRequest target (CS_FieldManager (cr_status c)) paths priors) in
                Ret (err_of r)
            end
        end
    end.

Fixpoint release_all (cs : list contributorRecord) (target : RenderTarget) : ctlM (option goerror) :=
  match cs with
  | [] => Ret None
  | c :: rest =>
      do! e <- releaseContributor c target in
      match e with Some err => Ret (Some err) | None => release_all rest target end
  end.

(** [maybeDeleteTarget]: the delete is made with the operator's own client. *)
Definition maybeDeleteTarget (tracker : Tracker) (contributors : list contributorRecord) (target : RenderTarget)
    : ctlM (option goerror) :=
  if negb (wantsDelete (GetTrackerStatus tracker) contributors) then Ret None
  else
    do! e <- call (DeleteTarget "" target) in
    match e with
    | Some err =>
        if IsNotFound err then Ret None
        else Ret (Some (Wrapf "deleting target %s: %w" [AStr (RT_Name target)] err))
    | None => Ret None
    end.

(** ** Contributing *)

Fixpoint renderAll (active : list contributorRecord) (target : RenderTarget) : res goerror (list Contribution) :=
  match active with
  | [] => Ok []
  | c :: rest =>
      match Render.Render (Some (Patch (GetPatchSpec (cr_obj c)))) target with
      | Err e => Err (Wrapf "rendering %s: %w" [AStr (record_key c)] e)
      | Ok contribution => let! out := renderAll rest target in Ok (contribution :: out)
      end
  end.

(** The variables of the loop of [reconcileContributions]. *)
Record pass := mkPass {
  ps_tracker : Tracker;
  ps_records : list ContributorStatus;
  ps_conflicts : list ConflictStatus;
  ps_anyConflict : bool;
  ps_targetExists : bool;
}.

Inductive verdict := Next (p : pass) | Stop (o : outcome).

Definition with_state (s : string) (r : ContributorStatus) : ContributorStatus :=
  mkContributorStatus (PatchRef r) (CS_ObservedGeneration r) (CS_Priority r) (CS_FieldManager r) s
    (LastAppliedHash r) (OwnedPaths r) (PriorValues r) (PriorValuesCaptured r) (CS_CreationTimestamp r).

Definition add_record (r : ContributorStatus) (p : pass) : pass :=
  mkPass (ps_tracker p) (ps_records p ++ [r]) (ps_conflicts p) (ps_anyConflict p) (ps_targetExists p).

Definition conflicted (conflicts : list ConflictStatus) (p : pass) : pass :=
  mkPass (ps_tracker p) (ps_records p) conflicts true (ps_targetExists p).

(** The record after a successful apply. *)
Definition applied_record (rec : ContributorStatus) (contribution : Contribution) (result : Result) : ContributorStatus :=
  mkContributorStatus (PatchRef rec) (CS_ObservedGeneration rec) (CS_Priority rec) (CS_FieldManager rec)
    ContributorStateApplied (Hash contribution) (PathStrings (Res_OwnedPaths result))
    (if Res_PriorValuesCaptured result then encodePriorValues (Res_PriorValues result) else PriorValues rec)
    (Res_PriorValuesCaptured result || PriorValuesCaptured rec)
    (CS_CreationTimestamp rec).

Definition meta_string (k : string) (obj : gmap string value) : string :=
  match obj !! "metadata" with
  | Some (VMap m) => match m !! k with Some (VStr s) => s | _ => "" end
  | _ => ""
  end.

(** What the pass learns from the object the server stored. *)
Definition observe (live : option (gmap string value)) (t : Tracker) : Tracker :=
  match live with
  | None => t
  | Some obj =>
      let st := GetTrackerStatus t in
      let uid := meta_string "uid" obj in
      set_tracker_status
        (with_observed (if String.eqb uid "" then ObservedTargetUID st else uid)
           (meta_string "resourceVersion" obj) st) t
  end.

Definition apply_request (target : RenderTarget) (c : contributorRecord) (contribution : Contribution)
    (previous : list Path) (priors : gmap string value) (base : option (gmap string value)) : Request :=
  let spec := GetPatchSpec (cr_obj c) in
  mkRequest target (Some contribution) (CS_FieldManager (cr_status c)) (ConflictPolicy (ApiTypes.Apply spec))
    previous priors (PriorValuesCaptured (cr_status c)) base
    (String.eqb (OnMissing (Lifecycle spec)) OnMissingCreate).

(** What follows a successful apply. *)
Definition after_apply (c : contributorRecord) (contribution : Contribution) (base : option (gmap string value))
    (result : Result) (p : pass) : ctlM verdict :=
  let rec := cr_status c in
  match Res_Conflict result with
  | Some conflict =>
      Ret (Next (add_record (with_state ContributorStateConflicted rec)
        (conflicted (ps_conflicts p ++
           [mkConflictStatus (firstOr (Conflict_Fields conflict) "<unknown>") [record_key c]
              (firstOr (Conflict_Managers conflict) "<unknown>")]) p)))
  | None =>
      do! (tracker, provErr) <-
        (if Created result && negb (is_some (CreatorPatchRef (GetTrackerStatus (ps_tracker p)))) then
           let baseHash := match base with Some b => HashObject (VMap b) | None => "" end in
           recordProvenance (ps_tracker p) (PatchRef rec) baseHash
         else Ret (ps_tracker p, None)) in
      match provErr with
      | Some e => Ret (Stop (failed e))
      | None =>
          Ret (Next (add_record (applied_record rec contribution result)
            (mkPass (observe (Live result) tracker) (ps_records p) (ps_conflicts p) (ps_anyConflict p)
               (ps_targetExists p))))
      end
  end.

(** The body of the loop. *)
Definition contribute (target : RenderTarget) (active : list contributorRecord) (pathClaims : gmap string (list nat))
    (c : contributorRecord) (contribution : Contribution) (p : pass) : ctlM verdict :=
  let rec := cr_status c in
  do! a <- applierFor impersonation (cr_obj c) in
  match a with
  | Err _ => Ret (Next (add_record (with_state ContributorStateConflicted rec) p))
  | Ok (applier, as_) =>
      match isSupersededOn c active (range_order (Superseding (PatchRef rec)) pathClaims) with
      | Some holder =>
          Ret (Next (add_record (with_state ContributorStateSuperseded rec)
            (conflicted (appendConflict (ps_conflicts p) (range_order (Reporting (PatchRef rec)) pathClaims) c holder) p)))
      | None =>
          let previous := match ParsePaths (OwnedPaths rec) with Ok ps => ps | Err _ => [] end in
          match decodePriorValues (PriorValues rec) with
          | Err e => Ret (Stop (failed e))
          | Ok priors =>
              match baseFor (cr_obj c) with
              | Err _ => Ret (Next (add_record (with_state ContributorStateConflicted rec) p))
              | Ok base =>
                  do! result <- apply_as as_ applier (apply_request target c contribution previous priors base) in
                  match result with
                  | Ok result => after_apply c contribution base result p
                  | Err e =>
                      if IsNotFound e then
                        Ret (Next (add_record (with_state "" rec)
                          (mkPass (ps_tracker p) (ps_records p) (ps_conflicts p) (ps_anyConflict p) false)))
                      else if IsAlreadyExists e || IsConflict e then Ret (Stop (requeue_after 500))
                      else
                        do! tracker <- trackerCond (ps_tracker p) "Synced" ConditionFalse "ApplyFailed" (MsgError e) in
                        do! (_, statusErr) <- writeStatus tracker None (ps_conflicts p) in
                        match statusErr with
                        | Some se => Ret (Stop (failed se))
                        | None => Ret (Stop (failed e))
                        end
                  end
              end
          end
      end
  end.

Fixpoint contribute_all (target : RenderTarget) (active : list contributorRecord)
    (pathClaims : gmap string (list nat)) (todo : list (contributorRecord * Contribution)) (p : pass) : ctlM verdict :=
  match todo with
  | [] => Ret (Next p)
  | (c, contribution) :: rest =>
      do! v <- contribute target active pathClaims c contribution p in
      match v with
      | Stop o => Ret (Stop o)
      | Next p' => contribute_all target active pathClaims rest p'
      end
  end.

(** The phase and conditions at the end of a pass, and the requeue delay. *)
Definition conclude (p : pass) : ctlM (Tracker * Z) :=
  let set ph t := set_tracker_status (with_phase ph (GetTrackerStatus t)) t in
  do! (t, after) <-
    (if negb (ps_targetExists p) then
       do! t <- trackerCond (set TrackerPhaseWaiting (ps_tracker p)) "TargetFound" ConditionFalse "TargetMissing"
         (text "the target does not exist and no contributor creates it") in
       Ret (t, 10000%Z)
     else if ps_anyConflict p then
       do! t <- trackerCond (set TrackerPhaseConflicted (ps_tracker p)) "Conflict" ConditionTrue "Conflict"
         (text "contributors disagree on at least one field") in
       Ret (t, 0%Z)
     else
       do! t <- trackerCond (set TrackerPhaseApplied (ps_tracker p)) "TargetFound" ConditionTrue "Found" (text "") in
       do! t <- trackerCond t "Conflict" ConditionFalse "NoConflict" (text "") in
       do! t <- trackerCond t "Applied" ConditionTrue "Applied" (text "") in
       Ret (t, 0%Z)) in
  do! t <- trackerCond t "Synced" ConditionTrue "ReconcileSuccess" (text "") in
  Ret (t, after).

(** The second half of [reconcileContributions], once departing contributors are released. *)
Definition contribute_pass (tracker : Tracker) (active : list contributorRecord) (target : RenderTarget) : ctlM outcome :=
  match renderAll active target with
  | Err renderErr =>
      do! t <- trackerCond tracker "Synced" ConditionFalse "InvalidSpec" (MsgError renderErr) in
      do! (_, e) <- writeStatus (set_tracker_status (with_phase TrackerPhaseWaiting (GetTrackerStatus t)) t) (Some []) [] in
      Ret (finished e)
  | Ok rendered =>
      do! v <- contribute_all target active (detectPathConflicts rendered) (zip active rendered)
        (mkPass tracker [] [] false true) in
      match v with
      | Stop o => Ret o
      | Next p =>
          do! (t, after) <- conclude p in
          do! (_, e) <- writeStatus t (Some (ps_records p)) (ps_conflicts p) in
          Ret (mkOutcome false after e)
      end
  end.

Definition reconcileContributions (tracker : Tracker) (contributors : list contributorRecord) : ctlM outcome :=
  let target := target_of tracker in
  let '(releasing, active) := splitReleasing contributors in
  do! e <- release_all releasing target in
  match e with
  | Some err => Ret (failed err)
  | None =>
      do! d <- (if Nat.eqb (length active) 0 && negb (Nat.eqb (length releasing) 0)
                then maybeDeleteTarget tracker releasing target else Ret None) in
      match d with
      | Some err => Ret (failed err)
      | None => contribute_pass tracker active target
      end
  end.

(** ** Retiring *)

Definition drop_tracker_finalizer (tracker : Tracker) : Tracker :=
  set_tracker_meta (RemoveFinalizer TrackerFinalizer (tracker_meta tracker)) tracker.

Definition update_and_delete (tracker : Tracker) : ctlM outcome :=
  do! r <- call (UpdateTracker tracker) in
  match r with
  | Err e => Ret (finished (ignoreNotFound (Some e)))
  | Ok stored =>
      do! d <- call (DeleteTracker stored) in
      Ret (finished (ignoreNotFound d))
  end.

Definition reconcileEmpty (tracker : Tracker) : ctlM outcome :=
  let status := GetTrackerStatus tracker in
  if Nat.eqb (length (Contributors status)) 0 && negb (String.eqb (Phase status) TrackerPhaseReleasing)
  then update_and_delete (drop_tracker_finalizer tracker)
  else
    do! (_, e) <- writeStatus (set_tracker_status (with_phase TrackerPhaseReleasing status) tracker) None [] in
    Ret (finished e).

(** Drop the finalizer if it is there, in an update of its own. *)
Definition release_finalizer (tracker : Tracker) : ctlM (Tracker * option (option goerror)) :=
  if ContainsFinalizer TrackerFinalizer (tracker_meta tracker) then
    do! r <- call (UpdateTracker (drop_tracker_finalizer tracker)) in
    match r with
    | Err e => Ret (tracker, Some (ignoreNotFound (Some e)))
    | Ok stored => Ret (stored, None)
    end
  else Ret (tracker, None).

Definition reconcileDelete (tracker : Tracker) : ctlM outcome :=
  let target := target_of tracker in
  do! cs <- listContributors tracker in
  match cs with
  | Err e => Ret (failed e)
  | Ok contributors =>
      do! e <- release_all contributors target in
      match e with
      | Some err => Ret (failed err)
      | None =>
          do! d <- maybeDeleteTarget tracker contributors target in
          match d with
          | Some err => Ret (failed err)
          | None =>
              do! (_, r) <- release_finalizer tracker in
              match r with Some e => Ret (finished e) | None => Ret done_ end
          end
      end
  end.

Definition finishPromotion (tracker : Tracker) : ctlM outcome :=
  let status := GetTrackerStatus tracker in
  match PromotedTo status with
  | None => Ret done_
  | Some promoted =>
      do! s <- call (GetTracker false KindClusterSharedResource "" (Promotion_Name promoted)) in
      match s with
      | Err e =>
          if IsNotFound e then
            do! r <- call (UpdateTrackerStatus
              (set_tracker_status (with_phase TrackerPhaseApplied (with_promoted None status)) tracker)) in
            Ret (mkOutcome true 0 (err_of r))
          else Ret (failed e)
      | Ok _ =>
          if negb (Adopted promoted) then Ret (requeue_after 1000)
          else
            do! (tracker, r) <- release_finalizer tracker in
            match r with
            | Some e => Ret (finished e)
            | None =>
                do! d <- call (DeleteTracker tracker) in
                Ret (finished (ignoreNotFound d))
            end
      end
  end.

(** ** [Reconcile], of the tracker kind [kind] *)
Definition Reconcile (kind namespace name : string) : ctlM outcome :=
  do! g <- call (GetTracker false kind namespace name) in
  match g with
  | Err e => Ret (finished (ignoreNotFound (Some e)))
  | Ok tracker =>
      if IsFenced (GetTrackerStatus tracker) then finishPromotion tracker
      else if deleting (tracker_meta tracker) then reconcileDelete tracker
      else if negb (ContainsFinalizer TrackerFinalizer (tracker_meta tracker)) then
        do! r <- call (UpdateTracker (set_tracker_meta (AddFinalizer TrackerFinalizer (tracker_meta tracker)) tracker)) in
        match r with Err e => Ret (failed e) | Ok _ => Ret requeue end
      else
        do! _ <- call (EnsureWatch (TrackerKind tracker) (TT_APIVersion (targetRef tracker)) (TT_Kind (targetRef tracker))) in
        do! cs <- listContributors tracker in
        match cs with
        | Err e => Ret (failed e)
        | Ok contributors =>
            if Nat.eqb (length contributors) 0 then reconcileEmpty tracker
            else reconcileContributions tracker contributors
        end
  end.

End Reconciling.

End TrackerReconciler.
