(* ===== verification/TrackerTraces.v ===== *)
(** What a tracker's reconcile may ask of the cluster, as a policy on its calls, and the proof that
    every part of the reconcile keeps to it whatever the server answers. *)
From stdpp Require Import strings base list gmap fin_maps.
From Stdlib Require Import Ascii ZArith Lia.
From S2P Require Import Prelude GoStrings Values ApiTypes Scope FieldPath Render Client ProgramLogic Applier TrackerLogic Controller Traces TrackerReconciler.
Local Open Scope string_scope.
Local Open Scope list_scope.
Local Open Scope go_scope.

Module TrackerTraces.
Import GoStrings Values ApiTypes Scope FieldPath Render Client ProgramLogic Applier TrackerLogic Controller Traces TrackerReconciler.

(** ** What a trace tells *)

(** The contributors the server listed, each with the index it was listed by. *)
Definition listing (e : event ctlE) : list (option string * Contributor) :=
  match ev_call e in ctlE R return R -> list (option string * Contributor) with
  | ListContributors _ index _ => fun r => match r with Ok l => map (pair index) l | Err _ => [] end
  | _ => fun _ => []
  end (ev_reply e).

Definition listings (h : list (event ctlE)) : list (option string * Contributor) := concat (map listing h).

Definition listed (h : list (event ctlE)) (c : Contributor) : Prop := exists i, (i, c) ∈ listings h.

Definition contributor_key (c : Contributor) : string := ContributorRef_String (ContributorRefOf c).

Definition self_ref (t : Tracker) : TrackerRef :=
  mkTrackerRef (TrackerKind t) (Name (tracker_meta t)) (Namespace (tracker_meta t)).

(** The listed contributors that count for a tracker: those the index of its target lists, and the
    selector-mode ones registered with it. *)
Definition counted (t : Tracker) (h : list (event ctlE)) (c : Contributor) : Prop :=
  (Some (TargetKey_String (key_of t)), c) ∈ listings h \/
  (None, c) ∈ listings h /\ Target_Mode (Target (GetPatchSpec c)) = TargetModeSelector /\
    self_ref t ∈ SharedResourceRefs (GetPatchStatus c).

Lemma listings_app h h' : listings (h ++ h') = listings h ++ listings h'.
Proof. unfold listings. by rewrite map_app, concat_app. Qed.

Lemma listed_prefix h h' c : h `prefix_of` h' -> listed h c -> listed h' c.
Proof. intros [k ->] [i H]. exists i. rewrite listings_app. apply elem_of_app. by left. Qed.

(** ** Contributor lists *)

(** A record of a listed contributor, under the contributor's own key. *)
Definition known (h : list (event ctlE)) (r : contributorRecord) : Prop :=
  listed h (cr_obj r) /\ record_key r = contributor_key (cr_obj r).

Definition has_key (k : string) (l : list contributorRecord) : Prop := exists r, r ∈ l /\ record_key r = k.

Lemma known_prefix h h' r : h `prefix_of` h' -> known h r -> known h' r.
Proof. intros Hp [H ?]. split; [|done]. by eapply listed_prefix. Qed.

Lemma record_of_key existing c : record_key (record_of existing c) = contributor_key c.
Proof. unfold record_key, record_of, recordFor. cbn. by destruct (FindContributor _ _). Qed.

Definition index_objects (out : list contributorRecord) : gmap string Contributor :=
  foldl (fun m r => <[record_key r := cr_obj r]> m) ∅ out.

Lemma index_objects_sound out k c :
  index_objects out !! k = Some c -> exists r, r ∈ out /\ record_key r = k /\ cr_obj r = c.
Proof.
  unfold index_objects.
  assert (forall m : gmap string Contributor, foldl (fun m r => <[record_key r := cr_obj r]> m) m out !! k = Some c ->
    m !! k = Some c \/ exists r, r ∈ out /\ record_key r = k /\ cr_obj r = c) as H.
  { induction out as [|r out IH]; intros m Hm; cbn in Hm; [by left|].
    destruct (IH _ Hm) as [H|(r' & ? & ?)].
    - destruct (decide (record_key r = k)) as [E|N].
      + rewrite E, lookup_insert_eq in H. injection H as <-. right. exists r. by split; [left|].
      + rewrite lookup_insert_ne in H by done. by left.
    - right. exists r'. by split; [right|]. }
  intros Hm. destruct (H _ Hm) as [H'|]; [|done]. by rewrite lookup_empty in H'.
Qed.

Lemma index_objects_complete out r : r ∈ out -> is_Some (index_objects out !! record_key r).
Proof.
  unfold index_objects.
  assert (forall m : gmap string Contributor, is_Some (m !! record_key r) \/ r ∈ out ->
    is_Some (foldl (fun m r => <[record_key r := cr_obj r]> m) m out !! record_key r)) as H; [|by eauto].
  induction out as [|r' out IH]; intros m Hm; cbn.
  - destruct Hm as [?|?%elem_of_nil]; done.
  - apply IH. rewrite elem_of_cons in Hm. destruct (decide (record_key r' = record_key r)) as [E|N].
    + left. rewrite E, lookup_insert_eq. by eexists.
    + rewrite lookup_insert_ne by done. destruct Hm as [?|[->|?]]; [by left|done|by right].
Qed.

(** Sorting loses no record and takes every object from the list. *)
Lemma pair_sorted_sound out r :
  r ∈ pair_sorted out -> exists r', r' ∈ out /\ cr_obj r' = cr_obj r /\ record_key r' = record_key r.
Proof.
  unfold pair_sorted. cbv zeta. intros H. apply list_elem_of_omap in H as (rec & _ & H).
  fold (index_objects out) in H. destruct (index_objects out !! _) as [obj|] eqn:E; [|done]. injection H as <-.
  apply index_objects_sound in E as (r' & ? & ? & ?). by exists r'.
Qed.

Lemma pair_sorted_complete out r : r ∈ out -> has_key (record_key r) (pair_sorted out).
Proof.
  intros Hr. destruct (index_objects_complete _ _ Hr) as [obj E]. exists (mkRecord obj (cr_status r)).
  split; [|done]. unfold pair_sorted. cbv zeta. fold (index_objects out). apply list_elem_of_omap.
  exists (cr_status r). split.
  - unfold sortContributors. rewrite sort_perm. by apply list_elem_of_fmap_2.
  - unfold record_key in E. by rewrite E.
Qed.

(** ** Status writes *)

Lemma contributors_trackerCond (al : policy ctlE) t ty s reason msg h :
  (forall h, al h _ Now) ->
  wp al (trackerCond t ty s reason msg) h
    (fun _ t' => Contributors (GetTrackerStatus t') = Contributors (GetTrackerStatus t)).
Proof. intros Hal. unfold trackerCond. wp_step; [apply Hal|]. cbn. by rewrite status_set_status. Qed.

Section Patching.
Context (al : policy ctlE) (mutate : SharedResourceStatus -> SharedResourceStatus).
(** What is true of the status a mutation is applied to. *)
Context (J : list (event ctlE) -> SharedResourceStatus -> Prop).
Hypothesis J_prefix : forall h h' s, h `prefix_of` h' -> J h s -> J h' s.
Hypothesis J_returned : forall h t, returned h t -> J h (GetTrackerStatus t).
Hypothesis J_mutate : forall h s, J h s -> J h (mutate s).
Hypothesis al_write : forall h t, J h (GetTrackerStatus t) ->
  al h _ (UpdateTrackerStatus (set_tracker_status (mutate (GetTrackerStatus t)) t)).
Hypothesis al_read : forall h live k ns n, al h _ (GetTracker live k ns n).

Lemma patchStatus_attempt_wp t h :
  J h (GetTrackerStatus t) ->
  wp al (patchStatus_attempt mutate t) h (fun h' '(t', _) => J h' (GetTrackerStatus t')).
Proof.
  intros HJ. unfold patchStatus_attempt. cbv zeta. cbn [bind call wp]. split; [by apply al_write|].
  intros [stored|e]; [apply J_returned, returned_last; done|].
  assert (J (h ++ [mkEvent _ (UpdateTrackerStatus (set_tracker_status (mutate (GetTrackerStatus t)) t)) (Err e)])
    (mutate (GetTrackerStatus t))) as HJ1 by (apply J_mutate; eapply J_prefix; [|done]; by eexists).
  destruct (negb (IsConflict e)); [cbn [wp]; by rewrite status_set_status|].
  cbn [bind call wp]. split; [apply al_read|].
  intros [fresh|e2]; cbn [bind call wp].
  2: { rewrite status_set_status. eapply J_prefix; [|exact HJ1]. by eexists. }
  split; [apply al_write, J_returned, returned_last; done|].
  intros [stored|e3]; cbn [wp].
  - rewrite status_set_meta, status_set_status. apply J_returned, returned_last. done.
  - rewrite status_set_status. eapply J_prefix; [|exact HJ1]. rewrite <- app_assoc. by eexists.
Qed.

Lemma patchStatus_wp t h :
  J h (GetTrackerStatus t) ->
  wp al (patchStatus t mutate) h (fun h' '(t', _) => J h' (GetTrackerStatus t')).
Proof.
  intros HJ. unfold patchStatus.
  eapply wp_use.
  { apply (retry_wp _ _ (fun h t => J h (GetTrackerStatus t)) (fun h t _ => J h (GetTrackerStatus t))); [|done..].
    intros. by apply patchStatus_attempt_wp. }
  by intros h' [t' e] _ HJ'.
Qed.

End Patching.

(** ** The policy once the contributors are listed *)

Section Policy.
Context {JP : JsonPatch}.
Variable impersonation : bool.
Variable range_order : ranging.

(** The user a contributor's writes are made as. *)
Definition runs_as (c : Contributor) (as_ : string) : Prop :=
  if impersonation then identity_of c = Ok as_ else as_ = "".

(** The contributor list is one the server has. *)
Definition unchanged_list (h : list (event ctlE)) (s : SharedResourceStatus) : Prop :=
  exists t, returned h t /\ Contributors s = Contributors (GetTrackerStatus t).

Definition ref_of (r : contributorRecord) : ContributorRef := PatchRef (cr_status r).

Definition active_of (cs : list contributorRecord) : list contributorRecord := snd (splitReleasing cs).

(** What a pass over [cs] may make of the contributor list: leave it, account for every active
    contributor, or empty it when some contribution cannot be rendered. *)
Definition list_ok (t : Tracker) (cs : list contributorRecord) (h : list (event ctlE)) (s : SharedResourceStatus) : Prop :=
  unchanged_list h s \/
  map PatchRef (Contributors s) = map ref_of (active_of cs) \/
  Contributors s = [] /\ is_ok (renderAll (active_of cs) (target_of t)) = false.

Definition acts_on (t : Tracker) (cs : list contributorRecord) : policy ctlE := fun h R c =>
  match c with
  | OnTarget as_ _ _ => exists r, r ∈ cs /\ runs_as (cr_obj r) as_
  | DeleteTarget as_ target =>
      as_ = "" /\ target = target_of t /\ wantsDelete (GetTrackerStatus t) cs = true /\
      (deleting (tracker_meta t) = true \/ active_of cs = [])
  | UpdateTrackerStatus t' => list_ok t cs h (GetTrackerStatus t')
  | ListContributors _ _ _ | ListTargets _ _ _ _ => False
  | _ => True
  end.

Lemma unchanged_prefix h h' s : h `prefix_of` h' -> unchanged_list h s -> unchanged_list h' s.
Proof. intros Hp (t & ? & ?). exists t. split; [by eapply returned_prefix|done]. Qed.

Lemma unchanged_returned h t : returned h t -> unchanged_list h (GetTrackerStatus t).
Proof. intros H. by exists t. Qed.

Lemma applierFor_wp t cs c h :
  wp (acts_on t cs) (applierFor impersonation c) h
    (fun _ r => forall kind as_, r = Ok (kind, as_) -> runs_as c as_).
Proof.
  unfold applierFor, runs_as, Factory_For. destruct impersonation; [|cbn [bind]].
  - destruct (identity_of c) as [u|e] eqn:E; [|done]. destruct (String.eqb_spec u "") as [->|N].
    + cbn [bind]. wp_step; cbn; naive_solver.
    + cbn [bind call wp]. split; [done|]. intros [e'|]; cbn [bind wp]; [naive_solver|].
      destruct (For _); cbn; naive_solver.
  - wp_step; cbn; naive_solver.
Qed.

Lemma on_target_wp t cs r as_ {A} (p : prog targetE A) h :
  r ∈ cs -> runs_as (cr_obj r) as_ -> wp (acts_on t cs) (translate (OnTarget as_) p) h (fun _ _ => True).
Proof. intros. apply wp_translate; [|done]. intros h' R c. by exists r. Qed.

Lemma releaseContributor_wp t cs r target h :
  r ∈ cs -> wp (acts_on t cs) (releaseContributor impersonation r target) h (fun _ _ => True).
Proof.
  intros Hr. unfold releaseContributor. wp_step; [done|].
  eapply wp_use; [apply applierFor_wp|]. intros h' [[kind as_]|e] _ Ha; [|done].
  wp_step; [|done]. wp_step; [|done].
  eapply wp_use; [eapply on_target_wp; [done|by eapply Ha]|]. done.
Qed.

Lemma release_all_wp t cs l target : forall h, (forall r, r ∈ l -> r ∈ cs) ->
  wp (acts_on t cs) (release_all impersonation l target) h (fun _ _ => True).
Proof.
  induction l as [|r l IH]; intros h Hl; cbn [release_all]; [done|].
  eapply wp_use; [apply releaseContributor_wp, Hl; left|]. intros h' [e|] _ _; [done|].
  apply IH. intros r' ?. apply Hl. by right.
Qed.

Lemma wantsDelete_mono st l cs : (forall r, r ∈ l -> r ∈ cs) -> wantsDelete st l = true -> wantsDelete st cs = true.
Proof.
  intros Hl. unfold wantsDelete. destruct (CreatedByOperator st), (CreatorPatchRef st); cbn; try done.
  rewrite !existsb_exists. intros (r & Hr & ?). exists r. split; [|done].
  apply list_elem_of_In, Hl. by apply list_elem_of_In.
Qed.

Lemma maybeDeleteTarget_wp t cs l h :
  (forall r, r ∈ l -> r ∈ cs) -> (deleting (tracker_meta t) = true \/ active_of cs = []) ->
  wp (acts_on t cs) (maybeDeleteTarget t l (target_of t)) h (fun _ _ => True).
Proof.
  intros Hl Hd. unfold maybeDeleteTarget. destruct (wantsDelete _ l) eqn:Hw; cbn [negb]; [|done].
  cbn [bind call wp].
  split; [split; [done|split; [done|split; [by eapply wantsDelete_mono|done]]]|].
  intros [e|]; [by wp_step|done].
Qed.

(** A status write that leaves the contributor list alone. *)
Lemma keep_list_wp t cs mutate t' h :
  (forall s, Contributors (mutate s) = Contributors s) ->
  unchanged_list h (GetTrackerStatus t') ->
  wp (acts_on t cs) (patchStatus t' mutate) h (fun h' '(t', _) => unchanged_list h' (GetTrackerStatus t')).
Proof.
  intros Hm Hs. apply patchStatus_wp; try done.
  - intros ???. apply unchanged_prefix.
  - apply unchanged_returned.
  - intros h' s (t0 & ? & E). exists t0. by rewrite Hm.
  - intros h' t1 (t0 & ? & E). left. exists t0. by rewrite status_set_status, Hm.
Qed.

(** A status write with a list computed by the pass. *)
Lemma new_list_wp t cs t' l conflicts h :
  (forall h s, Contributors s = l -> list_ok t cs h s) ->
  wp (acts_on t cs) (writeStatus t' (Some l) conflicts) h (fun _ _ => True).
Proof.
  intros Hl. unfold writeStatus. cbv zeta. eapply wp_post.
  - apply (patchStatus_wp _ _ (fun _ _ => True)); try done.
    intros h' t1 _. apply Hl. by rewrite status_set_status.
  - by intros h' [].
Qed.

(** What each step of the loop keeps: the tracker at hand has the server's contributor list, and
    every contributor gone through has its record. *)
Definition step_ok (p : pass) (refs : list ContributorRef) (h : list (event ctlE)) (v : verdict) : Prop :=
  match v with
  | Next p' => unchanged_list h (GetTrackerStatus (ps_tracker p')) /\
               map PatchRef (ps_records p') = map PatchRef (ps_records p) ++ refs
  | Stop _ => True
  end.

Lemma step_ok_add p h rec (r : contributorRecord) p' :
  PatchRef rec = ref_of r -> ps_tracker p' = ps_tracker p -> ps_records p' = ps_records p ->
  unchanged_list h (GetTrackerStatus (ps_tracker p)) -> step_ok p [ref_of r] h (Next (add_record rec p')).
Proof. intros <- Ht Hr Hu. cbn. by rewrite Ht, Hr, map_app. Qed.

Lemma contributors_observe live t :
  Contributors (GetTrackerStatus (observe live t)) = Contributors (GetTrackerStatus t).
Proof. destruct live; [|done]. cbn. by rewrite status_set_status. Qed.

Lemma unchanged_eq h s s' : Contributors s' = Contributors s -> unchanged_list h s -> unchanged_list h s'.
Proof. intros E (t & ? & ?). exists t. by rewrite E. Qed.

Lemma after_apply_wp t cs r contribution base result p h :
  unchanged_list h (GetTrackerStatus (ps_tracker p)) ->
  wp (acts_on t cs) (after_apply r contribution base result p) h (fun h' v => step_ok p [ref_of r] h' v).
Proof.
  intros Hu. unfold after_apply. cbv zeta. destruct (Res_Conflict result); [by apply step_ok_add|].
  eapply (wp_use _ _ _ _ (fun h' '(t', _) => unchanged_list h' (GetTrackerStatus t'))).
  { destruct (Created result && _); [|done]. by apply keep_list_wp. }
  intros h' [t' [e|]] _ Hu'; [done|]. cbn. split; [|by rewrite map_app].
  eapply unchanged_eq; [|done]. by rewrite contributors_observe.
Qed.

Lemma contribute_wp t cs target active claims r contribution p h :
  r ∈ cs -> unchanged_list h (GetTrackerStatus (ps_tracker p)) ->
  wp (acts_on t cs) (contribute impersonation range_order target active claims r contribution p) h
    (fun h' v => step_ok p [ref_of r] h' v).
Proof.
  intros Hr Hu. unfold contribute. cbv zeta.
  eapply wp_use; [apply applierFor_wp|]. intros h1 [[kind as_]|e] Hp1 Ha.
  2: { apply step_ok_add; try done. by eapply unchanged_prefix. }
  assert (unchanged_list h1 (GetTrackerStatus (ps_tracker p))) as Hu1 by by eapply unchanged_prefix.
  destruct (isSupersededOn _ _ _); [by apply step_ok_add|].
  destruct (decodePriorValues _) as [priors|e]; [|done].
  destruct (baseFor _) as [base|e]; [|by apply step_ok_add].
  eapply wp_use; [eapply on_target_wp; [done|by eapply Ha]|]. intros h2 [result|e] Hp2 _.
  { apply after_apply_wp. by eapply unchanged_prefix. }
  assert (unchanged_list h2 (GetTrackerStatus (ps_tracker p))) as Hu2 by by eapply unchanged_prefix.
  destruct (IsNotFound e); [by apply step_ok_add|]. destruct (_ || _); [done|].
  eapply wp_use; [by apply contributors_trackerCond|]. intros h3 t3 Hp3 E3.
  eapply wp_use; [|by intros h4 [t4 [e4|]] _ _].
  apply keep_list_wp; [done|]. eapply unchanged_eq; [exact E3|]. by eapply unchanged_prefix.
Qed.

Lemma contribute_all_wp t cs target active claims todo : forall p h,
  (forall x, x ∈ todo -> x.1 ∈ cs) -> unchanged_list h (GetTrackerStatus (ps_tracker p)) ->
  wp (acts_on t cs) (contribute_all impersonation range_order target active claims todo p) h
    (fun h' v => step_ok p (map (fun x => ref_of x.1) todo) h' v).
Proof.
  induction todo as [|[r contribution] todo IH]; intros p h Hin Hu; cbn [contribute_all].
  { cbn. by rewrite app_nil_r. }
  assert (r ∈ cs) as Hr by (apply (Hin (r, contribution)); left).
  eapply wp_use; [by apply contribute_wp|].
  intros h' [p'|o] Hp Hstep; [|done]. destruct Hstep as [Hu' Hrec].
  eapply wp_post; [apply IH; [|done]|].
  - intros x Hx. apply Hin. by right.
  - intros h2 [p2|o]; [|done]. cbn. intros [? E]. split; [done|]. by rewrite E, Hrec, <- app_assoc.
Qed.

Lemma renderAll_length active target rendered :
  renderAll active target = Ok rendered -> length rendered = length active.
Proof.
  revert rendered. induction active as [|r active IH]; intros rendered; cbn [renderAll]; [by intros [= <-]|].
  destruct (Render.Render _ _); [|done]. intros H. apply res_bind_ok in H as (l & E & [= <-]). cbn.
  by rewrite (IH _ E).
Qed.

Lemma conclude_wp t cs p h :
  wp (acts_on t cs) (conclude p) h
    (fun _ '(t', _) => Contributors (GetTrackerStatus t') = Contributors (GetTrackerStatus (ps_tracker p))).
Proof.
  unfold conclude. cbv zeta.
  repeat case_match; cbn [bind trackerCond call wp]; repeat (split; [done|intros ?]); cbn [bind trackerCond call wp];
    repeat (split; [done|intros ?]); by rewrite !status_set_status.
Qed.

Lemma active_in cs r : r ∈ active_of cs -> r ∈ cs.
Proof. unfold active_of, splitReleasing. cbn. intros H. by apply list_elem_of_filter in H as [_ H]. Qed.

Lemma releasing_in cs r : r ∈ fst (splitReleasing cs) -> r ∈ cs.
Proof. unfold splitReleasing. cbn. intros H. by apply list_elem_of_filter in H as [_ H]. Qed.

Lemma zip_refs (active : list contributorRecord) (rendered : list Contribution) :
  length rendered = length active -> map (fun x => ref_of x.1) (zip active rendered) = map ref_of active.
Proof.
  revert rendered. induction active as [|r active IH]; intros [|c rendered]; cbn; [done..|].
  intros [= E]. by rewrite IH.
Qed.

Lemma contribute_pass_wp t cs h :
  returned h t ->
  wp (acts_on t cs) (contribute_pass impersonation range_order t (active_of cs) (target_of t)) h (fun _ _ => True).
Proof.
  intros Ht. unfold contribute_pass. destruct (renderAll _ _) as [rendered|e] eqn:Er.
  - eapply wp_use.
    { apply contribute_all_wp; [|by apply unchanged_returned].
      intros [r c] Hx. apply active_in. by apply elem_of_zip_l in Hx. }
    intros h1 [p|o] Hp1 Hstep; [|done]. destruct Hstep as [Hu Hrec].
    eapply wp_use; [apply conclude_wp|]. intros h2 [t2 after] Hp2 E2.
    eapply wp_use; [|by intros h3 [t3 e3] _ _]. apply new_list_wp. intros h3 s Es. right; left.
    rewrite Es, Hrec. cbn. apply zip_refs. by eapply renderAll_length.
  - eapply wp_use; [by apply contributors_trackerCond|]. intros h1 t1 Hp1 E1.
    eapply wp_use; [|by intros h2 [t2 e2] _ _]. apply new_list_wp. intros h2 s Es. right; right.
    by rewrite Er.
Qed.

Lemma reconcileContributions_wp t cs h :
  returned h t ->
  wp (acts_on t cs) (reconcileContributions impersonation range_order t cs) h (fun _ _ => True).
Proof.
  intros Ht. unfold reconcileContributions. cbv zeta.
  pose proof (active_in cs) as Hact. pose proof (releasing_in cs) as Hrel. unfold active_of in *.
  pose proof (contribute_pass_wp t cs) as Hpass. unfold active_of in Hpass.
  destruct (splitReleasing cs) as [releasing active] eqn:Es. cbn [fst snd] in *.
  eapply wp_use; [by apply release_all_wp|]. intros h1 [e|] Hp1 _; [done|].
  eapply (wp_use _ _ _ _ (fun _ _ => True)).
  - destruct (Nat.eqb_spec (length active) 0) as [E|]; [|done]. destruct (negb _); [|done].
    apply maybeDeleteTarget_wp; [done|]. right. unfold active_of. rewrite Es. by apply length_zero_iff_nil.
  - intros h2 [e|] Hp2 _; [done|]. apply Hpass. eapply returned_prefix; [|done]. by etrans.
Qed.

End Policy.

End TrackerTraces.
