(* ===== verification/TrackerReconcilerSpec.v ===== *)
(** What a tracker's reconcile does to the cluster, whatever the API server answers: when it may
    touch its target, as whom, when it deletes it, and what becomes of its contributor list. *)
From stdpp Require Import strings base list gmap fin_maps.
From Stdlib Require Import Ascii ZArith Lia.
From S2P Require Import Prelude GoStrings Values ApiTypes Scope Containment FieldPath Render Client ProgramLogic Applier TrackerLogic Controller Traces TrackerReconciler TrackerTraces.
Local Open Scope string_scope.
Local Open Scope list_scope.
Local Open Scope go_scope.

Module TrackerReconcilerSpec.
Import GoStrings Values ApiTypes Scope Containment FieldPath Render Client ProgramLogic Applier TrackerLogic Controller Traces TrackerReconciler TrackerTraces.

Section Spec.
Context {JP : JsonPatch}.
Variable impersonation : bool.
Variable range_order : ranging.

(** The reconciled tracker may write to its target: no successor has been promoted, and the
    finalizer that guarantees the writes are withdrawn is in place, or deletion has begun. *)
Definition may_write (t : Tracker) : Prop :=
  IsFenced (GetTrackerStatus t) = false /\
  (deleting (tracker_meta t) = true \/ ContainsFinalizer TrackerFinalizer (tracker_meta t) = true).

(** Another object listed under the same key is on its way out. *)
Definition departing (h : list (event ctlE)) (c : Contributor) : Prop :=
  exists c', listed h c' /\ contributor_key c' = contributor_key c /\ deleting (c_meta c') = true.

Definition recorded (c : Contributor) (s : SharedResourceStatus) : Prop :=
  exists rec, rec ∈ Contributors s /\ ContributorRef_String (PatchRef rec) = contributor_key c.

Definition unrenderable (h : list (event ctlE)) (t : Tracker) : Prop :=
  exists c, listed h c /\ is_ok (Render.Render (Some (Patch (GetPatchSpec c))) (target_of t)) = false.

(** When a target may be deleted: a departing creator asked for it, and nobody else is left. *)
Definition may_delete (h : list (event ctlE)) (t : Tracker) : Prop :=
  (exists leaving, (forall r, r ∈ leaving -> known h r) /\ wantsDelete (GetTrackerStatus t) leaving = true) /\
  (deleting (tracker_meta t) = true \/ forall c, counted t h c -> departing h c).

(** What may become of the contributor list. *)
Definition may_list (h : list (event ctlE)) (t : Tracker) (s : SharedResourceStatus) : Prop :=
  unchanged_list h s \/
  (forall c, counted t h c -> recorded c s \/ departing h c) \/
  Contributors s = [] /\ unrenderable h t.

Definition reconcile_policy : policy ctlE := fun h R c =>
  match c with
  | OnTarget as_ _ _ =>
      (exists t, read_tracker h = Some t /\ may_write t) /\
      exists c, listed h c /\ runs_as impersonation c as_
  | DeleteTarget as_ target =>
      exists t, read_tracker h = Some t /\ may_write t /\ target = target_of t /\ may_delete h t
  | UpdateTrackerStatus t' => exists t, read_tracker h = Some t /\ may_list h t (GetTrackerStatus t')
  | ListTargets _ _ _ _ => False
  | _ => True
  end.

(** *** Listing *)

(** What listing yields: records of listed contributors, every one that counts among them. *)
Definition list_complete (t : Tracker) (h : list (event ctlE)) (r : res goerror (list contributorRecord)) : Prop :=
  forall cs, r = Ok cs -> (forall r, r ∈ cs -> known h r) /\ (forall c, counted t h c -> has_key (contributor_key c) cs).

Definition only_lists : policy ctlE := fun h R c =>
  match c with ListContributors _ _ _ => True | _ => False end.

Lemma elem_of_records existing l r :
  r ∈ map (record_of existing) l <-> exists c, r = record_of existing c /\ c ∈ l.
Proof. apply list_elem_of_fmap. Qed.

(** The answers to the four lists, as one. *)
Definition gathered (t : Tracker) (h : list (event ctlE)) (rps crps srps scrps : list Contributor) : Prop :=
  forall i c, (i, c) ∈ listings h <->
    (i = Some (TargetKey_String (key_of t)) /\ (c ∈ rps \/ c ∈ crps)) \/ (i = None /\ (c ∈ srps \/ c ∈ scrps)).

Lemma list_complete_ok t h rps crps srps scrps :
  gathered t h rps crps srps scrps ->
  let existing := GetTrackerStatus t in
  let out := map (record_of existing) rps ++ map (record_of existing) crps in
  let bound := selector_bound (self_ref t) existing (map record_key out) in
  list_complete t h (Ok (pair_sorted (out ++ bound srps ++ bound scrps))).
Proof.
  intros Hg existing out bound cs [= <-].
  assert (forall r, r ∈ out ++ bound srps ++ bound scrps -> listed h (cr_obj r) /\ record_key r = contributor_key (cr_obj r)) as Hk.
  { intros r Hr. unfold out, bound, selector_bound in Hr. rewrite !elem_of_app, !elem_of_records in Hr.
    assert (exists c, r = record_of existing c /\ (c ∈ rps \/ c ∈ crps \/ c ∈ srps \/ c ∈ scrps)) as (c & -> & Hc).
    { destruct Hr as [[(c & -> & ?)|(c & -> & ?)]|[(c & -> & [_ ?]%list_elem_of_filter)|(c & -> & [_ ?]%list_elem_of_filter)]];
        exists c; tauto. }
    split; [|apply record_of_key]. cbn.
    destruct Hc as [?|[?|[?|?]]]; eexists; apply Hg; eauto. }
  split.
  - intros r (r' & Hr' & Eo & E)%pair_sorted_sound. destruct (Hk _ Hr') as [? E']. unfold known. rewrite <- Eo.
    split; [done|congruence].
  - intros c Hc.
    assert (exists r, r ∈ out ++ bound srps ++ bound scrps /\ record_key r = contributor_key c) as (r & Hr & <-);
      [|by apply pair_sorted_complete].
    assert (forall d, (d ∈ rps \/ d ∈ crps) -> record_of existing d ∈ out) as Hout.
    { intros d [?|?]; apply elem_of_app; [left|right]; apply elem_of_records; by exists d. }
    destruct Hc as [Hc|(Hc & Hm & Hs)]; apply Hg in Hc as [[Hi Hc]|[Hi Hc]]; try done.
    + exists (record_of existing c). rewrite record_of_key. split; [|done]. apply elem_of_app. left. auto.
    + destruct (decide (contributor_key c ∈ map record_key out)) as [Hin|Hin].
      * apply list_elem_of_fmap in Hin as (r & E & ?). exists r. split; [|done]. apply elem_of_app. by left.
      * exists (record_of existing c). rewrite record_of_key. split; [|done].
        assert (forall l, c ∈ l -> record_of existing c ∈ bound l) as Hb.
        { intros l Hl. apply elem_of_records. exists c. split; [done|]. apply list_elem_of_filter. split; [|done].
          rewrite Hm, String.eqb_refl, (bool_decide_eq_false_2 _ Hin), (bool_decide_eq_true_2 _ Hs). done. }
        rewrite !elem_of_app. right. destruct Hc; [left|right]; auto.
Qed.

Lemma list_complete_err t h e : list_complete t h (Err e).
Proof. by intros cs [=]. Qed.

Lemma gathered_two t h k ns l1 l2 :
  listings h = [] ->
  gathered t ((h ++ [mkEvent _ (ListContributors k (Some (TargetKey_String (key_of t))) ns) (Ok l1)]) ++
    [mkEvent _ (ListContributors k None ns) (Ok l2)]) l1 [] l2 [].
Proof.
  intros Hh i c. rewrite !listings_app, Hh. cbn. rewrite !app_nil_r, elem_of_app, !list_elem_of_fmap.
  split; [intros [(d & [= -> ->] & ?)|(d & [= -> ->] & ?)]; auto|].
  intros [[-> [?|?%elem_of_nil]]|[-> [?|?%elem_of_nil]]]; try done; [left|right]; by exists c.
Qed.

Lemma gathered_four t h k ns k' l1 l2 l3 l4 :
  listings h = [] ->
  gathered t ((((h ++ [mkEvent _ (ListContributors k (Some (TargetKey_String (key_of t))) ns) (Ok l1)]) ++
    [mkEvent _ (ListContributors k' (Some (TargetKey_String (key_of t))) None) (Ok l2)]) ++
    [mkEvent _ (ListContributors k None ns) (Ok l3)]) ++ [mkEvent _ (ListContributors k' None None) (Ok l4)]) l1 l2 l3 l4.
Proof.
  intros Hh i c. rewrite !listings_app, Hh. cbn. rewrite !app_nil_r, !elem_of_app, !list_elem_of_fmap.
  split; [intros [[[(d & [= -> ->] & ?)|(d & [= -> ->] & ?)]|(d & [= -> ->] & ?)]|(d & [= -> ->] & ?)]; auto|].
  intros [[-> [?|?]]|[-> [?|?]]]; [left; left; left|left; left; right|left; right|right]; by exists c.
Qed.

Lemma listContributors_wp t h :
  listings h = [] -> wp only_lists (listContributors t) h (list_complete t).
Proof.
  intros Hh. unfold listContributors, listSelectorContributors, list_cluster. cbv zeta.
  pose proof (list_complete_ok t) as Hok. cbv zeta in Hok.
  destruct (TrackerIsClusterScoped t); cbn [bind call wp].
  all: repeat (match goal with
    | |- _ /\ _ => split; [done|]
    | |- forall r : res _ _, _ => intros [?|?]
    | |- list_complete _ _ (Err _) => apply list_complete_err
    end; cbn [bind call wp]).
  - by apply Hok, gathered_four.
  - by apply (Hok _ _ [] _ []), gathered_two.
Qed.

(** *** The policy of a whole reconcile *)

(** Once the contributors are listed nothing else is. *)
Lemma acts_on_quiet t cs h R (c : ctlE R) r :
  acts_on impersonation t cs h R c -> listings (h ++ [mkEvent R c r]) = listings h.
Proof. intros H. rewrite listings_app. destruct c; try done; cbn; by rewrite app_nil_r. Qed.

Lemma active_departing (cs : list contributorRecord) h c :
  (forall r, r ∈ cs -> known h r) -> has_key (contributor_key c) cs ->
  (exists r, r ∈ active_of cs /\ record_key r = contributor_key c) \/ departing h c.
Proof.
  intros Hk (r & Hr & E). destruct (deleting (c_meta (cr_obj r))) eqn:Ed.
  - right. exists (cr_obj r). destruct (Hk _ Hr) as [? E']. split; [done|]. split; [congruence|done].
  - left. exists r. split; [|done]. unfold active_of, splitReleasing. cbn. apply list_elem_of_filter.
    by rewrite Ed.
Qed.

Lemma renderAll_err active target :
  is_ok (renderAll active target) = false ->
  exists r, r ∈ active /\ is_ok (Render.Render (Some (Patch (GetPatchSpec (cr_obj r)))) target) = false.
Proof.
  induction active as [|r active IH]; cbn [renderAll]; [done|].
  destruct (Render.Render _ _) eqn:E; [|intros _; exists r; split; [left|by rewrite E]].
  destruct (renderAll active target); [done|]. intros _. destruct IH as (r' & ? & ?); [done|].
  exists r'. split; [by right|done].
Qed.

Lemma list_ok_may t cs h s :
  list_complete t h (Ok cs) -> list_ok t cs h s -> may_list h t s.
Proof.
  intros Hc. destruct (Hc _ eq_refl) as [Hk Hall]. intros [H|[H|[H Hr]]]; [by left| |].
  - right; left. intros c Hcount. destruct (active_departing _ _ _ Hk (Hall _ Hcount)) as [(r & Hr & E)|]; [left|by right].
    assert (ref_of r ∈ map PatchRef (Contributors s)) as Hin by (rewrite H; by apply list_elem_of_fmap_2).
    apply list_elem_of_fmap in Hin as (rec & E' & ?). exists rec. split; [done|]. by rewrite <- E'.
  - right; right. split; [done|]. apply renderAll_err in Hr as (r & Hr & ?). exists (cr_obj r).
    split; [|done]. apply Hk. by apply active_in.
Qed.

(** A part that keeps to [acts_on] keeps to the policy of the whole. *)
Lemma acts_on_policy t cs h {A} (p : ctlM A) :
  read_tracker h = Some t -> may_write t -> list_complete t h (Ok cs) ->
  wp (acts_on impersonation t cs) p h (fun _ _ => True) -> wp reconcile_policy p h (fun _ _ => True).
Proof.
  intros Ht Hw Hc H.
  eapply wp_mono; [apply (wp_invariant (acts_on impersonation t cs) (fun h' => listings h' = listings h /\ h `prefix_of` h')); [|done|exact H]| |done].
  { intros h' R c r [E Hp] Ha. split; [by rewrite (acts_on_quiet _ _ _ _ _ _ Ha)|].
    etrans; [exact Hp|]. by eexists. }
  intros h' R c [Ha [El Hp]].
  assert (read_tracker h' = Some t) as Ht' by by eapply read_tracker_prefix.
  assert (list_complete t h' (Ok cs)) as Hc'.
  { intros cs' [= <-]. destruct (Hc _ eq_refl) as [Hk Hall]. split.
    - intros r Hr. eapply known_prefix; [done|]. by apply Hk.
    - intros d Hd. apply Hall. unfold counted in *. by rewrite <- El. }
  destruct (Hc' _ eq_refl) as [Hk Hall].
  destruct c; try done; cbn in Ha |- *.
  - destruct Ha as (r & Hr & ?). split; [by exists t|]. exists (cr_obj r). split; [by apply Hk|done].
  - destruct Ha as (-> & -> & Hwant & Hd). exists t. split; [done|]. split; [done|]. split; [done|].
    split; [by exists cs|]. destruct Hd as [?|Hd]; [by left|]. right. intros c Hcount.
    destruct (active_departing _ _ _ Hk (Hall _ Hcount)) as [(r & Hr & _)|]; [|done].
    change (active_of cs = []) in Hd. rewrite Hd in Hr. by apply elem_of_nil in Hr.
  - exists t. split; [done|]. by eapply list_ok_may.
Qed.

Lemma update_and_delete_wp t' t cs h : wp (acts_on impersonation t cs) (update_and_delete t') h (fun _ _ => True).
Proof.
  unfold update_and_delete. cbn [bind call wp]. split; [done|]. intros [?|?]; cbn [bind call wp]; [|done].
  split; [done|]. by intros ?.
Qed.

Lemma reconcileEmpty_wp t h :
  returned h t -> wp (acts_on impersonation t []) (reconcileEmpty t) h (fun _ _ => True).
Proof.
  intros Hr. unfold reconcileEmpty. cbv zeta. destruct (_ && _); [apply update_and_delete_wp|].
  eapply wp_use; [|by intros h' [t' e] _ _]. apply keep_list_wp; [done|].
  eapply unchanged_eq; [|by apply unchanged_returned]. by rewrite status_set_status.
Qed.

Lemma release_finalizer_wp t' t cs h :
  wp (acts_on impersonation t cs) (release_finalizer t') h (fun _ _ => True).
Proof.
  unfold release_finalizer. destruct (ContainsFinalizer _ _); [|done]. cbn [bind call wp]. split; [done|].
  by intros [?|?].
Qed.

(** The end of [reconcileDelete], once the contributors are listed. *)
Lemma reconcileDelete_wp t cs h :
  deleting (tracker_meta t) = true ->
  wp (acts_on impersonation t cs)
    (do! e <- release_all impersonation cs (target_of t) in
      match e with
      | Some err => Ret (failed err)
      | None =>
          do! d <- maybeDeleteTarget t cs (target_of t) in
          match d with
          | Some err => Ret (failed err)
          | None =>
              do! (_, r) <- release_finalizer t in
              match r with Some e => Ret (finished e) | None => Ret done_ end
          end
      end) h (fun _ _ => True).
Proof.
  intros Hd. eapply wp_use; [by apply release_all_wp|]. intros h1 [e|] _ _; [done|].
  eapply wp_use; [apply maybeDeleteTarget_wp; [done|by left]|]. intros h2 [e|] _ _; [done|].
  eapply wp_use; [apply release_finalizer_wp|]. by intros h3 [t' [e|]] _ _.
Qed.

Lemma finishPromotion_wp t h :
  read_tracker h = Some t -> returned h t -> wp reconcile_policy (finishPromotion t) h (fun _ _ => True).
Proof.
  intros Ht Hr. unfold finishPromotion. cbv zeta. destruct (PromotedTo _) as [p|]; [|done].
  cbn [bind call wp]. split; [done|].
  intros [s|e].
  - destruct (negb _); [done|]. unfold release_finalizer.
    destruct (ContainsFinalizer _ _); cbn [bind call wp]; (split; [done|]); [|by intros ?].
    intros [t'|e]; cbn [bind call wp]; [|done]. split; [done|]. by intros ?.
  - destruct (IsNotFound e); [|done]. cbn [bind call wp]. split; [|by intros ?].
    exists t. split; [eapply read_tracker_prefix; [by eexists|done]|]. left.
    eapply unchanged_eq; [|eapply unchanged_prefix; [by eexists|by apply unchanged_returned]].
    by rewrite status_set_status.
Qed.

(** Listing keeps to the policy. *)
Lemma listing_wp t h :
  listings h = [] -> wp reconcile_policy (listContributors t) h (list_complete t).
Proof. intros Hh. eapply wp_mono; [by apply listContributors_wp| |done]. by intros h' R []. Qed.

Lemma Reconcile_wp kind ns name :
  wp reconcile_policy (Reconcile impersonation range_order kind ns name) [] (fun _ _ => True).
Proof.
  unfold Reconcile. cbn [bind call wp]. split; [done|]. intros [t|e]; [|done].
  set (h := [] ++ _).
  assert (read_tracker h = Some t) as Ht by done.
  assert (returned h t) as Hr by (eexists; split; [left|done]).
  assert (listings h = []) as Hl by done. clearbody h.
  destruct (IsFenced (GetTrackerStatus t)) eqn:Ef; [by apply finishPromotion_wp|].
  destruct (deleting (tracker_meta t)) eqn:Ed.
  - unfold reconcileDelete. cbv zeta. eapply wp_use; [by apply listing_wp|].
    intros h1 [cs|e] Hp Hc; [|done]. eapply (acts_on_policy t cs); [by eapply read_tracker_prefix| |done|by apply reconcileDelete_wp].
    split; [done|by left].
  - destruct (ContainsFinalizer _ _) eqn:Ec; cbn [negb].
    2: { cbn [bind call wp]. split; [done|]. by intros [?|?]. }
    cbn [bind call wp]. split; [done|]. intros watched.
    eapply wp_use; [apply listing_wp; by rewrite listings_app, Hl|].
    intros h1 [cs|e] Hp Hc; [|done].
    assert (h `prefix_of` h1) as Hp' by (etrans; [|exact Hp]; by eexists).
    assert (may_write t) as Hw by (split; [done|by right]).
    assert (read_tracker h1 = Some t) as Ht' by by eapply read_tracker_prefix.
    assert (returned h1 t) as Hr' by by eapply returned_prefix.
    destruct (Nat.eqb_spec (length cs) 0) as [E|E].
    + apply length_zero_iff_nil in E as ->. eapply (acts_on_policy t []); [done..|]. by apply reconcileEmpty_wp.
    + eapply (acts_on_policy t cs); [done..|]. by apply reconcileContributions_wp.
Qed.

(** Every call of a reconcile, with the calls before it. *)
Lemma Reconcile_obeys kind ns name tr o pre R c r suf :
  exec (Reconcile impersonation range_order kind ns name) tr o ->
  tr = pre ++ mkEvent R c r :: suf -> reconcile_policy pre R c.
Proof. intros Hx Ht. destruct (wp_exec _ _ _ _ _ _ (Reconcile_wp kind ns name) Hx) as [H _]. exact (H _ _ _ Ht). Qed.

End Spec.

End TrackerReconcilerSpec.
