(* ===== verification/TrackerGuarantees.v ===== *)
(** The guarantees of the tracker's reconcile, over every behaviour of the API server, and a small
    server to see them at work. *)
From stdpp Require Import strings base list gmap fin_maps.
From Stdlib Require Import Ascii ZArith Lia.
From S2P Require Import Prelude GoStrings Values ApiTypes Scope Containment FieldPath Render RenderSpec Client ProgramLogic Applier TrackerLogic TrackerSpec Controller Traces TrackerReconciler TrackerTraces TrackerReconcilerSpec.
Local Open Scope string_scope.
Local Open Scope list_scope.
Local Open Scope go_scope.

Module TrackerGuarantees.
Import GoStrings Values ApiTypes Scope Containment FieldPath Render RenderSpec Client ProgramLogic Applier TrackerLogic TrackerSpec Controller Traces TrackerReconciler TrackerTraces TrackerReconcilerSpec.

(** ** A small server

    It has one tracker and one contributor, no target yet, and accepts every write. *)

Definition sample_server (t : Tracker) (c : Contributor) (R : Type) (e : ctlE R) (s : unit) : R * unit :=
  (match e in ctlE R return R with
   | OnTarget _ R' e' =>
       match e' in targetE R return R with
       | GetTarget _ => Err (NewNotFound "" "configmaps" "cm")
       | CreateTarget o | UpdateTarget o | ApplyTarget o _ _ => Ok o
       end
   | DeleteTarget _ _ => None
   | BuildClient _ => None
   | GetTracker _ _ _ _ => Ok t
   | CreateTracker _ => None
   | UpdateTracker t' | UpdateTrackerStatus t' => Ok t'
   | DeleteTracker _ => None
   | GetContributor _ _ _ => Ok c
   | ListContributors kind index _ => Ok (if String.eqb kind (ContributorKind c) && is_some index then [c] else [])
   | UpdateContributor c' | UpdateContributorStatus c' => Ok c'
   | ListTargets _ _ _ _ => Ok []
   | ListNamespaces _ => Ok []
   | AuthorizeAs _ _ => Ok (true, "")
   | EnsureWatch _ _ _ => None
   | Now => 0%Z
   end, s).

Definition server_patch (deleted : option Z) (onRelease : string) : Contributor :=
  ResourcePatch (mkPatchObject
    (mkObjectMeta "a" "team-a" "u1" "1" 1 0 deleted [ContributorFinalizer] ∅)
    (mkResourcePatchSpec (Target (p_spec (sample_patch ""))) (mkLifecycleSpec OnMissingCreate onRelease None "")
       (mkApplySpec ApplyModeClientSideApply "" "") 0 (Some (mkServiceAccountRef "deployer" "kube-system")) None
       (Patch (p_spec (sample_patch ""))))
    (mkResourcePatchStatus [] [] [] 0 "" None)).

Definition server_tracker (status : SharedResourceStatus) : Tracker :=
  SharedResource (mkTrackerObject
    (mkObjectMeta "t" "team-a" "u9" "1" 1 0 None [TrackerFinalizer] ∅)
    (mkTrackerTargetRef "v1" "ConfigMap" "cm" "team-a") status).

Definition sample_run (status : SharedResourceStatus) (deleted : option Z) (onRelease : string)
    : list (event ctlE) * outcome :=
  behaviour (sample_server (server_tracker status) (server_patch deleted onRelease))
    (Reconcile (JP := no_ops) true (fun _ => map_to_list) KindSharedResource "team-a" "t") tt.

(** The trace of a run around its [n]-th call. *)
Definition status_a : SharedResourceStatus := sample_status true (Some (mkContributorRef "ResourcePatch" "a" "team-a" "u1")).

Definition cm : RenderTarget := mkRenderTarget "v1" "ConfigMap" "cm" "team-a".

Definition read_cm : event ctlE :=
  mkEvent _ (OnTarget "system:serviceaccount:team-a:deployer" _ (GetTarget cm)) (Err (NewNotFound "" "configmaps" "cm")).

Definition delete_cm : event ctlE := mkEvent _ (DeleteTarget "" cm) None.

Lemma sample_run_exec status deleted onRelease :
  exec (Reconcile (JP := no_ops) true (fun _ => map_to_list) KindSharedResource "team-a" "t")
    (fst (sample_run status deleted onRelease)) (snd (sample_run status deleted onRelease)).
Proof. apply behaviour_exec. Qed.

(** ** Properties *)

Section Guarantees.
Context {JP : JsonPatch}.

(** (C10) One writer: whatever the API server answers, a tracker's reconcile reads or writes its
    target only if the tracker it has just read is not fenced by a promotion and either carries the
    finalizer that guarantees the withdrawal of its fields or is being deleted. *)
Theorem Reconcile_touches_target_guarded (impersonation : bool)
    (range_order : ranging) (kind namespace name : string)
    (tr pre suf : list (event ctlE)) (o : outcome) (R : Type) (c : ctlE R) (r : R)
    (Hexec : exec (Reconcile impersonation range_order kind namespace name) tr o)
    (Htr : tr = pre ++ mkEvent R c r :: suf) (Hc : touches_target c = true) :
  exists t, read_tracker pre = Some t /\ IsFenced (GetTrackerStatus t) = false /\
    (deleting (tracker_meta t) = true \/ ContainsFinalizer TrackerFinalizer (tracker_meta t) = true).
Proof.
  pose proof (Reconcile_obeys impersonation range_order _ _ _ _ _ _ _ _ _ _ Hexec Htr) as H.
  destruct c; try done; cbn in H.
  - destruct H as [(t0 & ? & ? & ?) _]. by exists t0.
  - destruct H as (t0 & ? & [? ?] & _). by exists t0.
Qed.

(** (C9) Least privilege: with impersonation configured, every read and write of the target other
    than its deletion is made as the identity of a contributor the server listed, and for a
    [ResourcePatch] that identity is the operator's own, when no ServiceAccount is named, or a
    ServiceAccount of the patch's own namespace, whatever namespace its spec names. *)
Theorem Reconcile_acts_as_contributor
    (range_order : ranging) (kind namespace name : string)
    (tr pre suf : list (event ctlE)) (o : outcome) (as_ : string) (R : Type) (c : targetE R) (r : R)
    (Hexec : exec (Reconcile true range_order kind namespace name) tr o)
    (Htr : tr = pre ++ mkEvent R (OnTarget as_ R c) r :: suf) :
  exists contributor, listed pre contributor /\ identity_of contributor = Ok as_ /\
    (IsClusterScoped contributor = false ->
     as_ = "" \/ exists sa, as_ = ServiceAccountUsername (Namespace (c_meta contributor)) sa).
Proof.
  pose proof (Reconcile_obeys true range_order _ _ _ _ _ _ _ _ _ _ Hexec Htr) as [_ (d & Hd & Hrun)].
  exists d. split; [done|]. split; [done|]. intros Hns. cbn in Hrun. unfold identity_of in Hrun. rewrite Hns in Hrun.
  destruct (Spec_ServiceAccountRef _) as [ref|]; [|injection Hrun as <-; by left].
  destruct (String.eqb (SA_Name ref) ""); [injection Hrun as <-; by left|]. cbv zeta in Hrun.
  destruct (String.eqb _ ""); [done|]. injection Hrun as <-. right. by eexists.
Qed.

(** (C8) Deletion safety: the target is deleted only by a reconcile whose tracker records that the
    operator created it and by whom, while that creator, listed and with [onRelease: Delete], is
    among those leaving; and either the tracker itself is being deleted or every contributor that
    counts for it is on its way out. *)
Theorem Reconcile_deletes_only_abandoned (impersonation : bool)
    (range_order : ranging) (kind namespace name : string)
    (tr pre suf : list (event ctlE)) (o : outcome) (as_ : string) (target : RenderTarget) (r : option goerror)
    (Hexec : exec (Reconcile impersonation range_order kind namespace name) tr o)
    (Htr : tr = pre ++ mkEvent _ (DeleteTarget as_ target) r :: suf) :
  exists t creator rec, read_tracker pre = Some t /\ target = target_of t /\
    CreatedByOperator (GetTrackerStatus t) = true /\ CreatorPatchRef (GetTrackerStatus t) = Some creator /\
    known pre rec /\ SameContributor (PatchRef (cr_status rec)) creator = true /\
    OnRelease (Lifecycle (GetPatchSpec (cr_obj rec))) = OnReleaseDelete /\
    (deleting (tracker_meta t) = true \/ forall c, counted t pre c -> departing pre c).
Proof.
  destruct (Reconcile_obeys impersonation range_order _ _ _ _ _ _ _ _ _ _ Hexec Htr)
    as (t & Ht & _ & -> & (leaving & Hk & Hwant) & Hleft).
  unfold wantsDelete in Hwant. bool_simpl. destruct (CreatorPatchRef _) as [creator|] eqn:Ec; [|done].
  apply existsb_exists in H0 as (rec & Hrec & E). bool_simpl. apply list_elem_of_In in Hrec.
  exists t, creator, rec. auto 10.
Qed.

(** (C19) Reference counting: a status write of a reconcile leaves the contributor list as the server
    has it, or accounts for every contributor that counts for the tracker and is not on its way out,
    or, when some contribution does not render, empties it. *)
Theorem Reconcile_keeps_contributors (impersonation : bool)
    (range_order : ranging) (kind namespace name : string)
    (tr pre suf : list (event ctlE)) (o : outcome) (t' : Tracker) (r : res goerror Tracker)
    (Hexec : exec (Reconcile impersonation range_order kind namespace name) tr o)
    (Htr : tr = pre ++ mkEvent _ (UpdateTrackerStatus t') r :: suf) :
  exists t, read_tracker pre = Some t /\
    let s := GetTrackerStatus t' in
    (unchanged_list pre s \/
     (forall c, counted t pre c -> recorded c s \/ departing pre c) \/
     Contributors s = [] /\ unrenderable pre t).
Proof. exact (Reconcile_obeys impersonation range_order _ _ _ _ _ _ _ _ _ _ Hexec Htr). Qed.

End Guarantees.

Lemma Reconcile_touches_target_guarded_witness :
  exists t, read_tracker (take 5 (fst (sample_run status_a None OnReleaseDelete))) = Some t /\
    IsFenced (GetTrackerStatus t) = false.
Proof.
  destruct (Reconcile_touches_target_guarded (JP := no_ops) true (fun _ => map_to_list) KindSharedResource "team-a" "t"
    (fst (sample_run status_a None OnReleaseDelete)) (take 5 (fst (sample_run status_a None OnReleaseDelete)))
    (drop 6 (fst (sample_run status_a None OnReleaseDelete))) (snd (sample_run status_a None OnReleaseDelete))
    (ev_type read_cm) (ev_call read_cm) (ev_reply read_cm)) as (t & Ht & Hf & _).
  - apply sample_run_exec.
  - symmetry. apply take_drop_middle. vm_refl.
  - reflexivity.
  - exists t. split; [exact Ht|exact Hf].
Defined.

Lemma Reconcile_acts_as_contributor_witness :
  exists contributor, listed (take 5 (fst (sample_run status_a None OnReleaseDelete))) contributor /\
    identity_of contributor = Ok "system:serviceaccount:team-a:deployer".
Proof.
  destruct (Reconcile_acts_as_contributor (JP := no_ops) (fun _ => map_to_list) KindSharedResource "team-a" "t"
    (fst (sample_run status_a None OnReleaseDelete)) (take 5 (fst (sample_run status_a None OnReleaseDelete)))
    (drop 6 (fst (sample_run status_a None OnReleaseDelete))) (snd (sample_run status_a None OnReleaseDelete))
    "system:serviceaccount:team-a:deployer" _ (GetTarget cm) (ev_reply read_cm)) as (c & Hc & Hi & _).
  - apply sample_run_exec.
  - symmetry. apply take_drop_middle. vm_refl.
  - exists c. split; [exact Hc|exact Hi].
Defined.

Lemma Reconcile_deletes_only_abandoned_witness :
  exists t, read_tracker (take 6 (fst (sample_run status_a (Some 5%Z) OnReleaseDelete))) = Some t /\
    CreatedByOperator (GetTrackerStatus t) = true.
Proof.
  destruct (Reconcile_deletes_only_abandoned (JP := no_ops) true (fun _ => map_to_list) KindSharedResource "team-a" "t"
    (fst (sample_run status_a (Some 5%Z) OnReleaseDelete)) (take 6 (fst (sample_run status_a (Some 5%Z) OnReleaseDelete)))
    (drop 7 (fst (sample_run status_a (Some 5%Z) OnReleaseDelete))) (snd (sample_run status_a (Some 5%Z) OnReleaseDelete))
    "" cm None) as (t & creator & rec & Ht & _ & Hcr & _).
  - apply sample_run_exec.
  - symmetry. apply take_drop_middle. vm_refl.
  - exists t. split; [exact Ht|exact Hcr].
Defined.

(** The tracker a status write sends, and the status stored at the end of the run. *)
Definition written (e : event ctlE) : option Tracker :=
  match ev_call e with UpdateTrackerStatus t => Some t | _ => None end.

Definition final_write : Tracker :=
  default (server_tracker empty_status) (fst (sample_run status_a None OnReleaseDelete) !! 11 ≫= written).

(** A trace around a status write in it. *)
Lemma status_write_at (l : list (event ctlE)) n d :
  is_some (l !! n ≫= written) = true ->
  exists r, l = take n l ++ mkEvent _ (UpdateTrackerStatus (default d (l !! n ≫= written))) r :: drop (S n) l.
Proof.
  destruct (l !! n) as [[R c r]|] eqn:E; [|done]. destruct c; try done. intros _. exists r. symmetry. by apply take_drop_middle.
Qed.

Lemma Reconcile_keeps_contributors_witness :
  map (fun rec => Ref_UID (PatchRef rec)) (Contributors (GetTrackerStatus final_write)) = ["u1"] /\
  exists t, read_tracker (take 11 (fst (sample_run status_a None OnReleaseDelete))) = Some t.
Proof.
  split; [vm_refl|].
  destruct (status_write_at (fst (sample_run status_a None OnReleaseDelete)) 11 (server_tracker empty_status)) as [r E]; [vm_refl|].
  destruct (Reconcile_keeps_contributors (JP := no_ops) true (fun _ => map_to_list) KindSharedResource "team-a" "t"
    _ _ _ (snd (sample_run status_a None OnReleaseDelete)) final_write r (sample_run_exec _ _ _) E) as (t & Ht & _).
  exists t. exact Ht.
Defined.

End TrackerGuarantees.
