(* ===== verification/TrackerOutcomes.v ===== *)
(** What a tracker's reconcile reports: no failed call is passed over in silence, and none that leaves
    the tracker waiting comes without a timer ([internal/controller/tracker_controller.go]). *)
From stdpp Require Import strings base list gmap fin_maps.
From Stdlib Require Import Ascii ZArith Lia.
From S2P Require Import Prelude GoStrings Values ApiTypes Scope Containment FieldPath Render RenderSpec Client ProgramLogic Conflict Applier TrackerLogic TrackerSpec Controller Traces TrackerReconciler TrackerTraces TrackerReconcilerSpec TrackerGuarantees.
Local Open Scope string_scope.
Local Open Scope list_scope.
Local Open Scope go_scope.

Module TrackerOutcomes.
Import GoStrings Values ApiTypes Scope Containment FieldPath Render RenderSpec Client ProgramLogic Conflict Applier TrackerLogic TrackerSpec Controller Traces TrackerReconciler TrackerTraces TrackerReconcilerSpec TrackerGuarantees.

(** ** Failed calls *)

Definition target_failure (e : event targetE) : option goerror :=
  match ev_call e in targetE R return R -> option goerror with
  | GetTarget _ | CreateTarget _ | UpdateTarget _ | ApplyTarget _ _ _ => err_of
  end (ev_reply e).

Definition failure (e : event ctlE) : option goerror :=
  match ev_call e in ctlE R return R -> option goerror with
  | OnTarget _ R c => fun r => target_failure (mkEvent R c r)
  | DeleteTarget _ _ | BuildClient _ | CreateTracker _ | DeleteTracker _ | EnsureWatch _ _ _ => fun r => r
  | GetTracker _ _ _ _ | UpdateTracker _ | UpdateTrackerStatus _ => err_of
  | GetContributor _ _ _ | UpdateContributor _ | UpdateContributorStatus _ => err_of
  | ListContributors _ _ _ => err_of
  | ListTargets _ _ _ _ | ListNamespaces _ => err_of
  | AuthorizeAs _ _ => err_of
  | Now => fun _ => None
  end (ev_reply e).

(** The failures that are answers: the object is gone, is there already, or has changed. *)
Definition is_answer (x : goerror) : bool := IsNotFound x || IsAlreadyExists x || IsConflict x.

(** Building an impersonating client is the one call whose failure is recorded on the contributor, and
    registering the watch of the target the one whose failure is only logged. *)
Definition builds_client (e : event ctlE) : bool :=
  match ev_call e with BuildClient _ => true | _ => false end.
Definition registers_watch (e : event ctlE) : bool :=
  match ev_call e with EnsureWatch _ _ _ => true | _ => false end.

Definition forgiven (e : event ctlE) : Prop :=
  match failure e with Some x => is_answer x = true \/ builds_client e = true \/ registers_watch e = true | None => True end.

Definition clean (h : list (event ctlE)) : Prop := Forall forgiven h.

Lemma clean_app h h' : clean (h ++ h') <-> clean h /\ clean h'.
Proof. apply Forall_app. Qed.

Lemma clean_last h e : clean h -> forgiven e -> clean (h ++ [e]).
Proof. intros. apply clean_app. split; [done|]. by apply Forall_singleton. Qed.

(** An error that is not reported leaves a clean trace. *)
Definition told {A} (err : A -> option goerror) (h : list (event ctlE)) (a : A) : Prop := err a = None -> clean h.

Lemma answer_not_found x : IsNotFound x = true -> is_answer x = true.
Proof. unfold is_answer. by intros ->. Qed.

Lemma answer_conflict x : IsConflict x = true -> is_answer x = true.
Proof. unfold is_answer. intros ->. apply orb_true_r. Qed.

Lemma ignoreNotFound_none e : ignoreNotFound e = None -> match e with Some x => IsNotFound x = true | None => True end.
Proof. destruct e as [x|]; cbn; [|done]. by destruct (IsNotFound x). Qed.

(** ** The appliers

    A call on the target that failed is an answer, or is the error the applier returns. *)
Definition target_told {A} (h : list (event targetE)) (r : res goerror A) : Prop :=
  Forall (fun e => match target_failure e with Some x => is_answer x = true \/ r = Err x | None => True end) h.

Lemma target_told_mono {A B} h (r : res goerror A) (r' : res goerror B) :
  (forall x, r = Err x -> is_answer x = true \/ r' = Err x) -> target_told h r -> target_told h r'.
Proof.
  intros Hr H. eapply Forall_impl; [exact H|]. cbn. intros e. destruct (target_failure e) as [x|]; [|done]. intros [?|E]; [by left|auto].
Qed.

(** Failures so far are answers. *)
Definition target_clean (h : list (event targetE)) : Prop :=
  Forall (fun e => match target_failure e with Some x => is_answer x = true | None => True end) h.

Lemma target_clean_told {A} h (r : res goerror A) : target_clean h -> target_told h r.
Proof. intros H. eapply Forall_impl; [exact H|]. cbn. intros e. destruct (target_failure e); [by left|done]. Qed.

Lemma target_clean_last h e : target_clean h -> match target_failure e with Some x => is_answer x = true | None => True end ->
  target_clean (h ++ [e]).
Proof. intros. apply Forall_app. split; [done|]. by apply Forall_singleton. Qed.

Lemma target_told_last {A} h e x :
  target_clean h -> target_failure e = Some x -> target_told (A := A) (h ++ [e]) (Err x).
Proof.
  intros H E. apply Forall_app. split; [by apply target_clean_told|]. apply Forall_singleton. rewrite E. by right.
Qed.

Lemma target_clean_ok h R (c : targetE R) (r : R) :
  target_clean h -> target_failure (mkEvent R c r) = None -> target_clean (h ++ [mkEvent R c r]).
Proof. intros H E. apply target_clean_last; [done|]. by rewrite E. Qed.

Lemma patch_told obj manager policy h :
  target_clean h -> wp anything (patch obj manager policy) h (fun h' r => target_told h' r).
Proof.
  intros Hh. unfold patch. cbv zeta. wp_step; [done|]. destruct r as [live|e].
  { apply target_clean_told. by apply target_clean_ok. }
  destruct (IsFieldConflict e) eqn:Ef; cbn [negb]; [|by apply target_told_last].
  assert (is_answer e = true) as Ha.
  { apply answer_conflict. unfold IsFieldConflict in Ef. by apply andb_prop in Ef as [? _]. }
  assert (forall R c r, target_failure (mkEvent R c r) = Some e -> target_clean (h ++ [mkEvent R c r])) as Hc.
  { intros R c r E. apply target_clean_last; [done|]. by rewrite E. }
  destruct (String.eqb policy _); [|by apply target_clean_told, Hc].
  destruct (negb _); [by apply target_clean_told, Hc|].
  wp_step; [done|]. destruct r as [live|e2].
  { apply target_clean_told, target_clean_ok; [by apply Hc|done]. }
  destruct (IsFieldConflict e2) eqn:Ef2.
  - apply target_clean_told, target_clean_last; [by apply Hc|]. cbn. apply answer_conflict.
    unfold IsFieldConflict in Ef2. by apply andb_prop in Ef2 as [? _].
  - apply target_told_last; [by apply Hc|done].
Qed.

(** A reply that is fine, or an error that is an answer. *)
Lemma target_clean_answer h R (c : targetE R) (r : R) x :
  target_clean h -> target_failure (mkEvent R c r) = Some x -> is_answer x = true ->
  target_clean (h ++ [mkEvent R c r]).
Proof. intros H E Ha. apply target_clean_last; [done|]. by rewrite E. Qed.

Create HintDb outcomes.
#[export] Hint Resolve target_clean_told target_clean_ok target_told_last answer_not_found answer_conflict : outcomes.
#[export] Hint Extern 0 (wp _ (Ret _) _ _) => apply wp_ret : outcomes.
#[export] Hint Extern 1 (target_failure _ = _) => reflexivity : outcomes.
#[export] Hint Extern 2 (target_clean (_ ++ _)) => eapply target_clean_answer : outcomes.

Lemma exists_told target h :
  target_clean h ->
  wp anything (exists_ target) h (fun h' r => target_told h' r /\ (is_ok r = true -> target_clean h')).
Proof.
  intros Hh. unfold exists_. wp_step; [done|]. destruct r as [live|e]; [split; eauto with outcomes|].
  destruct (IsNotFound e) eqn:En; cbn; split; try done; eauto with outcomes.
Qed.

Lemma ssa_Apply_told req h : target_clean h -> wp anything (ssa_Apply req) h (fun h' r => target_told h' r).
Proof.
  intros Hh. unfold ssa_Apply. destruct (Req_Contribution req); [|by apply target_clean_told].
  destruct (String.eqb _ _); [by apply target_clean_told|].
  eapply wp_use; [by apply exists_told|]. intros h1 [ex|e] _ [Ht Hc]; [|by eapply target_told_mono, Ht; intros x [= ->]; right].
  specialize (Hc eq_refl). destruct (_ && _); [by apply target_clean_told|]. cbv zeta.
  destruct (if ex then _ else _); [|by apply target_clean_told].
  eapply wp_use; [by apply patch_told|]. intros h2 [[live|conflict]|e] _ Ht2;
    (eapply target_told_mono, Ht2; intros x [= ->]; by right).
Qed.

Lemma ssa_Revert_told req h : target_clean h -> wp anything (ssa_Revert req) h (fun h' r => target_told h' r).
Proof.
  intros Hh. unfold ssa_Revert. destruct (String.eqb _ _); [by apply target_clean_told|].
  wp_step; [done|]. destruct r as [live|e]; [eauto with outcomes|].
  destruct (IsNotFound e) eqn:En; [apply target_clean_told; by eapply target_clean_answer, answer_not_found|].
  destruct (IsFieldConflict e) eqn:Ef; [|by apply target_told_last].
  assert (is_answer e = true) as Ha by (apply answer_conflict; unfold IsFieldConflict in Ef; by apply andb_prop in Ef as [? _]).
  assert (target_clean (h ++ [mkEvent _ (ApplyTarget (Identity (Rev_Target req)) (Rev_FieldManager req) false) (Err e)]))
    by by eapply target_clean_answer.
  wp_step; [done|]. destruct r as [live|e2]; eauto with outcomes.
Qed.

Lemma csa_Apply_told req h : target_clean h -> wp anything (csa_Apply req) h (fun h' r => target_told h' r).
Proof.
  intros Hh. unfold csa_Apply. destruct (Req_Contribution req) as [c|]; [|by apply target_clean_told].
  wp_step; [done|]. destruct r as [live|e].
  - unfold csa_update. destruct (plan_update _ _ _) as [[desired priors]|e]; [|eauto with outcomes].
    destruct (equalContent _ _); [eauto with outcomes|]. wp_step; [done|]. destruct r as [stored|e]; [eauto 6 with outcomes|].
    apply target_told_last; [eauto with outcomes|done].
  - destruct (IsNotFound e) eqn:En; [|by apply target_told_last].
    assert (target_clean (h ++ [mkEvent _ (GetTarget (Req_Target req)) (Err e)])) as Hc
      by by eapply target_clean_answer, answer_not_found.
    destruct (negb _); [by apply target_clean_told|]. unfold csa_create. cbv zeta.
    destruct (match Req_Base req with Some _ => _ | None => _ end); [|by apply target_clean_told].
    wp_step; [done|]. destruct r as [stored|e2]; [eauto with outcomes|by apply target_told_last].
Qed.

Lemma csa_Revert_told req h : target_clean h -> wp anything (csa_Revert req) h (fun h' r => target_told h' r).
Proof.
  intros Hh. unfold csa_Revert. wp_step; [done|]. destruct r as [live|e].
  - cbv zeta. destruct (equalContent _ _); [eauto with outcomes|]. wp_step; [done|].
    destruct r as [stored|e]; [eauto with outcomes|]. apply target_told_last; [eauto with outcomes|done].
  - destruct (IsNotFound e) eqn:En; [|by apply target_told_last].
    apply target_clean_told. by eapply target_clean_answer, answer_not_found.
Qed.

(** ** The reconcile

    A call that failed is forgiven, or its error is the one reported. *)
Definition clean_but (h : list (event ctlE)) (e : option goerror) : Prop :=
  Forall (fun ev => forgiven ev \/ exists x, failure ev = Some x /\ e = Some x) h.

Lemma clean_but_none h : clean_but h None -> clean h.
Proof. intros H. eapply Forall_impl; [exact H|]. cbn. by intros e [?|(x & _ & [=])]. Qed.

Lemma clean_but_answer h x : clean_but h (Some x) -> is_answer x = true -> clean h.
Proof.
  intros H Ha. eapply Forall_impl; [exact H|]. cbn. intros e [?|(y & E & [= <-])]; [done|].
  unfold forgiven. rewrite E. by left.
Qed.

Lemma clean_clean_but h e : clean h -> clean_but h e.
Proof. intros H. eapply Forall_impl; [exact H|]. by left. Qed.

Lemma clean_but_ignored h e : clean_but h e -> ignoreNotFound e = None -> clean h.
Proof.
  destruct e as [x|]; cbn; [|intros H _; by apply clean_but_none].
  destruct (IsNotFound x) eqn:En; [|done]. intros H _. by eapply clean_but_answer, answer_not_found.
Qed.

(** After one more call: fine, an answer, or the error to report. *)
Lemma clean_ok h R (c : ctlE R) (r : R) : clean h -> failure (mkEvent R c r) = None -> clean (h ++ [mkEvent R c r]).
Proof. intros H E. apply clean_last; [done|]. unfold forgiven. by rewrite E. Qed.

Lemma clean_answer h R (c : ctlE R) (r : R) x :
  clean h -> failure (mkEvent R c r) = Some x -> is_answer x = true -> clean (h ++ [mkEvent R c r]).
Proof. intros H E Ha. apply clean_last; [done|]. unfold forgiven. rewrite E. by left. Qed.

Lemma clean_but_last h R (c : ctlE R) (r : R) e : clean h -> failure (mkEvent R c r) = e -> clean_but (h ++ [mkEvent R c r]) e.
Proof.
  intros H E. apply Forall_app. split; [by apply clean_clean_but|]. apply Forall_singleton.
  unfold forgiven. rewrite E. destruct e as [x|]; [right; by exists x|by left].
Qed.

#[export] Hint Resolve clean_clean_but clean_ok clean_but_last : outcomes.
#[export] Hint Extern 1 (failure _ = _) => reflexivity : outcomes.
#[export] Hint Extern 2 (clean (_ ++ _)) => eapply clean_answer : outcomes.

Lemma lifted_told {A} as_ h tr (r : res goerror A) :
  clean h -> target_told tr r -> clean_but (h ++ map (lift_event (OnTarget as_)) tr) (err_of r).
Proof.
  intros Hh Ht. apply Forall_app. split; [by apply clean_clean_but|].
  induction Ht as [|e tr He _ IH]; [by constructor|]. cbn. constructor; [|exact IH].
  assert (failure (lift_event (OnTarget as_) e) = target_failure e) as E by by destruct e.
  unfold forgiven. rewrite E. destruct (target_failure e) as [x|]; [|by left].
  destruct He as [?| ->]; [by left; left|]. right. by exists x.
Qed.

Lemma apply_as_told as_ kind req h :
  clean h -> wp anything (apply_as as_ kind req) h (fun h' r => clean_but h' (err_of r)).
Proof.
  intros Hh. eapply wp_post.
  { apply (wp_translate_events _ (Applier.Apply kind req) anything [] (fun h' r => target_told h' r)).
    destruct kind; [apply ssa_Apply_told|apply csa_Apply_told]; by constructor. }
  cbn. intros h' r (tr & -> & Ht). by apply lifted_told.
Qed.

Lemma revert_as_told as_ kind req h :
  clean h -> wp anything (revert_as as_ kind req) h (fun h' r => clean_but h' (err_of r)).
Proof.
  intros Hh. eapply wp_post.
  { apply (wp_translate_events _ (Revert kind req) anything [] (fun h' r => target_told h' r)).
    destruct kind; [apply ssa_Revert_told|apply csa_Revert_told]; by constructor. }
  cbn. intros h' r (tr & -> & Ht). by apply lifted_told.
Qed.

Lemma patchStatus_attempt_told mutate t h :
  clean h -> wp anything (patchStatus_attempt mutate t) h (fun h' '(_, e) => clean_but h' e).
Proof.
  intros Hh. unfold patchStatus_attempt. cbv zeta. wp_step; [done|]. destruct r as [stored|e]; [eauto with outcomes|].
  destruct (IsConflict e) eqn:Ec; cbn [negb]; [|eauto with outcomes]. apply answer_conflict in Ec.
  wp_step; [done|]. destruct r as [fresh|e2]; [|eauto 6 with outcomes].
  wp_step; [done|]. destruct r as [stored|e3]; eauto 6 with outcomes.
Qed.

Lemma patchStatus_told mutate t h :
  clean h -> wp anything (patchStatus t mutate) h (fun h' '(_, e) => e = None -> clean h').
Proof.
  intros Hh. unfold patchStatus. eapply wp_use.
  { apply (retry_wp _ _ (fun h _ => clean h) (fun h _ e => clean_but h e)); [| |done].
    - intros h1 s H1. by apply patchStatus_attempt_told.
    - intros h1 s x Hb Hx. by eapply clean_but_answer, answer_conflict. }
  intros h1 [t1 e1] _ Hb. cbn. intros H. by eapply clean_but_ignored.
Qed.

Lemma writeStatus_told t records conflicts h :
  clean h -> wp anything (writeStatus t records conflicts) h (fun h' '(_, e) => e = None -> clean h').
Proof. apply patchStatus_told. Qed.

Lemma trackerCond_told t ty st reason msg h :
  clean h -> wp anything (trackerCond t ty st reason msg) h (fun h' _ => clean h').
Proof. intros Hh. unfold trackerCond. wp_step; [done|]. eauto with outcomes. Qed.

Lemma listing_told t h :
  clean h -> wp anything (listContributors t) h (fun h' r => is_ok r = true -> clean h').
Proof.
  intros Hh. unfold listContributors, listSelectorContributors, list_cluster. cbv zeta.
  destruct (TrackerIsClusterScoped t); cbn [bind call wp];
    repeat (match goal with
    | |- _ /\ _ => split; [done|]
    | |- forall r : res _ _, _ => intros [?|?]
    end; cbn [bind call wp is_ok]); try done; eauto 8 with outcomes.
Qed.

Section Reconciling.
Context {JP : JsonPatch}.
Variable impersonation : bool.
Variable range_order : ranging.

(** Whether or not a client could be had. *)
Lemma applierFor_told c h :
  clean h -> wp anything (applierFor impersonation c) h (fun h' _ => clean h').
Proof.
  intros Hh. unfold applierFor, Factory_For.
  assert (forall u h', clean h' -> wp anything (match For (Apply_Mode (ApiTypes.Apply (GetPatchSpec c))) with
    | Err e => Ret (Err e) | Ok kind => Ret (Ok (kind, u : string)) end : ctlM (res goerror (ApplierKind * string))) h' (fun h' _ => clean h')) as Hfor.
  { intros u h' ?. by destruct (For _). }
  destruct impersonation; [|by apply Hfor].
  destruct (identity_of c) as [u|e]; [|done]. destruct (String.eqb u ""); [by apply Hfor|].
  cbn [bind call]. wp_step; [done|].
  assert (clean (h ++ [mkEvent _ (BuildClient u) r])) as Hc.
  { apply clean_last; [done|]. unfold forgiven. cbn. destruct r; [by right; left|done]. }
  destruct r as [x|]; [done|]. by apply Hfor.
Qed.

Lemma releaseContributor_told r target h :
  clean h -> wp anything (releaseContributor impersonation r target) h (fun h' e => e = None -> clean h').
Proof.
  intros Hh. unfold releaseContributor. destruct (String.eqb _ _); [eauto with outcomes|].
  eapply wp_use; [by apply applierFor_told|]. intros h1 [[kind as_]|e] _ H1; [|done].
  destruct (ParsePaths _); [|done]. destruct (decodePriorValues _); [|done].
  eapply wp_use; [by apply revert_as_told|]. intros h2 [[]|e] _ Hb; [|done]. intros _. by apply clean_but_none.
Qed.

Lemma release_all_told l target : forall h,
  clean h -> wp anything (release_all impersonation l target) h (fun h' e => e = None -> clean h').
Proof.
  induction l as [|r l IH]; intros h Hh; cbn [release_all]; [eauto with outcomes|].
  eapply wp_use; [by apply releaseContributor_told|]. intros h1 [e|] _ H1; [done|]. by apply IH, H1.
Qed.

Lemma maybeDeleteTarget_told t l target h :
  clean h -> wp anything (maybeDeleteTarget t l target) h (fun h' e => e = None -> clean h').
Proof.
  intros Hh. unfold maybeDeleteTarget. destruct (negb _); [eauto with outcomes|]. wp_step; [done|].
  destruct r as [e|]; [|eauto with outcomes]. destruct (IsNotFound e) eqn:En; [|done].
  intros _. eauto with outcomes.
Qed.

(** A step of the loop either goes on with a clean trace or stops with an outcome that tells. *)
Definition verdict_told (h : list (event ctlE)) (v : verdict) : Prop :=
  match v with Next _ => clean h | Stop o => Err_of o = None -> clean h end.

Lemma after_apply_told r contribution base result p h :
  clean h -> wp anything (after_apply r contribution base result p) h (fun h' v => verdict_told h' v).
Proof.
  intros Hh. unfold after_apply. cbv zeta. destruct (Res_Conflict result); [done|].
  eapply (wp_use _ _ _ _ (fun h' '(_, e) => e = None -> clean h')).
  { destruct (Created result && _); [by apply patchStatus_told|eauto with outcomes]. }
  intros h1 [t1 [e|]] _ H1; [done|]. by apply H1.
Qed.

Lemma contribute_told target active claims r contribution p h :
  clean h ->
  wp anything (contribute impersonation range_order target active claims r contribution p) h (fun h' v => verdict_told h' v).
Proof.
  intros Hh. unfold contribute. cbv zeta.
  eapply wp_use; [by apply applierFor_told|]. intros h1 [[kind as_]|e] _ H1; [|done].
  destruct (isSupersededOn _ _ _); [done|]. destruct (decodePriorValues _); [|done]. destruct (baseFor _); [|done].
  eapply wp_use; [by apply apply_as_told|]. intros h2 [result|e] _ Hb.
  { by apply after_apply_told, clean_but_none. }
  destruct (IsNotFound e) eqn:En; [by eapply clean_but_answer, answer_not_found|].
  destruct (IsAlreadyExists e || IsConflict e) eqn:Ea.
  { intros _. eapply clean_but_answer; [exact Hb|]. unfold is_answer. rewrite <- orb_assoc, Ea. apply orb_true_r. }
  eapply wp_use; [apply wp_anything|]. intros h3 t3 _ _.
  eapply wp_use; [apply wp_anything|]. by intros h4 [t4 [se|]] _ _.
Qed.

Definition outcome_told (h : list (event ctlE)) (o : outcome) : Prop := Err_of o = None -> clean h.

Lemma contribute_all_told target active claims todo : forall p h,
  clean h ->
  wp anything (contribute_all impersonation range_order target active claims todo p) h (fun h' v => verdict_told h' v).
Proof.
  induction todo as [|[r contribution] todo IH]; intros p h Hh; cbn [contribute_all]; [eauto with outcomes|].
  eapply wp_use; [by apply contribute_told|]. intros h1 [p'|o] _ H1; [by apply IH|exact H1].
Qed.

(** What ends with a status write tells. *)
Lemma ends_in_write {A} t records conflicts (f : Tracker * option goerror -> A) (err : A -> option goerror) h :
  clean h -> (forall t e, err (f (t, e)) = e) ->
  wp anything (do! r <- writeStatus t records conflicts in Ret (f r)) h (fun h' a => err a = None -> clean h').
Proof.
  intros Hh Hf. eapply wp_use; [by apply writeStatus_told|]. intros h1 [t1 e1] _ H1. cbn. by rewrite Hf.
Qed.

Lemma conclude_told p h : clean h -> wp anything (conclude p) h (fun h' _ => clean h').
Proof.
  intros Hh. unfold conclude. cbv zeta.
  repeat case_match; cbn [bind trackerCond call wp]; repeat (split; [done|intros ?]); cbn [bind trackerCond call wp];
    repeat (split; [done|intros ?]); eauto 10 with outcomes.
Qed.

Lemma contribute_pass_told t active target h :
  clean h -> wp anything (contribute_pass impersonation range_order t active target) h outcome_told.
Proof.
  intros Hh. unfold contribute_pass. destruct (renderAll _ _) as [rendered|e].
  - eapply wp_use; [by apply contribute_all_told|]. intros h1 [p|o] _ H1; [|exact H1].
    eapply wp_use; [by apply conclude_told|]. intros h2 [t2 after] _ H2.
    eapply wp_use; [by apply writeStatus_told|]. by intros h3 [t3 e3] _ H3.
  - eapply wp_use; [by apply trackerCond_told|]. intros h1 t1 _ H1.
    eapply wp_use; [by apply writeStatus_told|]. by intros h3 [t3 e3] _ H3.
Qed.

Lemma reconcileContributions_told t cs h :
  clean h -> wp anything (reconcileContributions impersonation range_order t cs) h outcome_told.
Proof.
  intros Hh. unfold reconcileContributions. cbv zeta. destruct (splitReleasing cs) as [releasing active].
  eapply wp_use; [by apply release_all_told|]. intros h1 [e|] _ H1; [done|]. specialize (H1 eq_refl).
  eapply (wp_use _ _ _ _ (fun h' e => e = None -> clean h')).
  { destruct (_ && _); [by apply maybeDeleteTarget_told|eauto with outcomes]. }
  intros h2 [e|] _ H2; [done|]. by apply contribute_pass_told, H2.
Qed.

Lemma release_finalizer_told t h :
  clean h -> wp anything (release_finalizer t) h
    (fun h' '(_, r) => match r with Some e => e = None -> clean h' | None => clean h' end).
Proof.
  intros Hh. unfold release_finalizer. destruct (ContainsFinalizer _ _); [|eauto with outcomes]. wp_step; [done|].
  destruct r as [t'|e]; cbn [wp]; [eauto with outcomes|]. intros H. eapply clean_but_ignored; [|exact H]. eauto with outcomes.
Qed.

(** A delete whose absence is no error. *)
Lemma delete_told t h :
  clean h -> wp anything (do! d <- call (DeleteTracker t) in Ret (finished (ignoreNotFound d))) h outcome_told.
Proof.
  intros Hh. wp_step; [done|]. intros H. eapply clean_but_ignored; [|exact H]. eauto with outcomes.
Qed.

Lemma reconcileDelete_told t h : clean h -> wp anything (reconcileDelete impersonation t) h outcome_told.
Proof.
  intros Hh. unfold reconcileDelete. cbv zeta. eapply wp_use; [by apply listing_told|].
  intros h1 [cs|e] _ H1; [|done]. eapply wp_use; [by apply release_all_told, H1|]. intros h2 [e|] _ H2; [done|].
  eapply wp_use; [by apply maybeDeleteTarget_told, H2|]. intros h3 [e|] _ H3; [done|].
  eapply wp_use; [by apply release_finalizer_told, H3|]. intros h4 [t4 [e|]] _ H4; [exact H4|intros _; exact H4].
Qed.

Lemma reconcileEmpty_told t h : clean h -> wp anything (reconcileEmpty t) h outcome_told.
Proof.
  intros Hh. unfold reconcileEmpty. cbv zeta. destruct (_ && _).
  - unfold update_and_delete. wp_step; [done|]. destruct r as [stored|e]; [apply delete_told; eauto with outcomes|].
    intros H. eapply clean_but_ignored; [|exact H]. eauto with outcomes.
  - eapply wp_use; [by apply writeStatus_told|]. by intros h1 [t1 e1] _ H1.
Qed.

Lemma finishPromotion_told t h : clean h -> wp anything (finishPromotion t) h outcome_told.
Proof.
  intros Hh. unfold finishPromotion. cbv zeta. destruct (PromotedTo _) as [p|]; [|intros _; exact Hh].
  cbn [bind call]. wp_step; [done|]. destruct r as [successor|e].
  - destruct (negb _); [intros _; eauto with outcomes|]. eapply wp_use; [apply release_finalizer_told; eauto with outcomes|].
    intros h1 [t1 [e|]] _ H1; [exact H1|]. by apply delete_told.
  - destruct (IsNotFound e) eqn:En; [|done]. cbn [bind call]. wp_step; [done|]. intros H. apply clean_but_none.
    rewrite <- H. apply clean_but_last; [|done]. eauto with outcomes.
Qed.

Lemma Reconcile_told kind ns name :
  wp anything (Reconcile impersonation range_order kind ns name) [] outcome_told.
Proof.
  assert (clean []) as Hnil by constructor. revert Hnil. generalize (@nil (event ctlE)) as h. intros h Hh.
  unfold Reconcile. cbn [bind call]. wp_step; [done|]. destruct r as [t|e].
  2: { intros H. eapply clean_but_ignored; [|exact H]. eauto with outcomes. }
  assert (clean (h ++ [mkEvent _ (GetTracker false kind ns name) (Ok t)])) as H1 by eauto with outcomes.
  destruct (IsFenced _); [by apply finishPromotion_told|].
  destruct (deleting _); [by apply reconcileDelete_told|].
  destruct (negb _).
  - cbn [bind call]. wp_step; [done|]. destruct r as [?|?]; [|done]. intros _. eauto with outcomes.
  - cbn [bind call]. wp_step; [done|]. eapply wp_use; [apply listing_told, clean_last; [exact H1|]; unfold forgiven; cbn; destruct r; auto|].
    intros h2 [cs|e] _ H2; [|done]. specialize (H2 eq_refl).
    destruct (Nat.eqb _ _); [by apply reconcileEmpty_told|by apply reconcileContributions_told].
Qed.

End Reconciling.

(** ** Waiting *)

(** The phase of the last status the trace writes. *)
Definition written_phase (e : event ctlE) : option string :=
  match ev_call e with UpdateTrackerStatus t => Some (Phase (GetTrackerStatus t)) | _ => None end.

Definition last_phase (h : list (event ctlE)) : option string := last (omap written_phase h).

Lemma last_phase_write h t r : last_phase (h ++ [mkEvent _ (UpdateTrackerStatus t) r]) = Some (Phase (GetTrackerStatus t)).
Proof. unfold last_phase. rewrite omap_app. cbn. apply last_snoc. Qed.

Lemma last_phase_other h e : written_phase e = None -> last_phase (h ++ [e]) = last_phase h.
Proof. intros E. unfold last_phase. rewrite omap_app. cbn. by rewrite E, app_nil_r. Qed.

(** Nothing failed and nothing will happen by itself. *)
Definition quiet (o : outcome) : Prop := Err_of o = None /\ Requeue o = false /\ RequeueAfter o = 0%Z.

(** A status write whose mutation sets the phase. *)
Lemma patchStatus_phase ph mutate t h :
  (forall s, Phase (mutate s) = ph) ->
  wp anything (patchStatus t mutate) h (fun h' _ => last_phase h' = Some ph).
Proof.
  intros Hm. unfold patchStatus. eapply (wp_use _ _ _ _ (fun h' _ => last_phase h' = Some ph)); [|by intros h1 [t1 e1] _ H1].
  apply (wp_post _ _ _ (fun h' '(_, _) => last_phase h' = Some ph)); [|by intros h' []].
  apply (retry_wp _ _ (fun _ _ => True) (fun h _ _ => last_phase h = Some ph)); [|done..]. intros h1 t1 _.
  assert (forall h t r, last_phase (h ++ [mkEvent _ (UpdateTrackerStatus (set_tracker_status (mutate (GetTrackerStatus t)) t)) r]) = Some ph) as Hw.
  { intros. by rewrite last_phase_write, status_set_status, Hm. }
  unfold patchStatus_attempt. cbv zeta. wp_step; [done|]. destruct r as [stored|e]; [apply Hw|].
  destruct (negb _); [apply Hw|]. wp_step; [done|]. destruct r as [fresh|e2].
  - wp_step; [done|]. destruct r as [stored|e3]; apply Hw.
  - cbn [wp]. by rewrite last_phase_other.
Qed.

Lemma writeStatus_phase t records conflicts h :
  wp anything (writeStatus t records conflicts) h (fun h' _ => last_phase h' = Some (Phase (GetTrackerStatus t))).
Proof. by apply patchStatus_phase. Qed.

(** Programs that write no status. *)
Definition no_status : policy ctlE := fun _ R c => match c with UpdateTrackerStatus _ => False | _ => True end.

Lemma no_status_phase {A} (p : ctlM A) h post :
  wp no_status p h post -> wp anything p h (fun h' a => post h' a /\ last_phase h' = last_phase h).
Proof.
  intros H. eapply wp_mono; [apply (wp_invariant no_status (fun h' => last_phase h' = last_phase h)); [|done|exact H]|done|done].
  intros h' R c r E Hc. rewrite last_phase_other; [done|]. by destruct c.
Qed.

Section Waiting.
Context {JP : JsonPatch}.
Variable impersonation : bool.
Variable range_order : ranging.

Lemma applierFor_no_status c h : wp no_status (applierFor impersonation c) h (fun _ _ => True).
Proof.
  unfold applierFor, Factory_For. destruct impersonation; [|by destruct (For _)].
  destruct (identity_of c) as [u|]; [|done]. destruct (String.eqb _ _); [by destruct (For _)|].
  cbn [bind call]. wp_step; [done|]. destruct r; [done|]. by destruct (For _).
Qed.

Lemma release_all_no_status l target : forall h, wp no_status (release_all impersonation l target) h (fun _ _ => True).
Proof.
  induction l as [|r l IH]; intros h; cbn [release_all]; [done|].
  eapply (wp_use _ _ _ _ (fun _ _ => True)); [|intros h1 [e|] _ _; [done|apply IH]].
  unfold releaseContributor. destruct (String.eqb _ _); [done|].
  eapply wp_use; [apply applierFor_no_status|]. intros h1 [[kind as_]|e] _ _; [|done].
  destruct (ParsePaths _); [|done]. destruct (decodePriorValues _); [|done].
  eapply (wp_use _ _ _ _ (fun _ _ => True)); [by apply wp_translate|done].
Qed.

Lemma listing_no_status t h : listings h = [] -> wp no_status (listContributors t) h (list_complete t).
Proof. intros Hh. eapply wp_mono; [by apply listContributors_wp| |done]. by intros h' R []. Qed.

Lemma reconcileDelete_no_status t h :
  listings h = [] -> wp no_status (reconcileDelete impersonation t) h (fun _ _ => True).
Proof.
  intros Hl. unfold reconcileDelete. cbv zeta. eapply wp_use; [by apply listing_no_status|].
  intros h1 [cs|e] _ _; [|done]. eapply wp_use; [apply release_all_no_status|]. intros h2 [e|] _ _; [done|].
  eapply (wp_use _ _ _ _ (fun _ _ => True)).
  { unfold maybeDeleteTarget. destruct (negb _); [done|]. wp_step; [done|]. destruct r; [by destruct (IsNotFound _)|done]. }
  intros h3 [e|] _ _; [done|]. eapply (wp_use _ _ _ _ (fun _ _ => True)); [|by intros h4 [t4 [e|]] _ _].
  unfold release_finalizer. destruct (ContainsFinalizer _ _); [|done]. wp_step; [done|]. by destruct r.
Qed.

(** A loop that stops early asks to be run again. *)
Definition stops_loudly (v : verdict) : Prop := match v with Next _ => True | Stop o => ~ quiet o end.

Lemma not_quiet_failed e : ~ quiet (failed e).
Proof. by intros (? & _). Qed.

Lemma contribute_loud target active claims r contribution p h :
  wp anything (contribute impersonation range_order target active claims r contribution p) h (fun _ v => stops_loudly v).
Proof.
  unfold contribute. cbv zeta. eapply wp_use; [apply wp_anything|]. intros h1 [[kind as_]|e] _ _; [|done].
  destruct (isSupersededOn _ _ _); [done|]. destruct (decodePriorValues _); [|apply not_quiet_failed].
  destruct (baseFor _); [|done]. eapply wp_use; [apply wp_anything|]. intros h2 [result|e] _ _.
  - unfold after_apply. cbv zeta. destruct (Res_Conflict result); [done|].
    eapply wp_use; [apply wp_anything|]. intros h3 [t3 [e|]] _ _; [apply not_quiet_failed|done].
  - destruct (IsNotFound e); [done|]. destruct (_ || _); [by intros (_ & _ & ?)|].
    eapply wp_use; [apply wp_anything|]. intros h3 t3 _ _. eapply wp_use; [apply wp_anything|].
    intros h4 [t4 [se|]] _ _; apply not_quiet_failed.
Qed.

Lemma contribute_all_loud target active claims todo : forall p h,
  wp anything (contribute_all impersonation range_order target active claims todo p) h (fun _ v => stops_loudly v).
Proof.
  induction todo as [|[r contribution] todo IH]; intros p h; cbn [contribute_all]; [done|].
  eapply wp_use; [apply contribute_loud|]. intros h1 [p'|o] _ H1; [apply IH|exact H1].
Qed.

(** A pass that ends waiting for its target sets the timer. *)
Lemma conclude_timer p h :
  wp anything (conclude p) h (fun _ '(t, after) => Phase (GetTrackerStatus t) = TrackerPhaseWaiting -> after <> 0%Z).
Proof.
  unfold conclude. cbv zeta.
  repeat case_match; cbn [bind trackerCond call wp]; repeat (split; [done|intros ?]); cbn [bind trackerCond call wp];
    repeat (split; [done|intros ?]); rewrite ?status_set_status; cbn; rewrite ?status_set_status; cbn; done.
Qed.

(** A quiet outcome whose last status says waiting comes of a contribution that cannot be rendered. *)
Definition rests (t : Tracker) (cs : list contributorRecord) (h : list (event ctlE)) (o : outcome) : Prop :=
  quiet o -> last_phase h = Some TrackerPhaseWaiting -> is_ok (renderAll (active_of cs) (target_of t)) = false.

Lemma contribute_pass_rests t cs h :
  wp anything (contribute_pass impersonation range_order t (active_of cs) (target_of t)) h (rests t cs).
Proof.
  unfold contribute_pass. destruct (renderAll _ _) as [rendered|e] eqn:Er.
  - eapply wp_use; [apply contribute_all_loud|]. intros h1 [p|o] _ H1; [|by intros ?].
    eapply wp_use; [apply conclude_timer|]. intros h2 [t2 after] _ H2.
    eapply wp_use; [apply writeStatus_phase|]. intros h3 [t3 e3] _ H3. intros (_ & _ & Ha) Hp. cbn in Ha.
    rewrite H3 in Hp. injection Hp as Hp. by destruct (H2 Hp).
  - eapply wp_use; [apply wp_anything|]. intros h1 t1 _ _. eapply wp_use; [apply wp_anything|].
    intros h2 [t2 e2] _ _ _ _. by rewrite Er.
Qed.

Lemma reconcileContributions_rests t cs h :
  wp anything (reconcileContributions impersonation range_order t cs) h (rests t cs).
Proof.
  unfold reconcileContributions. cbv zeta. pose proof (contribute_pass_rests t cs) as Hpass. unfold active_of in *.
  destruct (splitReleasing cs) as [releasing active] eqn:Es. cbn [snd] in *.
  eapply wp_use; [apply wp_anything|]. intros h1 [e|] _ _; [by intros (? & _)|].
  eapply wp_use; [apply wp_anything|]. intros h2 [e|] _ _; [by intros (? & _)|]. apply Hpass.
Qed.

Definition excused (h : list (event ctlE)) (o : outcome) : Prop :=
  quiet o -> last_phase h = Some TrackerPhaseWaiting -> exists t, read_tracker h = Some t /\ unrenderable h t.

Lemma Reconcile_rests kind ns name :
  wp anything (Reconcile impersonation range_order kind ns name) [] excused.
Proof.
  unfold Reconcile. cbn [bind call wp]. split; [done|]. intros [t|e]; [|by intros _].
  set (h := [] ++ _).
  assert (read_tracker h = Some t) as Ht by done. assert (listings h = []) as Hl by done.
  assert (last_phase h = None) as Hp by done. clearbody h.
  assert (forall {A} (p : ctlM A) (f : A -> outcome), wp no_status p h (fun _ _ => True) ->
    wp anything (do! a <- p in Ret (f a)) h excused) as Hnone.
  { intros A p f H. eapply wp_use; [by apply no_status_phase|]. intros h' a _ [_ E]. cbn. unfold excused.
    rewrite E, Hp. by intros _. }
  destruct (IsFenced _).
  { unfold finishPromotion. cbv zeta. destruct (PromotedTo _) as [p|]; [|by intros _; rewrite Hp].
    cbn [bind call]. wp_step; [done|]. destruct r as [successor|e].
    - destruct (negb _); [by intros (_ & _ & ?)|].
      eapply wp_post; [apply (no_status_phase _ _ (fun _ _ => True))|].
      + unfold release_finalizer. destruct (ContainsFinalizer _ _); cbn [bind call]; repeat (wp_step; [done|]); [|done].
        destruct r as [stored|e0]; cbn [bind call]; [by wp_step|done].
      + intros h' o [_ E] _. by rewrite E, last_phase_other, Hp.
    - destruct (IsNotFound e); [|by intros (? & _)]. cbn [bind call]. wp_step; [done|]. by intros (_ & ? & _). }
  destruct (deleting _).
  { eapply wp_post; [by apply no_status_phase, reconcileDelete_no_status|]. intros h' o [_ E] _. by rewrite E, Hp. }
  destruct (negb _).
  { cbn [bind call]. wp_step; [done|]. destruct r as [?|?]; [by intros (_ & ? & _)|by intros (? & _)]. }
  cbn [bind call]. wp_step; [done|].
  assert (listings (h ++ [mkEvent _ (EnsureWatch (TrackerKind t) (TT_APIVersion (targetRef t)) (TT_Kind (targetRef t))) r]) = [])
    as Hl1 by by rewrite listings_app, Hl.
  eapply wp_use; [by apply no_status_phase, listing_no_status|]. intros h1 [cs|e] Hpre [Hc E]; [|by intros (? & _)].
  rewrite last_phase_other, Hp in E by done.
  assert (read_tracker h1 = Some t) as Ht1 by (eapply read_tracker_prefix; [|exact Ht]; etrans; [apply prefix_last|exact Hpre]).
  destruct (Nat.eqb _ _).
  - unfold reconcileEmpty. cbv zeta. destruct (_ && _).
    + eapply wp_post; [apply (no_status_phase _ _ (fun _ _ => True))|].
      * unfold update_and_delete. wp_step; [done|]. destruct r0; cbn [bind call]; [by wp_step|done].
      * intros h' o [_ E'] _. by rewrite E', E.
    + eapply wp_use; [apply writeStatus_phase|]. intros h2 [t2 e2] _ H2. intros _. rewrite H2, status_set_status. done.
  - eapply wp_post; [apply wp_extends, reconcileContributions_rests|]. intros h2 o [Hp2 Hr] Hq Hw.
    exists t. split; [by eapply read_tracker_prefix|]. destruct (renderAll_err _ _ (Hr Hq Hw)) as (r0 & Hin & Hbad).
    exists (cr_obj r0). split; [|done]. destruct (Hc _ eq_refl) as [Hk _]. eapply listed_prefix; [exact Hp2|].
    by apply Hk, active_in.
Qed.

End Waiting.

(** ** Properties *)

(** (C11) No call to the API server fails in silence.  Whatever it answers, a tracker's reconcile that
    returns no error has seen no read or write fail, other than with an answer it acts on (the object is
    not there, is there already, or has changed in the meantime).  Two failures besides are absorbed:
    building an impersonating client, which is recorded on the contributor, and registering the watch of
    the target's kind, which is only logged.  (A patch that does not render is no call: it is recorded
    on the contributor too, and the reconcile goes on without it.) *)
Theorem Reconcile_surfaces_errors {JP : JsonPatch} (impersonation : bool)
    (range_order : ranging) (kind namespace name : string)
    (tr : list (event ctlE)) (o : outcome) (e : event ctlE) (x : goerror)
    (Hexec : exec (Reconcile impersonation range_order kind namespace name) tr o)
    (Hok : Err_of o = None) (He : e ∈ tr) (Hfail : failure e = Some x) :
  IsNotFound x = true \/ IsAlreadyExists x = true \/ IsConflict x = true \/
  builds_client e = true \/ registers_watch e = true.
Proof.
  destruct (wp_exec _ _ _ _ _ _ (Reconcile_told impersonation range_order kind namespace name) Hexec) as [_ H].
  specialize (H Hok). unfold clean in H. rewrite Forall_forall in H. specialize (H e He). unfold forgiven in H.
  rewrite Hfail in H. destruct H as [H|H]; [|auto]. unfold is_answer in H.
  apply orb_prop in H as [H|]; [|auto]. apply orb_prop in H as [|]; auto.
Qed.

(** (C26) No wait without a timer.  Whatever the API server answers, a tracker's reconcile that returns no
    error and asks for no further run, not at once and not later, has not left the tracker in phase
    Waiting, unless what it waits for is a change of a contributor whose patch cannot be rendered. *)
Theorem Reconcile_waits_with_timer {JP : JsonPatch} (impersonation : bool)
    (range_order : ranging) (kind namespace name : string)
    (tr : list (event ctlE)) (o : outcome)
    (Hexec : exec (Reconcile impersonation range_order kind namespace name) tr o)
    (Hquiet : Err_of o = None /\ Requeue o = false /\ RequeueAfter o = 0%Z)
    (Hwait : last_phase tr = Some TrackerPhaseWaiting) :
  exists t c, read_tracker tr = Some t /\ listed tr c /\
    is_ok (Render.Render (Some (Patch (GetPatchSpec c))) (target_of t)) = false.
Proof.
  destruct (wp_exec _ _ _ _ _ _ (Reconcile_rests impersonation range_order kind namespace name) Hexec) as [_ H].
  destruct (H Hquiet Hwait) as (t & Ht & c & Hc & Hr). by exists t, c.
Qed.

(** The contributor's first pass meets a missing target and a conflict-free cluster. *)
Lemma Reconcile_surfaces_errors_witness :
  Err_of (snd (sample_run status_a None OnReleaseDelete)) = None /\
  (IsNotFound (NewNotFound "" "configmaps" "cm") = true \/ IsAlreadyExists (NewNotFound "" "configmaps" "cm") = true \/
   IsConflict (NewNotFound "" "configmaps" "cm") = true \/ builds_client read_cm = true \/ registers_watch read_cm = true).
Proof.
  split; [vm_refl|].
  apply (Reconcile_surfaces_errors (JP := no_ops) true (fun _ => map_to_list) KindSharedResource "team-a" "t"
    (fst (sample_run status_a None OnReleaseDelete)) (snd (sample_run status_a None OnReleaseDelete))).
  - apply sample_run_exec.
  - vm_refl.
  - apply (list_elem_of_lookup_2 _ 5). vm_refl.
  - vm_refl.
Defined.

(** A contributor whose patch is no JSON. *)
Definition unrenderable_patch : Contributor :=
  ResourcePatch (mkPatchObject (c_meta (server_patch None OnReleaseRevert))
    (mkResourcePatchSpec (Target (p_spec (sample_patch ""))) (mkLifecycleSpec "" "" None "") (mkApplySpec "" "" "") 0 None None
       (mkPatchSpec "" (Some (RawMalformed "{")) None []))
    (GetPatchStatus (server_patch None OnReleaseRevert))).

Definition waiting_run : list (event ctlE) * outcome :=
  behaviour (sample_server (server_tracker status_a) unrenderable_patch)
    (Reconcile (JP := no_ops) true (fun _ => map_to_list) KindSharedResource "team-a" "t") tt.

Lemma Reconcile_waits_with_timer_witness :
  last_phase (fst waiting_run) = Some TrackerPhaseWaiting /\
  exists t c, read_tracker (fst waiting_run) = Some t /\ listed (fst waiting_run) c /\
    is_ok (Render.Render (H := no_ops) (Some (Patch (GetPatchSpec c))) (target_of t)) = false.
Proof.
  split; [vm_refl|].
  apply (Reconcile_waits_with_timer (JP := no_ops) true (fun _ => map_to_list) KindSharedResource "team-a" "t"
    (fst waiting_run) (snd waiting_run)).
  - apply behaviour_exec.
  - split; [vm_refl|]. split; vm_refl.
  - vm_refl.
Defined.

End TrackerOutcomes.
