(* ===== verification/ContributorGuarantees.v ===== *)
(** The guarantees of the contributor's reconcile, over every behaviour of the API server. *)
From stdpp Require Import strings base list gmap fin_maps.
From Stdlib Require Import Ascii ZArith Lia.
From S2P Require Import Prelude GoStrings Values ApiTypes Conditions Identity Scope Kube Containment Render Client ProgramLogic Applier TrackerLogic TrackerSpec Controller Traces Promotion PromotionSpec ContributorReconciler ContributorSpec.
Local Open Scope string_scope.
Local Open Scope list_scope.
Local Open Scope go_scope.

Module ContributorGuarantees.
Import GoStrings Values ApiTypes Conditions Identity Scope Kube Containment Render Client ProgramLogic Applier TrackerLogic TrackerSpec Controller Traces Promotion PromotionSpec ContributorReconciler ContributorSpec.

(** ** The state of each target *)

Definition none_pending (n : tally) : Prop := n_conflicted n = 0%Z /\ n_superseded n = 0%Z /\ n_waiting n = 0%Z.
Definition nonneg (n : tally) : Prop := (0 <= n_conflicted n /\ 0 <= n_superseded n /\ 0 <= n_waiting n)%Z.

(** The tally [n'] comes from [n] by going through the targets. *)
Definition tallied (n n' : tally) (targets : list TargetStatus) : Prop :=
  nonneg n -> nonneg n' /\
  (none_pending n' <-> none_pending n /\ Forall (fun t => TS_State t = ContributorStateApplied) targets).

Lemma tallied_count s n ts : TS_State ts = s -> tallied n (count_state s n) [ts].
Proof.
  intros <-. unfold tallied, count_state, nonneg, none_pending. intros Hn. rewrite Forall_singleton.
  destruct (String.eqb_spec (TS_State ts) ContributorStateApplied) as [E|E]; cbn; [split; [done|tauto]|].
  destruct (String.eqb (TS_State ts) ContributorStateConflicted); cbn; [split; [lia|split; [lia|naive_solver]]|].
  destruct (String.eqb (TS_State ts) ContributorStateSuperseded); cbn; (split; [lia|split; [lia|naive_solver]]).
Qed.

Lemma observe_target_tallied ref key t n :
  tallied n (snd (observe_target ref key t n)) [fst (observe_target ref key t n)].
Proof.
  assert (forall ts, TS_State ts = "" -> tallied n (waiting_one n) [ts]) as Hw.
  { intros ts E. change (waiting_one n) with (count_state "" n). by apply tallied_count. }
  unfold observe_target. cbv zeta. destruct t as [t|]; [|by apply Hw].
  destruct (FindContributor _ _); [by apply tallied_count|by apply Hw].
Qed.

Lemma tallied_trans n n1 n2 l1 l2 : tallied n n1 l1 -> tallied n1 n2 l2 -> tallied n n2 (l1 ++ l2).
Proof. unfold tallied. intros H1 H2 Hn. destruct (H1 Hn) as [Hn1 E1], (H2 Hn1) as [Hn2 E2]. rewrite Forall_app. tauto. Qed.

Section Guarantees.
Context {K : KubeLib}.

(** Every status written is one [Q] holds of. *)
Definition writes_status (Q : Contributor -> Prop) : policy ctlE := fun h R c =>
  match c with UpdateContributorStatus c' => Q c' | _ => True end.

Lemma getTracker_free Q tr h : wp (writes_status Q) (getTracker tr) h (fun _ _ => True).
Proof. unfold getTracker. by destruct (emptyTracker _). Qed.

Lemma observe_targets_tallied Q ref keys : forall trs n h,
  length trs = length keys ->
  wp (writes_status Q) (observe_targets ref keys trs n) h
    (fun _ r => forall l n', r = Ok (l, n') -> length l = length keys /\ tallied n n' l).
Proof.
  induction keys as [|key keys IH]; intros [|tr trs] n h Hl; try discriminate Hl; cbn [observe_targets].
  { intros l n' [= <- <-]. split; [done|]. unfold tallied. rewrite Forall_nil. tauto. }
  injection Hl as Hl. eapply wp_use; [apply getTracker_free|]. intros h1 r _ _. cbv zeta.
  assert (forall t, wp (writes_status Q)
    (let '(ts, n) := observe_target ref key t n in
     try! (rest, n) <- observe_targets ref keys trs n in Ret (Ok (ts :: rest, n))) h1
    (fun _ r => forall l n', r = Ok (l, n') -> length l = length (key :: keys) /\ tallied n n' l)) as Hgo.
  { intros t. pose proof (observe_target_tallied ref key t n) as Ht.
    destruct (observe_target ref key t n) as [ts n1]. cbn [fst snd] in Ht.
    eapply wp_use; [by apply IH|]. intros h2 [[rest n2]|e] _ Hr; [|done]. intros l n' [= <- <-].
    destruct (Hr _ _ eq_refl) as [El Hr']. split; [cbn; by rewrite El|]. exact (tallied_trans _ _ _ [ts] _ Ht Hr'). }
  destruct r as [t|e]; [apply Hgo|]. destruct (IsNotFound e); [apply Hgo|done].
Qed.

Lemma ready_verdict_true total n :
  nonneg n -> (ready_verdict total n).1.1 = ConditionTrue <-> total <> 0%Z /\ none_pending n.
Proof.
  unfold nonneg, none_pending, ready_verdict. intros Hn.
  destruct (Z.eqb_spec total 0); cbn; [split; [discriminate|tauto]|].
  destruct (Z.ltb_spec 0 (n_conflicted n)); cbn; [split; [discriminate|lia]|].
  destruct (Z.ltb_spec 0 (n_superseded n)); cbn; [split; [discriminate|lia]|].
  destruct (Z.ltb_spec 0 (n_waiting n)); cbn; [split; [discriminate|lia]|]. split; [lia|done].
Qed.

(** The status a contributor is left with says [Ready] exactly when every target carries its
    contribution. *)
Definition honest (keys : list TargetKey) (trs : list TrackerRef) (c : Contributor) : Prop :=
  let st := GetPatchStatus c in
  length (ObservedTargets st) = length keys /\ SharedResourceRefs st = trs /\
  exists cond, GetCondition (Conditions st) "Ready" = Some cond /\
    (Cond_Status cond = ConditionTrue <->
     keys <> [] /\ Forall (fun t => TS_State t = ContributorStateApplied) (ObservedTargets st)).

Lemma status_set_contributor s c : GetPatchStatus (set_contributor_status s c) = s.
Proof. by destruct c. Qed.

Lemma contributorCond_ready Q c ty s reason msg h cond :
  ty <> "Ready" -> GetCondition (Conditions (GetPatchStatus c)) "Ready" = Some cond ->
  wp (writes_status Q) (contributorCond c ty s reason msg) h
    (fun _ c' => ObservedTargets (GetPatchStatus c') = ObservedTargets (GetPatchStatus c) /\
       SharedResourceRefs (GetPatchStatus c') = SharedResourceRefs (GetPatchStatus c) /\
       GetCondition (Conditions (GetPatchStatus c')) "Ready" = Some cond).
Proof.
  intros Hne Hc. unfold contributorCond. cbn [bind call wp]. split; [done|]. intros now.
  rewrite status_set_contributor. split; [done|]. split; [done|]. unfold setCond. cbn [Conditions].
  destruct (GetCondition_set now (Conditions (GetPatchStatus c)) (mkCondition ty s 0 None reason msg) "Ready")
    as (c' & _ & _ & ->). cbn [Cond_Type]. apply not_eq_sym, String.eqb_neq in Hne. by rewrite Hne.
Qed.

Lemma contributorCond_sets Q c ty s reason msg h :
  wp (writes_status Q) (contributorCond c ty s reason msg) h
    (fun _ c' => ObservedTargets (GetPatchStatus c') = ObservedTargets (GetPatchStatus c) /\
       SharedResourceRefs (GetPatchStatus c') = SharedResourceRefs (GetPatchStatus c) /\
       exists cond, GetCondition (Conditions (GetPatchStatus c')) ty = Some cond /\ Cond_Status cond = s).
Proof.
  unfold contributorCond. cbn [bind call wp]. split; [done|]. intros now.
  rewrite status_set_contributor. split; [done|]. split; [done|]. unfold setCond. cbn [Conditions].
  destruct (GetCondition_set now (Conditions (GetPatchStatus c)) (mkCondition ty s 0 None reason msg) ty)
    as (c' & Es & _ & ->). cbn [Cond_Type]. rewrite String.eqb_refl. by exists c'.
Qed.

Lemma syncStatus_honest c keys trs h :
  length trs = length keys ->
  wp (writes_status (honest keys trs)) (syncStatus c keys trs) h (fun _ _ => True).
Proof.
  intros Hl. unfold syncStatus. eapply wp_use; [by apply observe_targets_tallied|].
  intros h1 [[observed n]|e] _ Hobs; [|done]. destruct (Hobs _ _ eq_refl) as [Elen Ht]. cbv zeta.
  destruct Ht as [Hn Hpend]; [unfold nonneg; cbn; lia|].
  pose proof (ready_verdict_true (Z.of_nat (length keys)) n Hn) as Hready.
  destruct (ready_verdict _ _) as [[s reason] msg]. cbn [fst] in Hready.
  eapply wp_use; [apply contributorCond_sets|]. rewrite status_set_contributor. cbn [ObservedTargets SharedResourceRefs with_targets].
  intros h2 c2 _ (Eo & Er & cond & Hc & Es).
  set (c2' := if String.eqb s ConditionTrue then _ else c2).
  assert (ObservedTargets (GetPatchStatus c2') = observed /\ SharedResourceRefs (GetPatchStatus c2') = trs /\
    GetCondition (Conditions (GetPatchStatus c2')) "Ready" = Some cond) as (Eo2 & Er2 & Hc2).
  { unfold c2'. destruct (String.eqb _ _); [|done]. by rewrite status_set_contributor. }
  clearbody c2'.
  eapply wp_use; [by apply contributorCond_ready|]. intros h3 c3 _ (Eo3 & Er3 & Hc3).
  eapply wp_use; [by apply contributorCond_ready|]. intros h4 c4 _ (Eo4 & Er4 & Hc4).
  cbn [bind call wp]. split; [|by intros ?]. unfold writes_status, honest. cbv zeta.
  rewrite Eo4, Eo3, Eo2, Er4, Er3, Er2. split; [done|]. split; [done|]. exists cond. split; [done|].
  rewrite Es, Hready, Hpend. unfold none_pending at 1. cbn.
  destruct keys; cbn; [naive_solver lia|]. split; [naive_solver|]. intros [_ ?]. split; [lia|done].
Qed.

(** ** Resolved targets *)

(** The objects the server listed as targets, by namespace and name, in order. *)
Definition targets_of (e : event ctlE) : list (string * string) :=
  match ev_call e in ctlE R return R -> list (string * string) with
  | ListTargets _ _ _ _ => fun r => match r with Ok l => l | Err _ => [] end
  | _ => fun _ => []
  end (ev_reply e).

Definition targets_listed (h : list (event ctlE)) : list (string * string) := concat (map targets_of h).

Definition key_in (spec : ResourcePatchSpec) (item : string * string) : TargetKey :=
  mkTargetKey (Target_APIVersion (Target spec)) (Target_Kind (Target spec)) item.1 item.2.

Lemma add_keys_ok spec items : forall keys ks,
  add_keys spec items keys = Ok ks ->
  ks = keys ++ map (key_in spec) items /\
  (Z.of_nat (length keys) <= effective_max spec -> Z.of_nat (length ks) <= effective_max spec)%Z.
Proof.
  induction items as [|[ns name] items IH]; intros keys ks; cbn [add_keys].
  { intros [= <-]. by rewrite app_nil_r. }
  cbv zeta. destruct (Z.ltb_spec (effective_max spec) (Z.of_nat (length (keys ++ [key_in spec (ns, name)]))) );
    unfold key_in in *; cbn [fst snd] in *.
  - rewrite (proj2 (Z.ltb_lt _ _)) by done. done.
  - rewrite (proj2 (Z.ltb_ge _ _)) by done. intros E. apply IH in E as [-> Hlen].
    split; [by rewrite <- app_assoc|]. intros _. by apply Hlen.
Qed.

Definition lists_at_home (c : Contributor) : policy ctlE := fun h R e =>
  match e with ListTargets _ _ _ ns => stays_home c ns | _ => True end.

Lemma targets_listed_app h h' : targets_listed (h ++ h') = targets_listed h ++ targets_listed h'.
Proof. unfold targets_listed. by rewrite map_app, concat_app. Qed.

Lemma list_targets_ok c ns : forall h keys,
  (forall n, n ∈ ns -> stays_home c (if String.eqb n "" then None else Some n)) ->
  keys = map (key_in (GetPatchSpec c)) (targets_listed h) ->
  (Z.of_nat (length keys) <= effective_max (GetPatchSpec c))%Z ->
  wp (lists_at_home c) (list_targets (GetPatchSpec c) ns keys) h
    (fun h' r => forall ks, r = Ok ks -> ks = map (key_in (GetPatchSpec c)) (targets_listed h') /\
       (Z.of_nat (length ks) <= effective_max (GetPatchSpec c))%Z).
Proof.
  induction ns as [|n ns IH]; intros h keys Hns Hk Hlen; cbn [list_targets].
  { by intros ks [= <-]. }
  cbn [bind call wp]. split; [apply Hns; left|]. intros [items|e]; [|done].
  destruct (add_keys _ items keys) as [ks|e] eqn:E; [|done]. apply add_keys_ok in E as [-> Hlen'].
  apply IH; [intros n' ?; apply Hns; by right| |by apply Hlen'].
  rewrite targets_listed_app, map_app, Hk. cbn. by rewrite app_nil_r.
Qed.

Lemma effective_max_pos spec : (0 <= effective_max spec)%Z.
Proof. unfold effective_max. cbv zeta. destruct (Z.leb_spec (Target_MaxTargets (Target spec)) 0); lia. Qed.

Lemma resolveTargets_ok c :
  wp (lists_at_home c) (resolveTargets c) []
    (fun h r => forall ks, r = Ok ks ->
       if String.eqb (effective_mode (GetPatchSpec c)) TargetModeSingle then ks = [TargetKeyFor c]
       else ks = map (key_in (GetPatchSpec c)) (targets_listed h) /\
            (Z.of_nat (length ks) <= effective_max (GetPatchSpec c))%Z).
Proof.
  unfold resolveTargets, resolveSelector. cbv zeta. destruct (String.eqb _ _); [by intros ks [= <-]|].
  wp_step; [|done]. wp_step; [done|]. pose proof (effective_max_pos (GetPatchSpec c)) as Hpos.
  unfold selectorNamespaces. destruct (IsClusterScoped c) eqn:Ec; cbn [negb].
  - assert (forall n, stays_home c n) as Hhome by (by unfold stays_home; rewrite Ec).
    destruct (Target_NamespaceSelector _) as [sel|].
    + destruct (selector_error sel); [done|]. cbn [bind call wp]. split; [done|]. intros [names|e]; cbn [bind wp]; [|done].
      apply list_targets_ok; [intros; apply Hhome|done|done].
    + cbn [bind]. apply list_targets_ok; [intros; apply Hhome|done|done].
  - cbn [bind]. apply list_targets_ok; [|done|done]. intros n Hn. apply list_elem_of_singleton in Hn as ->.
    intros _ Hne. apply String.eqb_neq in Hne. by rewrite Hne.
Qed.

Lemma contributor_obeys uncached authorizer ReauthorizeAfter kind ns name tr o pre R c r suf :
  exec (ContributorReconciler.Reconcile uncached authorizer ReauthorizeAfter kind ns name) tr o ->
  tr = pre ++ mkEvent R c r :: suf -> contributor_policy pre R c.
Proof.
  intros Hx Ht. destruct (wp_exec _ _ _ _ _ _ (contributor_Reconcile_wp uncached authorizer ReauthorizeAfter kind ns name) Hx) as [H _].
  exact (H _ _ _ Ht).
Qed.

(** ** Properties *)

(** (C14) A contributor touches targets and trackers only while it is held.  Whatever the API server
    answers, the only call its reconcile makes about target objects is the listing of a contributor in
    Selector mode, for the kind and selector of its spec and, if it is namespaced, in its own namespace:
    it never gets, writes or deletes one.  The only changes it makes to trackers are creations and status
    writes.  And it makes such a listing or such a change only if the contributor as read is valid, is
    not being deleted and carries the finalizer that keeps it until its fields are withdrawn.  (It reads
    trackers at any time, as when it is being deleted and asks whether they have let it go.) *)
Theorem contributor_registers_only_when_held (uncached authorizer : bool) (after : Z) (kind namespace name : string)
    (tr pre suf : list (event ctlE)) (o : outcome) (R : Type) (c : ctlE R) (r : R)
    (Hexec : exec (ContributorReconciler.Reconcile uncached authorizer after kind namespace name) tr o)
    (Htr : tr = pre ++ mkEvent R c r :: suf) :
  (touches_target c = true -> exists obj, returned_c pre obj /\ lists_for obj R c) /\
  (changes_tracker c = true -> match c with CreateTracker _ | UpdateTrackerStatus _ => True | _ => False end) /\
  (touches_target c = true \/ changes_tracker c = true ->
   exists obj, read_contributor pre = Some obj /\ Validate obj (Some isNamespacedKind) = [] /\
     deleting (c_meta obj) = false /\ ContainsFinalizer ContributorFinalizer (c_meta obj) = true).
Proof.
  pose proof (contributor_obeys _ _ _ _ _ _ _ _ _ _ _ _ _ Hexec Htr) as H.
  destruct c; try done; cbn; (split; [|split]); try done; try (intros [?|?]; done); intros _; by destruct H as [? ?].
Qed.

(** (C15) The finalizer goes last: the reconcile stores a contributor without its finalizer only if the
    contributor is being deleted and every tracker it is registered with has been seen, in this
    reconcile, either absent or without it among its contributors. *)
Theorem contributor_finalizer_last (uncached authorizer : bool) (after : Z) (kind namespace name : string)
    (tr pre suf : list (event ctlE)) (o : outcome) (c' : Contributor) (r : res goerror Contributor)
    (Hexec : exec (ContributorReconciler.Reconcile uncached authorizer after kind namespace name) tr o)
    (Htr : tr = pre ++ mkEvent _ (UpdateContributor c') r :: suf)
    (Hdrop : ContainsFinalizer ContributorFinalizer (c_meta c') = false) :
  exists obj, read_contributor pre = Some obj /\ deleting (c_meta obj) = true /\
    forall tr, tr ∈ SharedResourceRefs (GetPatchStatus obj) -> seen (lets_go (ContributorRefOf obj) tr) pre.
Proof.
  destruct (contributor_obeys _ _ _ _ _ _ _ _ _ _ _ _ _ Hexec Htr) as (obj & Hobj & [Hf|[Hd Hall]]); [congruence|].
  by exists obj.
Qed.

(** No second writer: a namespaced tracker is created, with its finalizer, only after the cluster
    tracker of the same name, which would own the target for everyone, has been seen absent. *)
Theorem contributor_no_second_writer (uncached authorizer : bool) (after : Z) (kind namespace name : string)
    (tr pre suf : list (event ctlE)) (o : outcome) (t : TrackerObject) (r : option goerror)
    (Hexec : exec (ContributorReconciler.Reconcile uncached authorizer after kind namespace name) tr o)
    (Htr : tr = pre ++ mkEvent _ (CreateTracker (SharedResource t)) r :: suf) :
  ContainsFinalizer TrackerFinalizer (t_meta t) = true /\
  seen (absent (mkTrackerRef KindClusterSharedResource (Name (t_meta t)) "")) pre.
Proof.
  destruct (contributor_obeys _ _ _ _ _ _ _ _ _ _ _ _ _ Hexec Htr) as (_ & ? & H). split; [done|]. by apply H.
Qed.

(** (C31) What a contributor resolves to: in Single mode its one contained target; in Selector mode
    exactly the objects the server listed, in order and none dropped, at most [maxTargets] of them;
    and a namespaced contributor lists targets in its own namespace only. *)
Theorem resolveTargets_correct (obj : Contributor) (tr : list (event ctlE)) (keys : list TargetKey)
    (Hexec : exec (resolveTargets obj) tr (Ok keys)) :
  (effective_mode (GetPatchSpec obj) = TargetModeSingle -> keys = [TargetKeyFor obj]) /\
  (effective_mode (GetPatchSpec obj) <> TargetModeSingle ->
   keys = map (key_in (GetPatchSpec obj)) (targets_listed tr) /\
   (Z.of_nat (length keys) <= effective_max (GetPatchSpec obj))%Z) /\
  (forall pre R c r suf, tr = pre ++ mkEvent R c r :: suf -> lists_at_home obj pre R c).
Proof.
  destruct (wp_exec _ _ _ _ _ _ (resolveTargets_ok obj) Hexec) as [Ho Hp]. specialize (Hp _ eq_refl).
  split; [|split; [|intros pre R c r suf E; exact (Ho _ _ _ E)]].
  - intros E. by rewrite E, String.eqb_refl in Hp.
  - intros E. apply String.eqb_neq in E. by rewrite E in Hp.
Qed.

(** (C30) Ready tells the truth: the status [syncStatus] writes mirrors every resolved target, and its
    [Ready] condition is true exactly when there is a target and every one of them is reported
    applied; a conflicted, superseded, waiting or unregistered one makes it false. *)
Theorem syncStatus_ready_iff_applied (obj : Contributor) (keys : list TargetKey) (trs : list TrackerRef)
    (tr pre suf : list (event ctlE)) (o : option goerror) (c' : Contributor) (r : res goerror Contributor)
    (Hlen : length trs = length keys) (Hexec : exec (syncStatus obj keys trs) tr o)
    (Htr : tr = pre ++ mkEvent _ (UpdateContributorStatus c') r :: suf) :
  let st := GetPatchStatus c' in
  length (ObservedTargets st) = length keys /\ SharedResourceRefs st = trs /\
  exists cond, GetCondition (Conditions st) "Ready" = Some cond /\
    (Cond_Status cond = ConditionTrue <->
     keys <> [] /\ Forall (fun t => TS_State t = ContributorStateApplied) (ObservedTargets st)).
Proof. destruct (wp_exec _ _ _ _ _ _ (syncStatus_honest obj keys trs [] Hlen) Hexec) as [H _]. exact (H _ _ _ Htr). Qed.

End Guarantees.

(** ** A small server

    It has one contributor; trackers exist only once created, and every write is accepted. *)

Definition held_patch (deleted : option Z) (mode name : string) (maxTargets : Z) : Contributor :=
  ResourcePatch (mkPatchObject
    (mkObjectMeta "a" "team-a" "u1" "1" 1 0 deleted [ContributorFinalizer] ∅)
    (mkResourcePatchSpec (mkTargetRef mode "v1" "ConfigMap" name "" (if String.eqb mode "" then None else Some (mkLabelSelector ∅ [])) None maxTargets)
       (mkLifecycleSpec OnMissingWait OnReleaseRevert None "") (mkApplySpec ApplyModeClientSideApply "" "") 0 None None
       (Patch (p_spec (sample_patch ""))))
    (mkResourcePatchStatus [] [] [mkTrackerRef KindSharedResource "t" "team-a"] 0 "" None)).

Definition contributor_server (c : Contributor) (R : Type) (e : ctlE R) (s : option Tracker) : R * option Tracker :=
  match e in ctlE R return R * option Tracker with
  | OnTarget _ _ e' => (match e' in targetE R return R with
      | GetTarget _ => Ok ∅ | CreateTarget x | UpdateTarget x | ApplyTarget x _ _ => Ok x end, s)
  | DeleteTarget _ _ => (None, s)
  | BuildClient _ => (None, s)
  | GetTracker _ kind ns name =>
      (match s with
       | Some t => if String.eqb (TrackerKind t) kind then Ok t else Err (NewNotFound "terasky.com" kind name)
       | None => Err (NewNotFound "terasky.com" kind name)
       end, s)
  | CreateTracker t => (None, Some (set_tracker_status
      (with_contributors [cr_status (record_of empty_status c)] empty_status) t))
  | UpdateTracker t' | UpdateTrackerStatus t' => (Ok t', s)
  | DeleteTracker _ => (None, s)
  | GetContributor _ _ _ => (Ok c, s)
  | ListContributors _ _ _ => (Ok [], s)
  | UpdateContributor c' | UpdateContributorStatus c' => (Ok c', s)
  | ListTargets _ _ _ _ => (Ok [("team-a", "x"); ("team-a", "y")], s)
  | ListNamespaces _ => (Ok [], s)
  | AuthorizeAs _ _ => (Ok (true, ""), s)
  | EnsureWatch _ _ _ => (None, s)
  | Now => (0%Z, s)
  end.

Definition contributor_run (c : Contributor) : list (event ctlE) * outcome :=
  behaviour (contributor_server c)
    (ContributorReconciler.Reconcile (K := plain_library) true false 0 KindResourcePatch "team-a" "a") None.

Lemma contributor_run_exec c :
  exec (ContributorReconciler.Reconcile (K := plain_library) true false 0 KindResourcePatch "team-a" "a")
    (contributor_run c).1 (contributor_run c).2.
Proof. apply behaviour_exec. Qed.

Definition new_patch : Contributor := held_patch None "" "cm" 0.
Definition leaving_patch : Contributor := held_patch (Some 3%Z) "" "cm" 0.
Definition selecting_patch : Contributor := held_patch None TargetModeSelector "" 5.

(** What the run's fourth call creates. *)
Definition created_tracker : TrackerObject :=
  match (contributor_run new_patch).1 !! 3 with
  | Some e => match ev_call e with CreateTracker t => tracker_object t | _ => mkTrackerObject (c_meta new_patch) (mkTrackerTargetRef "" "" "" "") empty_status end
  | None => mkTrackerObject (c_meta new_patch) (mkTrackerTargetRef "" "" "" "") empty_status
  end.

Lemma contributor_registers_only_when_held_witness :
  exists obj, read_contributor (take 3 (contributor_run new_patch).1) = Some obj /\ deleting (c_meta obj) = false.
Proof.
  destruct (contributor_registers_only_when_held (K := plain_library) true false 0 KindResourcePatch "team-a" "a"
    (contributor_run new_patch).1 (take 3 (contributor_run new_patch).1) (drop 4 (contributor_run new_patch).1)
    (contributor_run new_patch).2 _ (CreateTracker (SharedResource created_tracker)) None) as (_ & _ & H).
  - apply contributor_run_exec.
  - vm_refl.
  - destruct (H (or_intror eq_refl)) as (obj & Ho & _ & Hd & _). exists obj. split; [exact Ho|exact Hd].
Defined.

Definition released_patch : Contributor :=
  set_contributor_meta (RemoveFinalizer ContributorFinalizer (c_meta leaving_patch)) leaving_patch.

Lemma contributor_finalizer_last_witness :
  exists obj, read_contributor (take 2 (contributor_run leaving_patch).1) = Some obj /\
    deleting (c_meta obj) = true.
Proof.
  destruct (contributor_finalizer_last (K := plain_library) true false 0 KindResourcePatch "team-a" "a"
    (contributor_run leaving_patch).1 (take 2 (contributor_run leaving_patch).1) (drop 3 (contributor_run leaving_patch).1)
    (contributor_run leaving_patch).2 released_patch (Ok released_patch)) as (obj & Ho & Hd & _).
  - apply contributor_run_exec.
  - vm_refl.
  - reflexivity.
  - exists obj. split; [exact Ho|exact Hd].
Defined.

Lemma resolveTargets_correct_witness :
  let run := behaviour (contributor_server selecting_patch) (resolveTargets (K := plain_library) selecting_patch) None in
  run.2 = Ok (map (key_in (GetPatchSpec selecting_patch)) [("team-a", "x"); ("team-a", "y")]) /\
  (Z.of_nat (length (map (key_in (GetPatchSpec selecting_patch)) [("team-a", "x"); ("team-a", "y")])) <= 5)%Z.
Proof.
  cbv zeta. split; [vm_refl|].
  pose (run := behaviour (contributor_server selecting_patch) (resolveTargets (K := plain_library) selecting_patch) None).
  destruct (resolveTargets_correct (K := plain_library) selecting_patch run.1
    (map (key_in (GetPatchSpec selecting_patch)) [("team-a", "x"); ("team-a", "y")])) as (_ & H & _).
  - exact (behaviour_exec _ _ _).
  - apply H. discriminate.
Defined.

Definition synced_run : list (event ctlE) * option goerror :=
  behaviour (contributor_server new_patch)
    (syncStatus new_patch [TargetKeyFor new_patch] [mkTrackerRef KindSharedResource "t" "team-a"]) None.

Definition synced_patch : Contributor :=
  match synced_run.1 !! 4 with
  | Some e => match ev_call e with UpdateContributorStatus c => c | _ => new_patch end
  | None => new_patch
  end.

Lemma syncStatus_ready_iff_applied_witness :
  exists cond, GetCondition (Conditions (GetPatchStatus synced_patch)) "Ready" = Some cond.
Proof.
  destruct (syncStatus_ready_iff_applied new_patch [TargetKeyFor new_patch] [mkTrackerRef KindSharedResource "t" "team-a"]
    synced_run.1 (take 4 synced_run.1) (drop 5 synced_run.1) synced_run.2 synced_patch (Ok synced_patch))
    as (_ & _ & cond & Hc & _).
  - reflexivity.
  - exact (behaviour_exec _ _ _).
  - vm_refl.
  - exists cond. exact Hc.
Defined.

End ContributorGuarantees.
