(* ===== verification/Webhook.v ===== *)
(** Admission: the authorization checks of [internal/webhook/sar.go], the validating handler of
    [validator.go] and the recording handler of [mutator.go].

    Reviews are calls to the API server; decoding of a request's raw object is the decoder's, a
    library's. *)
From stdpp Require Import strings base list gmap fin_maps.
From Stdlib Require Import Ascii ZArith Lia.
From S2P Require Import Prelude GoStrings Values ApiTypes Identity Scope Kube Client.
Local Open Scope string_scope.
Local Open Scope list_scope.
Local Open Scope go_scope.

Module Webhook.
Import GoStrings Values ApiTypes Identity Scope Kube Client.

(** ** Checks *)

Definition VerbGet : string := "get".
Definition VerbCreate : string := "create".
Definition VerbUpdate : string := "update".
Definition VerbPatch : string := "patch".
Definition VerbDelete : string := "delete".
Definition VerbImpersonate : string := "impersonate".

Definition OperationCreate : string := "CREATE".
Definition OperationUpdate : string := "UPDATE".
Definition OperationDelete : string := "DELETE".

Record Check := mkCheck {
  Verb : string;
  Check_Group : string;
  Check_Resource : string;
  Check_Namespace : string;
  Check_Name : string;
}.

#[export] Instance Check_eq_dec : EqDecision Check.
Proof. solve_decision. Defined.

Definition Check_String (c : Check) : string :=
  let target := if String.eqb (Check_Group c) "" then Check_Resource c
                else Check_Resource c +:+ "." +:+ Check_Group c in
  let ns := negb (String.eqb (Check_Namespace c) "") in
  let name := negb (String.eqb (Check_Name c) "") in
  if ns && name then Verb c +:+ " " +:+ target +:+ " " +:+ Check_Namespace c +:+ "/" +:+ Check_Name c
  else if ns then Verb c +:+ " " +:+ target +:+ " in namespace " +:+ Check_Namespace c
  else if name then Verb c +:+ " " +:+ target +:+ " " +:+ Check_Name c
  else Verb c +:+ " " +:+ target +:+ " (cluster-wide)".

(** The map is keyed by the printed check; a later check replaces an earlier one. *)
Definition dedupeChecks (l : list Check) : list Check :=
  let seen := foldl (fun m c => <[Check_String c := c]> m) (∅ : gmap string Check) l in
  sort (fun a b => sltb (Check_String a) (Check_String b)) (map snd (map_to_list seen)).

Definition guessResource (kind : string) : string :=
  let l := to_lower kind in
  if has_suffix l "s" || has_suffix l "x" || has_suffix l "ch" then l +:+ "es"
  else if has_suffix l "y" then trim_suffix l "y" +:+ "ies"
  else l +:+ "s".

(** A lookup of a kind's resource and scope, absent when there is none. *)
Abbreviation ResourceLookup := (option (string -> string -> res goerror (string * bool))).

(** Dereferencing a nil interface. *)
Definition nil_dereference : goerror := OtherError "invalid memory address or nil pointer dereference".

Section Checks.
Context {K : KubeLib}.

Definition targetChecks (c : Contributor) (resourceFor : ResourceLookup) (verbs : list string) : res goerror (list Check) :=
  let t := Target (GetPatchSpec c) in
  match ParseGroupVersion (Target_APIVersion t) with
  | Err e => Err (Wrapf "parsing target apiVersion %q: %w" [AStr (Target_APIVersion t)] e)
  | Ok (group, _) =>
      let '(resource, namespaced) :=
        match resourceFor with
        | None => (guessResource (Target_Kind t), true)
        | Some look =>
            match look (Target_APIVersion t) (Target_Kind t) with
            | Ok rn => rn
            | Err _ => (guessResource (Target_Kind t), true)
            end
        end in
      let namespace := if (namespaced : bool) then ResolveTargetNamespace c else "" in
      let name := if String.eqb (Target_Mode t) TargetModeSelector then "" else Target_Name t in
      Ok (map (fun v => mkCheck v group resource namespace name) verbs)
  end.

Definition checksForSpec (c : Contributor) (resourceFor : ResourceLookup) : res goerror (list Check) :=
  let spec := GetPatchSpec c in
  let verbs := [VerbUpdate; VerbPatch] ++
    (if String.eqb (OnMissing (Lifecycle spec)) OnMissingCreate then [VerbCreate] else []) ++
    (if String.eqb (OnRelease (Lifecycle spec)) OnReleaseDelete then [VerbDelete] else []) in
  let! checks := targetChecks c resourceFor verbs in
  match Spec_ServiceAccountRef spec with
  | Some ref =>
      if String.eqb (SA_Name ref) "" then Ok checks
      else
        let namespace := if negb (IsClusterScoped c) then Namespace (c_meta c) else SA_Namespace ref in
        Ok (checks ++ [mkCheck VerbImpersonate "" "serviceaccounts" namespace (SA_Name ref)])
  | None => Ok checks
  end.

Definition targetChanged (old new : Contributor) : bool :=
  let a := Target (GetPatchSpec old) in
  let b := Target (GetPatchSpec new) in
  negb (String.eqb (Target_APIVersion a) (Target_APIVersion b)) ||
  negb (String.eqb (Target_Kind a) (Target_Kind b)) ||
  negb (String.eqb (Target_Name a) (Target_Name b)) ||
  negb (String.eqb (Target_Namespace a) (Target_Namespace b)) ||
  negb (String.eqb (Target_Mode a) (Target_Mode b)).

(** A nil contributor is [None]. *)
Definition ChecksFor (op : string) (c old : option Contributor) (resourceFor : ResourceLookup) : res goerror (list Check) :=
  if String.eqb op OperationCreate || String.eqb op OperationUpdate then
    match c with
    | None => Err nil_dereference
    | Some c =>
        let! checks := checksForSpec c resourceFor in
        match old with
        | Some old =>
            if String.eqb op OperationUpdate && targetChanged old c then
              let! oldChecks := checksForSpec old resourceFor in
              Ok (dedupeChecks (checks ++ oldChecks))
            else Ok (dedupeChecks checks)
        | None => Ok (dedupeChecks checks)
        end
    end
  else if String.eqb op OperationDelete then
    match (match c with Some c => Some c | None => old end) with
    | None => Err (Errorf "DELETE admission carried neither object nor oldObject" [])
    | Some subject =>
        let release := OnRelease (Lifecycle (GetPatchSpec subject)) in
        if String.eqb release OnReleaseOrphan then Ok []
        else
          let! checks := targetChecks subject resourceFor
            (if String.eqb release OnReleaseDelete then [VerbDelete] else [VerbUpdate; VerbPatch]) in
          Ok (dedupeChecks checks)
    end
  else Err (Errorf "unsupported operation %q" [AStr op]).

(** ** Reviews *)

Record ReviewStatus := mkReviewStatus { Review_Allowed : bool; Review_Denied : bool; Review_Reason : string }.

(** Creating a [SubjectAccessReview] for a user and a check. *)
Inductive sarE : Type -> Type :=
| CreateReview (user : UserInfo) (c : Check) : sarE (res goerror ReviewStatus).

Record Denial := mkDenial { Denied_Check : Check; Denied_Reason : string }.

(** [Authorizer.Authorize]: the first denial. *)
Fixpoint Authorize (user : UserInfo) (checks : list Check) : prog sarE (res goerror (option Denial)) :=
  match checks with
  | [] => Ret (Ok None)
  | c :: rest =>
      do! r <- call (CreateReview user c) in
      match r with
      | Err e => Ret (Err (Wrapf "creating SubjectAccessReview for %s: %w" [AStr (Check_String c)] e))
      | Ok st =>
          if negb (Review_Allowed st) || Review_Denied st then
            Ret (Ok (Some (mkDenial c
              (if String.eqb (Review_Reason st) "" then "not permitted by RBAC" else Review_Reason st))))
          else Authorize user rest
      end
  end.

(** [Authorizer.ResourceFor]; [mapper] tells whether there is a [RESTMapper]. *)
Definition ResourceFor (mapper : bool) (apiVersion kind : string) : res goerror (string * bool) :=
  if negb mapper then Err (Errorf "no RESTMapper configured" [])
  else
    match ParseGroupVersion apiVersion with
    | Err e => Err e
    | Ok _ => rest_mapping apiVersion kind
    end.

Definition IsNamespacedKind (mapper : bool) (apiVersion kind : string) : res goerror bool :=
  let! (_, namespaced) := ResourceFor mapper apiVersion kind in Ok namespaced.

Definition reviewed_user (user : UserInfo) : UserInfo :=
  if Nat.eqb (length (User_Groups user)) 0 && has_prefix (User_Username user) "system:serviceaccount:"
  then mkUserInfo (User_Username user) (User_UID user) ["system:serviceaccounts"; "system:authenticated"] (User_Extra user)
  else user.

(** [Reauthorizer.Authorize]: allowed or not and why. *)
Definition Reauthorize (mapper : bool) (user : UserInfo) (c : Contributor) : prog sarE (res goerror (bool * message)) :=
  match ChecksFor OperationCreate (Some c) None (Some (ResourceFor mapper)) with
  | Err e => Ret (Ok (false, text (error_text e)))
  | Ok checks =>
      let user := reviewed_user user in
      do! r <- Authorize user checks in
      match r with
      | Err e => Ret (Err e)
      | Ok (Some d) =>
          Ret (Ok (false, Msg "%s may no longer %s: %s"
            [AStr (User_Username user); AStr (Check_String (Denied_Check d)); AStr (Denied_Reason d)]))
      | Ok None => Ret (Ok (true, text ""))
      end
  end.

(** ** Handlers *)

Inductive Response :=
| Allowed
| DeniedWith (m : message)
| Errored (code : Z) (e : goerror)
| Patched (c : Contributor).

Section Requests.
Context {Raw : Type} (DecodeRaw : Raw -> res goerror Contributor).

(** [None] stands for an absent raw object. *)
Record Request := mkRequest {
  Req_Operation : string;
  Req_Object : option Raw;
  Req_OldObject : option Raw;
  Req_UserInfo : UserInfo;
}.

Definition decode_raw (what : string) (raw : option Raw) : res goerror (option Contributor) :=
  match raw with
  | None => Ok None
  | Some r => match DecodeRaw r with Err e => Err (Wrapf (what +:+ ": %w") [] e) | Ok c => Ok (Some c) end
  end.

Definition decode (req : Request) : res goerror (option Contributor * option Contributor) :=
  let! obj := decode_raw "decoding object" (Req_Object req) in
  let! oldObj := decode_raw "decoding oldObject" (Req_OldObject req) in
  match obj, oldObj with
  | None, None => Err (Errorf "admission request carried neither object nor oldObject" [])
  | _, _ => Ok (obj, oldObj)
  end.

(** [ContributorValidator.Handle]. *)
Definition validator_Handle (mapper : bool) (req : Request) : prog sarE Response :=
  let op := Req_Operation req in
  match decode req with
  | Err e => Ret (Errored 400 e)
  | Ok (obj, oldObj) =>
      let errs :=
        match obj with
        | Some o => if String.eqb op OperationDelete then [] else Validate o (Some (IsNamespacedKind mapper))
        | None => []
        end in
      match errs with
      | _ :: _ => Ret (DeniedWith (text (aggregate_error errs)))
      | [] =>
          match ChecksFor op obj oldObj (Some (ResourceFor mapper)) with
          | Err e => Ret (Errored 400 e)
          | Ok [] => Ret Allowed
          | Ok checks =>
              do! r <- Authorize (Req_UserInfo req) checks in
              match r with
              | Err e => Ret (Errored 500 e)
              | Ok (Some d) =>
                  Ret (DeniedWith (Msg "%s may not %s, so it may not create a contributor that does: %s"
                    [AStr (User_Username (Req_UserInfo req)); AStr (Check_String (Denied_Check d)); AStr (Denied_Reason d)]))
              | Ok None => Ret Allowed
              end
          end
      end
  end.

Definition shouldRecord (op : string) (req : Request) (obj : Contributor) : bool :=
  if String.eqb op OperationCreate then true
  else
    match IdentityFromAnnotations (c_meta obj) with
    | None => true
    | Some _ =>
        match Req_OldObject req with
        | None => true
        | Some raw =>
            match DecodeRaw raw with
            | Err _ => true
            | Ok oldObj => negb (spec_equal (GetPatchSpec oldObj) (GetPatchSpec obj))
            end
        end
    end.

Definition set_annotations (a : gmap string string) (c : Contributor) : Contributor :=
  let m := c_meta c in
  let m' := mkObjectMeta (Name m) (Namespace m) (UID m) (ResourceVersion m) (Generation m) (CreationTimestamp m)
    (DeletionTimestamp m) (Finalizers m) a in
  match c with
  | ResourcePatch o => ResourcePatch (mkPatchObject m' (p_spec o) (p_status o))
  | ClusterResourcePatch o => ClusterResourcePatch (mkPatchObject m' (p_spec o) (p_status o))
  end.

(** [PrincipalRecorder.Handle]; its patch is the object it leads to. *)
Definition recorder_Handle (req : Request) : Response :=
  let op := Req_Operation req in
  if negb (String.eqb op OperationCreate) && negb (String.eqb op OperationUpdate) then Allowed
  else
    match Req_Object req with
    | None => Allowed
    | Some raw =>
        match DecodeRaw raw with
        | Err e => Errored 400 (Wrapf "decoding object: %w" [] e)
        | Ok obj =>
            if negb (shouldRecord op req obj) then Allowed
            else
              let user := Req_UserInfo req in
              let identity := marshal_identity
                (mkRecordedIdentity (User_Username user) (User_UID user) (User_Groups user) (User_Extra user)) in
              let annotations := Annotations (c_meta obj) in
              if String.eqb (annotation AuthorizedAsAnnotation (c_meta obj)) (User_Username user) &&
                 String.eqb (annotation AuthorizedIdentityAnnotation (c_meta obj)) identity then Allowed
              else
                Patched (set_annotations
                  (<[AuthorizedIdentityAnnotation := identity]>
                     (<[AuthorizedAsAnnotation := User_Username user]> annotations)) obj)
        end
    end.

End Requests.
End Checks.

(** The operations each handler is registered for. *)
Definition Operations : list string := [OperationCreate; OperationUpdate; OperationDelete].
Definition MutatingOperations : list string := [OperationCreate; OperationUpdate].

End Webhook.
