(* ===== verification/WebhookSpec.v ===== *)
(** Admission: the validator fails closed, the checks it issues cover what the operator would do, and
    the recorded principal is the one that last shaped the spec. *)
From stdpp Require Import strings base list gmap fin_maps countable.
From Stdlib Require Import Ascii ZArith Lia.
From S2P Require Import Prelude GoStrings Values ApiTypes Identity Scope Kube Containment Client ProgramLogic Webhook.
Local Open Scope string_scope.
Local Open Scope list_scope.
Local Open Scope go_scope.

Module WebhookSpec.
Import GoStrings Values ApiTypes Identity Scope Kube Containment Client ProgramLogic Webhook.

(** *** Deduplication *)

Definition covered (checks : list Check) (c : Check) : Prop :=
  exists k, k ∈ checks /\ Check_String k = Check_String c.

Lemma dedupe_lookup l : forall m k,
  (is_Some (m !! k) \/ exists c, c ∈ l /\ Check_String c = k) ->
  is_Some (foldl (fun (m : gmap string Check) c => <[Check_String c := c]> m) m l !! k).
Proof.
  induction l as [|c l IH]; intros m k H; cbn.
  - destruct H as [?|(c & ?%elem_of_nil & _)]; done.
  - apply IH. destruct (decide (Check_String c = k)) as [<-|N].
    + left. rewrite lookup_insert_eq. by eexists.
    + rewrite lookup_insert_ne by done. destruct H as [?|(d & [->|?]%elem_of_cons & E)]; [by left|congruence|].
      right. by exists d.
Qed.

Lemma dedupe_keyed l : forall (m : gmap string Check),
  (forall k c, m !! k = Some c -> Check_String c = k) ->
  forall k c, foldl (fun (m : gmap string Check) c => <[Check_String c := c]> m) m l !! k = Some c -> Check_String c = k.
Proof.
  induction l as [|d l IH]; intros m Hm; cbn; [done|]. apply IH. intros k c.
  destruct (decide (Check_String d = k)) as [<-|N].
  - rewrite lookup_insert_eq. by intros [= <-].
  - rewrite lookup_insert_ne by done. apply Hm.
Qed.

(** Up to the printed form no check is lost. *)
Lemma dedupe_covers l c : c ∈ l -> covered (dedupeChecks l) c.
Proof.
  intros Hc. unfold dedupeChecks. cbv zeta.
  destruct (dedupe_lookup l ∅ (Check_String c)) as [d Hd]; [right; by exists c|].
  exists d. split.
  - rewrite sort_perm. apply list_elem_of_fmap. exists (Check_String c, d). split; [done|].
    by apply elem_of_map_to_list.
  - eapply dedupe_keyed; [|exact Hd]. intros k x. by rewrite lookup_empty.
Qed.

Lemma dedupe_kept l : forall (m : gmap string Check) (Q : Check -> Prop),
  (forall k c, m !! k = Some c -> Q c) -> (forall c, c ∈ l -> Q c) ->
  forall k c, foldl (fun (m : gmap string Check) c => <[Check_String c := c]> m) m l !! k = Some c -> Q c.
Proof.
  induction l as [|d l IH]; intros m Q Hm Hl; cbn; [done|]. apply IH; [|intros c ?; apply Hl; by right].
  intros k c. rewrite lookup_insert_Some. intros [[_ <-]|[_ H]]; [apply Hl; left|by eapply Hm].
Qed.

(** None is made up. *)
Lemma dedupe_from l c : c ∈ dedupeChecks l -> c ∈ l.
Proof.
  unfold dedupeChecks. cbv zeta. rewrite sort_perm. intros ([k d] & -> & Hd)%list_elem_of_fmap.
  apply elem_of_map_to_list in Hd. cbn. revert Hd. apply (dedupe_kept l ∅ (fun c => c ∈ l)); [|done].
  intros k' c'. by rewrite lookup_empty.
Qed.

Section Spec.
Context {K : KubeLib}.

(** *** Reviews *)

(** The server allowed [user] the check. *)
Definition approves (user : UserInfo) (c : Check) (e : event sarE) : Prop :=
  exists st, e = mkEvent _ (CreateReview user c) (Ok st) /\ Review_Allowed st = true /\ Review_Denied st = false.

Lemma Authorize_none user checks : forall tr,
  exec (Authorize user checks) tr (Ok None) -> forall c, c ∈ checks -> exists e, e ∈ tr /\ approves user c e.
Proof.
  induction checks as [|k checks IH]; intros tr Hx c Hc; [by apply elem_of_nil in Hc|]. cbn [Authorize] in Hx.
  apply exec_vis_inv in Hx as (r & tr' & -> & Hx). cbn in Hx.
  destruct r as [st|e]; [|by apply exec_ret_inv in Hx as [_ [=]]].
  destruct (negb (Review_Allowed st) || Review_Denied st) eqn:E; [by apply exec_ret_inv in Hx as [_ [=]]|].
  apply orb_false_elim in E as [Ea Ed]. apply negb_false_iff in Ea.
  apply elem_of_cons in Hc as [->|Hc].
  - eexists. split; [left|]. by exists st.
  - destruct (IH _ Hx _ Hc) as (e & ? & ?). exists e. split; [by right|done].
Qed.

(** ** What an operation demands

    DESIGN.md 7.1, one rule a line.  The resource is what [rf] finds for the kind, or the guess. *)

Definition looked_up (rf : ResourceLookup) (c : Contributor) : string * bool :=
  let t := Target (GetPatchSpec c) in
  match rf with
  | Some look => match look (Target_APIVersion t) (Target_Kind t) with
                 | Ok rn => rn
                 | Err _ => (guessResource (Target_Kind t), true)
                 end
  | None => (guessResource (Target_Kind t), true)
  end.

(** Whether [v] is allowed on the target of [c], or, when the names are not known, on every object of
    its kind in the namespace. *)
Definition about_target (rf : ResourceLookup) (c : Contributor) (v : string) (q : Check) : Prop :=
  let t := Target (GetPatchSpec c) in
  exists group version, ParseGroupVersion (Target_APIVersion t) = Ok (group, version) /\
    q = mkCheck v group (looked_up rf c).1
      (if (looked_up rf c).2 then ResolveTargetNamespace c else "")
      (if String.eqb (Target_Mode t) TargetModeSelector then "" else Target_Name t).

(** What contributing takes: to write the target, to create and to delete it if the policies say so,
    and to act as the ServiceAccount that is named. *)
Inductive contributing (rf : ResourceLookup) (c : Contributor) : Check -> Prop :=
| takes_update q : about_target rf c VerbUpdate q -> contributing rf c q
| takes_patch q : about_target rf c VerbPatch q -> contributing rf c q
| takes_create q : OnMissing (Lifecycle (GetPatchSpec c)) = OnMissingCreate ->
    about_target rf c VerbCreate q -> contributing rf c q
| takes_delete q : OnRelease (Lifecycle (GetPatchSpec c)) = OnReleaseDelete ->
    about_target rf c VerbDelete q -> contributing rf c q
| takes_impersonate ref : Spec_ServiceAccountRef (GetPatchSpec c) = Some ref -> SA_Name ref <> "" ->
    contributing rf c (mkCheck VerbImpersonate "" "serviceaccounts"
      (if IsClusterScoped c then SA_Namespace ref else Namespace (c_meta c)) (SA_Name ref)).

(** What releasing takes: to delete the target, to write it, or nothing. *)
Inductive releasing (rf : ResourceLookup) (c : Contributor) : Check -> Prop :=
| releases_delete q : OnRelease (Lifecycle (GetPatchSpec c)) = OnReleaseDelete ->
    about_target rf c VerbDelete q -> releasing rf c q
| releases_write v q : OnRelease (Lifecycle (GetPatchSpec c)) <> OnReleaseDelete ->
    OnRelease (Lifecycle (GetPatchSpec c)) <> OnReleaseOrphan ->
    v = VerbUpdate \/ v = VerbPatch -> about_target rf c v q -> releasing rf c q.

Definition same_target (a b : Contributor) : Prop :=
  let a := Target (GetPatchSpec a) in let b := Target (GetPatchSpec b) in
  Target_APIVersion a = Target_APIVersion b /\ Target_Kind a = Target_Kind b /\ Target_Name a = Target_Name b /\
  Target_Namespace a = Target_Namespace b /\ Target_Mode a = Target_Mode b.

(** The questions an operation implies. *)
Inductive question (rf : ResourceLookup) (op : string) (c : Contributor) (old : option Contributor) (q : Check) : Prop :=
| asks_new : op = OperationCreate \/ op = OperationUpdate -> contributing rf c q -> question rf op c old q
| asks_old o : op = OperationUpdate -> old = Some o -> ~ same_target o c -> contributing rf o q -> question rf op c old q
| asks_release : op = OperationDelete -> releasing rf c q -> question rf op c old q.

Lemma targetChanged_spec a b : targetChanged a b = true <-> ~ same_target a b.
Proof.
  unfold targetChanged, same_target. cbv zeta.
  repeat match goal with |- context [String.eqb ?x ?y] => destruct (String.eqb_spec x y) end; cbn; naive_solver.
Qed.

Lemma targetChecks_spec c rf verbs checks :
  targetChecks c rf verbs = Ok checks -> forall q, q ∈ checks <-> exists v, v ∈ verbs /\ about_target rf c v q.
Proof.
  unfold targetChecks, about_target, looked_up. cbv zeta. destruct (ParseGroupVersion _) as [[group version]|e]; [|done].
  intros H q. assert (checks = map (fun v => mkCheck v group (looked_up rf c).1
    (if (looked_up rf c).2 then ResolveTargetNamespace c else "")
    (if String.eqb (Target_Mode (Target (GetPatchSpec c))) TargetModeSelector then "" else Target_Name (Target (GetPatchSpec c)))) verbs) as ->.
  { unfold looked_up. destruct rf as [look|]; [destruct (look _ _) as [[resource namespaced]|e]|]; cbv beta iota in H;
      by injection H as <-. }
  rewrite list_elem_of_fmap. split; [intros (v & -> & Hv); exists v; split; [done|]; by exists group, version|].
  intros (v & Hv & g & ver & [= <- <-] & ->). by exists v.
Qed.

Lemma checksForSpec_spec c rf checks :
  checksForSpec c rf = Ok checks -> forall q, q ∈ checks <-> contributing rf c q.
Proof.
  unfold checksForSpec. cbv zeta. intros H. apply res_bind_ok in H as (l & Hl & H). pose proof (targetChecks_spec _ _ _ _ Hl) as Ht.
  clear Hl.
  assert (forall q, q ∈ l <-> contributing rf c q /\ Verb q <> VerbImpersonate) as Hw.
  { intros q. rewrite Ht. split.
    - intros (v & Hv & Ha). assert (Verb q = v) as Ev by by destruct Ha as (? & ? & _ & ->).
      destruct (String.eqb_spec (OnMissing (Lifecycle (GetPatchSpec c))) OnMissingCreate),
        (String.eqb_spec (OnRelease (Lifecycle (GetPatchSpec c))) OnReleaseDelete);
        cbn [app] in Hv; repeat (apply elem_of_cons in Hv as [->|Hv]; [rewrite Ev; split; [|done]; by econstructor|]);
        by apply elem_of_nil in Hv.
    - intros [Hq Hi]. destruct Hq as [q Ha|q Ha|q E Ha|q E Ha|ref]; [..|done]; eexists; (split; [|exact Ha]);
        rewrite ?E, ?String.eqb_refl; cbn [app]; set_solver. }
  intros q. destruct (Spec_ServiceAccountRef (GetPatchSpec c)) as [ref|] eqn:Er.
  - destruct (String.eqb_spec (SA_Name ref) "") as [En|Hne]; injection H as <-.
    + rewrite Hw. split; [by intros []|]. intros Hq. split; [done|].
      destruct Hq as [q (? & ? & _ & ->)|q (? & ? & _ & ->)|q _ (? & ? & _ & ->)|q _ (? & ? & _ & ->)|ref' Er' Hn]; try done.
      rewrite Er in Er'. by injection Er' as <-.
    + rewrite elem_of_app, list_elem_of_singleton, Hw. replace (if negb (IsClusterScoped c) then _ else _)
        with (if IsClusterScoped c then SA_Namespace ref else Namespace (c_meta c)) by by destruct (IsClusterScoped c).
      split; [intros [[]| ->]; [done|by constructor]|]. intros Hq. destruct (decide (Verb q = VerbImpersonate)) as [Ev|]; [right|by left].
      destruct Hq as [q (? & ? & _ & ->)|q (? & ? & _ & ->)|q _ (? & ? & _ & ->)|q _ (? & ? & _ & ->)|ref' Er' Hn]; try done.
      rewrite Er in Er'. by injection Er' as <-.
  - injection H as <-. rewrite Hw. split; [by intros []|]. intros Hq. split; [done|].
    destruct Hq as [q (? & ? & _ & ->)|q (? & ? & _ & ->)|q _ (? & ? & _ & ->)|q _ (? & ? & _ & ->)|ref' Er' Hn]; try done.
    by rewrite Er in Er'.
Qed.

(** The checks are the questions, of those that print alike one. *)
Definition puts (checks : list Check) (Q : Check -> Prop) : Prop :=
  (forall k, k ∈ checks -> Q k) /\ (forall q, Q q -> covered checks q).

Lemma dedupe_puts l (Q : Check -> Prop) : (forall q, q ∈ l <-> Q q) -> puts (dedupeChecks l) Q.
Proof. intros H. split; [intros k ?%dedupe_from; by apply H|]. intros q Hq. by apply dedupe_covers, H. Qed.

Lemma ChecksFor_puts op c old rf checks :
  ChecksFor op (Some c) old rf = Ok checks -> puts checks (question rf op c old).
Proof.
  unfold ChecksFor. destruct (String.eqb op OperationCreate || String.eqb op OperationUpdate) eqn:Eop.
  - assert (op = OperationCreate \/ op = OperationUpdate) as Hop by (apply orb_prop in Eop as [?%String.eqb_eq|?%String.eqb_eq]; auto).
    assert (op <> OperationDelete) as Hnd by by destruct Hop as [-> | ->].
    intros H. apply res_bind_ok in H as (l & Hl & H). pose proof (checksForSpec_spec _ _ _ Hl) as Hs.
    assert ((forall o, op = OperationUpdate -> old = Some o -> same_target o c) -> puts (dedupeChecks l) (question rf op c old)) as Hone.
    { intros Hsame. apply dedupe_puts. intros q. rewrite Hs. split; [by constructor|].
      intros [_ Hq|o Hu Ho Hn _|]; [done| |done]. by destruct Hn; apply Hsame. }
    destruct old as [o|]; [|injection H as <-; by apply Hone].
    destruct (String.eqb_spec op OperationUpdate) as [->|Hnu]; cbn [andb] in H.
    2: { injection H as <-. apply Hone. by intros ? ?. }
    destruct (targetChanged o c) eqn:Et.
    2: { injection H as <-. apply Hone. intros o' _ [= <-]. apply not_true_iff_false in Et. rewrite targetChanged_spec in Et.
         destruct (decide (same_target o c)); [done|]. tauto. }
    apply targetChanged_spec in Et. apply res_bind_ok in H as (lo & Hlo & [= <-]).
    pose proof (checksForSpec_spec _ _ _ Hlo) as Hso. apply dedupe_puts. intros q. rewrite elem_of_app, Hs, Hso. split.
    + intros [Hq|Hq]; [by apply asks_new; [right|]|by eapply asks_old].
    + intros [_ Hq|o' _ [= <-] _ Hq|]; [by left|by right|done].
  - apply orb_false_elim in Eop as [Ec%String.eqb_neq Eu%String.eqb_neq].
    destruct (String.eqb_spec op OperationDelete) as [->|]; [|done].
    assert (forall q, question rf OperationDelete c old q <-> releasing rf c q) as Hq.
    { intros q. split; [by intros [[?|?]|?|]|by constructor]. }
    destruct (String.eqb_spec (OnRelease (Lifecycle (GetPatchSpec c))) OnReleaseOrphan) as [Eo|Ho].
    + intros [= <-]. split; [by intros k ?%elem_of_nil|]. intros q [q' E|]%Hq; [|done]. rewrite Eo in E. discriminate E.
    + intros H. apply res_bind_ok in H as (l & Hl & [= <-]). apply dedupe_puts. intros q.
      rewrite (targetChecks_spec _ _ _ _ Hl), Hq.
      destruct (String.eqb_spec (OnRelease (Lifecycle (GetPatchSpec c))) OnReleaseDelete) as [Ed|Hd]; split.
      * intros (v & ->%list_elem_of_singleton & Ha). by constructor.
      * intros [q' _ Ha|]; [|done]. eexists. split; [by apply list_elem_of_singleton|done].
      * intros (v & Hv & Ha). eapply releases_write; [done..| |exact Ha]. set_solver.
      * intros [|v q' _ _ Hv Ha]; [done|]. exists v. split; [set_solver|done].
Qed.

(** *** Recording *)

Lemma shouldRecord_false {Raw : Type} (DecodeRaw : Raw -> res goerror Contributor) (req : Request) obj :
  Req_Operation req = OperationCreate \/ Req_Operation req = OperationUpdate ->
  shouldRecord DecodeRaw (Req_Operation req) req obj = false <->
  Req_Operation req = OperationUpdate /\ is_some (IdentityFromAnnotations (c_meta obj)) = true /\
  exists rawOld old, Req_OldObject req = Some rawOld /\ DecodeRaw rawOld = Ok old /\
    spec_equal (GetPatchSpec old) (GetPatchSpec obj) = true.
Proof.
  intros [-> | ->]; unfold shouldRecord; [split; [done|intros (E & _); discriminate E]|].
  cbn [String.eqb]. change (String.eqb OperationUpdate OperationCreate) with false. cbv iota.
  destruct (IdentityFromAnnotations _) as [u|]; [|split; [done|intros (_ & H & _); discriminate H]].
  destruct (Req_OldObject req) as [raw|]; [|split; [done|by intros (_ & _ & ? & ? & ? & _)]].
  destruct (DecodeRaw raw) as [old|e] eqn:E.
  2: { split; [done|]. intros (_ & _ & r' & o' & [= <-] & H & _). congruence. }
  rewrite negb_false_iff. split; [intros H; split; [done|]; split; [done|]; by exists raw, old|].
  intros (_ & _ & r' & o' & [= <-] & H & ?). congruence.
Qed.

(** Every string of the user info is UTF-8; those of a decoded request are. *)
Definition valid_user (u : UserInfo) : Prop :=
  valid_identity (mkRecordedIdentity (User_Username u) (User_UID u) (User_Groups u) (User_Extra u)).

(** An object carrying the encoded user is read back as recorded for that user. *)
Lemma recorded_identity (user : UserInfo) :
  User_Username user <> "" -> valid_user user -> forall m,
  annotation AuthorizedIdentityAnnotation m =
    marshal_identity (mkRecordedIdentity (User_Username user) (User_UID user) (User_Groups user) (User_Extra user)) ->
  IdentityFromAnnotations m = Some user.
Proof.
  intros Hu Hv m E. unfold IdentityFromAnnotations. cbv zeta. rewrite E.
  rewrite (proj2 (String.eqb_neq _ _)) by apply marshal_identity_nonempty. rewrite identity_decodes by done. cbn.
  apply String.eqb_neq in Hu. rewrite Hu. by destruct user.
Qed.

Lemma annotation_inserted identity who (a : gmap string string) m :
  Annotations m = <[AuthorizedIdentityAnnotation := identity]> (<[AuthorizedAsAnnotation := who]> a) ->
  annotation AuthorizedIdentityAnnotation m = identity.
Proof. intros E. unfold annotation. by rewrite E, lookup_insert_eq. Qed.

(** ** Properties *)

(** (C21) Admission asks the questions of its table, and no others.  Creating or updating a contributor
    takes, on its target, or on its kind in its namespace when it selects by label, update and
    patch, create and delete if its policies say so, and impersonate on the ServiceAccount it names;
    an update that changes the target takes the same for the contributor as it was; deleting one
    takes delete, or update and patch, or nothing, by its release policy.  Every check made is one of
    these; every one of these has a check that prints the same, and is itself made unless another
    one prints the same.  Reads are not asked about, and the namespace is the one the target names,
    though a cluster-scoped contributor that selects by label lists every namespace
    ([Divergences.selection_wider_than_review]). *)
Theorem ChecksFor_complete (op : string) (c : Contributor) (old : option Contributor) (rf : ResourceLookup)
    (checks : list Check) (Hchecks : ChecksFor op (Some c) old rf = Ok checks) :
  (forall k, k ∈ checks -> question rf op c old k) /\
  (forall q, question rf op c old q -> exists k, k ∈ checks /\ Check_String k = Check_String q) /\
  (forall q, question rf op c old q ->
     (forall q', question rf op c old q' -> Check_String q' = Check_String q -> q' = q) -> q ∈ checks).
Proof.
  destruct (ChecksFor_puts _ _ _ _ _ Hchecks) as [Hfrom Hall]. split; [done|]. split; [done|].
  intros q Hq Halone. destruct (Hall q Hq) as (k & Hk & E). rewrite <- (Halone k); auto.
Qed.

(** (C16) The validator fails closed: it allows a request only if the request decodes, the object of a
    create or update satisfies the whole admission table, the checks could be computed, and the
    server was asked and answered that the requesting user is allowed, and not denied, each one. *)
Theorem validator_fails_closed {Raw : Type} (DecodeRaw : Raw -> res goerror Contributor) (mapper : bool)
    (req : Request) (tr : list (event sarE))
    (Hexec : exec (validator_Handle DecodeRaw mapper req) tr Allowed) :
  exists obj old checks, decode DecodeRaw req = Ok (obj, old) /\
    (forall o, obj = Some o -> Req_Operation req <> OperationDelete -> Validate o (Some (IsNamespacedKind mapper)) = []) /\
    ChecksFor (Req_Operation req) obj old (Some (ResourceFor mapper)) = Ok checks /\
    forall c, c ∈ checks -> exists e, e ∈ tr /\ approves (Req_UserInfo req) c e.
Proof.
  unfold validator_Handle in Hexec. cbv zeta in Hexec.
  destruct (decode DecodeRaw req) as [[obj old]|e]; [|by apply exec_ret_inv in Hexec as [_ [=]]].
  match type of Hexec with context [match ?x with [] => _ | _ :: _ => _ end] => destruct x eqn:Eerrs end;
    [|by apply exec_ret_inv in Hexec as [_ [=]]].
  destruct (ChecksFor _ _ _ _) as [checks|e] eqn:Ec; [|by apply exec_ret_inv in Hexec as [_ [=]]].
  exists obj, old, checks. split; [done|]. split; [|split; [done|]].
  - intros o -> Hne. apply String.eqb_neq in Hne. by rewrite Hne in Eerrs.
  - destruct checks as [|k checks]; [by intros c ?%elem_of_nil|].
    apply exec_bind_inv in Hexec as (tr1 & tr2 & r & -> & H1 & H2).
    destruct r as [[d|]|e]; try by apply exec_ret_inv in H2 as [_ [=]].
    intros c Hc. destruct (Authorize_none _ _ _ H1 _ Hc) as (e & ? & ?). exists e. split; [|done].
    apply elem_of_app. by left.
Qed.

(** (C32) Who is recorded: on a create, or an update that changes the spec or finds nobody recorded,
    the object leaves the recorder naming exactly the requesting user, groups and extras included; on
    any other update, the operator's own finalizer updates among them, it leaves as it came; either
    way somebody is recorded, so the later re-check is never vacuous, and the spec is untouched. *)
Theorem recorder_attributes {Raw : Type} (DecodeRaw : Raw -> res goerror Contributor)
    (req : Request) (raw : Raw) (obj : Contributor)
    (Hop : Req_Operation req = OperationCreate \/ Req_Operation req = OperationUpdate)
    (Hraw : Req_Object req = Some raw) (Hobj : DecodeRaw raw = Ok obj)
    (Huser : User_Username (Req_UserInfo req) <> "") (Hvalid : valid_user (Req_UserInfo req)) :
  let record := shouldRecord DecodeRaw (Req_Operation req) req obj in
  exists obj', (recorder_Handle DecodeRaw req = Patched obj' \/ recorder_Handle DecodeRaw req = Allowed /\ obj' = obj) /\
    GetPatchSpec obj' = GetPatchSpec obj /\
    is_some (IdentityFromAnnotations (c_meta obj')) = true /\
    (record = true -> IdentityFromAnnotations (c_meta obj') = Some (Req_UserInfo req)) /\
    (record = false -> obj' = obj) /\
    (record = false <->
     Req_Operation req = OperationUpdate /\ is_some (IdentityFromAnnotations (c_meta obj)) = true /\
     exists rawOld old, Req_OldObject req = Some rawOld /\ DecodeRaw rawOld = Ok old /\
       spec_equal (GetPatchSpec old) (GetPatchSpec obj) = true).
Proof.
  cbv zeta. set (record := shouldRecord DecodeRaw (Req_Operation req) req obj).
  assert (record = false <-> Req_Operation req = OperationUpdate /\ is_some (IdentityFromAnnotations (c_meta obj)) = true /\
     exists rawOld old, Req_OldObject req = Some rawOld /\ DecodeRaw rawOld = Ok old /\
       spec_equal (GetPatchSpec old) (GetPatchSpec obj) = true) as Hrec.
  { unfold record. by apply shouldRecord_false. }
  assert (negb (String.eqb (Req_Operation req) OperationCreate) && negb (String.eqb (Req_Operation req) OperationUpdate) = false) as Eop
    by (destruct Hop as [-> | ->]; reflexivity).
  unfold recorder_Handle. cbv zeta. rewrite Eop, Hraw, Hobj. fold record.
  destruct record; cbn [negb].
  2: { exists obj. split; [by right|]. split; [done|]. split; [by apply Hrec|]. done. }
  pose proof (recorded_identity (Req_UserInfo req) Huser Hvalid) as Hid.
  set (identity := marshal_identity _) in *.
  destruct (String.eqb_spec (annotation AuthorizedAsAnnotation (c_meta obj)) (User_Username (Req_UserInfo req))) as [E1|_],
    (String.eqb_spec (annotation AuthorizedIdentityAnnotation (c_meta obj)) identity) as [E2|_]; cbn [andb].
  1: { pose proof (Hid _ E2) as Hid'. exists obj. split; [by right|]. split; [done|]. split; [by rewrite Hid'|].
       split; [done|]. split; [done|exact Hrec]. }
  all: eexists; split; [left; reflexivity|]; (split; [by destruct obj|]);
    rewrite Hid by (destruct obj; by eapply annotation_inserted); do 3 (split; [done|]); exact Hrec.
Qed.

End Spec.

(** ** Examples *)

Definition admitted_patch : Contributor :=
  ResourcePatch (mkPatchObject
    (mkObjectMeta "a" "team-a" "u1" "1" 1 0 None [] ∅)
    (mkResourcePatchSpec (Target (p_spec (sample_patch ""))) (mkLifecycleSpec OnMissingCreate OnReleaseDelete None "")
       (mkApplySpec "" "" "") 0 (Some (mkServiceAccountRef "deployer" "")) (Some (RawJSON (VMap ∅)))
       (Patch (p_spec (sample_patch ""))))
    (mkResourcePatchStatus [] [] [] 0 "" None)).

Definition admitted_checks : list Check :=
  match ChecksFor (K := plain_library) OperationCreate (Some admitted_patch) None None with Ok l => l | Err _ => [] end.

(** The same patch, pointed elsewhere. *)
Definition retargeted_patch : Contributor :=
  ResourcePatch (mkPatchObject (c_meta admitted_patch)
    (mkResourcePatchSpec (mkTargetRef TargetModeSingle "v1" "Secret" "s" "" None None 0)
       (mkLifecycleSpec OnMissingFail OnReleaseRevert None "") (mkApplySpec "" "" "") 0 None None (Patch (p_spec (sample_patch ""))))
    (mkResourcePatchStatus [] [] [] 0 "" None)).

Definition retarget_checks : list Check :=
  match ChecksFor (K := plain_library) OperationUpdate (Some retargeted_patch) (Some admitted_patch) None with Ok l => l | Err _ => [] end.

Lemma ChecksFor_complete_witness :
  length admitted_checks = 5 /\ length retarget_checks = 7 /\
  exists k, k ∈ retarget_checks /\ Check_String k = "delete configmaps team-a/cm".
Proof.
  destruct (ChecksFor_complete (K := plain_library) OperationUpdate retargeted_patch (Some admitted_patch) None retarget_checks)
    as (_ & H & _).
  - vm_refl.
  - split; [vm_refl|]. split; [vm_refl|]. apply (H (mkCheck VerbDelete "" "configmaps" "team-a" "cm")).
    eapply asks_old; [reflexivity..| |].
    + intros (_ & E & _). discriminate E.
    + apply takes_delete; [reflexivity|]. exists "", "v1". split; reflexivity.
Defined.

Definition tenant : UserInfo := mkUserInfo "jane" "" ["tenants"] ∅.

Definition admission : Request := mkRequest OperationCreate (Some admitted_patch) None tenant.

(** A server that allows everything. *)
Definition yes_server (R : Type) (e : sarE R) (s : unit) : R * unit :=
  match e in sarE R return R * unit with CreateReview _ _ => (Ok (mkReviewStatus true false ""), s) end.

Definition admission_run : list (event sarE) * Response :=
  behaviour yes_server (validator_Handle (K := plain_library) Ok true admission) tt.

Lemma validator_fails_closed_witness :
  length admission_run.1 = 5 /\
  exists checks, ChecksFor (K := plain_library) OperationCreate (Some admitted_patch) None (Some (ResourceFor (K := plain_library) true)) = Ok checks /\
    forall c, c ∈ checks -> exists e, e ∈ admission_run.1 /\ approves tenant c e.
Proof.
  split; [vm_refl|].
  destruct (validator_fails_closed (K := plain_library) Ok true admission admission_run.1) as (obj & old & checks & Hd & _ & Hc & Ha).
  - assert (admission_run.2 = Allowed) as <- by vm_refl.
    exact (behaviour_exec yes_server (validator_Handle (K := plain_library) Ok true admission) tt).
  - exists checks. injection Hd as <- <-. split; [exact Hc|exact Ha].
Defined.

Lemma recorder_attributes_witness :
  exists obj', is_some (IdentityFromAnnotations (c_meta obj')) = true /\
    IdentityFromAnnotations (c_meta obj') = Some tenant.
Proof.
  destruct (recorder_attributes (K := plain_library) Ok admission admitted_patch admitted_patch)
    as (obj' & _ & _ & Hs & Hr & _).
  - left; reflexivity.
  - reflexivity.
  - reflexivity.
  - discriminate.
  - split; [reflexivity|]. split; [reflexivity|]. split; [repeat constructor|apply map_Forall_empty].
  - exists obj'. split; [exact Hs|apply Hr; reflexivity].
Defined.

End WebhookSpec.
