(* ===== verification/TargetCache.v ===== *)
(** The bookkeeping of target watches: [internal/targetcache/targetcache.go].

    Registering a watch is the controller runtime's; its result is an argument.  The mutex makes
    each operation atomic, so an operation is a function on the state. *)
From stdpp Require Import strings base list gmap fin_maps fin_sets.
From Stdlib Require Import ZArith Lia.
From S2P Require Import Prelude GoStrings ApiTypes.
Local Open Scope string_scope.
Local Open Scope list_scope.

Module TargetCache.
Import GoStrings ApiTypes.

Record GroupVersionKind := mkGVK { GVK_Group : string; GVK_Version : string; GVK_Kind : string }.

#[export] Instance GroupVersionKind_eq_dec : EqDecision GroupVersionKind.
Proof. solve_decision. Defined.
#[export] Instance GroupVersionKind_countable : Countable GroupVersionKind.
Proof.
  refine (inj_countable' (fun g => (GVK_Group g, GVK_Version g, GVK_Kind g))
    (fun '(g, v, k) => mkGVK g v k) _). by intros [].
Defined.

Definition GVK_String (g : GroupVersionKind) : string :=
  GVK_Group g +:+ "/" +:+ GVK_Version g +:+ ", Kind=" +:+ GVK_Kind g.

Definition DefaultMaxGVKs : Z := 50.

(** [watched] is keyed by the owning controller and the kind. *)
Record Manager := mkManager {
  MaxGVKs : Z;
  Disabled : gset GroupVersionKind;
  watched : gset (string * GroupVersionKind);
  atCap : bool;
}.

Definition New (maxGVKs : Z) (disabled : list GroupVersionKind) : Manager :=
  mkManager (if (maxGVKs <=? 0)%Z then DefaultMaxGVKs else maxGVKs) (list_to_set disabled) ∅ false.

(** The distinct kinds watched. *)
Definition Watched (m : Manager) : gset GroupVersionKind := set_map snd (watched m).

Definition distinctGVKsLocked (m : Manager) : Z := Z.of_nat (size (Watched m)).

Definition gvkWatchedLocked (m : Manager) (gvk : GroupVersionKind) : bool := bool_decide (gvk ∈ Watched m).

Definition Count (m : Manager) : Z := distinctGVKsLocked m.

(** [Ensure]; [watchFn] is what registering the watch would return. *)
Definition Ensure (owner : string) (gvk : GroupVersionKind) (watchFn : option goerror) (m : Manager)
    : Manager * option goerror :=
  if bool_decide (gvk ∈ Disabled m) then (m, None)
  else if bool_decide ((owner, gvk) ∈ watched m) then (m, None)
  else if (MaxGVKs m <=? distinctGVKsLocked m)%Z && negb (gvkWatchedLocked m gvk) then
    (mkManager (MaxGVKs m) (Disabled m) (watched m) true,
     Some (Errorf "watched-GVK cap of %d reached; cannot watch %s" [AInt (MaxGVKs m); AStr (GVK_String gvk)]))
  else
    match watchFn with
    | Some e => (m, Some (Wrapf "watching %s: %w" [AStr (GVK_String gvk)] e))
    | None => (mkManager (MaxGVKs m) (Disabled m) ({[(owner, gvk)]} ∪ watched m) (atCap m), None)
    end.

(** A sequence of calls by any controllers, each with the result registration would have. *)
Definition Ensure_all (calls : list (string * GroupVersionKind * option goerror)) (m : Manager) : Manager :=
  foldl (fun m '(owner, gvk, w) => fst (Ensure owner gvk w m)) m calls.

(** ** What holds of every state *)

Definition within_cap (m : Manager) : Prop :=
  (distinctGVKsLocked m <= MaxGVKs m)%Z /\ Watched m ## Disabled m.

Lemma Watched_insert m owner gvk max dis cap :
  Watched (mkManager max dis ({[(owner, gvk)]} ∪ watched m) cap) = {[gvk]} ∪ Watched m.
Proof. unfold Watched. cbn. by rewrite set_map_union_L, set_map_singleton_L. Qed.

Lemma Ensure_within_cap owner gvk w m : within_cap m -> within_cap (fst (Ensure owner gvk w m)).
Proof.
  intros [Hcap Hdis]. unfold Ensure.
  destruct (bool_decide_reflect (gvk ∈ Disabled m)) as [|Hd]; [done|].
  destruct (bool_decide _); [done|]. destruct (_ && _) eqn:E; [done|]. destruct w; [done|]. cbn.
  unfold within_cap, distinctGVKsLocked in *. rewrite Watched_insert. cbn. split; [|set_solver].
  apply andb_false_iff in E as [E|E].
  - apply Z.leb_gt in E. rewrite size_union_alt.
    assert (size (({[gvk]} : gset GroupVersionKind)) = 1) as Hs by apply size_singleton.
    pose proof (subseteq_size (Watched m ∖ {[gvk]}) (Watched m) ltac:(set_solver)). lia.
  - apply negb_false_iff, bool_decide_eq_true in E.
    replace ({[gvk]} ∪ Watched m) with (Watched m) by set_solver. done.
Qed.

Lemma Ensure_config owner gvk w m :
  MaxGVKs (fst (Ensure owner gvk w m)) = MaxGVKs m /\ Disabled (fst (Ensure owner gvk w m)) = Disabled m /\
  watched m ⊆ watched (fst (Ensure owner gvk w m)).
Proof.
  unfold Ensure. repeat case_match; cbn; (split; [done|split; [done|]]); set_solver.
Qed.

(** ** Properties *)

(** (C38) The cap holds whatever is asked: after any sequence of [Ensure] calls by any controllers the
    number of distinct watched kinds is at most [MaxGVKs], which is positive, and no disabled kind
    is watched. *)
Theorem Ensure_capped (maxGVKs : Z) (disabled : list GroupVersionKind)
    (calls : list (string * GroupVersionKind * option goerror)) :
  let m := Ensure_all calls (New maxGVKs disabled) in
  (0 < MaxGVKs m)%Z /\ (Count m <= MaxGVKs m)%Z /\ (forall gvk, gvk ∈ disabled -> gvk ∉ Watched m).
Proof.
  cbv zeta. set (m0 := New maxGVKs disabled).
  assert ((0 < MaxGVKs m0)%Z /\ within_cap m0 /\ Disabled m0 = list_to_set disabled) as H0.
  { unfold m0, New, within_cap, distinctGVKsLocked, Watched, DefaultMaxGVKs. cbn. rewrite set_map_empty, size_empty.
    destruct (Z.leb_spec maxGVKs 0); cbn; (split; [lia|]); (split; [split; [lia|set_solver]|done]). }
  clearbody m0.
  assert (forall m, ((0 < MaxGVKs m)%Z /\ within_cap m /\ Disabled m = list_to_set disabled) ->
    let m' := Ensure_all calls m in (0 < MaxGVKs m')%Z /\ within_cap m' /\ Disabled m' = list_to_set disabled) as H.
  { clear H0 m0. induction calls as [|[[owner gvk] w] calls IH]; intros m Hm; [done|].
    cbn. apply IH. destruct Hm as (? & ? & ?). destruct (Ensure_config owner gvk w m) as (-> & -> & _).
    split; [done|]. split; [by apply Ensure_within_cap|done]. }
  destruct (H _ H0) as (Hpos & [Hcap Hdis] & Ed). split; [done|]. split; [exact Hcap|].
  intros gvk Hg Hw. rewrite Ed in Hdis. set_solver.
Qed.

(** Each controller gets its own watch: after a successful [Ensure] of a kind that is not
    disabled the caller's registration is recorded, another controller's registration of the same
    kind never stands in for it, a failed one is not recorded and so is tried again, and nothing
    recorded is ever dropped. *)
Theorem Ensure_registers (owner : string) (gvk : GroupVersionKind) (w : option goerror) (m : Manager) :
  let '(m', e) := Ensure owner gvk w m in
  watched m ⊆ watched m' /\
  (gvk ∉ Disabled m -> (e = None <-> (owner, gvk) ∈ watched m')) /\
  (forall o g, (o, g) ∈ watched m' -> (o, g) ∈ watched m \/ (o = owner /\ g = gvk /\ w = None)) /\
  (e = None -> gvk ∈ Watched m -> Watched m' = Watched m).
Proof.
  unfold Ensure. destruct (bool_decide_reflect (gvk ∈ Disabled m)) as [Hd|Hd].
  { split; [done|]. split; [done|]. split; [by left|done]. }
  destruct (bool_decide_reflect ((owner, gvk) ∈ watched m)) as [Hw|Hw].
  { split; [done|]. split; [done|]. split; [by left|done]. }
  destruct (_ && _); cbn.
  { split; [done|]. split; [done|]. split; [by left|done]. }
  destruct w as [e|]; cbn.
  { split; [done|]. split; [done|]. split; [by left|done]. }
  split; [set_solver|]. split; [set_solver|]. split; [set_solver|].
  intros _ Hin. rewrite Watched_insert. set_solver.
Qed.

End TargetCache.
