(* ===== verification/World.v ===== *)
(** Programs interleaved over one server.

    Reconciles run concurrently, in one process and in others, and an API server serves their calls
    one at a time; the shared memory of one process is such a server too.  A world is the threads that
    were started, each with the calls it has made and what is left of its program, and the server's state; a step starts a thread, serves one call, or
    lets somebody else change the server's state.  A thread that is never scheduled again has
    crashed, so crashes at every point are among the behaviours. *)
From stdpp Require Import strings base list relations.
From S2P Require Import Prelude Client ProgramLogic.
Local Open Scope list_scope.

Module World.
Import Client ProgramLogic.

Definition thread (E : Type -> Type) : Type := list (event E) * prog E unit.
Definition world (E : Type -> Type) (S : Type) : Type := list (thread E) * S.

(** A program as a thread: its result goes nowhere but into the calls it has made. *)
Definition as_thread {E A} (p : prog E A) : prog E unit := bind p (fun _ => Ret tt).

(** A server that does not tell threads apart. *)
Definition anyone {X : Type} (x : X) : nat -> X := fun _ => x.

Section Steps.
Context {E : Type -> Type} {S : Type}.
(** How the server may answer a call of a thread and change, what others may do to it, and which
    programs may be started. *)
Variable answers : nat -> forall R, S -> E R -> R -> S -> Prop.
Variable environment : S -> S -> Prop.
Variable started : prog E unit -> Prop.

Inductive step : world E S -> world E S -> Prop :=
| step_start ts s p : started p -> step (ts, s) (ts ++ [([], p)], s)
| step_call ts s s' i h R c k r :
    ts !! i = Some (h, Vis R c k) -> answers i R s c r s' ->
    step (ts, s) (<[i := (h ++ [mkEvent R c r], k r)]> ts, s')
| step_environment ts s s' : environment s s' -> step (ts, s) (ts, s').

Definition reachable (s0 : S) (w : world E S) : Prop := rtc step ([], s0) w.

(** ** Reasoning thread by thread

    [G] is an invariant of the server, [T] what a thread with a given past knows of it; what the
    others know must survive a thread's calls. *)
Section Guarantee.
Variable al : policy E.
Variable G : S -> Prop.
Variable T : nat -> S -> list (event E) -> Prop.

Record sound_policy : Prop := {
  started_obeys : forall p, started p -> wp al p [] (fun _ _ => True);
  nothing_known : forall i s, G s -> T i s [];
  call_sound : forall i s h R (c : E R) r s', G s -> T i s h -> al h R c -> answers i R s c r s' ->
    G s' /\ T i s' (h ++ [mkEvent R c r]) /\ forall j h', j <> i -> T j s h' -> T j s' h';
  environment_sound : forall s s', G s -> environment s s' -> G s' /\ forall j h', T j s h' -> T j s' h';
}.

Definition consistent (w : world E S) : Prop :=
  G w.2 /\ forall i t, w.1 !! i = Some t -> T i w.2 t.1 /\ wp al t.2 t.1 (fun _ _ => True).

Hypothesis sound : sound_policy.

Lemma consistent_initial s : G s -> consistent ([], s).
Proof. intros H. by split. Qed.

(** The call a consistent world serves is one the policy allows, to a thread whose knowledge holds. *)
Lemma consistent_call ts s i h R c k :
  consistent (ts, s) -> ts !! i = Some (h, Vis R c k) ->
  G s /\ T i s h /\ al h R c /\ forall r, wp al (k r) (h ++ [mkEvent R c r]) (fun _ _ => True).
Proof. intros [HG Ht] Hi. destruct (Ht _ _ Hi) as [HT [Hal Hk]]. done. Qed.

Lemma consistent_step w w' : step w w' -> consistent w -> consistent w'.
Proof.
  destruct sound as [Hst Hnil Hcall Henv].
  intros Hs Hc. destruct Hs as [ts s p Hp|ts s s' i h R c k r Hi Ha|ts s s' He].
  - destruct Hc as [HG Ht]. split; [done|]. cbn in *. intros i t Hi. apply lookup_app_Some in Hi as [?|[_ Hi]]; [auto|].
    apply list_lookup_singleton_Some in Hi as [_ <-]. split; [by apply Hnil|by apply Hst].
  - destruct (consistent_call _ _ _ _ _ _ _ Hc Hi) as (HG & HT & Hal & Hk). destruct Hc as [_ Ht].
    destruct (Hcall _ _ _ _ _ _ _ HG HT Hal Ha) as (HG' & HT' & Hkeep). split; [done|]. cbn in *.
    intros j t Hj. rewrite list_lookup_insert_Some in Hj.
    destruct Hj as [(-> & <- & _)|[Hne Hj]]; [by split; [|apply Hk]|].
    destruct (Ht _ _ Hj). split; [by apply Hkeep|done].
  - destruct Hc as [HG Ht]. destruct (Henv _ _ HG He) as [HG' Hkeep]. split; [done|]. cbn in *.
    intros i t Hi. destruct (Ht _ _ Hi). split; [by apply Hkeep|done].
Qed.

Lemma consistent_reachable s0 w : G s0 -> reachable s0 w -> consistent w.
Proof.
  intros HG Hr. unfold reachable in Hr. pose proof (consistent_initial _ HG) as Hc. revert Hc.
  induction Hr as [w|w w1 w2 Hs _ IH]; [done|]. intros Hc. apply IH. by eapply consistent_step.
Qed.

(** ** Simulation

    An abstract machine follows the server when it can follow each allowed call and each step of the
    environment. *)
Context {A : Type} (astep : A -> A -> Prop) (models : S -> A -> Prop).

Record simulates : Prop := {
  simulates_call : forall i s h R (c : E R) r s' a, G s -> T i s h -> al h R c -> answers i R s c r s' -> models s a ->
    exists a', rtc astep a a' /\ models s' a';
  simulates_environment : forall s s' a, G s -> environment s s' -> models s a ->
    exists a', rtc astep a a' /\ models s' a';
}.

Lemma simulation_step w w' a :
  simulates -> consistent w -> step w w' -> models w.2 a -> exists a', rtc astep a a' /\ models w'.2 a'.
Proof.
  intros [Hsc Hse] Hc Hs Hm. destruct Hs as [ts s p Hp|ts s s' i h R c k r Hi Ha|ts s s' He]; cbn in *.
  - exists a. by split.
  - destruct (consistent_call _ _ _ _ _ _ _ Hc Hi) as (HG & HT & Hal & _). by eapply Hsc.
  - destruct Hc as [HG _]. by eapply Hse.
Qed.

Lemma simulation_reachable s0 a0 w :
  simulates -> G s0 -> models s0 a0 -> reachable s0 w -> exists a, rtc astep a0 a /\ models w.2 a.
Proof.
  intros Hsim HG Hm Hr. unfold reachable in Hr. pose proof (consistent_initial _ HG) as Hc.
  change s0 with (snd (([] : list (thread E)), s0)) in Hm. revert a0 Hm Hc.
  induction Hr as [w|w w1 w2 Hs _ IH]; intros a0 Hm Hc; [by exists a0|].
  destruct (simulation_step _ _ _ Hsim Hc Hs Hm) as (a1 & Ha1 & Hm1).
  destruct (IH _ Hm1) as (a2 & Ha2 & Hm2); [by eapply consistent_step|]. exists a2. split; [by etrans|done].
Qed.

End Guarantee.

(** ** Running threads

    A server that answers by a function, from the states it can be in, gives reachable worlds: [turn]
    serves the next call of one thread, if it is not blocked, [schedule] a sequence of turns. *)
Section Running.
Variable serve : nat -> forall R, E R -> S -> option (R * S).
Variable inv : S -> Prop.
Hypothesis serve_answers : forall i R (c : E R) s r s', inv s -> serve i R c s = Some (r, s') ->
  answers i R s c r s' /\ inv s'.

Definition turn (i : nat) (w : world E S) : world E S :=
  match w.1 !! i with
  | Some (h, Vis R c k) =>
      match serve i R c w.2 with
      | Some (r, s') => (<[i := (h ++ [mkEvent R c r], k r)]> w.1, s')
      | None => w
      end
  | _ => w
  end.

Definition schedule (turns : list nat) (w : world E S) : world E S := foldl (fun w i => turn i w) w turns.

(** Reachable, with the server in a state it can be in. *)
Definition attained (s0 : S) (w : world E S) : Prop := reachable s0 w /\ inv w.2.

Lemma attained_start s0 : inv s0 -> attained s0 ([], s0).
Proof. split; [apply rtc_refl|done]. Qed.

Lemma turn_step i w : inv w.2 -> inv (turn i w).2 /\ (turn i w = w \/ step w (turn i w)).
Proof.
  intros Hi. unfold turn. destruct w as [ts s]. cbn in *. destruct (ts !! i) as [[h [[]|R c k]]|] eqn:Ei; auto.
  destruct (serve i R c s) as [[r s']|] eqn:Es; [|auto].
  destruct (serve_answers i R c s r s' Hi Es) as [Ha Hi'].
  split; [done|]. right. by eapply step_call.
Qed.

Lemma turn_attained s0 i w : attained s0 w -> attained s0 (turn i w).
Proof.
  intros [Hr Hi]. destruct (turn_step i w Hi) as [Hi' [->|Hs]]; [by split|]. split; [|done]. by eapply rtc_r.
Qed.

Lemma schedule_attained s0 turns : forall w, attained s0 w -> attained s0 (schedule turns w).
Proof. induction turns as [|i turns IH]; intros w Hr; cbn; [done|]. by apply IH, turn_attained. Qed.

Lemma start_attained s0 ts s p : started p -> attained s0 (ts, s) -> attained s0 (ts ++ [([], p)], s).
Proof. intros Hp [Hr ?]. split; [|done]. eapply rtc_r; [exact Hr|]. by constructor. Qed.

End Running.

(** A server that never blocks. *)
Definition total (serve : forall R, E R -> S -> R * S) : nat -> forall R, E R -> S -> option (R * S) :=
  fun _ R c s => Some (serve R c s).

Lemma total_answers (serve : forall R, E R -> S -> R * S) (inv : S -> Prop) :
  (forall i R (c : E R) s, inv s -> answers i R s c (serve R c s).1 (serve R c s).2 /\ inv (serve R c s).2) ->
  forall i R (c : E R) s r s', inv s -> total serve i R c s = Some (r, s') -> answers i R s c r s' /\ inv s'.
Proof. intros H i R c s r s' Hi [= Es]. pose proof (H i R c s Hi) as Ha. by rewrite Es in Ha. Qed.

End Steps.

End World.
