(* ===== verification/Impersonation.v ===== *)
(** The factory of impersonating clients, as its goroutines run it:
    [internal/impersonate/impersonate.go].

    The factory's memory - the cache of clients and the reader/writer lock - is a server whose calls
    are the lock's operations and the accesses to the map.  [client.New] is a library's: what the
    code relies on is that a client it returns acts as the user of its configuration and reads
    through the shared cache only if its options say so. *)
From stdpp Require Import strings base list gmap fin_maps.
From Stdlib Require Import Lia.
From S2P Require Import Prelude GoStrings ApiTypes Scope Client ProgramLogic Controller World.
Local Open Scope string_scope.
Local Open Scope list_scope.
Local Open Scope go_scope.

Module Impersonation.
Import GoStrings ApiTypes Scope Client ProgramLogic Controller World.

(** ** Clients *)

(** A client: a name for it, the user it acts as - none is the operator - and whether its reads go
    through the manager's cache. *)
Record client := mkClient { client_id : nat; client_user : string; client_cached : bool }.

(** [rest.Config] and [client.Options], as far as the factory sets them. *)
Record config := mkConfig { UserName : string; cached_reads : bool }.

Record Factory := mkFactory { BaseConfig : config; Default : client }.

Inductive factoryE : Type -> Type :=
| RLock : factoryE unit
| RUnlock : factoryE unit
| Lock : factoryE unit
| Unlock : factoryE unit
| Lookup (username : string) : factoryE (option client)
| NewClient (cfg : config) : factoryE (res goerror client)
| Insert (username : string) (c : client) : factoryE unit
| UseClient (username : string) (c : client) : factoryE unit.

Abbreviation factoryM A := (prog factoryE A).

(** [NewFactory] copies the operator's configuration. *)
Definition NewFactory (cfg : config) (base : client) : Factory := mkFactory cfg base.

(** The critical section: look again, else build and keep. *)
Definition build_client (f : Factory) (username : string) : factoryM (res goerror (client * string)) :=
  do! again <- call (Lookup username) in
  match again with
  | Some c => Ret (Ok (c, username))
  | None =>
      do! built <- call (NewClient (mkConfig username false)) in
      match built with
      | Err e => Ret (Err (Wrapf "building an impersonating client for %s: %w" [AStr username] e))
      | Ok c =>
          do! _ <- call (Insert username c) in
          Ret (Ok (c, username))
      end
  end.

(** [For]: the client to write a contributor's target with, and the user it acts as. *)
Definition For (f : Factory) (c : Contributor) : factoryM (res goerror (client * string)) :=
  match Spec_ServiceAccountRef (GetPatchSpec c) with
  | None => Ret (Ok (Default f, ""))
  | Some ref =>
      if String.eqb (SA_Name ref) "" then Ret (Ok (Default f, ""))
      else
        let namespace := if negb (IsClusterScoped c) then Namespace (c_meta c) else SA_Namespace ref in
        if String.eqb namespace "" then
          Ret (Err (Errorf "serviceAccountRef.namespace is required on a cluster-scoped contributor" []))
        else
          let username := ServiceAccountUsername namespace (SA_Name ref) in
          do! _ <- call RLock in
          do! cached <- call (Lookup username) in
          do! _ <- call RUnlock in
          match cached with
          | Some cl => Ret (Ok (cl, username))
          | None =>
              do! _ <- call Lock in
              do! r <- build_client f username in
              do! _ <- call Unlock in
              Ret r
          end
  end.

(** ** The factory's memory *)

(** Who holds the lock, the cache, the user whose client is built and not yet kept, and the users
    clients were built for. *)
Record memory := mkMemory {
  readers : list nat;
  writer : option nat;
  cached : gmap string client;
  building : option string;
  built : list string;
  fresh_id : nat;
}.

Definition fresh_memory : memory := mkMemory [] None ∅ None [] 0.

(** A lock that is not free does not answer. *)
Definition answers (i : nat) (R : Type) (s : memory) (c : factoryE R) : R -> memory -> Prop :=
  match c in factoryE R return R -> memory -> Prop with
  | RLock => fun _ s' =>
      writer s = None /\ s' = mkMemory (i :: readers s) None (cached s) (building s) (built s) (fresh_id s)
  | RUnlock => fun _ s' =>
      s' = mkMemory (filter (fun j => j <> i) (readers s)) (writer s) (cached s) (building s) (built s) (fresh_id s)
  | Lock => fun _ s' =>
      writer s = None /\ readers s = [] /\ s' = mkMemory [] (Some i) (cached s) (building s) (built s) (fresh_id s)
  | Unlock => fun _ s' => s' = mkMemory (readers s) None (cached s) (building s) (built s) (fresh_id s)
  | Lookup u => fun r s' => r = cached s !! u /\ s' = s
  | NewClient cfg => fun r s' =>
      match r with
      | Err _ => s' = s
      | Ok c => client_user c = UserName cfg /\ client_cached c = cached_reads cfg /\ client_id c = fresh_id s /\
          s' = mkMemory (readers s) (writer s) (cached s) (Some (UserName cfg)) (UserName cfg :: built s) (S (fresh_id s))
      end
  | Insert u c => fun _ s' =>
      s' = mkMemory (readers s) (writer s) (<[u := c]> (cached s)) None (built s) (fresh_id s)
  | UseClient _ _ => fun _ s' => s' = s
  end.

(** ** What a goroutine has in hand *)

Inductive phase :=
| Outside
| Reading
| Writing
| Missing (u : string)
| Holding (u : string) (c : client).

Definition next_phase (p : phase) (e : event factoryE) : phase :=
  match ev_call e in factoryE R return R -> phase with
  | RLock => fun _ => Reading
  | Lock => fun _ => Writing
  | RUnlock | Unlock => fun _ => Outside
  | Lookup u => fun r => match p, r with Writing, None => Missing u | _, _ => p end
  | NewClient cfg => fun r => match r with Ok c => Holding (UserName cfg) c | Err _ => p end
  | Insert _ _ => fun _ => Writing
  | UseClient _ _ => fun _ => p
  end (ev_reply e).

Definition phase_of (h : list (event factoryE)) : phase := foldl next_phase Outside h.

Lemma phase_of_last h e : phase_of (h ++ [e]) = next_phase (phase_of h) e.
Proof. unfold phase_of. by rewrite foldl_app. Qed.

(** A client the goroutine was given for a user. *)
Definition given (e : event factoryE) : option (string * client) :=
  match ev_call e in factoryE R return R -> option (string * client) with
  | Lookup u => fun r => pair u <$> r
  | NewClient cfg => fun r => match r with Ok c => Some (UserName cfg, c) | Err _ => None end
  | _ => fun _ => None
  end (ev_reply e).

Definition handed (h : list (event factoryE)) (u : string) (c : client) : Prop := exists e, e ∈ h /\ given e = Some (u, c).

Lemma handed_last h e u c : handed (h ++ [e]) u c <-> handed h u c \/ given e = Some (u, c).
Proof.
  unfold handed. split.
  - intros (e' & [Hin| ->%list_elem_of_singleton]%elem_of_app & H); [left; by exists e'|by right].
  - intros [(e' & Hin & H)|H]; [exists e'|exists e]; (split; [apply elem_of_app|done]); [by left|right; by left].
Qed.

Section Discipline.
Variable f : Factory.

(** The discipline: which calls a goroutine makes with what it has in hand. *)
Definition disciplined : policy factoryE := fun h R c =>
  match c with
  | RLock | Lock => phase_of h = Outside
  | RUnlock => phase_of h = Reading
  | Unlock => phase_of h = Writing \/ exists u, phase_of h = Missing u
  | Lookup _ => phase_of h = Reading \/ phase_of h = Writing
  | NewClient cfg => phase_of h = Missing (UserName cfg) /\ cached_reads cfg = false
  | Insert u c => phase_of h = Holding u c
  | UseClient u c => (u = "" /\ c = Default f) \/ handed h u c
  end.

(** A reconcile gets its client and uses it. *)
Definition user_of (contributor : Contributor) : prog factoryE unit :=
  do! r <- For f contributor in
  match r with
  | Err _ => Ret tt
  | Ok (c, username) => call (UseClient username c)
  end.

Definition reconciles (p : prog factoryE unit) : Prop := exists contributor, p = user_of contributor.

(** The user is the contributor's, and the client was given for it. *)
Definition right_client (contributor : Contributor) (h : list (event factoryE)) (r : res goerror (client * string)) : Prop :=
  match r with
  | Err _ => True
  | Ok (c, u) => identity_of contributor = Ok u /\ ((u = "" /\ c = Default f) \/ handed h u c)
  end.

Lemma For_disciplined contributor : wp disciplined (For f contributor) [] (right_client contributor).
Proof.
  unfold For, right_client, identity_of. destruct (Spec_ServiceAccountRef _) as [ref|]; [|cbn; auto].
  destruct (String.eqb (SA_Name ref) ""); [cbn; auto|]. cbv zeta.
  replace (if negb (IsClusterScoped contributor) then Namespace (c_meta contributor) else SA_Namespace ref)
    with (if IsClusterScoped contributor then SA_Namespace ref else Namespace (c_meta contributor))
    by by destruct (IsClusterScoped contributor).
  set (ns := if IsClusterScoped contributor then SA_Namespace ref else Namespace (c_meta contributor)).
  destruct (String.eqb ns ""); [exact I|].
  set (u := ServiceAccountUsername ns (SA_Name ref)). clearbody u.
  cbn [bind call wp]. split; [done|]. intros []. split; [by left|]. intros found. split; [done|]. intros [].
  destruct found as [c|]; cbn [bind call wp].
  { split; [done|]. right. eexists. split; [right; left|done]. }
  split; [done|]. intros []. unfold build_client. cbn [bind call wp]. split; [by right|].
  intros [c|]; cbn [bind call wp].
  { split; [by left|]. intros []. split; [done|]. right. eexists. split; [do 4 right; left|done]. }
  split; [done|]. intros [c|e]; cbn [bind call wp].
  2: { split; [right; by exists u|]. by intros []. }
  split; [done|]. intros []. split; [by left|]. intros []. split; [done|]. right. eexists. split; [do 5 right; left|done].
Qed.

Lemma user_of_disciplined contributor : wp disciplined (user_of contributor) [] (fun _ _ => True).
Proof.
  unfold user_of. eapply wp_use; [apply For_disciplined|]. intros h [[c u]|e] _ H; [|done]. destruct H as [_ H].
  by split.
Qed.

(** ** The invariant *)

Definition client_of (u : string) (c : client) : Prop := client_user c = u /\ client_cached c = false.

Record memory_ok (s : memory) : Prop := {
  exclusive : writer s <> None -> readers s = [];
  idle : writer s = None -> building s = None;
  cache_right : forall u c, cached s !! u = Some c -> client_of u c;
  built_once : NoDup (built s);
  built_kept : forall u, u ∈ built s -> is_Some (cached s !! u) \/ building s = Some u;
}.

Definition in_hand (i : nat) (s : memory) (p : phase) : Prop :=
  match p with
  | Outside => True
  | Reading => i ∈ readers s
  | Writing => writer s = Some i /\ building s = None
  | Missing u => writer s = Some i /\ building s = None /\ cached s !! u = None
  | Holding u c => writer s = Some i /\ building s = Some u /\ client_of u c
  end.

Definition knows (i : nat) (s : memory) (h : list (event factoryE)) : Prop :=
  in_hand i s (phase_of h) /\ forall u c, handed h u c -> client_of u c.

(** A goroutine's knowledge survives a step that leaves the memory as it is where the goroutine, as a
    holder of the lock, relies on it. *)
Lemma in_hand_keeps i s s' p :
  in_hand i s p -> (i ∈ readers s -> i ∈ readers s') ->
  (writer s = Some i -> writer s' = Some i /\ building s' = building s /\ cached s' = cached s) -> in_hand i s' p.
Proof.
  intros H Hr Hw. destruct p as [| | |u|u c]; cbn in *; [done|auto|..].
  all: destruct H as [H1 H2]; destruct (Hw H1) as (E1 & E2 & E3); by rewrite ?E1, ?E2, ?E3.
Qed.

Lemma knows_keeps i s s' h :
  knows i s h -> (i ∈ readers s -> i ∈ readers s') ->
  (writer s = Some i -> writer s' = Some i /\ building s' = building s /\ cached s' = cached s) -> knows i s' h.
Proof. intros [H ?] **. split; [by eapply in_hand_keeps|done]. Qed.

(** The step of the goroutine itself. *)
Lemma knows_last i s s' h e :
  knows i s h -> in_hand i s' (next_phase (phase_of h) e) -> (forall u c, given e = Some (u, c) -> client_of u c) ->
  knows i s' (h ++ [e]).
Proof. intros [_ Hc] Hp Hg. split; [by rewrite phase_of_last|]. intros u c [?|?]%handed_last; auto. Qed.

Lemma disciplined_ok i s h R (c : factoryE R) r s' :
  memory_ok s -> knows i s h -> disciplined h R c -> answers i R s c r s' ->
  memory_ok s' /\ knows i s' (h ++ [mkEvent R c r]) /\ forall j h', j <> i -> knows j s h' -> knows j s' h'.
Proof.
  intros [Hex Hid Hca Hon Hke] Hk Hd Ha. pose proof Hk as [Hp Hc]. destruct c; cbn in Hd, Ha.
  - destruct Ha as [Hw ->]. split; [by constructor; auto|]. split.
    + apply (knows_last _ _ _ _ _ Hk); [by left|done].
    + intros j h' _ Hj. apply (knows_keeps _ _ _ _ Hj); [by right|]. cbn. congruence.
  - subst s'. split; [constructor; cbn; try done; intros H; by rewrite (Hex H)|]. split.
    + by apply (knows_last _ _ _ _ _ Hk).
    + intros j h' Hne Hj. apply (knows_keeps _ _ _ _ Hj); [|done]. intros ?. cbn. by apply list_elem_of_filter.
  - destruct Ha as (Hw & Hr & ->). split; [constructor; cbn; try done|]. split.
    + apply (knows_last _ _ _ _ _ Hk); [|done]. cbn. auto.
    + intros j h' _ Hj. apply (knows_keeps _ _ _ _ Hj); cbn; [by rewrite Hr|congruence].
  - subst s'.
    assert (writer s = Some i /\ building s = None) as [Hw Hb].
    { destruct Hd as [E|[u E]]; rewrite E in Hp; destruct Hp as [? Hp]; [done|by destruct Hp]. }
    split; [by constructor|]. split; [by apply (knows_last _ _ _ _ _ Hk)|].
    intros j h' Hne Hj. apply (knows_keeps _ _ _ _ Hj); [done|]. cbn. congruence.
  - destruct Ha as [-> ->]. split; [done|]. split; [|done].
    apply (knows_last _ _ _ _ _ Hk); cbn.
    + destruct Hd as [E|E]; rewrite E in Hp |- *; cbn in *; [done|].
      destruct Hp as [Hw Hb]. destruct (cached s !! username) eqn:El; cbn; auto.
    + intros u c. destruct (cached s !! username) as [c'|] eqn:El; [|done]. intros [= <- <-]. by apply Hca.
  - destruct Hd as [Hd Hcfg]. rewrite Hd in Hp. destruct Hp as (Hw & Hb & Hmiss). destruct r as [c|e].
    2: { subst s'. split; [done|]. split; [|done]. apply (knows_last _ _ _ _ _ Hk); [|done]. cbn. by rewrite Hd. }
    destruct Ha as (Hu & Hcr & _ & ->). assert (client_of (UserName cfg) c) as Hcl by (split; congruence).
    split; [|split].
    + constructor; cbn; try done; [by rewrite Hw| |].
      * constructor; [|done]. intros [[x Hx]|E]%Hke; congruence.
      * intros u [->|Hin]%elem_of_cons; [by right|]. left. destruct (Hke _ Hin); [done|congruence].
    + apply (knows_last _ _ _ _ _ Hk); cbn; [done|]. by intros u c' [= <- <-].
    + intros j h' Hne Hj. apply (knows_keeps _ _ _ _ Hj); [done|]. cbn. congruence.
  - rewrite Hd in Hp. destruct Hp as (Hw & Hb & Hcl). subst s'. split; [|split].
    + constructor; cbn; try done.
      * intros u c'. rewrite lookup_insert_Some. intros [[<- <-]|[_ ?]]; [done|auto].
      * intros u Hin. left. destruct (decide (username = u)) as [->|Hne]; [rewrite lookup_insert_eq; by eexists|].
        rewrite lookup_insert_ne by done. destruct (Hke _ Hin); [done|congruence].
    + by apply (knows_last _ _ _ _ _ Hk).
    + intros j h' Hne Hj. apply (knows_keeps _ _ _ _ Hj); [done|]. cbn. congruence.
  - subst s'. split; [done|]. split; [|done]. by apply (knows_last _ _ _ _ _ Hk).
Qed.

Lemma factory_sound : sound_policy answers (fun _ _ => False) reconciles disciplined memory_ok knows.
Proof.
  split; [| | |done].
  - intros p [contributor ->]. apply user_of_disciplined.
  - intros i s _. split; [done|]. by intros u c (e & ?%elem_of_nil & _).
  - intros i s h R c r s'. apply disciplined_ok.
Qed.

Lemma fresh_memory_ok : memory_ok fresh_memory.
Proof. constructor; try done; [constructor|by intros u ?%elem_of_nil]. Qed.

(** ** Properties *)

(** The access to the map a goroutine is about to make: whether it writes. *)
Definition accesses (p : prog factoryE unit) : option bool :=
  match p with
  | Vis _ (Lookup _) _ => Some false
  | Vis _ (Insert _ _) _ => Some true
  | _ => None
  end.

(** (C18) Clients of the right identity, built once.  Let any number of reconciles ask the factory for
    clients at the same time, at any speed and with any of them stopping anywhere.  A client that
    is about to be used for a user acts as that user and never reads through the operator's cache;
    without a ServiceAccount it is the operator's own.  No user's client is built successfully twice,
    and none that was built and kept is lost.  And no two goroutines are ever about to access the map
    when one of them writes, although the map is first looked up without the exclusive lock. *)
Theorem clients_built_once (w : world factoryE memory)
    (Hreach : reachable answers (fun _ _ => False) reconciles fresh_memory w) :
  (forall h u c k, (h, Vis _ (UseClient u c) k) ∈ w.1 ->
     (u = "" /\ c = Default f) \/ (client_user c = u /\ client_cached c = false)) /\
  NoDup (built w.2) /\ (forall u, u ∈ built w.2 -> is_Some (cached w.2 !! u) \/ building w.2 = Some u) /\
  (forall i j t t', w.1 !! i = Some t -> w.1 !! j = Some t' -> i <> j ->
     accesses t.2 = Some true -> accesses t'.2 = None).
Proof.
  destruct (consistent_reachable _ _ _ _ _ _ factory_sound _ _ fresh_memory_ok Hreach) as [[Hex Hid Hca Hon Hke] Ht].
  split; [|split; [done|split; [done|]]].
  - intros h u c k [i Hin]%list_elem_of_lookup_1. destruct (Ht _ _ Hin) as [[_ Hc] [Hal _]].
    destruct Hal as [?|H]; [by left|right]. exact (Hc _ _ H).
  - intros i j [h p] [h' p'] Hi Hj Hne Hw. destruct (Ht _ _ Hi) as [[Hp _] Hal]. destruct (Ht _ _ Hj) as [[Hp' _] Hal'].
    cbn [fst snd] in *. destruct p as [|R c k]; [done|]. destruct p' as [|R' c' k']; [done|].
    destruct Hal as [Hal _], Hal' as [Hal' _]. destruct c; try done. cbn in Hal. rewrite Hal in Hp. destruct Hp as (Hwr & _).
    assert (readers w.2 = []) as Hr by (apply Hex; by rewrite Hwr).
    destruct c'; try done; cbn in Hal'.
    + destruct Hal' as [E|E]; rewrite E in Hp'; cbn in Hp'; [rewrite Hr in Hp'; by apply elem_of_nil in Hp'|].
      destruct Hp' as [Hwr' _]. rewrite Hwr in Hwr'. by injection Hwr' as ->.
    + rewrite Hal' in Hp'. destruct Hp' as [Hwr' _]. rewrite Hwr in Hwr'. by injection Hwr' as ->.
Qed.

End Discipline.

(** ** At work

    Two reconciles ask for the same client at once: both look the map up before either builds. *)

Definition serve (i : nat) (R : Type) (c : factoryE R) (s : memory) : option (R * memory) :=
  match c in factoryE R return option (R * memory) with
  | RLock => if is_some (writer s) then None else
      Some (tt, mkMemory (i :: readers s) None (cached s) (building s) (built s) (fresh_id s))
  | RUnlock => Some (tt, mkMemory (filter (fun j => j <> i) (readers s)) (writer s) (cached s) (building s) (built s) (fresh_id s))
  | Lock => if is_some (writer s) || negb (Nat.eqb (length (readers s)) 0) then None else
      Some (tt, mkMemory [] (Some i) (cached s) (building s) (built s) (fresh_id s))
  | Unlock => Some (tt, mkMemory (readers s) None (cached s) (building s) (built s) (fresh_id s))
  | Lookup u => Some (cached s !! u, s)
  | NewClient cfg =>
      Some (Ok (mkClient (fresh_id s) (UserName cfg) (cached_reads cfg)),
        mkMemory (readers s) (writer s) (cached s) (Some (UserName cfg)) (UserName cfg :: built s) (S (fresh_id s)))
  | Insert u c => Some (tt, mkMemory (readers s) (writer s) (<[u := c]> (cached s)) None (built s) (fresh_id s))
  | UseClient _ _ => Some (tt, s)
  end.

Lemma memory_answers i R (c : factoryE R) s r s' :
  True -> serve i R c s = Some (r, s') -> answers i R s c r s' /\ True.
Proof.
  intros _ H. split; [|done]. destruct c; cbn in H |- *; try by simplify_eq.
  - destruct (writer s) eqn:E; [done|]. cbn in H. by simplify_eq.
  - destruct (writer s) eqn:E; [done|]. cbn in H. destruct (readers s) eqn:Er; cbn in H; by simplify_eq.
Qed.

Definition as_deployer : Contributor :=
  ResourcePatch (mkPatchObject
    (mkObjectMeta "a" "team-a" "u1" "1" 1 0 None [] ∅)
    (mkResourcePatchSpec (mkTargetRef "" "v1" "ConfigMap" "cm" "" None None 0) (mkLifecycleSpec "" "" None "")
       (mkApplySpec "" "" "") 0 (Some (mkServiceAccountRef "deployer" "kube-system")) None (mkPatchSpec "" None None []))
    (mkResourcePatchStatus [] [] [] 0 "" None)).

Definition own_client : client := mkClient 0 "" true.
Definition sample_factory : Factory := NewFactory (mkConfig "" true) own_client.

Definition racing : world factoryE memory :=
  schedule serve [0; 1; 0; 1; 0; 1; 0; 0; 1; 0; 0; 0; 1; 1; 1]%nat
    ([([], user_of sample_factory as_deployer); ([], user_of sample_factory as_deployer)], fresh_memory).

(** The user each goroutine is about to use a client for, and which. *)
Definition about_to_use (p : prog factoryE unit) : option (string * nat) :=
  match p with Vis _ (UseClient u c) _ => Some (u, client_id c) | _ => None end.

Lemma clients_built_once_witness :
  map (fun t => about_to_use t.2) racing.1 =
    [Some ("system:serviceaccount:team-a:deployer", 0); Some ("system:serviceaccount:team-a:deployer", 0)] /\
  built racing.2 = ["system:serviceaccount:team-a:deployer"] /\ NoDup (built racing.2).
Proof.
  split; [vm_refl|]. split; [vm_refl|].
  apply (clients_built_once sample_factory racing).
  refine (proj1 (schedule_attained _ _ _ serve (fun _ => True) memory_answers fresh_memory _ _ _)).
  apply (start_attained _ _ _ _ _ [_]); [by eexists|]. apply (start_attained _ _ _ _ _ []); [by eexists|].
  by apply attained_start.
Defined.

End Impersonation.
