(* ===== verification/StatusSchema.v ===== *)
(** The schema of the statuses the operator writes, as the markers of
    [api/v1alpha1/tracker_types.go] and [common_types.go] and those of [metav1.Condition] put it into
    the CRDs: enumerations, patterns, lengths, minimum, required fields and map keys; and that the
    pure operations on statuses keep to it, but for one clause.

    That clause bounds a condition's message to 32768 characters.  A message may carry an error's
    text, whose length is up to whoever raised it, so no operation can promise [messages_fit]; the API
    server refuses a status that breaks it. *)
From stdpp Require Import strings base list gmap fin_maps.
From Stdlib Require Import Ascii NArith ZArith Lia.
From S2P Require Import Prelude GoStrings Values Json ApiTypes Scope Render Client Applier TrackerLogic Controller.
From S2P Require Import Traces Promotion TrackerReconciler ContributorReconciler.
Local Open Scope string_scope.
Local Open Scope list_scope.

Module StatusSchema.
Import GoStrings Values Json ApiTypes Scope Render Client Applier TrackerLogic Controller.
Import Traces Promotion TrackerReconciler ContributorReconciler.

(** ** Conditions *)

Definition letter (c : ascii) : bool := byte_in 65 90 c || byte_in 97 122 c.
Definition word_char (c : ascii) : bool := letter c || byte_in 48 57 c || byte_in 95 95 c.

(** [^[A-Za-z]([A-Za-z0-9_,:]*[A-Za-z0-9_])?$] *)
Definition reason_pattern (s : string) : bool :=
  match String.list_ascii_of_string s with
  | [] => false
  | c :: rest =>
      letter c && forallb (fun c => word_char c || byte_in 44 44 c || byte_in 58 58 c) rest &&
      match list.last rest with Some c => word_char c | None => true end
  end.

Definition alphanumeric (c : ascii) : bool := letter c || is_digit c.
Definition lower_alphanumeric (c : ascii) : bool := is_lower c || is_digit c.

(** Characters of [inner], the first and the last of [ends]; one may be both. *)
Definition enclosed (ends inner : ascii -> bool) (s : string) : bool :=
  match String.list_ascii_of_string s with
  | [] => false
  | c :: rest => ends c && forallb inner rest && match list.last rest with Some d => ends d | None => true end
  end.

(** Of lower-case letters, digits and dashes, the first and the last of them alphanumeric. *)
Definition dns_label : string -> bool := enclosed lower_alphanumeric (fun c => lower_alphanumeric c || Ascii.eqb c "-").

(** Of letters, digits, dashes, underscores and dots, the first and the last of them alphanumeric. *)
Definition qualified_name : string -> bool :=
  enclosed alphanumeric (fun c => alphanumeric c || existsb (Ascii.eqb c) ["-"; "_"; "."]%char).

(** A name, after a DNS subdomain and a slash or not, of at most 316 characters. *)
Definition condition_type (s : string) : bool :=
  (String.length s <=? 316)%nat &&
  match split "/" s with
  | [n] => qualified_name n
  | [prefix; n] => forallb dns_label (split "." prefix) && qualified_name n
  | _ => false
  end.

Definition condition_status (s : string) : bool :=
  existsb (String.eqb s) [ConditionTrue; ConditionFalse; "Unknown"].

(** One element of the list of conditions. *)
Definition condition_valid (c : Condition) : bool :=
  condition_type (Cond_Type c) && condition_status (Cond_Status c) && reason_pattern (Cond_Reason c) && (String.length (Cond_Reason c) <=? 1024)%nat &&
  (0 <=? Cond_ObservedGeneration c)%Z && is_some (Cond_LastTransitionTime c).

(** The list is a map by condition type. *)
Definition conditions_valid (cs : list Condition) : Prop :=
  NoDup (map Cond_Type cs) /\ Forall (fun c => condition_valid c = true) cs.

Lemma set_condition_types cs c :
  map Cond_Type (set_condition_loop cs c) =
    map Cond_Type cs ++ (if bool_decide (Cond_Type c ∈ map Cond_Type cs) then [] else [Cond_Type c]).
Proof.
  induction cs as [|d cs IH]; [done|]. cbn [set_condition_loop map].
  destruct (String.eqb_spec (Cond_Type d) (Cond_Type c)) as [E|N]; cbn [negb map].
  - rewrite bool_decide_true by (rewrite E; left). rewrite app_nil_r. f_equal.
    by destruct (String.eqb _ _).
  - rewrite IH. cbn [app]. f_equal. f_equal.
    erewrite bool_decide_ext; [done|]. rewrite elem_of_cons. naive_solver.
Qed.

Lemma SetCondition_valid now cs ty s reason msg :
  conditions_valid cs -> condition_type ty = true -> condition_status s = true -> reason_pattern reason = true ->
  (String.length reason <=? 1024)%nat = true ->
  conditions_valid (SetCondition now cs (mkCondition ty s 0 None reason msg)).
Proof.
  intros [Hnd Hv] Ht Hs Hr Hl. unfold SetCondition. cbn [Cond_LastTransitionTime].
  set (c := set_transition (Some now) _).
  assert (forall t, condition_valid (set_transition (Some t) c) = true) as Hc.
  { intros t. unfold condition_valid. cbn [c set_transition Cond_Type Cond_Status Cond_Reason Cond_ObservedGeneration
      Cond_LastTransitionTime Cond_Message]. by rewrite Ht, Hs, Hr, Hl. }
  split.
  - rewrite set_condition_types. case_bool_decide as H; [by rewrite app_nil_r|].
    apply NoDup_app. split; [done|]. split; [|apply NoDup_singleton].
    intros x Hx ->%list_elem_of_singleton. done.
  - clear Hnd. induction Hv as [|d cs Hd Hv IH]; cbn; [by constructor; [apply (Hc now)|]|].
    destruct (String.eqb (Cond_Type d) _); cbn [negb]; [|by constructor].
    constructor; [|done]. destruct (String.eqb _ _); [|apply (Hc now)].
    unfold condition_valid in Hd. bool_simpl. destruct (Cond_LastTransitionTime d); [apply Hc|done].
Qed.

(** ** Tracker status *)

Definition phase_valid (s : string) : bool :=
  existsb (String.eqb s) ["" ; TrackerPhaseWaiting; TrackerPhaseApplied; TrackerPhaseConflicted;
    TrackerPhaseReleasing; TrackerPhasePromoting].

Definition state_valid (s : string) : bool :=
  existsb (String.eqb s) [""; ContributorStateApplied; ContributorStateSuperseded; ContributorStateConflicted; "Releasing"].

Definition records_valid (l : list ContributorStatus) : Prop := Forall (fun r => state_valid (State r) = true) l.

(** The schema's enumerations, with the empty string for an absent field, and what the comments say of
    the fields: the count is the list's length, and the creator is recorded together with the fact
    that the operator created the target. *)
Record status_valid (st : SharedResourceStatus) : Prop := {
  valid_phase : phase_valid (Phase st) = true;
  valid_conditions : conditions_valid (SR_Conditions st);
  valid_records : records_valid (Contributors st);
  valid_count : ContributorCount st = Z.of_nat (length (Contributors st));
  valid_creator : CreatedByOperator st = is_some (CreatorPatchRef st);
}.

(** Only a namespaced tracker is ever fenced. *)
Definition tracker_valid (t : Tracker) : Prop :=
  status_valid (GetTrackerStatus t) /\ (TrackerIsClusterScoped t = true -> PromotedTo (GetTrackerStatus t) = None).

(** The clause no operation can promise.  [characters] is the length of a message's text. *)
Definition messages_fit (characters : message -> nat) (t : Tracker) : Prop :=
  Forall (fun c => (characters (Cond_Message c) <= 32768)%nat) (SR_Conditions (GetTrackerStatus t)).

(** ** Contributor status *)

Definition contributor_valid (c : Contributor) : Prop :=
  conditions_valid (Conditions (GetPatchStatus c)) /\
  Forall (fun t => state_valid (TS_State t) = true) (ObservedTargets (GetPatchStatus c)).

(** ** Operations keep to the schema *)

Create HintDb schema discriminated.

Lemma empty_status_valid : status_valid empty_status.
Proof. constructor; try done; [by split; constructor|by constructor]. Qed.

Lemma with_phase_valid ph st : phase_valid ph = true -> status_valid st -> status_valid (with_phase ph st).
Proof. intros H []. by constructor. Qed.

Lemma with_observed_valid uid rv st : status_valid st -> status_valid (with_observed uid rv st).
Proof. intros []. by constructor. Qed.

Lemma with_promoted_valid p st : status_valid st -> status_valid (with_promoted p st).
Proof. intros []. by constructor. Qed.

Lemma setTrackerCond_valid now ty s reason msg st :
  status_valid st -> condition_type ty = true -> condition_status s = true -> reason_pattern reason = true ->
  (String.length reason <=? 1024)%nat = true -> status_valid (setTrackerCond now ty s reason msg st).
Proof. intros [] **. constructor; try done. by apply SetCondition_valid. Qed.

Lemma write_mutation_valid computed records conflicts st :
  status_valid computed -> (forall l, records = Some l -> records_valid l) -> status_valid st ->
  status_valid (write_mutation computed records conflicts st) /\
  PromotedTo (write_mutation computed records conflicts st) = PromotedTo st.
Proof.
  intros [Hp Hc _ _ Hcr] Hr [Hp' _ Hrec _ Hcr']. split; [|done].
  unfold write_mutation. constructor; cbn; try done.
  - destruct records as [l|]; [by apply Hr|done].
  - rewrite Hcr, Hcr'. by destruct (CreatorPatchRef computed), (CreatorPatchRef st).
Qed.

Lemma provenance_mutation_valid creator baseHash st :
  status_valid st ->
  status_valid (provenance_mutation creator baseHash st) /\
  PromotedTo (provenance_mutation creator baseHash st) = PromotedTo st.
Proof. intros []. split; [|done]. constructor; try done. cbn. by destruct (CreatorPatchRef st). Qed.

Lemma observe_valid live t : tracker_valid t -> tracker_valid (observe live t).
Proof.
  intros [Hs Hp]. destruct live; [|by split]. unfold observe, tracker_valid.
  rewrite status_set_status. split; [by apply with_observed_valid|]. by destruct t.
Qed.

Lemma adopt_records_valid dst src : records_valid dst -> records_valid src -> records_valid (adopt_records dst src).
Proof.
  unfold adopt_records. intros Hd Hs. revert dst Hd. induction Hs as [|s src Hs _ IH]; intros dst Hd; [done|]. cbn.
  apply IH. clear IH. induction Hd as [|d dst Hd Hds IH]; cbn; [by repeat constructor|].
  destruct (SameContributor _ _); by constructor.
Qed.

Lemma adoptStatus_valid now dst src ns n :
  status_valid dst -> status_valid src -> status_valid (adoptStatus now dst src ns n).
Proof.
  intros [Hp Hc Hr _ Hcr] [_ _ Hr' _ Hcr']. apply setTrackerCond_valid; [|done..]. constructor; cbn; try done.
  - by destruct (String.eqb (Phase dst) "" || String.eqb (Phase dst) TrackerPhasePromoting).
  - by apply adopt_records_valid.
  - rewrite Hcr, Hcr'. by destruct (CreatorPatchRef dst).
Qed.

Lemma fenced_valid now name st : status_valid st -> status_valid (fenced now name st).
Proof. intros H. apply setTrackerCond_valid; [|done..]. by apply with_phase_valid, with_promoted_valid. Qed.

(** A record keeps the state of the status it is carried over from. *)
Lemma recordFor_valid c st : status_valid st -> state_valid (State (recordFor c st)) = true.
Proof.
  intros [_ _ Hr _ _]. unfold recordFor. cbv zeta. destruct (FindContributor st _) as [prev|] eqn:E; [|done].
  unfold FindContributor in E. apply find_some in E as [Hin _]. unfold records_valid in Hr. rewrite Forall_forall in Hr.
  cbn [State]. by apply Hr, list_elem_of_In.
Qed.

#[export] Hint Resolve empty_status_valid with_phase_valid with_observed_valid with_promoted_valid setTrackerCond_valid
  write_mutation_valid provenance_mutation_valid adoptStatus_valid fenced_valid recordFor_valid : schema.

End StatusSchema.
