(* ===== verification/StatusTyping.v ===== *)
(** Every object either reconciler writes keeps to the schema of [StatusSchema], as long as the objects
    it reads do: both reconciles are typed programs. *)
From stdpp Require Import strings base list gmap fin_maps.
From Stdlib Require Import Ascii ZArith Lia.
From S2P Require Import Prelude GoStrings Values ApiTypes Identity Scope Kube FieldPath Render Client ProgramLogic Applier TrackerLogic Controller.
From S2P Require Import Traces Promotion ContributorReconciler TrackerReconciler TrackerTraces StatusSchema.
Local Open Scope string_scope.
Local Open Scope list_scope.
Local Open Scope go_scope.

Module StatusTyping.
Import GoStrings Values ApiTypes Identity Scope Kube FieldPath Render Client ProgramLogic Applier TrackerLogic Controller.
Import Traces Promotion TrackerReconciler TrackerTraces StatusSchema.

(** ** Typed calls and answers

    [strict] tells whether contributors are typed too, or trackers only. *)
Section Typing.
Variable strict : bool.

Definition patch_valid (c : Contributor) : Prop := strict = true -> contributor_valid c.

Definition ask (R : Type) (c : ctlE R) : Prop :=
  match c with
  | CreateTracker t | UpdateTracker t | UpdateTrackerStatus t => tracker_valid t
  | UpdateContributor c | UpdateContributorStatus c => patch_valid c
  | _ => True
  end.

(** An object is answered with an object of its kind. *)
Definition answered_tracker (kind : string) (r : res goerror Tracker) : Prop :=
  match r with Ok t => tracker_valid t /\ TrackerKind t = kind | Err _ => True end.

Definition answered_contributor (r : res goerror Contributor) : Prop :=
  match r with Ok c => patch_valid c | Err _ => True end.

Definition ans (R : Type) (c : ctlE R) : R -> Prop :=
  match c in ctlE R return R -> Prop with
  | GetTracker _ kind _ _ => answered_tracker kind
  | UpdateTracker t | UpdateTrackerStatus t => answered_tracker (TrackerKind t)
  | GetContributor _ _ _ | UpdateContributor _ | UpdateContributorStatus _ => answered_contributor
  | _ => fun _ => True
  end.

Local Abbreviation typed := (typed ask ans).

(** *** Objects *)

Lemma tracker_valid_status st t :
  tracker_valid t -> status_valid st -> PromotedTo st = PromotedTo (GetTrackerStatus t) ->
  tracker_valid (set_tracker_status st t).
Proof.
  intros [_ Hp] Hs E. unfold tracker_valid. rewrite status_set_status. split; [done|]. rewrite E. by destruct t.
Qed.

Lemma tracker_valid_meta m t : tracker_valid t -> tracker_valid (set_tracker_meta m t).
Proof. unfold tracker_valid. rewrite status_set_meta. by destruct t. Qed.

Lemma kind_set_status st t : TrackerKind (set_tracker_status st t) = TrackerKind t.
Proof. by destruct t. Qed.

Lemma kind_set_meta m t : TrackerKind (set_tracker_meta m t) = TrackerKind t.
Proof. by destruct t. Qed.

Lemma kind_scope t t' : TrackerKind t = TrackerKind t' -> TrackerIsClusterScoped t = TrackerIsClusterScoped t'.
Proof. by destruct t, t'. Qed.

(** A valid tracker of the kind of another one carries a status the other one may carry. *)
Lemma tracker_valid_adopt t fresh :
  tracker_valid fresh -> TrackerKind fresh = TrackerKind t -> tracker_valid (set_tracker_status (GetTrackerStatus fresh) t).
Proof.
  intros [Hs Hp] E. unfold tracker_valid. rewrite status_set_status. split; [done|].
  rewrite (kind_scope _ t); [|apply kind_set_status]. rewrite <- (kind_scope _ _ E). done.
Qed.

Lemma tracker_valid_of t : tracker_valid t -> status_valid (GetTrackerStatus t).
Proof. by intros []. Qed.

#[local] Hint Resolve tracker_valid_status tracker_valid_meta tracker_valid_of : schema.

(** *** Shared steps *)

Lemma retry_typed {S} (I : S -> Prop) (attempt : S -> ctlM (S * option goerror)) n :
  (forall s, I s -> typed (attempt s) (fun r => I r.1)) ->
  forall s, I s -> typed (retry_on_conflict n attempt s) (fun r => I r.1).
Proof.
  intros Ha. induction n as [|n IH]; intros s HI; cbn [retry_on_conflict]; [by apply Ha|].
  eapply typed_use; [by apply Ha|]. intros [s' [e|]] Hs; [|done]. by destruct (IsConflict e); [apply IH|].
Qed.

Lemma trackerCond_typed t ty s reason msg :
  tracker_valid t -> condition_type ty = true -> condition_status s = true -> reason_pattern reason = true ->
  (String.length reason <=? 1024)%nat = true -> typed (trackerCond t ty s reason msg) tracker_valid.
Proof. intros. unfold trackerCond. typed_step; [exact I|]. cbn. eapply tracker_valid_status; eauto with schema. Qed.

Lemma contributorCond_typed c ty s reason msg :
  patch_valid c -> condition_type ty = true -> condition_status s = true -> reason_pattern reason = true ->
  (String.length reason <=? 1024)%nat = true -> typed (contributorCond c ty s reason msg) patch_valid.
Proof.
  intros Hc **. unfold contributorCond. typed_step; [exact I|]. intros Hst. destruct (Hc Hst) as [? ?].
  destruct c; (split; [by apply SetCondition_valid|done]).
Qed.

Section Patching.
Context (mutate : SharedResourceStatus -> SharedResourceStatus).
Hypothesis mutate_valid : forall st, status_valid st -> status_valid (mutate st) /\ PromotedTo (mutate st) = PromotedTo st.

Lemma mutated_valid t : tracker_valid t -> tracker_valid (set_tracker_status (mutate (GetTrackerStatus t)) t).
Proof. intros Ht. destruct (mutate_valid _ (tracker_valid_of _ Ht)). by apply tracker_valid_status. Qed.

Lemma patchStatus_typed t : tracker_valid t -> typed (patchStatus t mutate) (fun r => tracker_valid r.1).
Proof.
  intros Ht. unfold patchStatus. eapply (typed_use _ _ _ _ (fun r => tracker_valid r.1)); [|by intros [t' e]].
  apply (retry_typed tracker_valid); [clear t Ht; intros t Ht|done]. unfold patchStatus_attempt. cbv zeta.
  pose proof (mutated_valid t Ht) as Hm.
  typed_step; [exact Hm|]. destruct r as [stored|e]; [by destruct H|]. typed_step; [exact Hm|].
  typed_step; [exact I|]. destruct r as [fresh|e']; [|done]. destruct H0 as [Hf Ek].
  typed_step; [by apply mutated_valid|]. destruct r as [stored|e'']; [|done]. destruct H0 as [Hst Ek']. cbn.
  apply tracker_valid_meta, tracker_valid_adopt; [done|]. by rewrite Ek', kind_set_status, Ek.
Qed.

End Patching.

Lemma writeStatus_typed t records conflicts :
  tracker_valid t -> (forall l, records = Some l -> records_valid l) ->
  typed (writeStatus t records conflicts) (fun _ => True).
Proof.
  intros Ht Hr. eapply typed_post; [apply patchStatus_typed|done]; [|done].
  intros st ?. apply write_mutation_valid; auto with schema.
Qed.

(** *** The tracker's reconcile *)

Section Tracker.
Context {JP : JsonPatch}.
Variable impersonation : bool.
Variable range_order : ranging.

Definition rec_valid (r : contributorRecord) : Prop := state_valid (State (cr_status r)) = true.

Lemma pair_sorted_valid out : Forall rec_valid out -> Forall rec_valid (pair_sorted out).
Proof.
  rewrite !Forall_forall. intros H r Hr. unfold pair_sorted in Hr. cbv zeta in Hr.
  apply list_elem_of_omap in Hr as (rec & Hrec & E). unfold sortContributors in Hrec. rewrite sort_perm in Hrec.
  apply list_elem_of_fmap in Hrec as (r' & -> & Hr'). destruct (_ !! _); [|done]. injection E as <-.
  exact (H _ Hr').
Qed.

Lemma records_of_valid st (l : list Contributor) : status_valid st -> Forall rec_valid (map (record_of st) l).
Proof. intros Hst. apply Forall_fmap, Forall_true. intros c. unfold rec_valid, compose. by apply recordFor_valid. Qed.

Lemma listContributors_typed t :
  tracker_valid t -> typed (listContributors t) (fun r => forall cs, r = Ok cs -> Forall rec_valid cs).
Proof.
  intros [Hs _]. unfold listContributors, listSelectorContributors, list_cluster, selector_bound. cbv zeta.
  pose proof (fun l => records_of_valid _ l Hs) as Hl.
  destruct (TrackerIsClusterScoped t); cbn [bind call].
  all: repeat (first [typed_step|done]).
  all: intros cs [= <-]; apply pair_sorted_valid; rewrite ?Forall_app; repeat split; auto; by constructor.
Qed.

Lemma applierFor_typed c : typed (applierFor impersonation c) (fun _ => True).
Proof.
  unfold applierFor. eapply (typed_use _ _ _ _ (fun _ => True)).
  - destruct impersonation; [|done]. unfold Factory_For. repeat (first [typed_step|done]).
  - intros [as_|e] _; repeat (first [typed_step|done]).
Qed.

Lemma releaseContributor_typed r target : typed (releaseContributor impersonation r target) (fun _ => True).
Proof.
  unfold releaseContributor. typed_step; [exact I|]. eapply typed_use; [apply applierFor_typed|].
  intros [[kind as_]|e] _; [|done]. typed_step; [|done]. typed_step; [|done].
  eapply (typed_use _ _ _ _ (fun _ => True)); [by apply typed_translate|]. done.
Qed.

Lemma release_all_typed l target : typed (release_all impersonation l target) (fun _ => True).
Proof.
  induction l as [|r l IH]; cbn [release_all]; [done|]. eapply typed_use; [apply releaseContributor_typed|].
  by intros [e|] _.
Qed.

Lemma maybeDeleteTarget_typed t l target : typed (maybeDeleteTarget t l target) (fun _ => True).
Proof. unfold maybeDeleteTarget. repeat (first [typed_step|done]). Qed.

(** What the loop keeps. *)
Definition pass_valid (p : pass) : Prop := tracker_valid (ps_tracker p) /\ records_valid (ps_records p).

Definition verdict_valid (v : verdict) : Prop := match v with Next p => pass_valid p | Stop _ => True end.

Lemma add_record_valid r p p' :
  pass_valid p -> ps_tracker p' = ps_tracker p -> ps_records p' = ps_records p -> state_valid (State r) = true ->
  verdict_valid (Next (add_record r p')).
Proof.
  intros [Ht Hr] Et Er Hs. cbn. split; cbn; [by rewrite Et|]. rewrite Er. apply Forall_app. split; [done|].
  by apply Forall_singleton.
Qed.

Lemma after_apply_typed r contribution base result p :
  pass_valid p -> typed (after_apply r contribution base result p) verdict_valid.
Proof.
  intros Hp. unfold after_apply. cbv zeta. destruct (Res_Conflict result); [by eapply add_record_valid|].
  eapply (typed_use _ _ _ _ (fun x => tracker_valid x.1)).
  - destruct (Created result && _); [|by destruct Hp]. apply patchStatus_typed; [|by destruct Hp].
    intros st ?. by apply provenance_mutation_valid.
  - intros [t [e|]] Ht; [done|]. destruct Hp as [_ Hr].
    apply (add_record_valid _ (mkPass (observe (Live result) t) (ps_records p) (ps_conflicts p) (ps_anyConflict p)
      (ps_targetExists p))); try done. split; [by apply observe_valid|done].
Qed.

Lemma contribute_typed target active claims r contribution p :
  pass_valid p -> typed (contribute impersonation range_order target active claims r contribution p) verdict_valid.
Proof.
  intros Hp. unfold contribute. cbv zeta. eapply typed_use; [apply applierFor_typed|].
  intros [[kind as_]|e] _; [|by eapply add_record_valid].
  typed_step; [by eapply add_record_valid|]. typed_step; [|done]. typed_step; [|by eapply add_record_valid].
  eapply typed_use; [by apply (typed_translate _ _ _ _ (fun _ => True))|]. intros [result|e] _; [by apply after_apply_typed|].
  destruct (IsNotFound e); [by eapply add_record_valid|]. destruct (_ || _); [done|].
  eapply typed_use; [apply trackerCond_typed; [by destruct Hp|done..]|]. intros t Ht.
  eapply typed_use; [by apply writeStatus_typed|]. by intros [t' [e'|]] _.
Qed.

Lemma contribute_all_typed target active claims todo : forall p,
  pass_valid p -> typed (contribute_all impersonation range_order target active claims todo p) verdict_valid.
Proof.
  induction todo as [|[r contribution] todo IH]; intros p Hp; cbn [contribute_all]; [done|].
  eapply typed_use; [by apply contribute_typed|]. by intros [p'|o] Hv; [apply IH|].
Qed.

Lemma with_phase_tracker ph t :
  phase_valid ph = true -> tracker_valid t -> tracker_valid (set_tracker_status (with_phase ph (GetTrackerStatus t)) t).
Proof. intros. apply tracker_valid_status; auto with schema. Qed.

Lemma conclude_typed p : tracker_valid (ps_tracker p) -> typed (conclude p) (fun r => tracker_valid r.1).
Proof.
  intros Ht. unfold conclude. cbv zeta. eapply (typed_use _ _ _ _ (fun r => tracker_valid r.1)).
  2: { intros [t after] Ht'. eapply typed_use; [by apply trackerCond_typed|]. done. }
  destruct (negb _); [|destruct (ps_anyConflict p)].
  all: eapply typed_use; [apply trackerCond_typed; [by apply with_phase_tracker|done..]|]; intros t1 H1; try exact H1.
  do 2 (eapply typed_use; [by apply trackerCond_typed|]; intros ? ?). done.
Qed.

Lemma contribute_pass_typed t active target :
  tracker_valid t -> typed (contribute_pass impersonation range_order t active target) (fun _ => True).
Proof.
  intros Ht. unfold contribute_pass. typed_step.
  - eapply typed_use; [apply contribute_all_typed; by split; [|constructor]|]. intros [p|o] Hp; [|done].
    destruct Hp as [Hpt Hpr]. eapply typed_use; [by apply conclude_typed|]. intros [t' after] Ht'.
    eapply typed_use; [apply writeStatus_typed; [done|by intros l [= <-]]|]. by intros [t2 e2].
  - eapply typed_use; [by apply trackerCond_typed|]. intros t' Ht'.
    eapply typed_use; [apply writeStatus_typed; [by apply with_phase_tracker|intros l [= <-]; by constructor]|].
    by intros [t2 e2].
Qed.

Lemma release_finalizer_typed t : tracker_valid t -> typed (release_finalizer t) (fun r => tracker_valid r.1).
Proof.
  intros Ht. unfold release_finalizer. typed_step; [|done]. typed_step; [by apply tracker_valid_meta|].
  destruct r as [stored|e]; [by destruct H|done].
Qed.

Lemma finishPromotion_typed t : tracker_valid t -> typed (finishPromotion t) (fun _ => True).
Proof.
  intros Ht. unfold finishPromotion. cbv zeta. typed_step; [|done]. typed_step; [exact I|]. typed_step.
  - typed_step; [exact I|]. eapply typed_use; [by apply release_finalizer_typed|]. intros [t' [e|]] Ht'; [done|].
    by typed_step.
  - typed_step; [|done]. typed_step; [|done]. unfold ask, tracker_valid. rewrite status_set_status.
    split; [|done]. apply with_phase_valid; [done|]. apply with_promoted_valid. auto with schema.
Qed.

Lemma tracker_Reconcile_typed kind ns name :
  typed (TrackerReconciler.Reconcile impersonation range_order kind ns name) (fun _ => True).
Proof.
  unfold TrackerReconciler.Reconcile. typed_step; [exact I|]. destruct r as [t|e]; [|done]. destruct H as [Ht _].
  typed_step; [by apply finishPromotion_typed|]. typed_step.
  { unfold reconcileDelete. cbv zeta. eapply typed_use; [by apply listContributors_typed|].
    intros [cs|e] Hcs; [|done]. eapply typed_use; [apply release_all_typed|]. intros [e|] _; [done|].
    eapply typed_use; [apply maybeDeleteTarget_typed|]. intros [e|] _; [done|].
    eapply typed_use; [by apply release_finalizer_typed|]. by intros [t' [e|]]. }
  typed_step.
  { typed_step; [by apply tracker_valid_meta|]. by destruct r. }
  typed_step; [exact I|]. eapply typed_use; [by apply listContributors_typed|]. intros [cs|e] Hcs; [|done].
  typed_step.
  - unfold reconcileEmpty, update_and_delete. cbv zeta. typed_step.
    + typed_step; [by apply tracker_valid_meta|]. destruct r0; [|done]. by typed_step.
    + eapply typed_use; [apply writeStatus_typed; [by apply with_phase_tracker|done]|]. by intros [t2 e2].
  - unfold reconcileContributions. cbv zeta. destruct (splitReleasing cs) as [releasing active].
    eapply typed_use; [apply release_all_typed|]. intros [e|] _; [done|].
    eapply (typed_use _ _ _ _ (fun _ => True)); [destruct (_ && _); [apply maybeDeleteTarget_typed|done]|].
    intros [e|] _; [done|]. by apply contribute_pass_typed.
Qed.

End Tracker.

(** *** The contributor's reconcile *)

Section Promoting.
Variable uncached : bool.

Lemma fence_attempt_typed namespace name s : typed (fence_attempt uncached namespace name s) (fun _ => True).
Proof.
  unfold fence_attempt. typed_step; [exact I|]. destruct r as [old|e]; [|done]. destruct H as [Hv Hk].
  typed_step; [exact I|]. typed_step; [exact I|]. typed_step; [|done]. unfold ask, tracker_valid.
  rewrite status_set_status. split; [auto with schema|]. by destruct old.
Qed.

Lemma adopt_attempt_typed old name s : tracker_valid old -> typed (adopt_attempt uncached old name s) (fun _ => True).
Proof.
  intros Ho. unfold adopt_attempt. cbv zeta. typed_step; [exact I|]. destruct r as [current|e]; [|done]. destruct H as [Hv Hk].
  typed_step; [exact I|]. typed_step; [|done]. unfold ask, tracker_valid.
  rewrite status_set_status. split; [auto with schema|done].
Qed.

Lemma successor_valid name key : tracker_valid (successor_for name key).
Proof. split; [apply empty_status_valid|done]. Qed.

Lemma createSuccessor_typed old name key : tracker_valid old -> typed (createSuccessor uncached old name key) (fun _ => True).
Proof.
  intros Ho. unfold createSuccessor. typed_step; [exact I|]. typed_step; [exact I|].
  eapply (typed_use _ _ _ _ (fun _ => True)).
  - destruct r as [t|e]; [done|]. typed_step; [|done]. typed_step; [apply successor_valid|]. destruct r as [ce|]; [|done].
    by typed_step.
  - intros [e|] _; [done|]. eapply (typed_use _ _ _ _ (fun _ => True)); [|by intros []].
    apply (retry_typed (fun _ => True)); [|done]. intros s _. by apply adopt_attempt_typed.
Qed.

Lemma flag_attempt_typed namespace name s : typed (flag_attempt uncached namespace name s) (fun _ => True).
Proof.
  unfold flag_attempt. typed_step; [exact I|]. destruct r as [current|e]; [|done]. destruct H as [Hv Hk].
  typed_step; [|exact I]. typed_step; [exact I|]. typed_step; [|done]. unfold ask, tracker_valid.
  rewrite status_set_status. split; [auto with schema|]. by destruct current.
Qed.

Lemma promoteIfNeeded_typed key : typed (promoteIfNeeded uncached key) (fun _ => True).
Proof.
  unfold promoteIfNeeded. cbv zeta. eapply (typed_use _ _ _ _ (fun _ => True)).
  { apply (retry_typed (fun _ => True)); [|done]. intros. apply fence_attempt_typed. }
  intros [[] [e|]] _; [by typed_step|]. typed_step; [exact I|]. destruct r as [old|e]; [|done]. destruct H as [Hv _].
  eapply typed_use; [by apply createSuccessor_typed|]. intros [e|] _; [done|].
  eapply (typed_use _ _ _ _ (fun _ => True)); [|by intros []].
  apply (retry_typed (fun _ => True)); [|done]. intros. apply flag_attempt_typed.
Qed.

End Promoting.

Section Contributor.
Import ContributorReconciler.
Context {K : KubeLib}.
Variable uncached authorizer : bool.
Variable ReauthorizeAfter : Z.

Lemma getTracker_typed ref : typed (getTracker ref) (fun r => forall t, r = Ok t -> tracker_valid t).
Proof.
  unfold getTracker. typed_step; [|done]. typed_step; [exact I|]. intros t ->. by destruct H.
Qed.

Lemma still_registered_typed ref trs : forall acc, typed (still_registered ref trs acc) (fun _ => True).
Proof.
  induction trs as [|tr trs IH]; intros acc; cbn [still_registered]; [done|].
  eapply typed_use; [apply getTracker_typed|]. intros [t|e] _; [apply IH|]. destruct (IsNotFound e); [apply IH|done].
Qed.

Lemma contributor_valid_meta m c : patch_valid c -> patch_valid (set_contributor_meta m c).
Proof. intros H Hs. specialize (H Hs). by destruct c. Qed.

Lemma reconcileDelete_typed obj : patch_valid obj -> typed (reconcileDelete obj) (fun _ => True).
Proof.
  intros Ho. unfold reconcileDelete. typed_step; [exact I|]. eapply typed_use; [apply still_registered_typed|].
  intros [[]|e] _; [done| |done]. typed_step; [by apply contributor_valid_meta|]. done.
Qed.

Lemma list_targets_typed spec namespaces : forall keys, typed (list_targets spec namespaces keys) (fun _ => True).
Proof.
  induction namespaces as [|ns rest IH]; intros keys; cbn [list_targets]; [done|].
  typed_step; [exact I|]. typed_step; [|done]. typed_step; [apply IH|done].
Qed.

Lemma resolveTargets_typed obj : typed (resolveTargets obj) (fun _ => True).
Proof.
  unfold resolveTargets. typed_step; [exact I|]. unfold resolveSelector. cbv zeta. typed_step; [|done].
  typed_step; [exact I|]. eapply (typed_use _ _ _ _ (fun _ => True)).
  - unfold selectorNamespaces. repeat (first [typed_step|done]).
  - intros [l|e] _; [apply list_targets_typed|done].
Qed.

Lemma newTracker_valid kind name namespace key t :
  newTracker kind name namespace key = Ok t -> tracker_valid t.
Proof.
  unfold newTracker. cbv zeta. destruct (String.eqb kind _); [intros [= <-]|destruct (String.eqb kind _); [intros [= <-]|done]];
    by split; [apply empty_status_valid|].
Qed.

Lemma join_tracker_typed obj key : typed (join_tracker obj key) (fun _ => True).
Proof.
  unfold join_tracker, create_tracker. cbv zeta. eapply typed_use; [apply getTracker_typed|]. intros [t|e] _; [by typed_step|].
  typed_step; [|done]. typed_step; [|done]. typed_step.
  - by eapply tracker_valid_meta, newTracker_valid.
  - destruct r; [by typed_step|done].
Qed.

Lemma ensureTracker_typed obj key : typed (ensureTracker uncached obj key) (fun _ => True).
Proof.
  unfold ensureTracker. eapply (typed_use _ _ _ _ (fun _ => True)).
  { destruct (_ && _); [apply promoteIfNeeded_typed|done]. }
  intros [e|] _; [done|]. typed_step; [|apply join_tracker_typed]. typed_step; [exact I|].
  destruct r; [done|]. typed_step; [apply join_tracker_typed|done].
Qed.

Lemma ensure_all_typed obj keys : typed (ensure_all uncached obj keys) (fun _ => True).
Proof.
  induction keys as [|key keys IH]; cbn [ensure_all]; [done|]. eapply typed_use; [apply ensureTracker_typed|].
  intros [ref|e] _; [|done]. eapply typed_use; [apply IH|]. by intros [refs|e] _.
Qed.

(** The states a contributor reports are those its trackers record. *)
Definition targets_valid (l : list TargetStatus) : Prop := Forall (fun t => state_valid (TS_State t) = true) l.

Lemma observe_target_valid ref key t n :
  (forall t', t = Some t' -> tracker_valid t') -> state_valid (TS_State (observe_target ref key t n).1) = true.
Proof.
  intros Ht. destruct t as [t|]; [|done]. destruct (Ht _ eq_refl) as [[_ _ Hr _ _] _]. cbn.
  destruct (FindContributor (GetTrackerStatus t) ref) as [rec|] eqn:E; [|done]. cbn [fst TS_State].
  unfold FindContributor in E. apply find_some in E as [Hin _]. unfold records_valid in Hr. rewrite Forall_forall in Hr.
  by apply Hr, list_elem_of_In.
Qed.

Lemma observe_targets_typed ref keys : forall trackers n,
  typed (observe_targets ref keys trackers n) (fun r => forall l m, r = Ok (l, m) -> targets_valid l).
Proof.
  induction keys as [|key keys IH]; intros trackers n; cbn [observe_targets]; [by intros l m [= <- _]; constructor|].
  destruct trackers as [|tr trackers].
  { eapply typed_use; [apply IH|]. intros [[rest m]|e] Hr; [|done]. intros l m' [= <- _]. constructor; [done|by eapply Hr]. }
  assert (forall t, (forall t', t = Some t' -> tracker_valid t') ->
    typed (let '(ts, n) := observe_target ref key t n in
           try! (rest, n) <- observe_targets ref keys trackers n in Ret (Ok (ts :: rest, n)))
      (fun r => forall l m, r = Ok (l, m) -> targets_valid l)) as Hgo.
  { intros t Ht. pose proof (observe_target_valid ref key t n Ht) as Hs. destruct (observe_target ref key t n) as [ts n'].
    eapply typed_use; [apply IH|]. intros [[rest m]|e] Hr; [|done]. intros l m' [= <- _].
    constructor; [done|by eapply Hr]. }
  eapply typed_use; [apply getTracker_typed|]. intros [t|e] Ht.
  - apply Hgo. intros t' [= <-]. by apply Ht.
  - destruct (IsNotFound e); [by apply Hgo|done].
Qed.

Lemma ready_verdict_valid total n :
  let '(status, reason, _) := ready_verdict total n in
  condition_status status = true /\ reason_pattern reason = true /\ (String.length reason <=? 1024)%nat = true.
Proof. unfold ready_verdict. by repeat case_match; simplify_eq. Qed.

Lemma syncStatus_typed obj keys trackers : patch_valid obj -> typed (syncStatus obj keys trackers) (fun _ => True).
Proof.
  intros Ho. unfold syncStatus. cbv zeta. eapply typed_use; [apply observe_targets_typed|].
  intros [[observed n]|e] Hl; [|done].
  pose proof (ready_verdict_valid (Z.of_nat (length keys)) n) as Hv.
  destruct (ready_verdict (Z.of_nat (length keys)) n) as [[status reason] msg]. destruct Hv as (Hs & Hr & Hlen).
  assert (patch_valid (set_contributor_status (with_targets observed trackers (GetPatchStatus obj)) obj)) as H1.
  { intros Hst. destruct (Ho Hst) as [Hc _]. unfold contributor_valid.
    destruct obj; (split; [exact Hc|by eapply Hl]). }
  eapply typed_use; [by apply contributorCond_typed|]. intros o1 H2. eapply typed_use.
  { apply contributorCond_typed; [|done|by destruct (0 <? n_conflicted n)%Z|done..].
    destruct (String.eqb status _); [|exact H2]. intros Hst. specialize (H2 Hst). by destruct o1. }
  intros o2 H3. eapply typed_use; [by apply contributorCond_typed|]. intros o3 H4.
  typed_step; [exact H4|]. done.
Qed.

Lemma setStatusError_typed obj reason msg :
  patch_valid obj -> reason_pattern reason = true -> (String.length reason <=? 1024)%nat = true ->
  typed (setStatusError obj reason msg) (fun _ => True).
Proof.
  intros Ho Hr Hlen. unfold setStatusError. eapply typed_use; [by apply contributorCond_typed|]. intros o1 H1.
  eapply typed_use; [by apply contributorCond_typed|]. intros o2 H2. typed_step; [exact H2|]. done.
Qed.

Lemma recheck_typed user obj : patch_valid obj -> typed (recheck ReauthorizeAfter user obj) (fun r => patch_valid r.1.1).
Proof.
  intros Ho. unfold recheck. cbv zeta. typed_step; [exact I|]. typed_step; [|exact Ho].
  destruct a as [allowed reason]. typed_step; [exact I|]. eapply (typed_use _ _ _ _ patch_valid).
  - assert (forall who at_, patch_valid (set_contributor_status (with_authorization who at_ (GetPatchStatus obj)) obj)) as Ho'
      by (intros who at_ Hst; specialize (Ho Hst); by destruct obj).
    destruct allowed; by apply contributorCond_typed.
  - intros o1 H1. typed_step; [exact H1|]. by destruct r1.
Qed.

Lemma reauthorize_typed obj :
  patch_valid obj -> typed (reauthorize authorizer ReauthorizeAfter obj) (fun r => patch_valid r.1.1).
Proof.
  intros Ho. unfold reauthorize. typed_step; [exact Ho|]. typed_step; [|exact Ho]. typed_step; [|by apply recheck_typed].
  typed_step; [exact I|]. typed_step; [|by apply recheck_typed]. typed_step; [exact I|]. exact Ho.
Qed.

Lemma contributor_Reconcile_typed kind ns name :
  typed (Reconcile uncached authorizer ReauthorizeAfter kind ns name) (fun _ => True).
Proof.
  unfold Reconcile. typed_step; [exact I|]. destruct r as [obj|e]; [|done]. cbn in H.
  typed_step; [by apply reconcileDelete_typed|]. typed_step.
  2: { unfold setInvalid. eapply typed_use; [by apply setStatusError_typed|]. done. }
  typed_step.
  { typed_step; [by apply contributor_valid_meta|]. by destruct r. }
  eapply typed_use; [by apply reauthorize_typed|]. intros [[obj' after] [e|]] Ho; [done|].
  eapply typed_use; [apply resolveTargets_typed|]. intros [keys|e] _.
  2: { eapply typed_use; [by apply setStatusError_typed|]. done. }
  eapply typed_use; [apply ensure_all_typed|]. intros [trackers|e] _; [|done].
  eapply typed_use; [by apply syncStatus_typed|]. by intros [e|] _.
Qed.

End Contributor.

End Typing.

End StatusTyping.
