(* ===== verification/TrackerStore.v ===== *)
(** The API server's store of trackers, as several clients see it at once.

    Writes carry the resource version they were based on and are refused when the object has moved
    on; status and metadata are written separately; deletion waits for finalizers; a read through
    the informer cache may return any version the object ever had.  Any call may fail, and a write
    that reports an error may still have landed. *)
From stdpp Require Import strings base list gmap fin_maps.
From S2P Require Import Prelude GoStrings Values ApiTypes Client Applier TrackerLogic Controller Traces World.
Local Open Scope string_scope.
Local Open Scope list_scope.

Module TrackerStore.
Import GoStrings Values ApiTypes Client Applier TrackerLogic Controller Traces World.

(** ** Objects and versions *)

(** Kind, namespace and name. *)
Definition objid : Type := string * string * string.

Definition id_of (t : Tracker) : objid := (TrackerKind t, Namespace (tracker_meta t), Name (tracker_meta t)).

Definition version_of (t : Tracker) : string := ResourceVersion (tracker_meta t).

(** The objects there are now, and every version of every object there ever was. *)
Record store := mkStore { live : gmap objid Tracker; past : list Tracker }.

Definition unused (s : store) (id : objid) (rv : string) : Prop :=
  forall t, t ∈ past s -> id_of t = id -> version_of t <> rv.

Definition commit (t : Tracker) (s : store) : store := mkStore (<[id_of t := t]> (live s)) (t :: past s).

Definition forget (id : objid) (s : store) : store := mkStore (delete id (live s)) (past s).

Definition with_version (rv : string) (t : Tracker) : Tracker :=
  set_tracker_meta (with_resource_version rv (tracker_meta t)) t.

Definition with_deletion (at_ : Z) (m : ObjectMeta) : ObjectMeta :=
  mkObjectMeta (Name m) (Namespace m) (UID m) (ResourceVersion m) (Generation m) (CreationTimestamp m)
    (Some at_) (Finalizers m) (Annotations m).

(** ** Writes *)

(** A new object starts with an empty status: the status of a create is dropped. *)
Definition created (t : Tracker) (s s' : store) : Prop :=
  live s !! id_of t = None /\
  exists rv, unused s (id_of t) rv /\ s' = commit (with_version rv (set_tracker_status empty_status t)) s.

(** A status update replaces the status and nothing else, of the version it was read from. *)
Definition status_updated (t t' : Tracker) (s s' : store) : Prop :=
  exists cur rv, live s !! id_of t = Some cur /\ version_of cur = version_of t /\ unused s (id_of t) rv /\
    t' = with_version rv (set_tracker_status (GetTrackerStatus t) cur) /\ s' = commit t' s.

(** An update of the object replaces its metadata, of which finalizers are all the code changes, and
    not its status; an object being deleted goes with its last finalizer. *)
Definition updated (t t' : Tracker) (s s' : store) : Prop :=
  exists cur rv, live s !! id_of t = Some cur /\ version_of cur = version_of t /\ unused s (id_of t) rv /\
    t' = with_version rv (set_tracker_meta (with_finalizers (Finalizers (tracker_meta t)) (tracker_meta cur)) cur) /\
    s' = if deleting (tracker_meta cur) && bool_decide (Finalizers (tracker_meta t) = [])
         then forget (id_of t) (commit t' s) else commit t' s.

(** A delete marks the object, or removes it when nothing holds it. *)
Definition deleted (id : objid) (s s' : store) : Prop :=
  exists cur, live s !! id = Some cur /\
    if bool_decide (Finalizers (tracker_meta cur) = []) then s' = forget id s
    else deleting (tracker_meta cur) = true /\ s' = s \/
      exists rv at_, unused s id rv /\
        s' = commit (with_version rv (set_tracker_meta (with_deletion at_ (tracker_meta cur)) cur)) s.

(** How the server may answer, and what becomes of the store. *)
Definition answers (R : Type) (s : store) (c : ctlE R) : R -> store -> Prop :=
  match c in ctlE R return R -> store -> Prop with
  | GetTracker uncached k ns n => fun r s' =>
      s' = s /\
      match r with
      | Ok t => id_of t = (k, ns, n) /\ (if uncached then live s !! ((k, ns, n) : objid) = Some t else t ∈ past s)
      | Err e => uncached = true -> IsNotFound e = true -> live s !! ((k, ns, n) : objid) = None
      end
  | CreateTracker t => fun r s' => (r <> None /\ s' = s) \/ created t s s'
  | UpdateTrackerStatus t => fun r s' =>
      match r with
      | Ok t' => status_updated t t' s s'
      | Err _ => s' = s \/ exists t', status_updated t t' s s'
      end
  | UpdateTracker t => fun r s' =>
      match r with
      | Ok t' => updated t t' s s'
      | Err _ => s' = s \/ exists t', updated t t' s s'
      end
  | DeleteTracker t => fun r s' => (r <> None /\ s' = s) \/ deleted (id_of t) s s'
  | _ => fun _ s' => s' = s
  end.

(** ** Well-formed stores

    What is live is a version there was, and a version is one content. *)
Definition wf (s : store) : Prop :=
  (forall id t, live s !! id = Some t -> t ∈ past s /\ id_of t = id) /\
  (forall t t', t ∈ past s -> t' ∈ past s -> id_of t = id_of t' -> version_of t = version_of t' -> t = t').

Lemma id_of_status st t : id_of (set_tracker_status st t) = id_of t.
Proof. by destruct t. Qed.

Lemma id_of_version rv t : id_of (with_version rv t) = id_of t.
Proof. by destruct t. Qed.

Lemma version_of_version rv t : version_of (with_version rv t) = rv.
Proof. by destruct t. Qed.

Lemma status_version rv t : GetTrackerStatus (with_version rv t) = GetTrackerStatus t.
Proof. by destruct t. Qed.

Lemma meta_set_meta m t : tracker_meta (set_tracker_meta m t) = m.
Proof. by destruct t. Qed.

Lemma meta_set_status st t : tracker_meta (set_tracker_status st t) = tracker_meta t.
Proof. by destruct t. Qed.

Lemma finalizers_version rv t : Finalizers (tracker_meta (with_version rv t)) = Finalizers (tracker_meta t).
Proof. by destruct t. Qed.

Lemma id_of_finalizers l t : id_of (set_tracker_meta (with_finalizers l (tracker_meta t)) t) = id_of t.
Proof. by destruct t. Qed.

Lemma id_of_deletion z t : id_of (set_tracker_meta (with_deletion z (tracker_meta t)) t) = id_of t.
Proof. by destruct t. Qed.

Create HintDb trackers.
#[export] Hint Rewrite id_of_status id_of_version version_of_version status_version meta_set_meta meta_set_status
  finalizers_version id_of_finalizers id_of_deletion status_set_status status_set_meta : trackers.

Lemma commit_wf t s : wf s -> unused s (id_of t) (version_of t) -> wf (commit t s).
Proof.
  intros [Hl Hv] Hu. split; cbn.
  - intros id t'. rewrite lookup_insert_Some. intros [[<- <-]|[_ H]]; [by split; [left|]|].
    destruct (Hl _ _ H). split; [by right|done].
  - intros a b [->|Ha]%elem_of_cons [->|Hb]%elem_of_cons Hid Hver; [done| | |by apply Hv].
    + by destruct (Hu _ Hb (eq_sym Hid)).
    + by destruct (Hu _ Ha Hid).
Qed.

Lemma forget_wf id s : wf s -> wf (forget id s).
Proof. intros [Hl Hv]. split; [|done]. cbn. intros id' t. rewrite lookup_delete_Some. intros [_ H]. by apply Hl. Qed.

(** ** What a write leaves behind

    [grows s s']: the store has the versions it had and, of each object, its old content or a new
    version. *)
Definition grows (s s' : store) : Prop := forall t, t ∈ past s -> t ∈ past s'.

Lemma grows_refl s : grows s s.
Proof. by intros t. Qed.

Lemma grows_commit t s : grows s (commit t s).
Proof. intros t' H. by right. Qed.

Lemma grows_forget id t s : grows s (forget id (commit t s)).
Proof. intros t' H. by right. Qed.

(** The versions a call may add. *)
Definition adds (s s' : store) (new : Tracker -> Prop) : Prop :=
  forall t, t ∈ past s' -> t ∈ past s \/ new t.

Lemma adds_commit (new : Tracker -> Prop) t s : new t -> adds s (commit t s) new.
Proof. intros H t' [->|Ht]%elem_of_cons; [by right|by left]. Qed.

(** The objects other than [id] stay as they are. *)
Definition same_but (id : objid) (s s' : store) : Prop := forall id', id' <> id -> live s' !! id' = live s !! id'.

Lemma same_commit t s : same_but (id_of t) s (commit t s).
Proof. intros id' H. cbn. by apply lookup_insert_ne. Qed.

Lemma same_forget id s : same_but id s (forget id s).
Proof. intros id' H. cbn. by apply lookup_delete_ne. Qed.

(** ** A server that answers faithfully

    [now] is the time it is. *)

Definition next_version (s : store) : string := fresh (map version_of (past s)).

Lemma next_version_unused s id : unused s id (next_version s).
Proof.
  intros t Ht _ E. apply (infinite_is_fresh (map version_of (past s))). unfold next_version in E. rewrite <- E.
  by apply list_elem_of_fmap_2.
Qed.

Definition missing (t : objid) : goerror := NewNotFound "terasky.com" t.1.1 t.2.

Definition stale : goerror := StatusError ReasonConflictStatus "the object has been modified" (Some []).

(** The object a write was based on, if it is still current. *)
Definition current (t : Tracker) (s : store) : res goerror Tracker :=
  match live s !! id_of t with
  | None => Err (missing (id_of t))
  | Some cur => if String.eqb (version_of cur) (version_of t) then Ok cur else Err stale
  end.

Definition serve (now : Z) (R : Type) (c : ctlE R) (s : store) : R * store :=
  let rv := next_version s in
  match c in ctlE R return R * store with
  | GetTracker _ k ns n =>
      (match live s !! ((k, ns, n) : objid) with Some t => Ok t | None => Err (missing (k, ns, n)) end, s)
  | CreateTracker t =>
      match live s !! id_of t with
      | Some _ => (Some (StatusError ReasonAlreadyExists "already exists" (Some [])), s)
      | None => (None, commit (with_version rv (set_tracker_status empty_status t)) s)
      end
  | UpdateTrackerStatus t =>
      match current t s with
      | Err e => (Err e, s)
      | Ok cur => let t' := with_version rv (set_tracker_status (GetTrackerStatus t) cur) in (Ok t', commit t' s)
      end
  | UpdateTracker t =>
      match current t s with
      | Err e => (Err e, s)
      | Ok cur =>
          let t' := with_version rv
            (set_tracker_meta (with_finalizers (Finalizers (tracker_meta t)) (tracker_meta cur)) cur) in
          (Ok t', if deleting (tracker_meta cur) && bool_decide (Finalizers (tracker_meta t) = [])
                  then forget (id_of t) (commit t' s) else commit t' s)
      end
  | DeleteTracker t =>
      match live s !! id_of t with
      | None => (Some (missing (id_of t)), s)
      | Some cur =>
          (None,
           if bool_decide (Finalizers (tracker_meta cur) = []) then forget (id_of t) s
           else if deleting (tracker_meta cur) then s
           else commit (with_version rv (set_tracker_meta (with_deletion 0 (tracker_meta cur)) cur)) s)
      end
  | Now => (now, s)
  | EnsureWatch _ _ _ => (None, s)
  | BuildClient _ | DeleteTarget _ _ => (None, s)
  | OnTarget _ _ e =>
      (match e in targetE R return R with
       | GetTarget _ | CreateTarget _ | UpdateTarget _ | ApplyTarget _ _ _ => Err (OtherError "no targets here") end, s)
  | GetContributor _ _ _ => (Err (NewNotFound "" "" ""), s)
  | ListContributors _ _ _ => (Ok [], s)
  | UpdateContributor x | UpdateContributorStatus x => (Ok x, s)
  | ListTargets _ _ _ _ => (Ok [], s)
  | ListNamespaces _ => (Ok [], s)
  | AuthorizeAs _ _ => (Ok (true, ""), s)
  end.

Lemma current_ok t s cur : current t s = Ok cur -> live s !! id_of t = Some cur /\ version_of cur = version_of t.
Proof.
  unfold current. destruct (live s !! id_of t) as [x|]; [|done].
  destruct (String.eqb_spec (version_of x) (version_of t)); [|done]. by intros [= <-].
Qed.

(** It is one of the servers there may be, as long as the store is well formed. *)
Lemma serve_answers now (R : Type) (c : ctlE R) (s : store) : wf s -> answers R s c (serve now R c s).1 (serve now R c s).2.
Proof.
  intros [Hl _]. pose proof (next_version_unused s) as Hn.
  destruct c; cbn; try done.
  - split; [done|]. destruct (live s !! ((kind, namespace, name) : objid)) as [t|] eqn:El; [|done].
    destruct (Hl _ _ El). split; [done|]. by destruct live0.
  - destruct (live s !! id_of t) eqn:El; cbn; [by left|]. right. split; [done|]. eexists; split; [apply Hn|done].
  - destruct (current t s) as [cur|e] eqn:Ec; cbn; [|by left]. apply current_ok in Ec as [? ?].
    exists cur, (next_version s). by repeat split.
  - destruct (current t s) as [cur|e] eqn:Ec; cbn; [|by left]. apply current_ok in Ec as [? ?].
    exists cur, (next_version s). by repeat split.
  - destruct (live s !! id_of t) as [cur|] eqn:El; cbn; [|by left]. right. exists cur. split; [done|].
    destruct (bool_decide _); [done|]. destruct (deleting _) eqn:Ed; [by left|]. right.
    exists (next_version s), 0%Z. split; [apply Hn|done].
Qed.

Lemma answers_wf (R : Type) (c : ctlE R) r (s s' : store) : wf s -> answers R s c r s' -> wf s'.
Proof.
  intros Hw Ha. pose proof Hw as [Hl _].
  assert (forall t t', updated t t' s s' -> wf s') as Hup.
  { intros t t' (cur & rv & Hc & _ & Hu & -> & ->). destruct (Hl _ _ Hc) as [_ Hid].
    assert (wf (commit (with_version rv (set_tracker_meta (with_finalizers (Finalizers (tracker_meta t))
      (tracker_meta cur)) cur)) s)) as Hwc by (apply commit_wf; [done|]; autorewrite with trackers; by rewrite Hid).
    destruct (_ && _); [by apply forget_wf|done]. }
  assert (forall t t', status_updated t t' s s' -> wf s') as Hst.
  { intros t t' (cur & rv & Hc & _ & Hu & -> & ->). destruct (Hl _ _ Hc) as [_ Hid].
    apply commit_wf; [done|]. autorewrite with trackers. by rewrite Hid. }
  destruct c; cbn in Ha; try (by subst s').
  - by destruct Ha as [-> _].
  - destruct Ha as [[_ ->]|(_ & rv & Hu & ->)]; [done|]. apply commit_wf; [done|]. by autorewrite with trackers.
  - destruct r; [by eapply Hup|]. destruct Ha as [->|[t' Ha]]; [done|]. by eapply Hup.
  - destruct r; [by eapply Hst|]. destruct Ha as [->|[t' Ha]]; [done|]. by eapply Hst.
  - destruct Ha as [[_ ->]|(cur & Hc & Ha)]; [done|]. destruct (Hl _ _ Hc) as [_ Hid].
    case_bool_decide; [subst s'; by apply forget_wf|]. destruct Ha as [[_ ->]|(rv & z & Hu & ->)]; [done|].
    apply commit_wf; [done|]. autorewrite with trackers. by rewrite Hid.
Qed.

(** From well-formed stores the faithful server stays among them. *)
Lemma serve_sound now (R : Type) (c : ctlE R) (s : store) :
  wf s -> answers R s c (serve now R c s).1 (serve now R c s).2 /\ wf (serve now R c s).2.
Proof. intros Hw. pose proof (serve_answers now R c s Hw). split; [done|]. by eapply answers_wf. Qed.

(** A store with one object, of one version. *)
Definition only (t : Tracker) : store := mkStore {[id_of t := t]} [t].

Lemma only_wf t : wf (only t).
Proof.
  split; cbn.
  - intros id t' [<- <-]%(lookup_singleton_Some (M := gmap objid)). by split; [left|].
  - by intros a b ->%list_elem_of_singleton ->%list_elem_of_singleton.
Qed.

End TrackerStore.
