(* ===== verification/StatusGuarantees.v ===== *)
(** Every status the operator stores keeps to the CRDs' schema, however its reconciles interleave. *)
From stdpp Require Import strings base list gmap fin_maps.
From Stdlib Require Import Ascii ZArith Lia.
From S2P Require Import Prelude GoStrings Values ApiTypes Identity Scope Kube Render RenderSpec Client ProgramLogic Applier TrackerLogic TrackerSpec Controller.
From S2P Require Import Traces Promotion PromotionSpec ContributorReconciler TrackerReconciler TrackerGuarantees ContributorGuarantees World TrackerStore StatusSchema StatusTyping.
Local Open Scope string_scope.
Local Open Scope list_scope.

Module StatusGuarantees.
Import GoStrings Values ApiTypes Identity Scope Kube Render RenderSpec Client ProgramLogic Applier TrackerLogic TrackerSpec Controller.
Import Traces Promotion PromotionSpec World TrackerStore StatusSchema StatusTyping.

(** ** Stores of valid trackers *)

Definition valid_store (s : store) : Prop := wf s /\ forall t, t ∈ past s -> tracker_valid t.

Lemma valid_commit t s : valid_store s -> wf (commit t s) -> tracker_valid t -> valid_store (commit t s).
Proof. intros [_ Hv] Hw Ht. split; [done|]. intros t' [->|H]%elem_of_cons; [done|by apply Hv]. Qed.

Lemma valid_live s id t : valid_store s -> live s !! id = Some t -> tracker_valid t.
Proof. intros [[Hl _] Hv] H. apply Hv. by apply (Hl id t). Qed.

Lemma valid_version rv t : tracker_valid t -> tracker_valid (with_version rv t).
Proof. intros H. by apply tracker_valid_meta. Qed.

Lemma kind_of_id t t' : id_of t = id_of t' -> TrackerKind t = TrackerKind t'.
Proof. unfold id_of. congruence. Qed.

Lemma kind_with_version rv t : TrackerKind (with_version rv t) = TrackerKind t.
Proof. by destruct t. Qed.

(** A status update of a valid object stores a valid one of its kind. *)
Lemma status_updated_valid t t' s s' :
  valid_store s -> tracker_valid t -> status_updated t t' s s' ->
  (forall x, x ∈ past s' -> x ∈ past s \/ x = t') /\ tracker_valid t' /\ TrackerKind t' = TrackerKind t.
Proof.
  intros Hs Ht (cur & rv & Hc & _ & _ & -> & ->). pose proof Hs as [[Hl _] _]. destruct (Hl _ _ Hc) as [_ Hid].
  apply kind_of_id in Hid. split; [by intros x [->|?]%elem_of_cons; [right|left]|].
  split; [|by rewrite kind_with_version, kind_set_status].
  by apply valid_version, tracker_valid_adopt.
Qed.

Lemma updated_valid t t' s s' :
  valid_store s -> updated t t' s s' ->
  (forall x, x ∈ past s' -> x ∈ past s \/ x = t') /\ tracker_valid t' /\ TrackerKind t' = TrackerKind t.
Proof.
  intros Hs (cur & rv & Hc & _ & _ & -> & ->). pose proof Hs as [[Hl _] _]. destruct (Hl _ _ Hc) as [_ Hid].
  apply kind_of_id in Hid. split; [destruct (_ && _); by intros x [->|?]%elem_of_cons; [right|left]|].
  split; [|by rewrite kind_with_version, kind_set_meta].
  apply valid_version, tracker_valid_meta. by eapply valid_live.
Qed.

Lemma deleted_valid id s s' : valid_store s -> deleted id s s' -> forall x, x ∈ past s' -> tracker_valid x.
Proof.
  intros Hs (cur & Hc & H) x Hx. pose proof Hs as [_ Hv]. case_bool_decide; [subst s'; by apply Hv|].
  destruct H as [[_ ->]|(rv & z & _ & ->)]; [by apply Hv|].
  apply elem_of_cons in Hx as [->|Hx]; [|by apply Hv]. apply valid_version, tracker_valid_meta. by eapply valid_live.
Qed.

(** A typed call leaves a valid store, and its answer is typed. *)
Lemma typed_call_valid (R : Type) (c : ctlE R) (r : R) s s' :
  valid_store s -> ask false R c -> answers R s c r s' -> valid_store s' /\ ans false R c r.
Proof.
  intros Hs Hask Ha. pose proof Hs as [Hw Hv]. pose proof (answers_wf _ _ _ _ _ Hw Ha) as Hw'.
  destruct c; cbn in Ha, Hask |- *; try (by subst s'); try (by subst s'; split; [|destruct r]).
  - destruct Ha as [-> Hr]. split; [done|]. destruct r as [t|e]; [|done]. destruct Hr as [Hid Hin].
    split; [|unfold id_of in Hid; congruence]. destruct live0; [by eapply valid_live|by apply Hv].
  - destruct Ha as [[_ ->]|(_ & rv & _ & ->)]; [done|]. split; [|done]. apply valid_commit; [done|done|].
    apply valid_version. split; [rewrite status_set_status; apply empty_status_valid|by rewrite status_set_status].
  - assert (forall t', updated t t' s s' -> valid_store s' /\ tracker_valid t' /\ TrackerKind t' = TrackerKind t) as Hu.
    { intros t' Hu. destruct (updated_valid _ _ _ _ Hs Hu) as (Hp & Ht' & Hk). split; [|done]. split; [done|].
      intros x Hx. destruct (Hp x Hx) as [?| ->]; [by apply Hv|done]. }
    destruct r as [t'|e]; [by destruct (Hu _ Ha)|]. destruct Ha as [->|[t' Ha]]; [done|]. by destruct (Hu _ Ha).
  - assert (forall t', status_updated t t' s s' -> valid_store s' /\ tracker_valid t' /\ TrackerKind t' = TrackerKind t) as Hu.
    { intros t' Hu. destruct (status_updated_valid _ _ _ _ Hs Hask Hu) as (Hp & Ht' & Hk). split; [|done]. split; [done|].
      intros x Hx. destruct (Hp x Hx) as [?| ->]; [by apply Hv|done]. }
    destruct r as [t'|e]; [by destruct (Hu _ Ha)|]. destruct Ha as [->|[t' Ha]]; [done|]. by destruct (Hu _ Ha).
  - split; [|done]. destruct Ha as [[_ ->]|Ha]; [done|]. split; [done|]. by eapply deleted_valid.
Qed.

(** ** The reconciles that run *)

Section Running.
Context {JP : JsonPatch} {K : KubeLib}.
(** How long a message's text is. *)
Variable characters : message -> nat.
Local Abbreviation messages_fit := (StatusSchema.messages_fit characters).

(** The API server refuses a status with a message that is too long. *)
Definition enforcing (R : Type) (s : store) (c : ctlE R) (r : R) (s' : store) : Prop :=
  answers R s c r s' /\
  match c with UpdateTrackerStatus t => s' = s \/ messages_fit t | _ => True end.

Definition admitted_store (s : store) : Prop := valid_store s /\ forall t, t ∈ past s -> messages_fit t.

(** Others may delete a tracker at any time, and write one that the schema admits. *)
Inductive others (s : store) : store -> Prop :=
| others_delete t s' : deleted (id_of t) s s' -> others s s'
| others_write t : tracker_valid t -> messages_fit t -> unused s (id_of t) (version_of t) -> others s (commit t s).

Inductive operator : prog ctlE unit -> Prop :=
| runs_tracker impersonation range_order kind ns name :
    operator (as_thread (TrackerReconciler.Reconcile impersonation range_order kind ns name))
| runs_contributor uncached authorizer ttl kind ns name :
    operator (as_thread (ContributorReconciler.Reconcile uncached authorizer ttl kind ns name)).

Lemma operator_typed strict p : operator p -> typed (ask strict) (ans strict) p (fun _ => True).
Proof.
  intros []; unfold as_thread; (eapply typed_use; [|done]); [apply tracker_Reconcile_typed|apply contributor_Reconcile_typed].
Qed.

Definition at_work : policy ctlE := asks_well (ask false) (ans false).
Definition answered_so_far (s : store) (h : list (event ctlE)) : Prop := well_answered (ans false) h.

(** Messages are those of a status that was written, or of the version before. *)
Lemma messages_same t t' : SR_Conditions (GetTrackerStatus t') = SR_Conditions (GetTrackerStatus t) -> messages_fit t -> messages_fit t'.
Proof. unfold StatusSchema.messages_fit. by intros ->. Qed.

Lemma messages_commit s t : (forall x, x ∈ past s -> messages_fit x) -> messages_fit t -> forall x, x ∈ past (commit t s) -> messages_fit x.
Proof. by intros Hs Ht x [->|Hx]%elem_of_cons; [|apply Hs]. Qed.

Lemma messages_deleted id s s' :
  wf s -> (forall x, x ∈ past s -> messages_fit x) -> deleted id s s' -> forall x, x ∈ past s' -> messages_fit x.
Proof.
  intros [Hl _] Hs (cur & Hc & H). case_bool_decide; [by subst s'|].
  destruct H as [[_ ->]|(rv & z & _ & ->)]; [done|]. apply messages_commit; [done|]. eapply messages_same, Hs.
  - by autorewrite with trackers.
  - by apply (Hl id cur).
Qed.

Lemma messages_updated t t' s s' :
  wf s -> (forall x, x ∈ past s -> messages_fit x) -> updated t t' s s' -> forall x, x ∈ past s' -> messages_fit x.
Proof.
  intros [Hl _] Hs (cur & rv & Hc & _ & _ & -> & ->).
  assert (forall x, x ∈ past (commit (with_version rv (set_tracker_meta (with_finalizers (Finalizers (tracker_meta t))
    (tracker_meta cur)) cur)) s) -> messages_fit x) as H.
  { apply messages_commit; [done|]. eapply messages_same, Hs; [by autorewrite with trackers|]. by apply (Hl _ cur Hc). }
  by destruct (_ && _).
Qed.

Lemma messages_stored t t' s s' :
  (forall x, x ∈ past s -> messages_fit x) -> s' = s \/ messages_fit t -> status_updated t t' s s' ->
  forall x, x ∈ past s' -> messages_fit x.
Proof.
  intros Hs [->|Ht] (cur & rv & _ & _ & _ & -> & E); [done|]. subst s'. apply messages_commit; [done|].
  eapply messages_same, Ht. by autorewrite with trackers.
Qed.

Lemma messages_call (R : Type) (c : ctlE R) (r : R) s s' :
  wf s -> (forall x, x ∈ past s -> messages_fit x) -> enforcing R s c r s' -> forall x, x ∈ past s' -> messages_fit x.
Proof.
  intros Hw Hs [Ha Hm]. destruct c; cbn in Ha, Hm; try (by subst s').
  - by destruct Ha as [-> _].
  - destruct Ha as [[_ ->]|(_ & rv & _ & ->)]; [done|]. apply messages_commit; [done|].
    unfold StatusSchema.messages_fit. autorewrite with trackers. by constructor.
  - destruct r as [t'|e]; [by eapply messages_updated|]. destruct Ha as [->|[t' Ha]]; [done|]. by eapply messages_updated.
  - destruct r as [t'|e]; [by eapply messages_stored|]. destruct Ha as [->|[t' Ha]]; [done|]. by eapply messages_stored.
  - destruct Ha as [[_ ->]|Hd]; [done|]. by eapply messages_deleted.
Qed.

Lemma operator_sound : sound_policy (anyone enforcing) others operator at_work admitted_store (anyone answered_so_far).
Proof.
  split.
  - intros p Hp. eapply wp_post; [|by intros ? ? _]. apply (typed_wp _ _ _ (fun _ => True)). intros _. by apply operator_typed.
  - intros i s _. by constructor.
  - intros i s h R c r s' [Hs Hm] Hh Hal Ha. destruct (typed_call_valid _ _ _ _ _ Hs (Hal Hh) (proj1 Ha)).
    split; [split; [done|by eapply messages_call; [apply Hs|..]]|]. split; [by apply well_answered_last|done].
  - intros s s' [Hs Hm] Ho. split; [|done]. destruct Hs as [Hw Hv]. destruct Ho as [t s' Hd|t Ht Hfit Hu].
    + split; [|by eapply messages_deleted]. split; [|by eapply deleted_valid].
      apply (answers_wf _ (DeleteTracker t) None s s' Hw). by right.
    + split; [|by apply messages_commit]. apply valid_commit; [done| |done]. by apply commit_wf.
Qed.

(** ** Properties *)

(** (C17) The stored statuses are well typed.  Interleave any number of reconciles of both kinds of
    trackers and both kinds of contributors, promotions included, over lagging caches, failing calls
    and lost replies, with crashes anywhere and others who delete trackers or write ones the schema
    admits.  Of every tracker a reconcile is about to write: phase and states are of their
    enumerations, conditions are a map by type of conditions whose type, status, reason,
    generation and time are well formed, the count is the length of the list, a creator is recorded
    exactly when the operator created the target, and no cluster-scoped tracker is fenced.  So the
    only clause of the schema of [StatusSchema] for which a write can be refused is the bound on a
    message's length; and with a server that refuses those, every version of every tracker ever
    stored keeps to the whole of it. *)
Theorem stored_statuses_valid (s : store) (w : world ctlE store)
    (Hinit : admitted_store s) (Hreach : reachable (anyone enforcing) others operator s w) :
  (forall h R (c : ctlE R) k, (h, Vis R c k) ∈ w.1 -> ask false R c) /\
  (forall t, t ∈ past w.2 -> tracker_valid t /\ messages_fit t).
Proof.
  destruct (consistent_reachable _ _ _ _ _ _ operator_sound _ _ Hinit Hreach) as [[[_ Hv] Hm] Ht].
  split; [|by intros t Hin; split; [apply Hv|apply Hm]].
  intros h R c k [i Hin]%list_elem_of_lookup_1. destruct (Ht _ _ Hin) as [Hh [Hal _]]. by apply Hal.
Qed.

(** The statuses a reconcile writes are well typed, contributors included: if the trackers and the
    contributors it has read so far keep to the schema, so does the object of every write it makes.
    A contributor reports for each of its targets a state of the enumeration, and its conditions
    stay a map by type. *)
Theorem written_statuses_valid (p : prog ctlE unit) (tr pre suf : list (event ctlE)) (R : Type) (c : ctlE R) (r : R)
    (Hp : operator p) (Hexec : exec p tr tt) (Htr : tr = pre ++ mkEvent R c r :: suf)
    (Hread : well_answered (ans true) pre) :
  ask true R c.
Proof.
  pose proof (typed_wp (ask true) (ans true) p (fun _ => True) [] (fun _ => operator_typed true p Hp)) as Hw.
  destruct (wp_exec _ _ _ _ _ _ Hw Hexec) as [Hob _]. by apply (Hob pre (mkEvent R c r) suf).
Qed.

End Running.

(** ** At work *)

Import TrackerGuarantees ContributorGuarantees.

Definition worked_on : Tracker := server_tracker status_a.

Lemma worked_on_valid : tracker_valid worked_on.
Proof.
  split; [|done]. constructor; try done.
  - split; [by constructor|by constructor].
  - by repeat constructor.
Qed.

(** The length of a format, and of an error's own text. *)
Definition text_length (m : message) : nat :=
  match m with
  | Msg fmt _ | MsgWith fmt _ _ | MsgError (Errorf fmt _) | MsgError (Wrapf fmt _ _) => String.length fmt
  | MsgError (StatusError _ text _) | MsgError (OtherError text) => String.length text
  end.

(** The server of [TrackerStore] that refuses long messages. *)
Definition refusing (now : Z) (R : Type) (c : ctlE R) (s : store) : R * store :=
  match c in ctlE R return R * store with
  | UpdateTrackerStatus t =>
      if forallb (fun d => text_length (Cond_Message d) <=? 32768)%nat (SR_Conditions (GetTrackerStatus t))
      then serve now _ (UpdateTrackerStatus t) s
      else (Err (StatusError "Invalid" "Too long" (Some [])), s)
  | c => serve now _ c s
  end.

Lemma refusing_enforces now i R (c : ctlE R) s :
  wf s -> anyone (enforcing text_length) i R s c (refusing now R c s).1 (refusing now R c s).2 /\ wf (refusing now R c s).2.
Proof.
  intros Hw. assert (forall c : ctlE R, answers R s c (serve now R c s).1 (serve now R c s).2 /\ wf (serve now R c s).2) as H.
  { intros c'. apply (anyone (serve_sound now) i). done. }
  unfold anyone, enforcing. destruct c; try (split; [split; [apply H|done]|apply H]). cbn [refusing].
  destruct (forallb _ _) eqn:E.
  - destruct (H (UpdateTrackerStatus t)). split; [|done]. split; [done|]. right. apply Forall_forall. intros d Hd.
    apply Nat.leb_le. by apply (proj1 (forallb_forall _ _) E), list_elem_of_In.
  - cbn. split; [|done]. split; by left.
Qed.

(** A tracker whose contributors have all gone is reconciled, and starts to release. *)
Definition released_world : world ctlE store :=
  schedule (total (refusing 0)) (replicate 6 0)%nat
    ([([], as_thread (TrackerReconciler.Reconcile (JP := no_ops) true (fun _ => map_to_list) KindSharedResource "team-a" "t"))],
     only worked_on).

Lemma stored_statuses_valid_witness :
  map (fun t => Phase (GetTrackerStatus t)) (past released_world.2) = ["Releasing"; "Applied"] /\
  forall t, t ∈ past released_world.2 -> tracker_valid t /\ messages_fit text_length t.
Proof.
  split; [vm_refl|].
  apply (stored_statuses_valid (JP := no_ops) (K := plain_library) text_length (only worked_on) released_world).
  - split; [split; [apply only_wf|]|]; intros t ->%list_elem_of_singleton; [exact worked_on_valid|by constructor].
  - apply (schedule_attained _ _ _ (total (refusing 0)) wf (total_answers _ _ _ (refusing_enforces 0))).
    apply (start_attained _ _ _ _ _ []); [apply runs_tracker|]. apply attained_start, only_wf.
Defined.

Definition refused_run : list (event ctlE) * unit :=
  behaviour (sample_server (server_tracker status_a) (server_patch None OnReleaseDelete))
    (as_thread (ContributorReconciler.Reconcile (K := plain_library) true false 0 KindResourcePatch "team-a" "a")) tt.

(** The status written for a spec that does not validate. *)
Definition refused_patch : Contributor :=
  match refused_run.1 !! 3 with
  | Some e => match ev_call e with UpdateContributorStatus c => c | _ => server_patch None OnReleaseDelete end
  | None => server_patch None OnReleaseDelete
  end.

Lemma written_statuses_valid_witness :
  map Cond_Type (Conditions (GetPatchStatus refused_patch)) = ["Ready"; "Synced"] /\ contributor_valid refused_patch.
Proof.
  split; [vm_refl|].
  refine (written_statuses_valid (JP := no_ops) (K := plain_library) _
    refused_run.1 (take 3 refused_run.1) [] _ (UpdateContributorStatus refused_patch) (Ok refused_patch)
    (runs_contributor true false 0 KindResourcePatch "team-a" "a") _ _ _ eq_refl).
  - exact (behaviour_exec _ _ tt).
  - vm_refl.
  - repeat constructor.
Defined.

End StatusGuarantees.
