(* ===== verification/Handover.v ===== *)
(** Promotion under concurrency: any number of promoting contributors and of passes of the fenced
    tracker, interleaved over one store with stale caches, lost replies, crashes and other writers,
    refine a handover protocol of five moves ([internal/controller/promotion.go]). *)
From stdpp Require Import strings base list gmap fin_maps relations.
From S2P Require Import Prelude GoStrings Values ApiTypes Scope Render Client ProgramLogic Applier TrackerLogic TrackerSpec Controller Traces Promotion PromotionSpec TrackerReconciler World TrackerStore.
Local Open Scope string_scope.
Local Open Scope list_scope.
Local Open Scope go_scope.

Module Handover.
Import GoStrings Values ApiTypes Scope Render Client ProgramLogic Applier TrackerLogic TrackerSpec Controller Traces Promotion PromotionSpec TrackerReconciler World TrackerStore.

(** ** The abstract protocol *)

(** Where the old tracker is: free to write, fenced, fenced with its state handed over, or retired
    (its finalizer released, or gone). *)
Inductive stage := Open | Fenced | HandedOver | Retired.

Record handover := mkHandover { at_stage : stage; received : bool }.

Inductive move : handover -> handover -> Prop :=
| move_fence r : move (mkHandover Open r) (mkHandover Fenced r)
| move_receive st r : move (mkHandover st r) (mkHandover st true)
| move_flag : move (mkHandover Fenced true) (mkHandover HandedOver true)
| move_unfence st r : st = Fenced \/ st = HandedOver -> move (mkHandover st r) (mkHandover Open r)
| move_retire : move (mkHandover HandedOver true) (mkHandover Retired true).

(** Whoever has handed over or retired has a successor that received its state. *)
Definition safe (a : handover) : Prop :=
  match at_stage a with Open | Fenced => True | HandedOver | Retired => received a = true end.

Lemma move_safe a b : move a b -> safe a -> safe b.
Proof. by intros []; cbn; try (destruct st). Qed.

Lemma moves_safe a b : rtc move a b -> safe a -> safe b.
Proof. induction 1 as [|a b c Hm _ IH]; [done|]. intros Ha. by eapply IH, move_safe. Qed.

(** ** What the store says of it *)

Section Protocol.
Variable key : TargetKey.
(** The bookkeeping of the old tracker when the promotion starts. *)
Variable origin : SharedResourceStatus.

Definition old_id : objid := (KindSharedResource, Key_Namespace key, TrackerName key).
Definition new_id : objid := (KindClusterSharedResource, "", TrackerName key).

(** [st] has everything of [origin] that cannot be computed again: each contributor's revert state
    and who created the target. *)
Definition absorbs (st : SharedResourceStatus) : Prop :=
  (forall r, r ∈ Contributors origin -> exists d, d ∈ Contributors st /\
     SameContributor (PatchRef d) (PatchRef r) = true /\ revert_state_kept r d) /\
  (CreatedByOperator origin = true -> CreatedByOperator st = true) /\
  (CreatorPatchRef origin <> None -> CreatorPatchRef st <> None).

(** The successor has had such a status. *)
Definition took_over (s : store) : Prop := exists t, t ∈ past s /\ id_of t = new_id /\ absorbs (GetTrackerStatus t).

Definition holds (t : Tracker) : bool := ContainsFinalizer TrackerFinalizer (tracker_meta t).

Definition stage_of (s : store) : stage :=
  match live s !! old_id with
  | None => Retired
  | Some t =>
      if negb (holds t) then Retired
      else match PromotedTo (GetTrackerStatus t) with
           | None => Open
           | Some p => if Adopted p then HandedOver else Fenced
           end
  end.

Definition models (s : store) (a : handover) : Prop :=
  stage_of s = at_stage a /\ (received a = true -> took_over s).

(** ** Who takes part

    The contributors' promotions, and the passes of the old tracker that find it fenced. *)
Definition retire : ctlM outcome :=
  do! g <- call (GetTracker false KindSharedResource (Key_Namespace key) (TrackerName key)) in
  match g with
  | Err e => Ret (finished (ignoreNotFound (Some e)))
  | Ok t => if IsFenced (GetTrackerStatus t) then finishPromotion t else Ret done_
  end.

Definition takes_part (p : prog ctlE unit) : Prop :=
  p = as_thread (promoteIfNeeded true key) \/ p = as_thread retire.

(** Everybody else may do anything to other objects, the successor included, and delete the old
    tracker, which its finalizer survives. *)
Inductive environment (s : store) : store -> Prop :=
| others_write t : id_of t <> old_id -> unused s (id_of t) (version_of t) -> environment s (commit t s)
| others_remove id : id <> old_id -> environment s (forget id s)
| others_delete s' : deleted old_id s s' -> environment s s'.

(** The store at the start: the old tracker is there, with its finalizer, not fenced, and no cache
    has another version of it. *)
Definition initial (s : store) : Prop :=
  wf s /\ exists t, live s !! old_id = Some t /\ GetTrackerStatus t = origin /\ holds t = true /\
    IsFenced origin = false /\ forall t', t' ∈ past s -> id_of t' = old_id -> t' = t.

(** ** The policy of the participants *)

Definition same_book (st st' : SharedResourceStatus) : Prop :=
  Contributors st' = Contributors st /\ CreatedByOperator st' = CreatedByOperator st /\
  CreatorPatchRef st' = CreatorPatchRef st.

(** The state is known to be handed over: the successor accepted it, or the flag was read. *)
Definition handed (e : event ctlE) : bool :=
  match ev_call e in ctlE R return R -> bool with
  | GetTracker _ _ _ _ => fun r =>
      match r with Ok t => bool_decide (id_of t = old_id) && already_adopted (GetTrackerStatus t) | Err _ => false end
  | UpdateTrackerStatus t => fun r => bool_decide (id_of t = new_id) && is_ok r
  | _ => fun _ => false
  end (ev_reply e).

Definition fence_moves (h : list (event ctlE)) (from to : option PromotionRef) : Prop :=
  match from, to with
  | None, Some p => Adopted p = false /\ Promotion_Name p = TrackerName key
  | Some p, Some p' => Adopted p = false /\ Adopted p' = true /\ Promotion_Name p' = Promotion_Name p /\ seen handed h
  | Some _, None => True
  | None, None => False
  end.

Definition writes_old (h : list (event ctlE)) (t : Tracker) : Prop :=
  exists t0 st, returned h t0 /\ id_of t0 = old_id /\ t = set_tracker_status st t0 /\
    same_book (GetTrackerStatus t0) st /\ fence_moves h (PromotedTo (GetTrackerStatus t0)) (PromotedTo st).

Definition writes_new (h : list (event ctlE)) (t : Tracker) : Prop :=
  id_of t = new_id /\ exists now cur old, returned h old /\ id_of old = old_id /\
    GetTrackerStatus t = adoptStatus now cur (GetTrackerStatus old) (Namespace (tracker_meta old)) (Name (tracker_meta old)).

Definition participant : policy ctlE := fun h R c =>
  match c with
  | GetTracker _ _ _ _ | Now => True
  | CreateTracker t => id_of t = new_id
  | UpdateTrackerStatus t => writes_old h t \/ writes_new h t
  | UpdateTracker t =>
      exists t0, returned h t0 /\ id_of t0 = old_id /\ already_adopted (GetTrackerStatus t0) = true /\
        t = drop_tracker_finalizer t0
  | DeleteTracker t => id_of t = old_id
  | _ => False
  end.

(** The server answers a call about an object with that object. *)
Definition about_it (e : event ctlE) : Prop :=
  match ev_call e in ctlE R return R -> Prop with
  | GetTracker _ k ns n => fun r => match r with Ok t => id_of t = (k, ns, n) | Err _ => True end
  | UpdateTracker t | UpdateTrackerStatus t => fun r => match r with Ok t' => id_of t' = id_of t | Err _ => True end
  | _ => fun _ => True
  end (ev_reply e).

Definition honest (h : list (event ctlE)) : Prop := Forall about_it h.

Definition policy_ : policy ctlE := fun h R c => honest h -> participant h R c.

Lemma honest_prefix h h' : h `prefix_of` h' -> honest h' -> honest h.
Proof. intros [k ->]. unfold honest. rewrite Forall_app. by intros []. Qed.

Lemma honest_last h e : honest (h ++ [e]) -> about_it e.
Proof. unfold honest. rewrite Forall_app, Forall_singleton. by intros []. Qed.

End Protocol.

End Handover.
