(* ===== verification/HandoverSpec.v ===== *)
(** The participants of a promotion keep to the handover protocol, and together refine it. *)
From stdpp Require Import strings base list gmap fin_maps relations.
From S2P Require Import Prelude GoStrings Values ApiTypes Scope Render Client ProgramLogic Applier TrackerLogic TrackerSpec Controller Traces Promotion PromotionSpec TrackerReconciler World TrackerStore Handover.
Local Open Scope string_scope.
Local Open Scope list_scope.
Local Open Scope go_scope.

Module HandoverSpec.
Import GoStrings Values ApiTypes Scope Render Client ProgramLogic Applier TrackerLogic TrackerSpec Controller Traces Promotion PromotionSpec TrackerReconciler World TrackerStore Handover.

Section Participants.
Variable key : TargetKey.
Local Abbreviation old_id := (Handover.old_id key).
Local Abbreviation new_id := (Handover.new_id key).
Local Abbreviation handed := (Handover.handed key).
Local Abbreviation al := (Handover.policy_ key).

(** ** Each participant keeps to the policy *)

Lemma handed_read h live_ k ns n t :
  id_of t = old_id -> already_adopted (GetTrackerStatus t) = true ->
  seen handed (h ++ [mkEvent _ (GetTracker live_ k ns n) (Ok t)]).
Proof. intros Hid Ha. apply seen_last. cbn. by rewrite bool_decide_true. Qed.

(** What a read of an object gives: it is that object, and the server returned it. *)
Lemma read_id h live_ k ns n t :
  honest (h ++ [mkEvent _ (GetTracker live_ k ns n) (Ok t)]) -> id_of t = (k, ns, n).
Proof. intros Hh. exact (honest_last _ _ Hh). Qed.

Lemma read_returned h live_ k ns n t : returned (h ++ [mkEvent _ (GetTracker live_ k ns n) (Ok t)]) t.
Proof. by apply returned_last. Qed.

Lemma set_status_at t st : set_tracker_status st (set_tracker_status (GetTrackerStatus t) t) = set_tracker_status st t.
Proof. by destruct t. Qed.

Lemma fence_attempt_keeps h :
  wp al (fence_attempt true (Key_Namespace key) (TrackerName key) tt) h (fun _ _ => True).
Proof.
  unfold fence_attempt. cbn [bind call wp]. split; [done|]. intros [old|e]; [|done].
  destruct (PromotedTo (GetTrackerStatus old)) as [p|] eqn:Ep; cbn [is_some]; [done|].
  cbn [bind call wp]. split; [done|]. intros now. split; [|done].
  intros Hh. left. exists old. eexists. split; [|split; [|split; [reflexivity|]]].
  - eapply returned_prefix; [apply prefix_last|apply read_returned].
  - eapply read_id, honest_prefix, Hh. apply prefix_last.
  - split; [done|]. by rewrite Ep.
Qed.

Lemma adopt_attempt_keeps old h :
  returned h old -> (honest h -> id_of old = old_id) ->
  wp al (adopt_attempt true old (TrackerName key) tt) h (fun h' '(_, e) => e = None -> honest h' -> seen handed h').
Proof.
  intros Ho Hid. unfold adopt_attempt. cbn [bind call wp]. split; [done|]. intros [current|e]; [|done].
  cbn [bind call wp]. split; [done|]. intros now. cbv zeta. cbn [bind call wp].
  set (e0 := mkEvent _ (GetTracker _ _ _ _) _). set (e1 := mkEvent _ Now now).
  assert (h `prefix_of` (h ++ [e0]) ++ [e1]) as Hp by (etrans; apply prefix_last).
  assert (honest ((h ++ [e0]) ++ [e1]) -> id_of current = new_id) as Hc.
  { intros Hh. eapply read_id, honest_prefix, Hh. apply prefix_last. }
  split.
  - intros Hh. right. split; [by rewrite id_of_status, Hc|].
    exists now, (GetTrackerStatus current), old.
    split; [by eapply returned_prefix|]. split; [eapply Hid, honest_prefix, Hh; done|by rewrite status_set_status].
  - intros [t|e]; [|done]. intros _ Hh. apply seen_last. cbn.
    rewrite id_of_status, Hc; [by rewrite bool_decide_true|]. eapply honest_prefix, Hh. apply prefix_last.
Qed.

Lemma createSuccessor_keeps old h :
  returned h old -> (honest h -> id_of old = old_id) ->
  (already_adopted (GetTrackerStatus old) = true -> honest h -> seen handed h) ->
  wp al (createSuccessor true old (TrackerName key) key) h (fun h' e => e = None -> honest h' -> seen handed h').
Proof.
  intros Ho Hid Ha. unfold createSuccessor. destruct (already_adopted _); [by intros _; apply Ha|].
  cbn [bind call wp]. split; [done|]. intros g.
  eapply (wp_use _ _ _ _ (fun h' _ => True)).
  - destruct g as [t|e]; [done|]. destruct (IsNotFound e); [|done]. cbn [bind call wp].
    split; [done|]. intros [ce|]; [by destruct (IsAlreadyExists ce)|done].
  - intros h1 [e|] Hp1 _; [done|].
    assert (h `prefix_of` h1) as Hp by (etrans; [apply prefix_last|exact Hp1]).
    eapply wp_use.
    { apply (retry_wp _ _ (fun h' _ => returned h' old /\ (honest h' -> id_of old = old_id))
        (fun h' _ e => (returned h' old /\ (honest h' -> id_of old = old_id)) /\
                       (e = None -> honest h' -> seen handed h'))).
      - intros h2 [] [Ho2 Hid2].
        eapply wp_post; [apply wp_extends; by apply adopt_attempt_keeps|]. intros h3 [[] e] [Hp3 Ha3].
        split; [|done]. split; [by eapply returned_prefix|]. intros Hh. by eapply Hid2, honest_prefix.
      - by intros h2 [] e [? _].
      - split; [by eapply returned_prefix|]. intros Hh. by eapply Hid, honest_prefix. }
    by intros h2 [[] e] _ [_ ?].
Qed.

Lemma flag_attempt_keeps h :
  (honest h -> seen handed h) ->
  wp al (flag_attempt true (Key_Namespace key) (TrackerName key) tt) h (fun h' _ => honest h' -> seen handed h').
Proof.
  intros Ha. unfold flag_attempt. cbn [bind call wp]. split; [done|]. intros r.
  set (h1 := h ++ _). assert (h `prefix_of` h1) as Hp1 by apply prefix_last.
  assert (honest h1 -> seen handed h1) as Ha1.
  { intros Hh. eapply seen_prefix; [exact Hp1|]. by eapply Ha, honest_prefix. }
  destruct r as [current|e]; [|done].
  destruct (PromotedTo (GetTrackerStatus current)) as [p|] eqn:Ep; [|done].
  destruct (Adopted p) eqn:Eadopted; [done|].
  cbn [bind call wp]. split.
  - intros Hh. left. exists current. eexists. split; [apply read_returned|].
    split; [by eapply read_id|]. split; [reflexivity|]. split; [done|]. rewrite Ep. cbn. eauto.
  - intros r Hh. eapply seen_prefix; [apply prefix_last|]. by eapply Ha1, honest_prefix, Hh; apply prefix_last.
Qed.

Lemma promoteIfNeeded_keeps h : wp al (promoteIfNeeded true key) h (fun _ _ => True).
Proof.
  unfold promoteIfNeeded. cbv zeta. eapply wp_use.
  { apply (retry_wp _ _ (fun _ _ => True) (fun h' _ e => True)); [|done..].
    intros h' [] _. eapply wp_post; [apply fence_attempt_keeps|]. by intros ? []. }
  intros h1 [[] [e|]] _ _; [by destruct (IsNotFound e)|].
  cbn [bind call wp]. split; [done|]. intros [old|e]; [|done].
  eapply wp_use; [apply createSuccessor_keeps|].
  - apply read_returned.
  - apply read_id.
  - intros H Hh. apply handed_read; [by eapply read_id|done].
  - intros h2 [e|] _ Ha; [done|]. specialize (Ha eq_refl).
    eapply wp_use; [|by intros h3 [[] e] _ _].
    apply (retry_wp _ _ (fun h' _ => honest h' -> seen handed h') (fun h' _ _ => honest h' -> seen handed h'));
      [|done|done].
    intros h3 [] H3. eapply wp_post; [by apply flag_attempt_keeps|]. by intros h4 [[] e].
Qed.

Lemma retire_keeps h : wp al (retire key) h (fun _ _ => True).
Proof.
  unfold retire. cbn [bind call wp]. split; [done|]. intros [t|e]; [|done].
  destruct (IsFenced (GetTrackerStatus t)) eqn:Ef; [|done]. unfold finishPromotion. cbv zeta.
  destruct (PromotedTo (GetTrackerStatus t)) as [p|] eqn:Ep; [|done].
  set (h1 := h ++ _).
  assert (forall h', h1 `prefix_of` h' -> returned h' t) as Hr.
  { intros h' Hp. eapply returned_prefix; [exact Hp|]. apply read_returned. }
  assert (forall h', h1 `prefix_of` h' -> honest h' -> id_of t = old_id) as Hid.
  { intros h' Hp Hh. eapply read_id, honest_prefix, Hh. exact Hp. }
  clearbody h1. cbn [bind call wp]. split; [done|]. intros [s|e].
  - destruct (Adopted p) eqn:Ead; cbn [negb]; [|done]. unfold release_finalizer.
    destruct (ContainsFinalizer _ _); cbn [bind call wp].
    + split.
      * intros Hh. exists t. split; [apply Hr, prefix_last|]. split; [by eapply Hid, Hh; apply prefix_last|].
        split; [|done]. unfold already_adopted. by rewrite Ep.
      * intros [stored|e]; cbn [bind call wp]; [|done]. split; [|by intros ?].
        intros Hh. pose proof (honest_last _ _ Hh) as Hs. cbn in Hs. cbn. rewrite Hs.
        unfold drop_tracker_finalizer, RemoveFinalizer. rewrite id_of_finalizers.
        eapply Hid, Hh. etrans; apply prefix_last.
    + split; [|by intros ?]. intros Hh. by eapply Hid, Hh; apply prefix_last.
  - destruct (IsNotFound e); [|done]. cbn [bind call wp]. split; [|by intros ?].
    intros Hh. left. exists t. eexists. split; [apply Hr, prefix_last|].
    split; [by eapply Hid, Hh; apply prefix_last|]. split; [reflexivity|]. split; [done|].
    by rewrite Ep.
Qed.

Lemma takes_part_keeps p : takes_part key p -> wp al p [] (fun _ _ => True).
Proof. intros [->| ->]; apply wp_bind; eapply wp_post; [apply promoteIfNeeded_keeps|done|apply retire_keeps|done]. Qed.

End Participants.

(** ** What they keep true of the store *)

Section Together.
Variable key : TargetKey.
Variable origin : SharedResourceStatus.
Local Abbreviation old_id := (Handover.old_id key).
Local Abbreviation new_id := (Handover.new_id key).
Local Abbreviation al := (Handover.policy_ key).
Local Abbreviation took_over := (Handover.took_over key origin).

(** A version of the old tracker: the bookkeeping is the one there was at the start, and it says
    that it handed over, or lets go of its finalizer, only if the successor took over. *)
Definition old_version (s : store) (t : Tracker) : Prop :=
  same_book origin (GetTrackerStatus t) /\
  (already_adopted (GetTrackerStatus t) = true -> took_over s) /\
  (holds t = false -> took_over s).

Definition store_ok (s : store) : Prop :=
  wf s /\ (forall t, t ∈ past s -> id_of t = old_id -> old_version s t) /\
  (live s !! old_id = None -> took_over s).

(** What a thread knows: what it was given exists, the server talks of what it was asked about, and
    the successor took over if it saw so. *)
Definition knows (s : store) (h : list (event ctlE)) : Prop :=
  (forall t, returned h t -> t ∈ past s) /\ honest h /\ (seen (handed key) h -> took_over s).

Lemma took_over_grows s s' : grows s s' -> took_over s -> took_over s'.
Proof. intros Hg (t & Ht & ?). exists t. split; [by apply Hg|done]. Qed.

Lemma knows_grows s s' h : grows s s' -> knows s h -> knows s' h.
Proof.
  intros Hg (Hr & Hh & Ht). split; [intros t ?; by apply Hg, Hr|]. split; [done|].
  intros H. by eapply took_over_grows, Ht.
Qed.

Lemma old_version_grows s s' t : grows s s' -> old_version s t -> old_version s' t.
Proof. intros Hg (Hb & Ha & Hf). split; [done|]. split; intros H; eapply took_over_grows; eauto. Qed.

(** A store that grows by a version of another object, or by a version of the old tracker that is in
    order, stays in order. *)
Lemma store_ok_commit s t :
  store_ok s -> unused s (id_of t) (version_of t) -> (id_of t = old_id -> old_version s t) -> store_ok (commit t s).
Proof.
  intros (Hw & Hp & Hl) Hu Ho. split; [by apply commit_wf|]. split.
  - intros t' [->|Ht]%elem_of_cons Hid; eapply old_version_grows; try apply grows_commit; auto.
  - cbn. rewrite lookup_insert_None. intros [Hn _]. eapply took_over_grows; [apply grows_commit|]. by apply Hl.
Qed.

Lemma store_ok_forget s id : store_ok s -> (id = old_id -> took_over s) -> store_ok (forget id s).
Proof.
  intros (Hw & Hp & Hl) Ho. split; [by apply forget_wf|]. split; [done|]. cbn. rewrite lookup_delete_None.
  intros [E|?]; [by apply Ho|by apply Hl].
Qed.

Lemma store_ok_deleted s s' id : store_ok s -> deleted id s s' -> store_ok s' /\ grows s s'.
Proof.
  intros Hs (cur & Hcur & H). pose proof Hs as (Hw & Hp & Hl). destruct Hw as [Hlive _].
  destruct (Hlive _ _ Hcur) as [Hpast Hid]. case_bool_decide as Ef.
  - subst s'. split; [|by intros t]. apply store_ok_forget; [done|]. intros ->.
    apply (Hp _ Hpast Hid). unfold holds, ContainsFinalizer. rewrite Ef. by rewrite bool_decide_false; [|apply not_elem_of_nil].
  - destruct H as [[_ ->]|(rv & z & Hu & ->)]; [by split; [|apply grows_refl]|]. split; [|apply grows_commit].
    apply store_ok_commit; [done| |].
    + by rewrite id_of_version, version_of_version, id_of_deletion, Hid.
    + rewrite id_of_version, id_of_deletion. intros E. destruct (Hp _ Hpast E) as (Hb & Ha & Hf).
      split; [by rewrite status_version, status_set_meta|]. rewrite status_version, status_set_meta. split; [done|].
      intros H. apply Hf. revert H. unfold holds. by destruct cur.
Qed.

(** The version a write was based on is the current one. *)
Lemma current_version s cur t0 :
  wf s -> live s !! id_of t0 = Some cur -> t0 ∈ past s -> version_of cur = version_of t0 -> cur = t0.
Proof. intros [Hl Hv] Hc Ht Hver. destruct (Hl _ _ Hc) as [? ?]. by apply Hv. Qed.

Lemma fence_moves_adopted h from st :
  fence_moves key h from (PromotedTo st) -> already_adopted st = true -> seen (handed key) h.
Proof.
  unfold fence_moves, already_adopted. destruct from as [p|], (PromotedTo st) as [p'|]; try done.
  - by intros (_ & _ & _ & ?).
  - intros [-> _] H. done.
Qed.

(** A write of the old tracker's fence. *)
Lemma writes_old_ok s s' h t t' :
  store_ok s -> knows s h -> writes_old key h t -> status_updated t t' s s' ->
  store_ok s' /\ grows s s' /\ id_of t' = old_id /\
  exists t0, live s !! old_id = Some t0 /\ live s' !! old_id = Some t' /\ holds t' = holds t0 /\
    fence_moves key h (PromotedTo (GetTrackerStatus t0)) (PromotedTo (GetTrackerStatus t')).
Proof.
  intros Hs (Hret & Hh & Hseen) (t0 & st & Hr & Hid & -> & Hbook & Hmove) (cur & rv & Hcur & Hver & Hu & -> & ->).
  rewrite id_of_status in Hcur, Hu. unfold version_of at 2 in Hver. rewrite meta_set_status in Hver.
  pose proof Hs as (Hw & Hp & Hl).
  pose proof (current_version _ _ _ Hw Hcur (Hret _ Hr) Hver) as ->.
  rewrite status_set_status.
  assert (id_of (with_version rv (set_tracker_status st t0)) = old_id) as Hid' by by autorewrite with trackers.
  destruct (Hp _ (Hret _ Hr) Hid) as (Hb0 & Ha0 & Hf0).
  assert (holds (with_version rv (set_tracker_status st t0)) = holds t0) as Hholds.
  { unfold holds, ContainsFinalizer. by autorewrite with trackers. }
  split; [apply store_ok_commit; [done|by autorewrite with trackers in *|]|].
  - intros _. split; [autorewrite with trackers; unfold same_book in *; naive_solver congruence|].
    autorewrite with trackers. split; [intros Had; eapply Hseen, fence_moves_adopted; done|]. by rewrite Hholds.
  - split; [apply grows_commit|]. split; [done|]. exists t0. rewrite <- Hid. split; [done|].
    split; [|split; [done|by autorewrite with trackers]].
    cbn. rewrite Hid'. rewrite Hid. by rewrite lookup_insert_eq.
Qed.

(** A write of the successor gives it what there was at the start. *)
Lemma writes_new_absorbs s h t : store_ok s -> knows s h -> writes_new key h t -> absorbs origin (GetTrackerStatus t).
Proof.
  intros (_ & Hp & _) (Hret & _ & _) (_ & now & cst & old & Hr & Hold & ->).
  destruct (Hp _ (Hret _ Hr) Hold) as ((Hc & Hcr & Hpr) & _).
  unfold absorbs, adoptStatus, setTrackerCond. cbn.
  rewrite Hc, Hcr, Hpr. split; [intros r; apply adopt_records_has|]. split; [intros ->; apply orb_true_r|].
  by destruct (CreatorPatchRef cst).
Qed.

(** It takes over. *)
Lemma writes_new_ok s s' h t t' :
  store_ok s -> knows s h -> writes_new key h t -> status_updated t t' s s' ->
  store_ok s' /\ grows s s' /\ took_over s' /\ id_of t' = new_id /\ live s' !! old_id = live s !! old_id.
Proof.
  intros Hs Hk Hn (cur & rv & Hcur & Hver & Hu & -> & ->). pose proof (writes_new_absorbs _ _ _ Hs Hk Hn) as Habs.
  destruct Hn as (Hid & _). pose proof Hs as (Hw & _ & _). destruct Hw as [Hlive _]. destruct (Hlive _ _ Hcur) as [_ Hidc].
  set (t' := with_version rv (set_tracker_status (GetTrackerStatus t) cur)).
  assert (id_of t' = new_id) as Hid' by (unfold t'; autorewrite with trackers; congruence).
  split; [apply store_ok_commit; [done| |]|split; [apply grows_commit|split; [|split; [done|]]]].
  - unfold t'. autorewrite with trackers. by rewrite Hidc.
  - rewrite Hid'. intros [=].
  - exists t'. split; [left|]. split; [done|]. unfold t'. by autorewrite with trackers.
  - cbn. rewrite Hid'. by rewrite lookup_insert_ne.
Qed.

(** An update of the old tracker: its finalizer is released by one that handed over. *)
Lemma retires_ok s s' h t0 t' :
  store_ok s -> knows s h -> returned h t0 -> id_of t0 = old_id -> already_adopted (GetTrackerStatus t0) = true ->
  updated (drop_tracker_finalizer t0) t' s s' ->
  store_ok s' /\ grows s s' /\ took_over s /\ id_of t' = old_id /\ live s !! old_id = Some t0 /\
  (live s' !! old_id = None \/ live s' !! old_id = Some t' /\ holds t' = false).
Proof.
  intros Hs (Hret & Hh & Hseen) Hr Hid Had (cur & rv & Hcur & Hver & Hu & -> & ->).
  unfold drop_tracker_finalizer, RemoveFinalizer in *.
  assert (version_of (set_tracker_meta (with_finalizers (filter (fun x => x <> TrackerFinalizer) (Finalizers (tracker_meta t0)))
    (tracker_meta t0)) t0) = version_of t0) as Ev by by destruct t0.
  rewrite Ev in Hver. rewrite id_of_finalizers, Hid in *. rewrite meta_set_meta. cbn [Finalizers with_finalizers].
  pose proof Hs as (Hw & Hp & Hl).
  rewrite <- Hid in Hcur. pose proof (current_version _ _ _ Hw Hcur (Hret _ Hr) Hver) as ->. rewrite Hid in Hcur.
  destruct (Hp _ (Hret _ Hr) Hid) as (Hb0 & Ha0 & Hf0). specialize (Ha0 Had).
  set (t' := with_version rv _).
  assert (id_of t' = old_id) as Hid' by (unfold t'; by autorewrite with trackers).
  assert (holds t' = false) as Hholds.
  { unfold holds, ContainsFinalizer, t'. autorewrite with trackers. cbn. apply bool_decide_eq_false.
    intros [H _]%list_elem_of_filter. done. }
  assert (store_ok (commit t' s)) as Hok.
  { apply store_ok_commit; [done| |].
    - unfold t'. autorewrite with trackers. by rewrite Hid.
    - intros _. split; [unfold t'; by autorewrite with trackers|]. by split. }
  assert (grows s (commit t' s)) as Hg by apply grows_commit.
  destruct (_ && _).
  - split; [apply store_ok_forget; [done|intros _; by eapply took_over_grows]|]. split; [done|]. split; [done|].
    split; [done|]. split; [done|]. left. cbn. by rewrite lookup_delete_eq.
  - split; [done|]. split; [done|]. split; [done|]. split; [done|]. split; [done|]. right. split; [|done].
    cbn. rewrite Hid'. by rewrite lookup_insert_eq.
Qed.

(** An answer is about what was asked. *)
Lemma answers_about s R (c : ctlE R) r s' : wf s -> answers R s c r s' -> about_it (mkEvent R c r).
Proof.
  intros [Hl _]. destruct c; try done; cbn.
  - destruct r; [|done]. by intros (_ & ? & _).
  - destruct r; [|done]. intros (cur & rv & Hc & _ & _ & -> & _). destruct (Hl _ _ Hc) as [_ <-].
    by autorewrite with trackers.
  - destruct r; [|done]. intros (cur & rv & Hc & _ & _ & -> & _). destruct (Hl _ _ Hc) as [_ <-].
    by autorewrite with trackers.
Qed.

(** What an answered call adds to what a thread knows. *)
Lemma knows_event s s' h R (c : ctlE R) r :
  knows s h -> grows s s' -> about_it (mkEvent R c r) ->
  (forall t, tracker_returned (mkEvent R c r) = Some t -> t ∈ past s') ->
  (handed key (mkEvent R c r) = true -> took_over s') -> knows s' (h ++ [mkEvent R c r]).
Proof.
  intros Hk Hg Ha Ht Ho. destruct (knows_grows _ _ _ Hg Hk) as (Hr & Hh & Hs). split; [|split].
  - intros t (e & [He| ->%list_elem_of_singleton]%elem_of_app & E); [apply Hr; by exists e|by apply Ht].
  - unfold honest. by rewrite Forall_app, Forall_singleton.
  - intros (e & [He| ->%list_elem_of_singleton]%elem_of_app & E); [apply Hs; by exists e|by apply Ho].
Qed.

(** A status update, whether or not its reply arrives. *)
Lemma status_call_ok s s' h t t' :
  store_ok s -> knows s h -> participant key h _ (UpdateTrackerStatus t) -> status_updated t t' s s' ->
  store_ok s' /\ grows s s' /\ t' ∈ past s' /\ (id_of t = new_id -> took_over s').
Proof.
  intros Hs Hk [Ho|Hn] Hu.
  - destruct (writes_old_ok _ _ _ _ _ Hs Hk Ho Hu) as (? & ? & Hid & _).
    destruct Hu as (cur & rv & Hc & _ & _ & -> & ->). split; [done|]. split; [done|]. split; [left|].
    destruct Ho as (t0 & st & _ & Hid0 & -> & _). rewrite id_of_status, Hid0. intros [=].
  - destruct (writes_new_ok _ _ _ _ _ Hs Hk Hn Hu) as (? & ? & ? & ? & _).
    destruct Hu as (cur & rv & Hc & _ & _ & -> & ->). split; [done|]. split; [done|]. by split; [left|].
Qed.

Lemma update_call_ok s s' h t t' :
  store_ok s -> knows s h -> participant key h _ (UpdateTracker t) -> updated t t' s s' ->
  store_ok s' /\ grows s s' /\ t' ∈ past s'.
Proof.
  intros Hs Hk (t0 & Hr & Hid & Had & ->) Hu.
  destruct (retires_ok _ _ _ _ _ Hs Hk Hr Hid Had Hu) as (? & ? & _). split; [done|]. split; [done|].
  destruct Hu as (cur & rv & Hc & _ & _ & -> & ->). destruct (_ && _); left.
Qed.

Lemma create_call_ok s s' t : store_ok s -> id_of t = new_id -> created t s s' -> store_ok s' /\ grows s s'.
Proof.
  intros Hs Hid (Hn & rv & Hu & ->). split; [|apply grows_commit]. apply store_ok_commit; [done| |].
  - by autorewrite with trackers.
  - autorewrite with trackers. rewrite Hid. intros [=].
Qed.

Lemma call_ok s h R (c : ctlE R) r s' :
  store_ok s -> knows s h -> al h R c -> answers R s c r s' ->
  store_ok s' /\ knows s' (h ++ [mkEvent R c r]) /\ forall h', knows s h' -> knows s' h'.
Proof.
  intros Hs Hk Hal Ha. pose proof (proj1 Hs) as Hw. pose proof (answers_about _ _ _ _ _ Hw Ha) as Hab.
  specialize (Hal (proj1 (proj2 Hk))).
  enough (store_ok s' /\ grows s s' /\ (forall t, tracker_returned (mkEvent R c r) = Some t -> t ∈ past s') /\
    (handed key (mkEvent R c r) = true -> took_over s')) as (H1 & H2 & H3 & H4).
  { split; [done|]. split; [by eapply knows_event|]. intros h'. by apply knows_grows. }
  destruct c as [| | |uncached ? ? ?| | | | | | | | | | | | |]; try done; cbn in Ha, Hal.
  - destruct Ha as [-> Hr]. split; [done|]. split; [apply grows_refl|]. cbn. destruct r as [t|e]; [|done].
    destruct Hr as [Hid Hr].
    assert (t ∈ past s) as Hin by (destruct uncached; [by apply (proj1 Hw) in Hr as []|done]).
    split; [by intros ? [= <-]|]. intros [E%bool_decide_eq_true Had]%andb_prop.
    destruct (proj1 (proj2 Hs) _ Hin E) as (_ & Hto & _). auto.
  - destruct Ha as [[_ ->]|Hc]; [by split; [|split; [apply grows_refl|]]|].
    destruct (create_call_ok _ _ _ Hs Hal Hc). done.
  - cbn. destruct r as [t'|e].
    + destruct (update_call_ok _ _ _ _ _ Hs Hk Hal Ha) as (? & ? & ?). split; [done|]. split; [done|].
      split; [by intros ? [= <-]|done].
    + destruct Ha as [->|[t' Ha]]; [by split; [|split; [apply grows_refl|]]|].
      by destruct (update_call_ok _ _ _ _ _ Hs Hk Hal Ha) as (? & ? & ?).
  - cbn. destruct r as [t'|e]; cbn.
    + destruct (status_call_ok _ _ _ _ _ Hs Hk Hal Ha) as (? & ? & ? & Hn). split; [done|]. split; [done|].
      split; [by intros ? [= <-]|]. rewrite andb_true_r. intros E%bool_decide_eq_true. by apply Hn.
    + rewrite andb_false_r. destruct Ha as [->|[t' Ha]]; [by split; [|split; [apply grows_refl|]]|].
      by destruct (status_call_ok _ _ _ _ _ Hs Hk Hal Ha) as (? & ? & ?).
  - destruct Ha as [[_ ->]|Hd]; [by split; [|split; [apply grows_refl|]]|].
    by destruct (store_ok_deleted _ _ _ Hs Hd).
  - subst s'. by split; [|split; [apply grows_refl|]].
Qed.

Lemma environment_ok s s' :
  store_ok s -> environment key s s' -> store_ok s' /\ forall h, knows s h -> knows s' h.
Proof.
  intros Hs He. enough (store_ok s' /\ grows s s') as [? ?] by (split; [done|]; intros h; by apply knows_grows).
  destruct He as [t Hid Hu|id Hid|s' Hd].
  - split; [|apply grows_commit]. by apply store_ok_commit.
  - split; [|by intros t]. by apply store_ok_forget.
  - by eapply store_ok_deleted.
Qed.

Lemma participants_sound :
  sound_policy (anyone answers) (environment key) (takes_part key) al store_ok (anyone knows).
Proof.
  split.
  - apply takes_part_keeps.
  - intros i s _. split; [by intros t (e & ?%elem_of_nil & _)|]. split; [by constructor|].
    by intros (e & ?%elem_of_nil & _).
  - intros i s h R c r s' Hs Hk Hal Ha. destruct (call_ok _ _ _ _ _ _ Hs Hk Hal Ha) as (? & ? & Hkeep).
    split; [done|]. split; [done|]. intros j h' _. apply Hkeep.
  - intros s s' Hs He. destruct (environment_ok _ _ Hs He) as [? Hkeep]. split; [done|]. intros j h'. apply Hkeep.
Qed.

(** ** Refinement *)

Lemma stage_live s s' : live s' !! old_id = live s !! old_id -> stage_of key s' = stage_of key s.
Proof. unfold stage_of. by intros ->. Qed.

Lemma models_keep s s' a :
  models key origin s a -> grows s s' -> stage_of key s' = stage_of key s -> models key origin s' a.
Proof. intros [Hst Hr] Hg E. split; [congruence|]. intros H. eapply took_over_grows; eauto. Qed.

(** Standing still is following a step that changes nothing the protocol speaks of. *)
Lemma stutter s s' a :
  models key origin s a -> grows s s' -> stage_of key s' = stage_of key s ->
  exists a', rtc move a a' /\ models key origin s' a'.
Proof. intros Hm Hg E. exists a. split; [done|]. by eapply models_keep. Qed.

Lemma deleted_stage s s' : wf s -> deleted old_id s s' -> stage_of key s' = stage_of key s.
Proof.
  intros [Hl _] (cur & Hcur & H). destruct (Hl _ _ Hcur) as [_ Hid]. unfold stage_of. rewrite Hcur.
  case_bool_decide as Ef.
  - subst s'. cbn. rewrite lookup_delete_eq. unfold holds, ContainsFinalizer. rewrite Ef.
    by rewrite bool_decide_false; [|apply not_elem_of_nil].
  - destruct H as [[_ ->]|(rv & z & Hu & ->)]; [by rewrite Hcur|].
    set (t' := with_version rv _). assert (id_of t' = old_id) as Hid' by (unfold t'; by autorewrite with trackers).
    cbn. rewrite Hid', lookup_insert_eq. unfold t'. rewrite status_version, status_set_meta.
    replace (holds (with_version _ _)) with (holds cur) by by destruct cur. done.
Qed.

(** What is at hand when a move needs the successor to have taken over. *)
Lemma receive a : rtc move a (mkHandover (at_stage a) true).
Proof. destruct a as [st r]. eapply rtc_once, move_receive. Qed.

(** A write of the fence is a move. *)
Lemma fence_follows s s' h t t' a :
  store_ok s -> knows s h -> writes_old key h t -> status_updated t t' s s' -> models key origin s a ->
  exists a', rtc move a a' /\ models key origin s' a'.
Proof.
  intros Hs Hk Ho Hu [Hst Hr].
  destruct (writes_old_ok _ _ _ _ _ Hs Hk Ho Hu) as (_ & Hg & Hid & t0 & Hl0 & Hl' & Hh & Hm).
  destruct a as [st r]. cbn in Hst. unfold models, stage_of in *. rewrite Hl0 in Hst. rewrite Hl', Hh.
  destruct (holds t0); cbn [negb] in *; [|eexists; split; [done|]; split; [done|]; intros H; eapply took_over_grows; eauto].
  destruct (PromotedTo (GetTrackerStatus t0)) as [p|], (PromotedTo (GetTrackerStatus t')) as [p'|]; cbn in Hm; try done.
  - destruct Hm as (Hp & Hp' & _ & Hseen). rewrite Hp in Hst. rewrite Hp'. subst st. eexists. split.
    + eapply rtc_l; [apply move_receive|]. eapply rtc_once, move_flag.
    + split; [done|]. intros _. eapply took_over_grows; [done|]. by apply Hk.
  - exists (mkHandover Open r). split; [|split; [done|intros H; eapply took_over_grows; eauto]].
    eapply rtc_once, move_unfence. destruct (Adopted p); subst st; auto.
  - exists (mkHandover Fenced r). rewrite (proj1 Hm). subst st.
    split; [eapply rtc_once, move_fence|]. split; [done|]. intros H. eapply took_over_grows; eauto.
Qed.

(** Releasing the finalizer is retiring. *)
Lemma retire_follows s s' h t t' a :
  store_ok s -> knows s h -> participant key h _ (UpdateTracker t) -> updated t t' s s' -> models key origin s a ->
  exists a', rtc move a a' /\ models key origin s' a'.
Proof.
  intros Hs Hk (t0 & Hret & Hid & Had & ->) Hu [Hst Hr].
  destruct (retires_ok _ _ _ _ _ Hs Hk Hret Hid Had Hu) as (_ & Hg & Hto & _ & Hl0 & Hl').
  assert (stage_of key s' = Retired) as E.
  { unfold stage_of. destruct Hl' as [->|[-> Hh]]; [done|]. by rewrite Hh. }
  destruct a as [st r]. cbn in Hst. unfold models. rewrite E.
  unfold stage_of in Hst. rewrite Hl0 in Hst. unfold already_adopted in Had.
  destruct (PromotedTo _) as [p|]; [|done]. rewrite Had in Hst.
  exists (mkHandover Retired true). split; [|split; [done|intros _; by eapply took_over_grows]].
  destruct (negb (holds t0)); subst st; [eapply rtc_once, move_receive|].
  eapply rtc_l; [apply move_receive|]. eapply rtc_once, move_retire.
Qed.

Lemma call_follows s h R (c : ctlE R) r s' a :
  store_ok s -> knows s h -> al h R c -> answers R s c r s' -> models key origin s a ->
  exists a', rtc move a a' /\ models key origin s' a'.
Proof.
  intros Hs Hk Hal Ha Hm. pose proof (proj1 Hs) as Hw. specialize (Hal (proj1 (proj2 Hk))).
  assert (exists a', rtc move a a' /\ models key origin s a') as Hstay by by exists a.
  destruct c; try done; cbn in Ha, Hal; try (by subst s').
  - by destruct Ha as [-> _].
  - destruct Ha as [[_ ->]|Hc]; [done|]. destruct (create_call_ok _ _ _ Hs Hal Hc) as [_ Hg].
    apply (stutter s); [done..|]. apply stage_live. destruct Hc as (_ & rv & _ & ->). cbn.
    autorewrite with trackers. rewrite Hal. by rewrite lookup_insert_ne.
  - assert (forall t', updated t t' s s' -> exists a', rtc move a a' /\ models key origin s' a') as H.
    { intros t' Hu. by eapply retire_follows. }
    destruct r as [t'|e]; [by eapply H|]. destruct Ha as [->|[t' ?]]; [done|]. by eapply H.
  - assert (forall t', status_updated t t' s s' -> exists a', rtc move a a' /\ models key origin s' a') as H.
    { intros t' Hu. destruct Hal as [Ho|Hn]; [by eapply fence_follows|].
      destruct (writes_new_ok _ _ _ _ _ Hs Hk Hn Hu) as (_ & Hg & _ & _ & El).
      apply (stutter s); [done..|]. by apply stage_live. }
    destruct r as [t'|e]; [by eapply H|]. destruct Ha as [->|[t' ?]]; [done|]. by eapply H.
  - destruct Ha as [[_ ->]|Hd]; [done|]. apply (stutter s); [done|by eapply store_ok_deleted|].
    rewrite Hal in Hd. by apply deleted_stage.
Qed.

Lemma environment_follows s s' a :
  store_ok s -> environment key s s' -> models key origin s a -> exists a', rtc move a a' /\ models key origin s' a'.
Proof.
  intros Hs He Hm. destruct He as [t Hid Hu|id Hid|s' Hd]; apply (stutter s); try done.
  - apply grows_commit.
  - apply stage_live. by apply same_commit.
  - by intros t.
  - apply stage_live. by apply same_forget.
  - by eapply store_ok_deleted.
  - apply deleted_stage; [apply Hs|done].
Qed.

Lemma participants_simulate : simulates (anyone answers) (environment key) al store_ok (anyone knows) move (models key origin).
Proof. split; [intros *; apply call_follows|intros *; apply environment_follows]. Qed.

Lemma initial_ok s : initial key origin s -> store_ok s /\ models key origin s (mkHandover Open false).
Proof.
  intros (Hw & t & Hl & Hst & Hh & Hf & Hv). unfold IsFenced in Hf. split.
  - split; [done|]. split; [|by rewrite Hl]. intros t' Ht Hid. rewrite (Hv _ Ht Hid). unfold old_version, already_adopted.
    rewrite Hst, Hh. split; [done|]. by destruct (PromotedTo origin).
  - split; [|done]. unfold stage_of. rewrite Hl, Hh, Hst. by destruct (PromotedTo origin).
Qed.

Lemma reachable_follows s w :
  initial key origin s -> reachable (anyone answers) (environment key) (takes_part key) s w ->
  exists a, rtc move (mkHandover Open false) a /\ models key origin w.2 a.
Proof.
  intros Hi Hr. destruct (initial_ok _ Hi) as [Hs Hm].
  by eapply simulation_reachable; [apply participants_sound|apply participants_simulate|..].
Qed.

End Together.

End HandoverSpec.
