(* ===== verification/HandoverGuarantees.v ===== *)
(** What a promotion guarantees under concurrency, how it runs when nothing interferes, and an
    interleaving the protocol does not exclude. *)
From stdpp Require Import strings base list gmap fin_maps relations.
From S2P Require Import Prelude GoStrings Values ApiTypes Scope Render Client ProgramLogic Applier TrackerLogic TrackerSpec Controller Traces Promotion PromotionSpec TrackerReconciler World TrackerStore Handover HandoverSpec.
Local Open Scope string_scope.
Local Open Scope list_scope.
Local Open Scope go_scope.

Module HandoverGuarantees.
Import GoStrings Values ApiTypes Scope Render Client ProgramLogic Applier TrackerLogic TrackerSpec Controller Traces Promotion PromotionSpec TrackerReconciler World TrackerStore Handover HandoverSpec.

(** A pass of the old tracker that finds it fenced, or not at all, is a participant: its reconcile
    begins with the call [retire] begins with, and goes on as [retire] does. *)
Lemma Reconcile_fenced {JP : JsonPatch} impersonation range_order key :
  let first := GetTracker false KindSharedResource (Key_Namespace key) (TrackerName key) in
  exists k k', Reconcile impersonation range_order KindSharedResource (Key_Namespace key) (TrackerName key) = Vis _ first k /\
    retire key = Vis _ first k' /\ (forall e, k (Err e) = k' (Err e)) /\
    (forall t, IsFenced (GetTrackerStatus t) = true -> k (Ok t) = k' (Ok t)).
Proof.
  cbv zeta. unfold Reconcile, retire, call. cbn [bind]. do 2 eexists. split; [reflexivity|]. split; [reflexivity|].
  split; [done|]. intros t Hf. cbn. by rewrite Hf.
Qed.

(** ** Running to the end *)

Section Running.
Variable key : TargetKey.
Variable now : Z.
Local Abbreviation old_id := (Handover.old_id key).
Local Abbreviation new_id := (Handover.new_id key).

Lemma run_retry {S} n (attempt : S -> ctlM (S * option goerror)) a st a' st' :
  run (serve now) (attempt a) st = ((a', None), st') ->
  run (serve now) (retry_on_conflict n attempt a) st = ((a', None), st').
Proof. intros H. destruct n; cbn [retry_on_conflict]; [done|]. by rewrite run_bind, H. Qed.

(** A status update of the current version goes through. *)
Lemma serve_status t st s :
  live s !! id_of t = Some t ->
  let t' := with_version (next_version s) (set_tracker_status st t) in
  serve now _ (UpdateTrackerStatus (set_tracker_status st t)) s = (Ok t', commit t' s).
Proof.
  intros Hl. cbv zeta. cbn. unfold current. rewrite id_of_status, Hl. unfold version_of. rewrite meta_set_status.
  by rewrite String.eqb_refl, status_set_status.
Qed.

Lemma serve_get s uncached k ns n t :
  live s !! ((k, ns, n) : objid) = Some t -> serve now _ (GetTracker uncached k ns n) s = (Ok t, s).
Proof. intros H. unfold serve. by rewrite H. Qed.

Lemma serve_get_none s uncached k ns n :
  live s !! ((k, ns, n) : objid) = None -> serve now _ (GetTracker uncached k ns n) s = (Err (missing (k, ns, n)), s).
Proof. intros H. unfold serve. by rewrite H. Qed.

Lemma run_fence s t :
  live s !! old_id = Some t -> id_of t = old_id -> already_adopted (GetTrackerStatus t) = false ->
  (forall p, PromotedTo (GetTrackerStatus t) = Some p -> Promotion_Name p = TrackerName key) ->
  exists s' t' p, run (serve now) (fence_attempt true (Key_Namespace key) (TrackerName key) tt) s = ((tt, None), s') /\
    live s' !! old_id = Some t' /\ id_of t' = old_id /\ live s' !! new_id = live s !! new_id /\
    PromotedTo (GetTrackerStatus t') = Some p /\ Adopted p = false /\ Promotion_Name p = TrackerName key /\
    same_book (GetTrackerStatus t) (GetTrackerStatus t') /\
    Finalizers (tracker_meta t') = Finalizers (tracker_meta t).
Proof.
  intros Hl Hid Ha Hn. unfold fence_attempt. cbn [bind call run]. rewrite (serve_get _ _ _ _ _ _ Hl). cbn iota beta.
  unfold already_adopted in Ha. destruct (PromotedTo (GetTrackerStatus t)) as [p|] eqn:Ep; cbn [is_some].
  - exists s, t, p. rewrite (Hn _ eq_refl). by rewrite Ep.
  - cbn [bind call run]. change (serve now Z Now s) with (now, s). cbn iota. cbn [run].
    rewrite serve_status by by rewrite Hid.
    set (t' := with_version _ _).
    assert (id_of t' = old_id) as Hid' by (unfold t'; by autorewrite with trackers).
    exists (commit t' s), t', (mkPromotionRef (TrackerName key) false).
    split; [done|]. split; [cbn; by rewrite Hid', lookup_insert_eq|]. split; [done|].
    split; [cbn; rewrite Hid'; by rewrite lookup_insert_ne|].
    unfold t'. autorewrite with trackers. done.
Qed.

(** Adopting into the successor as it is. *)
Lemma run_adopt s old c :
  live s !! new_id = Some c -> id_of c = new_id ->
  exists s' c', run (serve now) (adopt_attempt true old (TrackerName key) tt) s = ((tt, None), s') /\
    live s' !! new_id = Some c' /\ live s' !! old_id = live s !! old_id /\ id_of c' = new_id /\
    absorbs (GetTrackerStatus old) (GetTrackerStatus c').
Proof.
  intros Hl Hid. unfold adopt_attempt. cbn [bind call run]. rewrite (serve_get _ _ _ _ _ _ Hl). cbn iota beta.
  cbn [bind call run]. change (serve now Z Now s) with (now, s). cbn iota zeta. cbn [bind call run].
  rewrite serve_status by by rewrite Hid.
  set (t' := with_version _ _).
  assert (id_of t' = new_id) as Hid' by (unfold t'; by autorewrite with trackers).
  exists (commit t' s), t'. split; [done|]. split; [cbn; by rewrite Hid', lookup_insert_eq|].
  split; [cbn; rewrite Hid'; by rewrite lookup_insert_ne|]. split; [done|].
  unfold t'. autorewrite with trackers. unfold absorbs, adoptStatus, setTrackerCond. cbn.
  split; [intros r; apply adopt_records_has|]. split; [intros ->; apply orb_true_r|].
  by destruct (CreatorPatchRef (GetTrackerStatus c)).
Qed.

Lemma id_of_successor rv : id_of (with_version rv (set_tracker_status empty_status (successor_for (TrackerName key) key))) = new_id.
Proof. by autorewrite with trackers. Qed.

Lemma run_create s old :
  (forall c, live s !! new_id = Some c -> id_of c = new_id) -> already_adopted (GetTrackerStatus old) = false ->
  exists s' c', run (serve now) (createSuccessor true old (TrackerName key) key) s = (None, s') /\
    live s' !! new_id = Some c' /\ live s' !! old_id = live s !! old_id /\ id_of c' = new_id /\
    absorbs (GetTrackerStatus old) (GetTrackerStatus c').
Proof.
  intros Hc Ha. unfold createSuccessor. rewrite Ha. cbn [bind call run].
  destruct (live s !! new_id) as [c|] eqn:El.
  - rewrite (serve_get _ _ _ _ _ _ El). cbn iota beta. rewrite run_bind. cbn [run].
    destruct (run_adopt s old c El (Hc _ eq_refl)) as (s' & c' & Hrun & ? & ? & ? & ?).
    exists s', c'. rewrite run_bind, (run_retry _ _ _ _ _ _ Hrun). done.
  - rewrite (serve_get_none _ _ _ _ _ El). cbn iota beta. rewrite run_bind.
    change (IsNotFound (missing _)) with true. cbn [bind call run].
    unfold serve at 1. change (id_of (successor_for (TrackerName key) key)) with new_id. rewrite El.
    set (c0 := with_version _ _). assert (id_of c0 = new_id) as Hid0 by apply id_of_successor. clearbody c0.
    set (s1 := commit c0 s). cbn iota. cbn [run].
    assert (live s1 !! new_id = Some c0) as Hl1 by (unfold s1; cbn; by rewrite Hid0, lookup_insert_eq).
    destruct (run_adopt s1 old c0 Hl1 Hid0) as (s' & c' & Hrun & ? & Hold & ? & ?).
    exists s', c'. rewrite run_bind, (run_retry _ _ _ _ _ _ Hrun). split; [done|]. split; [done|].
    split; [|done]. rewrite Hold. unfold s1. cbn. rewrite Hid0. by rewrite lookup_insert_ne.
Qed.

Lemma run_flag s t p :
  live s !! old_id = Some t -> id_of t = old_id -> PromotedTo (GetTrackerStatus t) = Some p -> Adopted p = false ->
  exists s' t', run (serve now) (flag_attempt true (Key_Namespace key) (TrackerName key) tt) s = ((tt, None), s') /\
    live s' !! old_id = Some t' /\ id_of t' = old_id /\ live s' !! new_id = live s !! new_id /\
    PromotedTo (GetTrackerStatus t') = Some (mkPromotionRef (Promotion_Name p) true) /\
    Finalizers (tracker_meta t') = Finalizers (tracker_meta t).
Proof.
  intros Hl Hid Hp Ha. unfold flag_attempt. cbn [bind call run]. rewrite (serve_get _ _ _ _ _ _ Hl). cbn iota beta. rewrite Hp, Ha.
  cbn [bind call run]. rewrite serve_status by by rewrite Hid.
  set (t' := with_version _ _).
  assert (id_of t' = old_id) as Hid' by (unfold t'; by autorewrite with trackers).
  exists (commit t' s), t'. split; [done|]. split; [cbn; by rewrite Hid', lookup_insert_eq|]. split; [done|].
  split; [cbn; rewrite Hid'; by rewrite lookup_insert_ne|]. unfold t'. by autorewrite with trackers.
Qed.

Lemma run_promote s t :
  (forall id x, live s !! id = Some x -> id_of x = id) -> live s !! old_id = Some t ->
  already_adopted (GetTrackerStatus t) = false ->
  (forall p, PromotedTo (GetTrackerStatus t) = Some p -> Promotion_Name p = TrackerName key) ->
  exists s' t' c, run (serve now) (promoteIfNeeded true key) s = (None, s') /\
    live s' !! old_id = Some t' /\ id_of t' = old_id /\ PromotedTo (GetTrackerStatus t') = Some (mkPromotionRef (TrackerName key) true) /\
    Finalizers (tracker_meta t') = Finalizers (tracker_meta t) /\
    live s' !! new_id = Some c /\ absorbs (GetTrackerStatus t) (GetTrackerStatus c).
Proof.
  intros Hw Hl Ha Hn. unfold promoteIfNeeded. cbv zeta.
  destruct (run_fence s t Hl (Hw _ _ Hl) Ha Hn) as (s1 & t1 & p & R1 & L1 & I1 & N1 & P1 & A1 & E1 & B1 & F1).
  rewrite run_bind, (run_retry _ _ _ _ _ _ R1). cbn [bind call run].
  rewrite (serve_get _ _ _ _ _ _ L1). cbn iota beta.
  destruct (run_create s1 t1) as (s2 & c & R2 & L2 & O2 & I2 & B2).
  { intros c. rewrite N1. apply Hw. }
  { unfold already_adopted. by rewrite P1. }
  rewrite run_bind, R2. rewrite L1 in O2.
  destruct (run_flag s2 t1 p O2 I1 P1 A1) as (s3 & t3 & R3 & L3 & I3 & N3 & P3 & F3).
  exists s3, t3, c. rewrite run_bind, (run_retry _ _ _ _ _ _ R3). cbn [run]. rewrite E1 in P3.
  split; [done|]. split; [done|]. split; [done|]. split; [done|]. split; [congruence|]. split; [congruence|].
  destruct B1 as (B1 & B3 & B4). unfold absorbs in *. by rewrite B1, B3, B4 in B2.
Qed.

Lemma run_retire s t c :
  live s !! old_id = Some t -> id_of t = old_id ->
  PromotedTo (GetTrackerStatus t) = Some (mkPromotionRef (TrackerName key) true) ->
  Finalizers (tracker_meta t) = [TrackerFinalizer] -> live s !! new_id = Some c ->
  exists s', run (serve now) (retire key) s = (done_, s') /\ live s' !! old_id = None /\ live s' !! new_id = Some c.
Proof.
  intros Hl Hid Hp Hf Hc. unfold retire. cbn [bind call run]. rewrite (serve_get _ _ _ _ _ _ Hl). cbn iota beta.
  unfold IsFenced, finishPromotion. rewrite Hp. cbn [Promotion_Name Adopted negb bind call run].
  rewrite (serve_get _ _ _ _ _ _ Hc). cbn iota beta. unfold release_finalizer, ContainsFinalizer. rewrite Hf.
  rewrite bool_decide_true by by left. cbn [bind call run].
  assert (id_of (drop_tracker_finalizer t) = old_id) as Hid1 by by unfold drop_tracker_finalizer, RemoveFinalizer; rewrite id_of_finalizers.
  assert (version_of (drop_tracker_finalizer t) = version_of t) as Hver by by destruct t.
  assert (Finalizers (tracker_meta (drop_tracker_finalizer t)) = []) as Hf1.
  { unfold drop_tracker_finalizer. rewrite meta_set_meta. cbn. by rewrite Hf. }
  unfold serve at 1, current. rewrite Hid1, Hl, Hver, String.eqb_refl, Hf1. cbn iota zeta.
  rewrite (bool_decide_true ([] = [])), andb_true_r by done. set (t' := with_version _ _).
  assert (id_of t' = old_id) as Hid' by (unfold t'; by autorewrite with trackers).
  assert (Finalizers (tracker_meta t') = []) as Hf' by (unfold t'; by autorewrite with trackers).
  clearbody t'. destruct (deleting (tracker_meta t)); cbn [bind call run]; unfold serve; rewrite Hid'; cbn; rewrite Hid'.
  - rewrite lookup_delete_eq. cbn. eexists. split; [reflexivity|]. cbn. rewrite Hid'.
    split; [by rewrite lookup_delete_eq|]. by rewrite lookup_delete_ne, lookup_insert_ne.
  - rewrite lookup_insert_eq. rewrite Hf'. cbn. eexists. split; [reflexivity|]. cbn. rewrite Hid'.
    split; [by rewrite lookup_delete_eq|]. by rewrite lookup_delete_ne, lookup_insert_ne.
Qed.

End Running.

(** ** Properties *)

(** (C6) The handover is safe under concurrency.  Interleave any number of contributors' promotions of
    one target with any number of passes of its fenced tracker, over caches that lag arbitrarily,
    calls that fail, writes whose reply is lost, threads that crash anywhere, and others who write
    or delete the successor and delete the old tracker: what becomes of the store are moves of the
    handover protocol, and in every state reached, an old tracker that is flagged as handed over,
    has let go of its finalizer, or is gone has a successor whose stored status took over the revert
    state of every contributor and the record of who created the target. *)
Theorem promotion_refines_handover (key : TargetKey) (origin : SharedResourceStatus) (s : store) (w : world ctlE store)
    (Hinit : initial key origin s)
    (Hreach : reachable (anyone answers) (environment key) (takes_part key) s w) :
  exists a, rtc move (mkHandover Open false) a /\ stage_of key w.2 = at_stage a /\
    (at_stage a = HandedOver \/ at_stage a = Retired -> took_over key origin w.2).
Proof.
  destruct (reachable_follows _ _ _ _ Hinit Hreach) as (a & Hm & Hst & Hr). exists a. split; [done|]. split; [done|].
  intros Ha. apply Hr. pose proof (moves_safe _ _ Hm I) as Hs. unfold safe in Hs. by destruct Ha as [E|E]; rewrite E in Hs.
Qed.

(** ** At work *)

Definition sample_key : TargetKey := mkTargetKey "v1" "ConfigMap" "team-a" "cm".

Definition sample_old : Tracker := SharedResource (mkTrackerObject
  (mkObjectMeta (TrackerName sample_key) "team-a" "u9" "1" 1 0 None [TrackerFinalizer] ∅)
  (mkTrackerTargetRef "v1" "ConfigMap" "cm" "team-a")
  (sample_status true (Some (mkContributorRef "ResourcePatch" "a" "team-a" "u1")))).

Definition sample_start : store := only sample_old.

Lemma sample_initial : initial sample_key (GetTrackerStatus sample_old) sample_start.
Proof.
  split; [apply only_wf|]. exists sample_old. split; [vm_refl|]. split; [done|]. split; [vm_refl|]. split; [vm_refl|].
  intros t' ->%list_elem_of_singleton _. done.
Qed.

(** One promotion, one pass of the fenced tracker, one call of each at a time. *)
Definition sample_world : world ctlE store :=
  schedule (total (serve 0)) (replicate 12 0 ++ replicate 5 1)%nat
    ([([], as_thread (promoteIfNeeded true sample_key)); ([], as_thread (retire sample_key))], sample_start).

Lemma sample_threads :
  attained (anyone answers) (environment sample_key) (takes_part sample_key) wf sample_start
    ([([], as_thread (promoteIfNeeded true sample_key)); ([], as_thread (retire sample_key))], sample_start).
Proof.
  apply (start_attained _ _ _ _ _ [_]); [by right|]. apply (start_attained _ _ _ _ _ []); [by left|].
  apply attained_start, only_wf.
Qed.

Lemma promotion_refines_handover_witness :
  stage_of sample_key sample_world.2 = Retired /\
  took_over sample_key (GetTrackerStatus sample_old) sample_world.2.
Proof.
  assert (stage_of sample_key sample_world.2 = Retired) as E by vm_refl. split; [exact E|].
  destruct (promotion_refines_handover sample_key (GetTrackerStatus sample_old) sample_start sample_world) as (a & _ & Ha & H).
  - apply sample_initial.
  - apply (schedule_attained _ _ _ (total (serve 0)) wf (total_answers _ _ _ (anyone (serve_sound 0)))), sample_threads.
  - apply H. right. congruence.
Defined.

(** ** What the protocol does not exclude *)

(** The pass of the old tracker runs between the fence and the creation of the successor: it takes the
    missing successor for a crashed promotion and unfences, and the promotion goes on.  Two trackers
    of one target then hold their finalizers and neither is fenced. *)
Lemma two_writers_reachable :
  exists w, reachable (anyone answers) (environment sample_key) (takes_part sample_key) sample_start w /\
    stage_of sample_key w.2 = Open /\
    exists c, live w.2 !! new_id sample_key = Some c /\ holds c = true /\ IsFenced (GetTrackerStatus c) = false.
Proof.
  exists (schedule (total (serve 0)) [0; 0; 0; 1; 1; 1; 0; 0; 0]%nat
    ([([], as_thread (promoteIfNeeded true sample_key)); ([], as_thread (retire sample_key))], sample_start)).
  split; [apply (schedule_attained _ _ _ (total (serve 0)) wf (total_answers _ _ _ (anyone (serve_sound 0)))), sample_threads|]. split; [vm_refl|].
  exists (with_version (next_version (schedule (total (serve 0)) [0; 0; 0; 1; 1; 1; 0; 0]%nat
    ([([], as_thread (promoteIfNeeded true sample_key)); ([], as_thread (retire sample_key))], sample_start)).2)
    (successor_for (TrackerName sample_key) sample_key)).
  split; [vm_refl|]. by split; vm_refl.
Qed.

End HandoverGuarantees.
