(* ===== verification/Scene.v ===== *)
(** A cluster in which one tracker works: the store of trackers, its target object, and an
    environment that stays as it is; and how the parts of a tracker's reconcile run against it. *)
From stdpp Require Import strings base list gmap fin_maps.
From S2P Require Import Prelude GoStrings Values ApiTypes Scope Render Client Applier TrackerLogic Controller.
From S2P Require Import TrackerSpec TrackerTraces TrackerReconciler Traces World TrackerStore HandoverGuarantees.
Local Open Scope string_scope.
Local Open Scope list_scope.
Local Open Scope go_scope.

Module Scene.
Import GoStrings Values ApiTypes Scope Render Client Applier TrackerLogic Controller.
Import TrackerSpec TrackerTraces TrackerReconciler Traces World TrackerStore HandoverGuarantees.

#[export] Instance Condition_eq_dec : EqDecision Condition.
Proof. solve_decision. Defined.
#[export] Instance ContributorStatus_eq_dec : EqDecision ContributorStatus.
Proof. solve_decision. Defined.
#[export] Instance ConflictStatus_eq_dec : EqDecision ConflictStatus.
Proof. solve_decision. Defined.
#[export] Instance PromotionRef_eq_dec : EqDecision PromotionRef.
Proof. solve_decision. Defined.
#[export] Instance SharedResourceStatus_eq_dec : EqDecision SharedResourceStatus.
Proof. solve_decision. Defined.

Abbreviation object := (gmap string value).

(** The target as it is now, and every version of it there was. *)
Record scene := mkScene { sc_store : store; sc_object : option object; sc_objects : list object }.

Definition with_store (st : store) (s : scene) : scene := mkScene st (sc_object s) (sc_objects s).

Section Server.
(** The answer to building a user's client, the contributors a listing finds, and what the server
    makes of a write to the target: an error, or the object it stores. *)
Variable clients : string -> option goerror.
Variable listing : string -> option string -> option string -> list Contributor.
Variable accept : string -> option object -> object -> res goerror object.
Variable merge : string -> option object -> object -> string -> bool -> res goerror object.

Definition stored (r : res goerror object) (s : scene) : res goerror object * scene :=
  match r with
  | Ok o => (Ok o, mkScene (sc_store s) (Some o) (o :: sc_objects s))
  | Err e => (Err e, s)
  end.

Definition target_serve (user : string) (R : Type) (c : targetE R) (s : scene) : R * scene :=
  match c in targetE R return R * scene with
  | GetTarget t => (match sc_object s with Some o => Ok o | None => Err (target_not_found t) end, s)
  | CreateTarget o =>
      match sc_object s with
      | Some _ => (Err (StatusError ReasonAlreadyExists "already exists" (Some [])), s)
      | None => stored (accept user None o) s
      end
  | UpdateTarget o =>
      match sc_object s with
      | Some old => stored (accept user (Some old) o) s
      | None => (Err (NewNotFound "" "" ""), s)
      end
  | ApplyTarget o manager force => stored (merge user (sc_object s) o manager force) s
  end.

(** A status update that changes nothing leaves the object, and its version, as it is. *)
Definition scene_serve (now : Z) (R : Type) (c : ctlE R) (s : scene) : R * scene :=
  match c in ctlE R return R * scene with
  | OnTarget user _ e => target_serve user _ e s
  | DeleteTarget _ t =>
      match sc_object s with
      | Some _ => (None, mkScene (sc_store s) None (sc_objects s))
      | None => (Some (target_not_found t), s)
      end
  | BuildClient user => (clients user, s)
  | ListContributors kind index ns => (Ok (listing kind index ns), s)
  | UpdateTrackerStatus t =>
      match current t (sc_store s) with
      | Err e => (Err e, s)
      | Ok cur =>
          if bool_decide (GetTrackerStatus t = GetTrackerStatus cur) then (Ok cur, s)
          else let '(r, st) := serve now _ (UpdateTrackerStatus t) (sc_store s) in (r, with_store st s)
      end
  | c => let '(r, st) := serve now _ c (sc_store s) in (r, with_store st s)
  end.

Local Abbreviation serves now := (scene_serve now).

Lemma with_store_same s : with_store (sc_store s) s = s.
Proof. by destruct s. Qed.

(** ** Writes to the target run as themselves *)

Lemma run_translate {A} now user (p : prog targetE A) : forall s,
  run (serves now) (translate (OnTarget user) p) s = run (target_serve user) p s.
Proof. induction p as [a|R c k IH]; intros s; cbn; [done|]. destruct (target_serve user R c s). apply IH. Qed.

(** ** The tracker a pass works on

    [ours t s]: what the server has is [t] but for its status, so that a status write goes through. *)
Definition ours (t : Tracker) (s : scene) : Prop :=
  exists cur, live (sc_store s) !! id_of cur = Some cur /\ t = set_tracker_status (GetTrackerStatus t) cur.

Lemma set_status_twice st st' t : set_tracker_status st (set_tracker_status st' t) = set_tracker_status st t.
Proof. by destruct t. Qed.

Lemma ours_status st t s : ours t s -> ours (set_tracker_status st t) s.
Proof.
  intros (cur & Hl & E). exists cur. split; [done|]. by rewrite E, status_set_status, set_status_twice.
Qed.

Lemma ours_object t s o l : ours t s -> ours t (mkScene (sc_store s) o l).
Proof. done. Qed.

(** Versions of the same tracker with some status. *)
Definition alike (t t' : Tracker) : Prop := exists rv st, t' = with_version rv (set_tracker_status st t).

Lemma alike_refl t : alike t t.
Proof. exists (version_of t), (GetTrackerStatus t). by destruct t as [[[] ? ?]|[[] ? ?]]. Qed.

Lemma alike_status st t : alike t (set_tracker_status st t).
Proof. exists (version_of t), st. by destruct t as [[[] ? ?]|[[] ? ?]]. Qed.

Lemma alike_trans t t' t'' : alike t t' -> alike t' t'' -> alike t t''.
Proof. intros (rv & st & ->) (rv' & st' & ->). exists rv', st'. by destruct t. Qed.

Lemma run_patchStatus now t mutate s :
  ours t s ->
  exists t' s', run (serves now) (patchStatus t mutate) s = ((t', None), s') /\
    ours t' s' /\ live (sc_store s') !! id_of t' = Some t' /\ alike t t' /\
    GetTrackerStatus t' = mutate (GetTrackerStatus t) /\
    sc_object s' = sc_object s /\ sc_objects s' = sc_objects s /\ same_but (id_of t) (sc_store s) (sc_store s') /\
    (live (sc_store s) !! id_of t = Some (set_tracker_status (mutate (GetTrackerStatus t)) t) -> s' = s).
Proof.
  intros (cur & Hl & E). unfold patchStatus, backoff_retries. cbn [retry_on_conflict].
  unfold patchStatus_attempt at 1. set (st := mutate (GetTrackerStatus t)). clearbody st.
  assert (current (set_tracker_status st t) (sc_store s) = Ok cur) as Hcur.
  { unfold current. rewrite E. autorewrite with trackers. rewrite Hl. unfold version_of. autorewrite with trackers.
    by rewrite String.eqb_refl. }
  rewrite !run_bind. cbn [bind call run scene_serve]. rewrite Hcur, status_set_status.
  destruct (decide (st = GetTrackerStatus cur)) as [Es|Ns].
  - rewrite bool_decide_true by done. cbn [bind run].
    exists cur, s. assert (ours cur s) as Ho by (exists cur; split; [done|by destruct cur as [[]|[]]]).
    split; [done|]. split; [done|]. split; [done|]. split; [rewrite E; destruct cur as [[m ? ?]|[m ? ?]]; exists (ResourceVersion m), st; rewrite Es; by destruct m|].
    by rewrite Es.
  - rewrite bool_decide_false by done. unfold serve at 1. rewrite Hcur, status_set_status. cbn [bind run].
    set (t' := with_version (next_version (sc_store s)) (set_tracker_status st cur)).
    assert (live (sc_store (with_store (commit t' (sc_store s)) s)) !! id_of t' = Some t') as Hl' by apply lookup_insert_eq.
    exists t', (with_store (commit t' (sc_store s)) s). split; [done|]. split; [exists t'; split; [done|by destruct t' as [[]|[]]]|].
    split; [done|]. split; [exists (next_version (sc_store s)), st; rewrite E; by destruct cur|].
    split; [unfold t'; by autorewrite with trackers|]. split; [done|]. split; [done|].
    split; [replace (id_of t) with (id_of t') by (rewrite E; unfold t'; by autorewrite with trackers); apply same_commit|].
    rewrite E, id_of_status, Hl. intros [= Hc%(f_equal GetTrackerStatus)]. by rewrite status_set_status in Hc.
Qed.

Lemma run_trackerCond now t ty st reason msg s :
  run (serves now) (trackerCond t ty st reason msg) s =
    (set_tracker_status (setTrackerCond now ty st reason msg (GetTrackerStatus t)) t, s).
Proof. by destruct s. Qed.

(** ** Listing *)

Definition selects (self : TrackerRef) (seen : list string) (c : Contributor) : bool :=
  negb (bool_decide (contributor_key c ∈ seen)) &&
  String.eqb (Target_Mode (Target (GetPatchSpec c))) TargetModeSelector &&
  bool_decide (self ∈ SharedResourceRefs (GetPatchStatus c)).

(** The contributors a listing gathers, in the order it meets them. *)
Definition claimants (t : Tracker) : list Contributor :=
  let index := Some (TargetKey_String (key_of t)) in
  let cluster i := if TrackerIsClusterScoped t then listing KindClusterResourcePatch i None else [] in
  let found := listing KindResourcePatch index (own_namespace t) ++ cluster index in
  let bound := filter (fun c => selects (self_ref t) (map contributor_key found) c) in
  found ++ bound (listing KindResourcePatch None (own_namespace t)) ++ bound (cluster None).

Lemma run_listContributors now t s :
  run (serves now) (listContributors t) s =
    (Ok (pair_sorted (map (record_of (GetTrackerStatus t)) (claimants t))), s).
Proof.
  unfold listContributors, listSelectorContributors, list_cluster, claimants, selector_bound.
  cbn [bind call run scene_serve]. set (st := GetTrackerStatus t).
  assert (forall l, map record_key (map (record_of st) l) = map contributor_key l) as Hk.
  { intros l. rewrite map_map. apply map_ext. intros c. apply record_of_key. }
  destruct (TrackerIsClusterScoped t); cbn [bind call run scene_serve].
  all: repeat rewrite <- map_app; by rewrite Hk, <- ?map_app, ?app_nil_r, ?app_assoc.
Qed.

(** Contributors in the order of their records, which does not depend on the status. *)
Definition precedes (c d : Contributor) : bool :=
  contributor_less (recordFor c empty_status) (recordFor d empty_status).

Definition ordered : list Contributor -> list Contributor := sort precedes.

Lemma precedes_records st c d : contributor_less (recordFor c st) (recordFor d st) = precedes c d.
Proof. unfold precedes, recordFor. by destruct (FindContributor st _), (FindContributor st _). Qed.

Lemma pair_sorted_records st cs :
  NoDup (map contributor_key cs) ->
  pair_sorted (map (record_of st) cs) = map (record_of st) (ordered cs).
Proof.
  intros Hnd. unfold pair_sorted. cbv zeta. fold (index_objects (map (record_of st) cs)).
  rewrite map_map. unfold sortContributors. rewrite (sort_map precedes _ (fun c => recordFor c st)) by apply precedes_records.
  assert (forall l, (forall c, c ∈ l -> c ∈ cs) ->
    omap (fun rec => match index_objects (map (record_of st) cs) !! ContributorRef_String (PatchRef rec) with
      | Some obj => Some (mkRecord obj rec) | None => None end) (map (fun c => recordFor c st) l) = map (record_of st) l) as H.
  { induction l as [|c l IH]; intros Hin; [done|]. cbn.
    change (ContributorRef_String (PatchRef (recordFor c st))) with (record_key (record_of st c)).
    destruct (index_objects_complete (map (record_of st) cs) (record_of st c)) as [obj E]; [apply list_elem_of_fmap_2, Hin; left|].
    rewrite E. apply index_objects_sound in E as (r & (d & -> & Hd)%list_elem_of_fmap & Hk & Ho). cbn in Ho. subst obj.
    rewrite !record_of_key in Hk. rewrite IH by (intros; apply Hin; by right). f_equal. unfold record_of. f_equal.
    symmetry. apply (NoDup_map_inj contributor_key cs); [done|apply Hin; left|done|done]. }
  apply H. intros c. by apply elem_of_sort.
Qed.

(** ** Contributors' clients *)

Definition client_of (impersonation : bool) (c : Contributor) : res goerror (ApplierKind * string) :=
  (run (serves 0) (applierFor impersonation c) (mkScene (mkStore ∅ []) None [])).1.

Lemma run_applierFor impersonation now c s :
  run (serves now) (applierFor impersonation c) s = (client_of impersonation c, s).
Proof.
  unfold client_of, applierFor, Factory_For. destruct impersonation; cbn [bind run]; [|by destruct (For _)].
  destruct (identity_of c) as [user|e]; [|done]. destruct (String.eqb user ""); cbn [bind run call]; [by destruct (For _)|].
  cbn [scene_serve]. destruct (clients user) as [e|]; cbn [bind run]; [done|]. by destruct (For _).
Qed.

Lemma client_of_mode impersonation c kind user :
  client_of impersonation c = Ok (kind, user) -> For (Apply_Mode (ApiTypes.Apply (GetPatchSpec c))) = Ok kind.
Proof.
  unfold client_of, applierFor, Factory_For. destruct impersonation; cbn [bind run]; [|destruct (For _); naive_solver].
  destruct (identity_of c) as [u|e]; [|done]. destruct (String.eqb u ""); cbn [bind run call]; [destruct (For _); naive_solver|].
  cbn [scene_serve]. destruct (clients u) as [e|]; cbn [bind run]; [done|]. destruct (For _); naive_solver.
Qed.

End Server.

End Scene.
