(* ===== verification/TrackerSettles.v ===== *)
(** Convergence of the tracker's reconcile: once its passes are quiet they write nothing new, neither to
    the target nor to the tracker's status. *)
From stdpp Require Import strings base list gmap fin_maps.
From S2P Require Import Prelude GoStrings Values ApiTypes Conditions Scope FieldPath FieldPathNotation FieldPathUpdate FieldPathRoundTrip FieldPathPresence RenderSpec.
From S2P Require Import Render Client Applier CsaSpec CsaSettles TrackerLogic TrackerSpec Controller TrackerTraces.
From S2P Require Import ProgramLogic TrackerReconciler TrackerGuarantees TrackerOutcomes Traces TrackerStore Scene.
Local Open Scope string_scope.
Local Open Scope list_scope.
Local Open Scope go_scope.

Module TrackerSettles.
Import GoStrings Values ApiTypes Conditions Scope FieldPath FieldPathNotation FieldPathUpdate FieldPathRoundTrip FieldPathPresence RenderSpec.
Import Render Client Applier CsaSpec CsaSettles TrackerLogic TrackerSpec Controller TrackerTraces.
Import ProgramLogic TrackerReconciler TrackerGuarantees TrackerOutcomes Traces TrackerStore Scene.

(** ** Records *)

Definition own_manager (c : Contributor) : string :=
  FieldManagerFor (ContributorKind c) (Namespace (c_meta c)) (Name (c_meta c)).

(** The record has what the contributor's object says, and a field manager. *)
Record keeps_up (c : Contributor) (r : ContributorStatus) : Prop := {
  ku_ref : PatchRef r = ContributorRefOf c;
  ku_generation : CS_ObservedGeneration r = Generation (c_meta c);
  ku_priority : CS_Priority r = Priority (GetPatchSpec c);
  ku_manager : CS_FieldManager r = "" -> own_manager c = "";
  ku_created : CS_CreationTimestamp r = Some (CreationTimestamp (c_meta c));
}.

Lemma recordFor_keeps_up c st : keeps_up c (recordFor c st).
Proof.
  unfold recordFor. destruct (FindContributor st (ContributorRefOf c)) as [prev|]; split; cbn; try done.
  destruct (String.eqb_spec (CS_FieldManager prev) "") as [E|N]; [done|congruence].
Qed.

Lemma recordFor_found c st r :
  FindContributor st (ContributorRefOf c) = Some r -> keeps_up c r -> recordFor c st = r.
Proof.
  intros Hf [Hr Hg Hp Hm Hc]. unfold recordFor. rewrite Hf. destruct r as [ref g p m s h o v b ts]. cbn in *. subst.
  destruct (String.eqb_spec m "") as [->|N]; [|done]. unfold own_manager in Hm. by rewrite Hm.
Qed.

Lemma with_state_keeps_up c s r : keeps_up c r -> keeps_up c (with_state s r).
Proof. by intros []. Qed.

Lemma applied_keeps_up c r k result : keeps_up c r -> keeps_up c (applied_record r k result).
Proof. by intros []. Qed.

Lemma keeps_up_key c r : keeps_up c r -> record_key (mkRecord c r) = contributor_key c.
Proof. intros [H _ _ _ _]. unfold record_key. cbn. by rewrite H. Qed.

(** Each contributor finds its own record again. *)
Lemma records_found cs rs st :
  (forall c d, c ∈ cs -> d ∈ cs -> SameContributor (ContributorRefOf d) (ContributorRefOf c) = true -> d = c) ->
  NoDup cs -> Contributors st = rs -> Forall2 keeps_up cs rs ->
  Forall2 (fun c r => recordFor c st = r) cs rs.
Proof.
  intros Hsame Hnd <- Hup.
  assert (forall i c r, cs !! i = Some c -> Contributors st !! i = Some r -> recordFor c st = r) as H.
  { intros i c r Hc Hr. apply recordFor_found; [|by eapply Forall2_lookup_lr]. unfold FindContributor.
    revert i Hc Hr Hsame Hnd. induction Hup as [|d q cs' rs' Hd Hup IH]; intros i Hc Hr Hsame Hnd; [done|].
    cbn. rewrite (ku_ref _ _ Hd). apply NoDup_cons in Hnd as [Hn Hnd]. destruct i as [|i].
    - cbn in Hc, Hr. simplify_eq. by rewrite SameContributor_refl.
    - cbn in Hc, Hr. pose proof (list_elem_of_lookup_2 _ _ _ Hc) as Hin.
      destruct (SameContributor (ContributorRefOf d) (ContributorRefOf c)) eqn:E.
      + apply Hsame in E; [|by right|by left]. by subst d.
      + apply (IH i); [done|done| |done]. intros; apply Hsame; [by right|by right|done]. }
  apply Forall2_same_length_lookup. split; [by eapply Forall2_length|]. intros i c r. apply H.
Qed.

(** ** What does not depend on the status

    Whom a contributor loses to, and whether it can write at all, is the same in every pass. *)

Lemma index_of_records ref cs st st' :
  index_of ref (map (record_of st) cs) = index_of ref (map (record_of st') cs).
Proof.
  induction cs as [|c cs IH]; [done|]. cbn. rewrite IH.
  by rewrite !(ku_ref c (recordFor c _)) by apply recordFor_keeps_up.
Qed.

Lemma find_ext {A} (f g : A -> bool) l : (forall x, f x = g x) -> List.find f l = List.find g l.
Proof. intros H. induction l as [|x l IH]; [done|]. cbn. by rewrite H, IH. Qed.

Lemma find_holder_records i mine cs st st' order :
  find_holder i mine (map (record_of st) cs) order = find_holder i mine (map (record_of st') cs) order.
Proof.
  induction order as [|[path claimants] rest IH]; [done|]. cbn. rewrite IH.
  assert (forall idx st, (map (record_of st) cs) !! idx = record_of st <$> cs !! idx) as Hl by (intros; apply list_lookup_fmap).
  destruct (existsb _ _); [|done].
  rewrite (find_ext _ (fun idx => negb (Nat.eqb idx i) && match (map (record_of st') cs) !! idx with
    | Some other => (mine <? CS_Priority (cr_status other))%Z | None => false end)).
  - destruct (List.find _ _) as [idx|]; [|done]. rewrite !Hl. destruct (cs !! idx); [|done]. cbn. by rewrite !record_of_key.
  - intros idx. rewrite !Hl. destruct (cs !! idx) as [c|]; [|done]. cbn.
    by rewrite !(ku_priority c (recordFor c _)) by apply recordFor_keeps_up.
Qed.

Lemma superseded_records c r cs st order :
  keeps_up c r ->
  isSupersededOn (mkRecord c r) (map (record_of st) cs) order =
    isSupersededOn (record_of empty_status c) (map (record_of empty_status) cs) order.
Proof.
  intros Hu. unfold isSupersededOn. cbn [cr_obj cr_status record_of].
  rewrite (ku_ref _ _ Hu), (ku_priority _ _ Hu).
  rewrite (ku_ref c (recordFor c empty_status)), (ku_priority c (recordFor c empty_status)) by apply recordFor_keeps_up.
  rewrite (index_of_records _ cs st empty_status). destruct (negb _); [done|]. destruct (index_of _ _); [|done].
  apply find_holder_records.
Qed.

Lemma renderAll_records {JP : JsonPatch} cs st st' target :
  renderAll (map (record_of st) cs) target = renderAll (map (record_of st') cs) target.
Proof.
  induction cs as [|c cs IH]; [done|]. cbn [map renderAll]. rewrite !record_of_key. cbn [cr_obj record_of].
  destruct (Render _ _); [|done]. by rewrite IH.
Qed.

(** ** Passes *)

(** Every loop visits every path of the map once. *)
Definition fair (ro : ranging) : Prop := forall site m, ro site m ≡ₚ map_to_list m.

(** Some order to compare with. *)
Definition canonical : ranging := fun _ => map_to_list.

Lemma fair_canonical : fair canonical.
Proof. intros site m. reflexivity. Qed.

#[local] Hint Resolve fair_canonical : core.

Section Passes.
Context {JP : JsonPatch}.
Variable impersonation : bool.
Variable clients : string -> option goerror.
Variable listing : string -> option string -> option string -> list Contributor.
Variable accept : string -> option object -> object -> res goerror object.
Variable merge : string -> option object -> object -> string -> bool -> res goerror object.

Local Abbreviation serves now := (scene_serve clients listing accept merge now).
Local Abbreviation serves_target := (target_serve accept merge).

(** The contributors of the pass, none of which is leaving, in order, and what their patches render to. *)
Variable target : RenderTarget.
Variable cs : list Contributor.
Variable rendered : list Contribution.

Local Abbreviation claims := (detectPathConflicts rendered).
Local Abbreviation records st := (map (record_of st) cs).

(** The holder found in a pass that ranges as [ro] says. *)
Definition holder_of (ro : ranging) (c : Contributor) : option string :=
  isSupersededOn (record_of empty_status c) (records empty_status) (ro (Superseding (ContributorRefOf c)) claims).

(** Whether there is one does not depend on the order. *)
Definition superseded (c : Contributor) : bool := is_some (holder_of canonical c).

Definition decides (ro : ranging) (c : Contributor) : Prop := is_some (holder_of ro c) = superseded c.

Lemma fair_decides ro c : fair ro -> decides ro c.
Proof. intros Hf. apply isSupersededOn_perm, Hf. Qed.

(** What becomes of a contributor in the pass: it is passed over, with some state; it loses to the
    holder of a path; or it writes, as some user. *)
Inductive stance :=
| Idle (state : string)
| Beaten (holder : string)
| Writing (kind : ApplierKind) (user : string) (base : option object).

Definition stance_of (ro : ranging) (c : Contributor) : stance :=
  match client_of clients listing accept merge impersonation c with
  | Err _ => Idle ContributorStateConflicted
  | Ok (kind, user) =>
      match holder_of ro c with
      | Some holder => Beaten holder
      | None => match baseFor c with Err _ => Idle ContributorStateConflicted | Ok base => Writing kind user base end
      end
  end.

Definition writes (c : Contributor) : bool :=
  is_ok (client_of clients listing accept merge impersonation c) && negb (superseded c) && is_ok (baseFor c).

Lemma stance_writes ro c :
  decides ro c -> writes c = match stance_of ro c with Writing _ _ _ => true | _ => false end.
Proof.
  unfold decides, writes, stance_of. intros <-. destruct (client_of _ _ _ _ _ _) as [[kind user]|e]; [|done].
  by destruct (holder_of ro c), (baseFor c).
Qed.

(** The conflicts reported after a contributor's turn, and the pass, given its record. *)
Definition reported (ro : ranging) (c : Contributor) (holder : string) (l : list ConflictStatus) : list ConflictStatus :=
  appendConflict l (ro (Reporting (ContributorRefOf c)) claims) (record_of empty_status c) holder.

Definition turned (ro : ranging) (c : Contributor) (r : ContributorStatus) (p : pass) : pass :=
  add_record r
    match stance_of ro c with
    | Beaten holder => conflicted (reported ro c holder (ps_conflicts p)) p
    | _ => p
    end.

Local Abbreviation turn ro st c k r p := (contribute impersonation ro target (records st) claims (mkRecord c r) k p).

(** The contributor is passed over with this record, in every pass. *)
Definition passed_over (c : Contributor) (k : Contribution) (r : ContributorStatus) : Prop :=
  forall ro, decides ro c -> forall now st q s,
    run (serves now) (turn ro st c k r q) s = (Next (turned ro c r q), s).

Lemma reported_by ro l c r h :
  keeps_up c r -> appendConflict l (ro (Reporting (PatchRef r)) claims) (mkRecord c r) h = reported ro c h l.
Proof. intros Hu. unfold reported, appendConflict. by rewrite (ku_ref _ _ Hu), (keeps_up_key _ _ Hu), record_of_key. Qed.

Lemma held_by ro c r st :
  keeps_up c r ->
  isSupersededOn (mkRecord c r) (records st) (ro (Superseding (PatchRef r)) claims) = holder_of ro c.
Proof. intros Hu. rewrite (superseded_records c r cs st _ Hu), (ku_ref _ _ Hu). done. Qed.

Lemma passed_over_idle c k r e :
  client_of clients listing accept merge impersonation c = Err e -> passed_over c k (with_state ContributorStateConflicted r).
Proof.
  intros Ec ro _ now st q s. unfold contribute, turned, stance_of. cbn [cr_obj cr_status]. by rewrite run_bind, run_applierFor, Ec.
Qed.

Lemma passed_over_beaten c k r kind user :
  keeps_up c r -> client_of clients listing accept merge impersonation c = Ok (kind, user) -> superseded c = true ->
  passed_over c k (with_state ContributorStateSuperseded r).
Proof.
  intros Hu Ec Hs ro Hd now st q s. unfold decides in Hd. unfold contribute, turned, stance_of. cbn [cr_obj cr_status].
  rewrite run_bind, run_applierFor, Ec. assert (keeps_up c (with_state ContributorStateSuperseded r)) as Hu' by by apply with_state_keeps_up.
  rewrite (held_by ro c _ st Hu'). rewrite Hs in Hd. destruct (holder_of ro c) as [h|]; [|done].
  by rewrite reported_by by done.
Qed.

Lemma passed_over_baseless c k r kind user e priors :
  keeps_up c r -> client_of clients listing accept merge impersonation c = Ok (kind, user) -> superseded c = false ->
  baseFor c = Err e -> decodePriorValues (PriorValues r) = Ok priors ->
  passed_over c k (with_state ContributorStateConflicted r).
Proof.
  intros Hu Ec Hs Eb Ed ro Hd now st q s. unfold decides in Hd. unfold contribute, turned, stance_of. cbn [cr_obj cr_status].
  rewrite run_bind, run_applierFor, Ec. assert (keeps_up c (with_state ContributorStateConflicted r)) as Hu' by by apply with_state_keeps_up.
  rewrite (held_by ro c _ st Hu'). rewrite Hs in Hd. destruct (holder_of ro c) as [h|]; [done|].
  cbn [PriorValues with_state]. by rewrite Ed, Eb.
Qed.

(** A contributor that does not write is passed over with the same record ever after. *)
Lemma idle_turn ro now st c k r p s p' s' :
  decides ro c -> keeps_up c r -> writes c = false -> run (serves now) (turn ro st c k r p) s = (Next p', s') ->
  exists r', keeps_up c r' /\ p' = turned ro c r' p /\ s' = s /\ passed_over c k r'.
Proof.
  intros Hd Hu Hw. unfold contribute, writes, turned, stance_of in *. cbn [cr_obj cr_status].
  rewrite run_bind, run_applierFor.
  destruct (client_of _ _ _ _ impersonation c) as [[kind user]|e] eqn:Ec.
  2: { intros [= <- <-]. exists (with_state ContributorStateConflicted r). split; [by apply with_state_keeps_up|].
       split; [done|]. split; [done|]. by eapply passed_over_idle. }
  rewrite (held_by ro c r st Hu). unfold decides in Hd.
  destruct (holder_of ro c) as [h|] eqn:Eh; cbn [is_some] in Hd.
  { intros [= <- <-]. rewrite reported_by by done.
    exists (with_state ContributorStateSuperseded r). split; [by apply with_state_keeps_up|]. split; [done|]. split; [done|].
    by eapply passed_over_beaten. }
  rewrite <- Hd in Hw. destruct (baseFor c) as [base|e] eqn:Eb; [done|].
  destruct (decodePriorValues (PriorValues r)) as [priors|e'] eqn:Ed; [|done]. intros [= <- <-].
  exists (with_state ContributorStateConflicted r). split; [by apply with_state_keeps_up|]. split; [done|]. split; [done|].
  by eapply passed_over_baseless.
Qed.

(** *** A contributor that writes *)

Definition client_side (c : Contributor) : Prop := Apply_Mode (ApiTypes.Apply (GetPatchSpec c)) = ApplyModeClientSideApply.

Definition request (c : Contributor) (k : Contribution) (r : ContributorStatus) (priors : gmap string value)
    (base : option object) : Request :=
  apply_request target (mkRecord c r) k
    (match ParsePaths (OwnedPaths r) with Ok ps => ps | Err _ => [] end) priors base.

Definition unfenced (t : Tracker) : Prop := PromotedTo (GetTrackerStatus t) = None.

Definition over (p : pass) (t : Tracker) : pass :=
  mkPass t (ps_records p) (ps_conflicts p) (ps_anyConflict p) (ps_targetExists p).

(** Every version of the target is on record. *)
Definition on_record (s : scene) : Prop := forall o, sc_object s = Some o -> o ∈ sc_objects s.

(** What a successful client-side apply answers with and leaves behind. *)
Lemma run_csa_Apply user req k s result s' :
  Req_Contribution req = Some k ->
  run (serves_target user) (csa_Apply req) s = (Ok result, s') ->
  exists o, Live result = Some o /\ sc_object s' = Some o /\ Res_OwnedPaths result = Paths k /\
    Res_PriorValuesCaptured result = true /\ Res_Conflict result = None /\ sc_store s' = sc_store s /\
    (on_record s -> on_record s') /\ sc_objects s ⊆ sc_objects s'.
Proof.
  intros Hk. unfold csa_Apply. rewrite Hk. cbn [bind call run target_serve].
  destruct (sc_object s) as [live|] eqn:El.
  - unfold csa_update. destruct (plan_update req k live) as [[desired priors]|e]; [|done].
    destruct (equalContent live desired).
    + intros [= <- <-]. exists live. cbn. repeat (split; [done|]). done.
    + cbn [bind call run target_serve]. rewrite El. unfold stored. destruct (accept _ _ _) as [n|e]; [|done].
      intros [= <- <-]. exists n. cbn. repeat (split; [done|]). split; [|set_solver].
      intros _ o. cbn. intros [= ->]. left.
  - change (IsNotFound (target_not_found (Req_Target req))) with true. cbn iota. destruct (negb (AllowCreate req)); [done|].
    unfold csa_create. destruct (match Req_Base req with Some _ => _ | None => _ end) as [content|e]; [|done].
    cbv zeta. cbn [bind call run target_serve]. rewrite El. unfold stored. destruct (accept _ _ _) as [n|e]; [|done].
    intros [= <- <-]. exists n. cbn. repeat (split; [done|]). split; [|set_solver].
    intros _ o. cbn. intros [= ->]. left.
Qed.

Lemma provenance_unfenced creator h st : PromotedTo (provenance_mutation creator h st) = PromotedTo st.
Proof. done. Qed.

Lemma observe_unfenced live t : unfenced t -> unfenced (observe live t).
Proof. unfold observe, unfenced. destruct live; [|done]. by rewrite status_set_status. Qed.

Lemma observe_alike live t : alike t (observe live t).
Proof. unfold observe. destruct live; [apply alike_status|apply alike_refl]. Qed.

Lemma observe_ours live t s : ours t s -> ours (observe live t) s.
Proof. unfold observe. destruct live; [apply ours_status|done]. Qed.

Lemma writing_turn ro now st c k r p s p' s' kind user base :
  stance_of ro c = Writing kind user base -> Apply_Mode (ApiTypes.Apply (GetPatchSpec c)) = ApplyModeClientSideApply ->
  keeps_up c r -> ours (ps_tracker p) s -> unfenced (ps_tracker p) ->
  run (serves now) (turn ro st c k r p) s = (Next p', s') -> ps_targetExists p' = true ->
  exists priors result o tr s1,
    decodePriorValues (PriorValues r) = Ok priors /\
    run (serves_target user) (csa_Apply (request c k r priors base)) s = (Ok result, s1) /\
    Live result = Some o /\
    p' = turned ro c (applied_record r k result) (over p (observe (Some o) tr)) /\
    ours tr s' /\ alike (ps_tracker p) tr /\ unfenced tr /\
    sc_object s' = sc_object s1 /\ sc_objects s' = sc_objects s1 /\
    (Created result = false -> tr = ps_tracker p /\ s' = s1).
Proof.
  intros Hst Hmode Hu Ho Hf. unfold contribute, turned. rewrite Hst. cbn [cr_obj cr_status].
  unfold stance_of in Hst. rewrite run_bind, run_applierFor.
  destruct (client_of _ _ _ _ impersonation c) as [[kd us]|e] eqn:Ec; [|done].
  apply client_of_mode in Ec as Hkd. rewrite Hmode in Hkd. injection Hkd as <-.
  rewrite (held_by ro c r st Hu). destruct (holder_of ro c) as [h|]; [done|].
  destruct (decodePriorValues (PriorValues r)) as [priors|e]; [|done].
  destruct (baseFor c) as [b|e]; [|done]. injection Hst as <- <- <-.
  unfold apply_as. rewrite run_bind, run_translate. fold (request c k r priors b).
  change (Applier.Apply ClientSideApplier) with csa_Apply.
  destruct (run _ (csa_Apply (request c k r priors b)) s) as [[result|e] s1] eqn:Erun.
  2: { destruct (IsNotFound e); [by intros [= <- <-]|]. destruct (_ || _); [done|]. rewrite run_bind, run_trackerCond, run_bind.
       destruct (run _ (writeStatus _ _ _) _) as [[t [?|]] s2]; done. }
  destruct (run_csa_Apply us (request c k r priors b) k s result s1 eq_refl Erun) as (o & Hlive & Hobj & _ & _ & Hc & Hs & _ & _).
  unfold after_apply. rewrite Hc. cbn [cr_status]. rewrite run_bind.
  assert (ours (ps_tracker p) s1) as Ho1 by (unfold ours; by rewrite Hs).
  destruct (Created result && _) eqn:Ecr.
  - unfold recordProvenance. destruct (run_patchStatus clients listing accept merge now (ps_tracker p)
      (provenance_mutation (PatchRef r) match b with Some b => HashObject (VMap b) | None => "" end) s1 Ho1)
      as (t' & s2 & -> & Ho2 & _ & Hal & Hst' & Hob & Hobs & _).
    intros [= <- <-] _. exists priors, result, o, t', s1. rewrite Hlive. repeat (split; [done|]).
    split; [unfold unfenced in *; by rewrite Hst', provenance_unfenced|]. split; [done|]. split; [done|].
    intros Hcr. by rewrite Hcr in Ecr.
  - intros [= <- <-] _. exists priors, result, o, (ps_tracker p), s1. rewrite Hlive. repeat (split; [done|]).
    split; [apply alike_refl|]. done.
Qed.

(** A write to a target that is there, when it succeeds. *)
Lemma writing_turn_ok ro now st c k r p s kind user base priors result s1 :
  stance_of ro c = Writing kind user base -> client_side c -> keeps_up c r ->
  decodePriorValues (PriorValues r) = Ok priors ->
  run (serves_target user) (csa_Apply (request c k r priors base)) s = (Ok result, s1) -> Created result = false ->
  run (serves now) (turn ro st c k r p) s =
    (Next (turned ro c (applied_record r k result) (over p (observe (Live result) (ps_tracker p)))), s1).
Proof.
  intros Hst Hmode Hu Hdec Hcsa Hcr. unfold contribute, turned. rewrite Hst. cbn [cr_obj cr_status].
  unfold stance_of in Hst. rewrite run_bind, run_applierFor.
  destruct (client_of _ _ _ _ impersonation c) as [[kd us]|e] eqn:Ec; [|done].
  apply client_of_mode in Ec as Hkd. rewrite Hmode in Hkd. injection Hkd as <-.
  rewrite (held_by ro c r st Hu). destruct (holder_of ro c) as [h|]; [done|].
  rewrite Hdec. destruct (baseFor c) as [b|e]; [|done]. injection Hst as <- <- <-.
  unfold apply_as. rewrite run_bind, run_translate. fold (request c k r priors b).
  change (Applier.Apply ClientSideApplier) with csa_Apply. rewrite Hcsa.
  destruct (run_csa_Apply _ (request c k r priors b) k s result s1 eq_refl Hcsa) as (o & _ & _ & _ & _ & Hc & _).
  unfold after_apply. by rewrite Hc, Hcr.
Qed.

(** *** What a turn leaves in the records *)

Record applied (k : Contribution) (r : ContributorStatus) : Prop := {
  ap_state : State r = ContributorStateApplied;
  ap_hash : LastAppliedHash r = Hash k;
  ap_paths : OwnedPaths r = PathStrings (Paths k);
  ap_captured : PriorValuesCaptured r = true;
  ap_priors : exists priors, PriorValues r = encodePriorValues priors;
}.

Definition left_by (ck : Contributor * Contribution) (r : ContributorStatus) : Prop :=
  keeps_up ck.1 r /\ if writes ck.1 then applied ck.2 r else passed_over ck.1 ck.2 r.

Lemma applied_record_applied r k result :
  Res_OwnedPaths result = Paths k -> Res_PriorValuesCaptured result = true -> applied k (applied_record r k result).
Proof. intros Hp Hc. unfold applied_record. rewrite Hp, Hc. split; try done. by eexists. Qed.

Local Abbreviation todo_of st todo := (map (fun ck : Contributor * Contribution => (record_of st ck.1, ck.2)) todo).
Local Abbreviation pass_over ro st todo p := (contribute_all impersonation ro target (records st) claims (todo_of st todo) p).

(** The pass after all turns, but for the tracker. *)
Definition turns (ro : ranging) (todo : list (Contributor * Contribution)) (rs : list ContributorStatus) (p : pass) : pass :=
  foldl (fun p ckr => turned ro ckr.1.1 ckr.2 p) p (zip todo rs).

Lemma turned_over ro c r p t : turned ro c r (over p t) = over (turned ro c r p) t.
Proof. unfold turned. by destruct (stance_of ro c). Qed.

Lemma turns_over ro todo : forall rs p t, turns ro todo rs (over p t) = over (turns ro todo rs p) t.
Proof.
  induction todo as [|ck todo IH]; intros [|r rs] p t; try done. unfold turns in *. cbn [zip_with foldl fst snd].
  by rewrite turned_over, IH.
Qed.

Lemma turned_records ro c r p :
  ps_records (turned ro c r p) = ps_records p ++ [r] /\ ps_targetExists (turned ro c r p) = ps_targetExists p /\
  ps_tracker (turned ro c r p) = ps_tracker p.
Proof. unfold turned. by destruct (stance_of ro c). Qed.

Lemma turns_records ro todo : forall rs p, length rs = length todo ->
  ps_records (turns ro todo rs p) = ps_records p ++ rs /\ ps_targetExists (turns ro todo rs p) = ps_targetExists p /\
  ps_tracker (turns ro todo rs p) = ps_tracker p.
Proof.
  induction todo as [|ck todo IH]; intros [|r rs] p Hl; try done; [by rewrite app_nil_r|].
  unfold turns in *. cbn [zip_with foldl fst snd]. destruct (IH rs (turned ro ck.1 r p)) as (-> & -> & ->); [by injection Hl|].
  destruct (turned_records ro ck.1 r p) as (-> & -> & ->). by rewrite <- app_assoc.
Qed.

(** Of two passes with the same records, one reports a conflict if the other does, and the same one where
    at most one path is contested. *)
Lemma turned_alike ro ro' c r p p' :
  decides ro c -> decides ro' c -> ps_anyConflict p = ps_anyConflict p' ->
  ps_anyConflict (turned ro c r p) = ps_anyConflict (turned ro' c r p').
Proof.
  unfold decides, turned, stance_of. intros <- Hd Hp. destruct (client_of _ _ _ _ _ _) as [[kind user]|e]; [|done].
  destruct (holder_of ro c), (holder_of ro' c); try done. by destruct (baseFor c).
Qed.

Lemma turns_alike ro ro' todo : forall rs p p',
  (forall ck, ck ∈ todo -> decides ro ck.1) -> (forall ck, ck ∈ todo -> decides ro' ck.1) ->
  ps_anyConflict p = ps_anyConflict p' -> ps_anyConflict (turns ro todo rs p) = ps_anyConflict (turns ro' todo rs p').
Proof.
  induction todo as [|ck todo IH]; intros [|r rs] p p' Hd Hd' Hp; try done. unfold turns in *. cbn [zip_with foldl fst snd].
  apply IH; [intros; apply Hd; by right|intros; apply Hd'; by right|]. apply turned_alike; [apply Hd; left|apply Hd'; left|done].
Qed.

(** At most one path is contested. *)
Definition one_contested : Prop := size claims <= 1.

Lemma perm_short {A} (l l' : list A) : l ≡ₚ l' -> length l' <= 1 -> l = l'.
Proof.
  intros Hp Hl. destruct l' as [|x [|y l']]; cbn in Hl; [|by apply Permutation_singleton_r in Hp|lia]. by apply Permutation_nil_r in Hp.
Qed.

Lemma fair_alone ro site : one_contested -> fair ro -> ro site claims = map_to_list claims.
Proof. intros H1 Hf. apply perm_short; [apply Hf|]. by rewrite length_map_to_list. Qed.

Lemma turned_alone ro ro' c r p : one_contested -> fair ro -> fair ro' -> turned ro c r p = turned ro' c r p.
Proof. intros H1 Hf Hf'. unfold turned, stance_of, holder_of, reported. by rewrite !fair_alone. Qed.

Lemma turns_alone ro ro' todo : one_contested -> fair ro -> fair ro' -> forall rs p, turns ro todo rs p = turns ro' todo rs p.
Proof.
  intros H1 Hf Hf'. induction todo as [|ck todo IH]; intros [|r rs] p; try done. unfold turns in *. cbn [zip_with foldl fst snd].
  by rewrite (turned_alone ro ro') by done.
Qed.

(** A target found missing stays missing to the end of the pass. *)
Lemma turn_exists ro now st c k r p s p' s' :
  run (serves now) (turn ro st c k r p) s = (Next p', s') -> ps_targetExists p' = true -> ps_targetExists p = true.
Proof.
  unfold contribute. rewrite run_bind, run_applierFor. destruct (client_of _ _ _ _ _ _) as [[kind user]|e]; [|by intros [= <- <-]].
  destruct (isSupersededOn _ _ _); [by intros [= <- <-]|]. destruct (decodePriorValues _); [|done].
  destruct (baseFor _); [|by intros [= <- <-]]. rewrite run_bind. destruct (run _ (apply_as _ _ _) s) as [[result|e] s1].
  - unfold after_apply. destruct (Res_Conflict result); [by intros [= <- <-]|]. rewrite run_bind.
    destruct (run _ _ s1) as [[t [e|]] s2]; [done|by intros [= <- <-]].
  - destruct (IsNotFound e); [by intros [= <- <-]|]. destruct (_ || _); [done|]. rewrite run_bind.
    destruct (run _ (trackerCond _ _ _ _ _) s1) as [t s2]. rewrite run_bind.
    destruct (run _ (writeStatus _ _ _) s2) as [[t' [e'|]] s3]; done.
Qed.

Lemma contribute_all_step ro now st ck todo p s p' s' :
  run (serves now) (pass_over ro st (ck :: todo) p) s = (Next p', s') ->
  exists p1 s1, run (serves now) (turn ro st ck.1 ck.2 (recordFor ck.1 st) p) s = (Next p1, s1) /\
    run (serves now) (pass_over ro st todo p1) s1 = (Next p', s').
Proof.
  cbn [map contribute_all]. rewrite run_bind. unfold record_of.
  destruct (run _ (contribute _ _ _ _ _ _ _ _) s) as [[p1|o] s1]; [|done]. by eexists _, _.
Qed.

Lemma pass_exists ro now st todo : forall p s p' s',
  run (serves now) (pass_over ro st todo p) s = (Next p', s') -> ps_targetExists p' = true -> ps_targetExists p = true.
Proof.
  induction todo as [|ck todo IH]; intros p s p' s'; [by intros [= <- <-]|].
  intros (p1 & s1 & H1 & H2)%contribute_all_step He. eapply turn_exists; [exact H1|]. by eapply IH.
Qed.

(** One turn, whoever's it is. *)
Lemma any_turn ro now st c k r p s p' s' :
  decides ro c -> client_side c -> keeps_up c r -> ours (ps_tracker p) s -> unfenced (ps_tracker p) ->
  run (serves now) (turn ro st c k r p) s = (Next p', s') -> ps_targetExists p' = true ->
  exists r' t', left_by (c, k) r' /\ p' = turned ro c r' (over p t') /\ ours t' s' /\ alike (ps_tracker p) t' /\ unfenced t' /\
    (on_record s -> on_record s') /\ sc_objects s ⊆ sc_objects s' /\
    (is_Some (sc_object s) \/ writes c = true -> is_Some (sc_object s')).
Proof.
  intros Hd Hm Hu Ho Hf Hrun He. pose proof (stance_writes ro c Hd) as Hws. destruct (stance_of ro c) as [state|h|kind user base] eqn:Es.
  1,2: pose proof Hws as Hw;
    destruct (idle_turn ro now st c k r p s p' s' Hd Hu Hw Hrun) as (r' & Hu' & -> & -> & Hidle);
    exists r', (ps_tracker p); unfold left_by; cbn [fst snd]; rewrite Hw;
    (split; [done|]); (split; [by destruct p|]); (split; [done|]); (split; [apply alike_refl|]);
    (split; [done|]); (split; [done|]); (split; [done|]); by intros [?|?].
  destruct (writing_turn ro now st c k r p s p' s' kind user base Es Hm Hu Ho Hf Hrun He)
    as (priors & result & o & tr & s1 & _ & Hcsa & Hlive & -> & Ho' & Hal & Hf' & Hob & Hobs & _).
  destruct (run_csa_Apply user (request c k r priors base) k s result s1 eq_refl Hcsa) as (o' & Hl & Hso & Hp & Hc & _ & _ & Hrec & Hsub).
  assert (o' = o) as -> by congruence.
  exists (applied_record r k result), (observe (Some o) tr). unfold left_by. cbn [fst snd]. rewrite Hws.
  split; [split; [by apply applied_keeps_up|by apply applied_record_applied]|]. split; [done|].
  split; [by apply observe_ours|]. split; [eapply alike_trans; [exact Hal|apply observe_alike]|].
  split; [by apply observe_unfenced|]. unfold on_record in *. rewrite Hob, Hobs, Hso in *.
  split; [done|]. split; [done|]. by eexists.
Qed.

(** All of them. *)
Lemma any_pass ro now st todo : forall p s p' s',
  (forall ck, ck ∈ todo -> decides ro ck.1) -> (forall ck, ck ∈ todo -> client_side ck.1) -> ours (ps_tracker p) s -> unfenced (ps_tracker p) ->
  run (serves now) (pass_over ro st todo p) s = (Next p', s') -> ps_targetExists p' = true ->
  exists rs t', Forall2 left_by todo rs /\ p' = over (turns ro todo rs p) t' /\ ours t' s' /\ alike (ps_tracker p) t' /\ unfenced t' /\
    (on_record s -> on_record s') /\ sc_objects s ⊆ sc_objects s' /\
    (is_Some (sc_object s) \/ existsb (fun ck => writes ck.1) todo = true -> is_Some (sc_object s')).
Proof.
  induction todo as [|ck todo IH]; intros p s p' s' Hd Hm Ho Hf Hrun He.
  { injection Hrun as <- <-. exists [], (ps_tracker p). split; [done|]. split; [by destruct p|]. split; [done|].
    split; [apply alike_refl|]. split; [done|]. split; [done|]. split; [done|]. by intros [?|?]. }
  apply contribute_all_step in Hrun as (p1 & s1 & H1 & H2).
  destruct (any_turn ro now st ck.1 ck.2 (recordFor ck.1 st) p s p1 s1) as (r & t1 & Hr & -> & Ho1 & Ha1 & Hf1 & Hrec1 & Hsub1 & Hobj1);
    [apply Hd; left|apply Hm; left|apply recordFor_keeps_up|done|done|done|by eapply pass_exists|].
  assert (ps_tracker (turned ro ck.1 r (over p t1)) = t1) as Et by (unfold turned; by destruct (stance_of _ _)).
  destruct (IH (turned ro ck.1 r (over p t1)) s1 p' s') as (rs & t' & Hrs & -> & Ho' & Ha' & Hf' & Hrec & Hsub & Hobj);
    rewrite ?Et; [intros; apply Hd; by right|intros; apply Hm; by right|done..|].
  exists (r :: rs), t'. split; [constructor; [by destruct ck|done]|]. split.
  { unfold turns. cbn [zip_with foldl fst snd]. fold (turns ro todo rs (turned ro ck.1 r (over p t1))). fold (turns ro todo rs (turned ro ck.1 r p)).
    rewrite turned_over, turns_over. done. }
  rewrite Et in Ha'. split; [done|]. split; [by eapply alike_trans|]. split; [done|]. split; [auto|]. split; [set_solver|].
  cbn [existsb]. rewrite orb_true_iff. naive_solver.
Qed.

(** *** Passes over recorded contributors

    Every contributor that writes has its claims on record. *)

Definition recorded_in (st : SharedResourceStatus) (ck : Contributor * Contribution) : Prop :=
  writes ck.1 = true -> OwnedPaths (recordFor ck.1 st) = PathStrings (Paths ck.2) /\ PriorValuesCaptured (recordFor ck.1 st) = true.

(** The paths written in a pass. *)
Definition written_paths (todo : list (Contributor * Contribution)) : list Path :=
  concat (map (fun ck => if writes ck.1 then Paths ck.2 else []) todo).

Definition holds (o : object) (ck : Contributor * Contribution) : Prop :=
  writes ck.1 = true -> forall p, p ∈ Paths ck.2 -> settled o (Object ck.2) p.

(** The server stores what it is sent at the paths. *)
Definition accepts (ps : list Path) : Prop :=
  forall user old sent o, accept user old sent = Ok o -> forall p, p ∈ ps -> Get (VMap o) p = Get (VMap sent) p.

(** Of the objects there were, one with the hash of what is about to be written has it already. *)
Definition told_apart (objects : list object) (ck : Contributor * Contribution) : Prop :=
  writes ck.1 = true -> forall live desired, live ∈ objects ->
    write_claims live (Object ck.2) (Paths ck.2) = Ok desired -> equalContent live desired = true ->
    forall p, p ∈ Paths ck.2 -> settled live (Object ck.2) p.

(** The status has the version and the UID of the object. *)
Definition watched (o : object) (st : SharedResourceStatus) : Prop :=
  ObservedResourceVersion st = meta_string "resourceVersion" o /\
  (meta_string "uid" o = "" \/ ObservedTargetUID st = meta_string "uid" o).

Lemma observe_watched o t : watched o (GetTrackerStatus (observe (Some o) t)).
Proof.
  unfold observe, watched. rewrite status_set_status. cbn. split; [done|].
  destruct (String.eqb_spec (meta_string "uid" o) ""); auto.
Qed.

Lemma watched_observe o t : watched o (GetTrackerStatus t) -> observe (Some o) t = t.
Proof.
  intros [Hv Hu]. unfold observe. replace (with_observed _ _ _) with (GetTrackerStatus t); [by destruct t as [[]|[]]|].
  rewrite <- Hv. destruct (GetTrackerStatus t) as [ph cd pr cb cr bh u rv cl cc cf]. unfold with_observed. cbn in *.
  f_equal. destruct (String.eqb_spec (meta_string "uid" o) ""); [done|]. by destruct Hu.
Qed.

(** An update whose previous paths are its claims, with its priors on record. *)
Lemma run_csa_recorded user req k live s result s1 :
  Req_Contribution req = Some k -> Req_PreviousPaths req = Paths k -> Req_PriorValuesCaptured req = true ->
  forallb claim_path (Paths k) = true -> disjoint_paths (Paths k) = true ->
  sc_object s = Some live -> run (serves_target user) (csa_Apply req) s = (Ok result, s1) ->
  exists desired o, write_claims live (Object k) (Paths k) = Ok desired /\
    Created result = false /\ Live result = Some o /\ sc_object s1 = Some o /\ Res_PriorValues result = Req_PriorValues req /\
    (equalContent live desired = true /\ o = live \/ exists user old, accept user old desired = Ok o).
Proof.
  intros Hk Hprev Hcap Hc Hd Hobj. unfold csa_Apply. rewrite Hk. cbn [bind call run target_serve]. rewrite Hobj.
  unfold csa_update, plan_update. rewrite Hcap, Hprev, withdraw_none.
  2: { apply dropped_claimed. intros p Hp. by apply list_elem_of_fmap_2. }
  destruct (write_claims live (Object k) (Paths k)) as [desired|e]; [|done]. cbn [res_bind].
  destruct (equalContent live desired) eqn:Eq.
  - intros [= <- <-]. exists desired, live. cbn. repeat (split; [done|]). by left.
  - cbn [bind call run target_serve]. rewrite Hobj. unfold stored. destruct (accept user (Some live) desired) as [o|e] eqn:Ea; [|done].
    intros [= <- <-]. exists desired, o. cbn. repeat (split; [done|]). right. eauto.
Qed.

Section Recorded.
Variable paths : list Path.
Hypothesis Haccepts : accepts paths.
Hypothesis Hpaths : forallb claim_path paths = true.

Lemma recorded_turn ro now st c k r p s p' s' live :
  decides ro c -> client_side c -> keeps_up c r -> ours (ps_tracker p) s -> unfenced (ps_tracker p) -> writes c = true ->
  OwnedPaths r = PathStrings (Paths k) -> PriorValuesCaptured r = true ->
  disjoint_paths (Paths k) = true -> Paths k ⊆ paths -> on_record s ->
  sc_object s = Some live -> told_apart (sc_objects s') (c, k) ->
  run (serves now) (turn ro st c k r p) s = (Next p', s') -> ps_targetExists p' = true ->
  exists o, sc_object s' = Some o /\ holds o (c, k) /\ watched o (GetTrackerStatus (ps_tracker p')) /\
    forall q, q ∈ paths -> (forall p, p ∈ Paths k -> diverge p q = true) -> Get (VMap o) q = Get (VMap live) q.
Proof.
  intros Hdec Hm Hu Ho Hf Hw Hown Hcap Hd Hin Hrec Hobj Hapart Hrun He.
  assert (forallb claim_path (Paths k) = true) as Hc.
  { apply forallb_forall. intros p0 Hp. rewrite forallb_forall in Hpaths. by apply Hpaths, list_elem_of_In, Hin, list_elem_of_In. }
  pose proof (stance_writes ro c Hdec) as Hws. rewrite Hw in Hws.
  destruct (stance_of ro c) as [?|?|kind user base] eqn:Es; try done.
  destruct (writing_turn ro now st c k r p s p' s' kind user base Es Hm Hu Ho Hf Hrun He)
    as (priors & result & o & tr & s1 & _ & Hcsa & Hlive & -> & _ & _ & _ & Hob & Hobs & _).
  destruct (run_csa_recorded user (request c k r priors base) k live s result s1) as (desired & o' & Hwr & Hcr & Hl & Hs1 & _ & Hcase);
    [done|cbn; by rewrite Hown, ParsePaths_strings|done|done|done|done|done|].
  assert (o' = o) as -> by congruence.
  destruct (run_csa_Apply user (request c k r priors base) k s result s1 eq_refl Hcsa) as (_ & _ & _ & _ & _ & _ & _ & _ & Hsub).
  destruct (write_claims_spec _ _ _ _ Hc Hd Hwr) as [Hset Hframe].
  exists o. split; [by rewrite Hob|]. rewrite Hobs in Hapart.
  split; [|split].
  - intros _ p0 Hp. destruct Hcase as [[Heq ->]|(u & old & Ha)].
    + apply (Hapart Hw live desired); [|done..]. apply Hsub, Hrec, Hobj.
    + destruct (Hset p0 Hp) as (v & Hv & Hv'). exists v, v. split; [done|]. split; [|by apply sameValue_marshal].
      rewrite (Haccepts _ _ _ _ Ha); [done|by apply Hin].
  - unfold turned, over. destruct (stance_of ro c); apply observe_watched.
  - intros q Hq Hall. destruct Hcase as [[_ ->]|(u & old & Ha)]; [done|].
    rewrite (Haccepts _ _ _ _ Ha q Hq). apply Hframe; [|done]. rewrite forallb_forall in Hpaths.
    by apply claim_readable, Hpaths, list_elem_of_In.
Qed.

Lemma written_paths_cons ck todo :
  written_paths (ck :: todo) = (if writes ck.1 then Paths ck.2 else []) ++ written_paths todo.
Proof. done. Qed.

Lemma elem_of_written ck todo p : ck ∈ todo -> writes ck.1 = true -> p ∈ Paths ck.2 -> p ∈ written_paths todo.
Proof.
  induction todo as [|x todo IH]; [by intros ?%elem_of_nil|]. rewrite written_paths_cons, elem_of_app.
  intros [->|H]%elem_of_cons Hw Hp; [left; by rewrite Hw|right; by apply IH].
Qed.

Lemma told_apart_mono l l' ck : l ⊆ l' -> told_apart l' ck -> told_apart l ck.
Proof. intros Hs H Hw live desired Hin. apply H; [done|by apply Hs]. Qed.

Lemma recorded_pass ro now st todo : forall p s p' s' live,
  (forall ck, ck ∈ todo -> decides ro ck.1) -> (forall ck, ck ∈ todo -> client_side ck.1) -> ours (ps_tracker p) s -> unfenced (ps_tracker p) ->
  (forall ck, ck ∈ todo -> recorded_in st ck) ->
  disjoint_paths (written_paths todo) = true -> written_paths todo ⊆ paths -> on_record s -> sc_object s = Some live ->
  run (serves now) (pass_over ro st todo p) s = (Next p', s') -> ps_targetExists p' = true ->
  (forall ck, ck ∈ todo -> told_apart (sc_objects s') ck) ->
  exists o, sc_object s' = Some o /\ (forall ck, ck ∈ todo -> holds o ck) /\
    (watched live (GetTrackerStatus (ps_tracker p)) \/ existsb (fun ck => writes ck.1) todo = true -> watched o (GetTrackerStatus (ps_tracker p'))) /\
    (forall q, q ∈ paths -> (forall p, p ∈ written_paths todo -> diverge p q = true) -> Get (VMap o) q = Get (VMap live) q).
Proof.
  induction todo as [|ck todo IH]; intros p s p' s' live Hdc Hm Ho Hf Hst Hd Hin Hrec Hobj Hrun He Hapart.
  { injection Hrun as <- <-. exists live. split; [done|]. split; [by intros ck ?%elem_of_nil|]. split; [by intros [?|?]|done]. }
  apply contribute_all_step in Hrun as (p1 & s1 & H1 & H2).
  assert (decides ro ck.1) as Hdc1 by (apply Hdc; left). assert (client_side ck.1) as Hm1 by (apply Hm; left).
  assert (forall ck, ck ∈ todo -> decides ro ck.1) as Hdc' by (intros; apply Hdc; by right).
  pose proof (recordFor_keeps_up ck.1 st) as Hu. pose proof (pass_exists _ _ _ _ _ _ _ _ H2 He) as He1.
  destruct (any_turn ro now st ck.1 ck.2 _ p s p1 s1 Hdc1 Hm1 Hu Ho Hf H1 He1) as (r & t1 & Hr & Ep1 & Ho1 & Ha1 & Hf1 & Hrec1 & Hsub1 & _).
  assert (ps_tracker p1 = t1) as Et by (rewrite Ep1; unfold turned; by destruct (stance_of _ _)). rewrite <- Et in *.
  rewrite written_paths_cons in Hd, Hin. destruct (disjoint_app _ _ Hd) as (Hd1 & Hd2 & Hd3).
  assert (forall ck, ck ∈ todo -> client_side ck.1) as Hm' by (intros; apply Hm; by right).
  destruct (any_pass ro now st todo p1 s1 p' s' Hdc' Hm' Ho1 Hf1 H2 He) as (_ & _ & _ & _ & _ & _ & _ & _ & Hsub' & _).
  assert (exists live1, sc_object s1 = Some live1 /\ holds live1 ck /\
    (watched live (GetTrackerStatus (ps_tracker p)) \/ writes ck.1 = true -> watched live1 (GetTrackerStatus (ps_tracker p1))) /\
    (forall q, q ∈ paths -> (forall p, p ∈ (if writes ck.1 then Paths ck.2 else []) -> diverge p q = true) -> Get (VMap live1) q = Get (VMap live) q))
    as (live1 & Hobj1 & Hh1 & Hw1 & Hf1').
  { destruct (writes ck.1) eqn:Hw.
    - destruct (Hst ck ltac:(left) Hw) as [Hown Hcap].
      destruct (recorded_turn ro now st ck.1 ck.2 _ p s p1 s1 live Hdc1 Hm1 Hu Ho Hf Hw Hown Hcap) as (o & Ho' & Hh & Hwt & Hfr);
        [done|set_solver|done|done| |done|done|].
      + eapply told_apart_mono; [exact Hsub'|]. destruct ck. apply Hapart. left.
      + exists o. split; [done|]. split; [by destruct ck|]. by split.
    - destruct (idle_turn ro now st ck.1 ck.2 _ p s p1 s1 Hdc1 Hu Hw H1) as (r' & _ & -> & -> & _).
      exists live. split; [done|]. split; [unfold holds; by rewrite Hw|]. split; [|done].
      intros [H|?]; [|done]. unfold turned. by destruct (stance_of _ _). }
  destruct (IH p1 s1 p' s' live1) as (o & Ho' & Hh & Hwt & Hfr);
    [done|done|done|done|intros; apply Hst; by right|done|intros x Hx; apply Hin, elem_of_app; by right|auto|done|done|done|intros; apply Hapart; by right|].
  exists o. split; [done|]. split; [|split].
  - intros x [->|Hx]%elem_of_cons; [|by apply Hh]. intros Hw q Hq. destruct (Hh1 Hw q Hq) as (v & w & Hv & Hw' & E).
    exists v, w. split; [done|]. split; [|done]. rewrite <- Hw'. rewrite Hw in Hin, Hd3. apply Hfr; [set_solver|].
    intros p0 Hp0. rewrite diverge_sym. by apply Hd3.
  - cbn [existsb]. rewrite orb_true_iff. intros H. apply Hwt. naive_solver.
  - intros q Hq Hall. rewrite Hfr, Hf1'; [done|done| |done|].
    + intros p0 Hp0. apply Hall. apply elem_of_app. by left.
    + intros p0 Hp0. apply Hall. apply elem_of_app. by right.
Qed.

End Recorded.

(** *** Passes over a settled target *)

Definition quiet_for (s : scene) (t : Tracker) (ck : Contributor * Contribution) : Prop :=
  writes ck.1 = true -> exists o, sc_object s = Some o /\ holds o ck /\ watched o (GetTrackerStatus t) /\
    forallb claim_path (Paths ck.2) = true /\ disjoint_paths (Paths ck.2) = true.

Lemma settled_turn ro now st c k r q s :
  decides ro c -> client_side c -> left_by (c, k) r -> quiet_for s (ps_tracker q) (c, k) ->
  run (serves now) (turn ro st c k r q) s = (Next (turned ro c r q), s).
Proof.
  intros Hdc Hm [Hu Hr] Hq. cbn [fst snd] in *. unfold quiet_for, holds in Hq. cbn [fst snd] in Hq.
  pose proof (stance_writes ro c Hdc) as Hws. destruct (writes c) eqn:Hw; [|by apply Hr]. destruct (Hq eq_refl) as (o & Hobj & Hh & Hwt & Hc & Hd).
  specialize (Hh eq_refl). clear Hq. destruct Hr as [Hs Hh' Hown Hcap (priors & Hpri)].
  destruct (stance_of ro c) as [?|?|kind user base] eqn:Es; try done.
  unfold contribute, turned. rewrite Es. cbn [cr_obj cr_status]. unfold stance_of in Es.
  rewrite run_bind, run_applierFor. destruct (client_of _ _ _ _ impersonation c) as [[kd us]|e] eqn:Ec; [|done].
  apply client_of_mode in Ec as Hkd. rewrite Hm in Hkd. injection Hkd as <-.
  rewrite (held_by ro c r st Hu). destruct (holder_of ro c) as [h|]; [done|].
  rewrite Hpri, priors_roundtrip. destruct (baseFor c) as [b|e]; [|done]. injection Es as <- <- <-.
  unfold apply_as. rewrite run_bind, run_translate. fold (request c k r (decoded_map priors) b).
  change (Applier.Apply ClientSideApplier) with csa_Apply.
  assert (run (serves_target us) (csa_Apply (request c k r (decoded_map priors) b)) s =
    (Ok (mkResult false false (Some o) (Paths k) (decoded_map priors) true None), s)) as ->.
  { unfold csa_Apply. cbn [Req_Contribution request apply_request bind call run target_serve]. rewrite Hobj.
    rewrite csa_update_settled; [done|done|done| |done]. apply dropped_claimed. cbn [Req_PreviousPaths request apply_request].
    rewrite Hown, ParsePaths_strings by done. intros p Hp. by apply list_elem_of_fmap_2. }
  unfold after_apply. cbn [Res_Conflict Created andb bind run cr_status Live].
  rewrite watched_observe by done. do 2 f_equal.
  replace (mkPass _ _ _ _ _) with q by (by destruct q). f_equal. destruct r as [ref g p m ss h op pv pc ts]. cbn in *. subst. unfold applied_record. cbn.
  by rewrite encode_decoded.
Qed.

Lemma settled_pass ro now st todo : forall rs q s,
  (forall ck, ck ∈ todo -> decides ro ck.1) -> (forall ck, ck ∈ todo -> client_side ck.1) -> Forall2 left_by todo rs ->
  Forall2 (fun ck r => recordFor ck.1 st = r) todo rs ->
  (forall ck, ck ∈ todo -> quiet_for s (ps_tracker q) ck) ->
  run (serves now) (pass_over ro st todo q) s = (Next (turns ro todo rs q), s).
Proof.
  induction todo as [|ck todo IH]; intros rs q s Hdc Hm Hl Hf Hq; inversion Hl as [|? r ? rs' Hr Hrs]; subst; [done|].
  apply Forall2_cons in Hf as [Hf Hfs]. cbn [map contribute_all]. rewrite run_bind. unfold record_of at 2. rewrite Hf.
  destruct ck as [c k]. cbn [fst snd]. rewrite settled_turn; [|apply (Hdc (c, k)); left|apply (Hm (c, k)); left|done|apply Hq; left].
  unfold turns. cbn [zip_with foldl fst snd]. apply IH; [intros; apply Hdc; by right|intros; apply Hm; by right|done|done|].
  intros x Hx. replace (ps_tracker (turned ro c r q)) with (ps_tracker q) by (unfold turned; by destruct (stance_of _ _)).
  apply Hq. by right.
Qed.

End Passes.

(** ** The end of a pass *)

Section Concluding.
Variable now : Z.

Definition conclusion (found contested : bool) (st : SharedResourceStatus) : SharedResourceStatus :=
  setTrackerCond now "Synced" ConditionTrue "ReconcileSuccess" (text "")
    (if negb found then
       setTrackerCond now "TargetFound" ConditionFalse "TargetMissing"
         (text "the target does not exist and no contributor creates it") (with_phase TrackerPhaseWaiting st)
     else if contested then
       setTrackerCond now "Conflict" ConditionTrue "Conflict" (text "contributors disagree on at least one field")
         (with_phase TrackerPhaseConflicted st)
     else
       setTrackerCond now "Applied" ConditionTrue "Applied" (text "")
         (setTrackerCond now "Conflict" ConditionFalse "NoConflict" (text "")
           (setTrackerCond now "TargetFound" ConditionTrue "Found" (text "") (with_phase TrackerPhaseApplied st)))).

Definition finished_status (p : pass) : SharedResourceStatus :=
  let computed := conclusion (ps_targetExists p) (ps_anyConflict p) (GetTrackerStatus (ps_tracker p)) in
  write_mutation computed (Some (ps_records p)) (ps_conflicts p) computed.


End Concluding.

Lemma setTrackerCond_rest now ty s reason msg st :
  at_rest (SR_Conditions st) (mkCondition ty s 0 None reason msg) -> setTrackerCond now ty s reason msg st = st.
Proof. intros H. unfold setTrackerCond. rewrite H. by destruct st. Qed.

Lemma with_phase_same st : with_phase (Phase st) st = st.
Proof. by destruct st. Qed.

Lemma conditions_set now ty s reason msg st :
  SR_Conditions (setTrackerCond now ty s reason msg st) = SetCondition now (SR_Conditions st) (mkCondition ty s 0 None reason msg).
Proof. done. Qed.

(** Concluded again, a status stays as it is. *)
Lemma conclusion_rests now now' found contested st st' :
  Phase st' = Phase (conclusion now found contested st) ->
  SR_Conditions st' = SR_Conditions (conclusion now found contested st) ->
  conclusion now' found contested st' = st'.
Proof.
  unfold conclusion. intros Hp Hc.
  assert (forall t0 c d l, Cond_Type d <> Cond_Type c -> Cond_LastTransitionTime c = None -> Cond_LastTransitionTime d = None ->
    at_rest l c -> at_rest (SetCondition t0 l d) c) as Hkeep by (intros; by apply set_keeps_rest).
  destruct found, contested; cbn [negb] in *; rewrite !conditions_set in Hc.
  all: match type of Hp with _ = Phase (setTrackerCond _ _ _ _ _ ?x) => change (Phase st' = Phase x) in Hp end.
  all: repeat match type of Hp with _ = Phase (setTrackerCond _ _ _ _ _ ?x) => change (Phase st' = Phase x) in Hp end.
  all: cbn [Phase with_phase] in Hp; rewrite <- Hp, with_phase_same.
  all: repeat (rewrite (setTrackerCond_rest now' _ _ _ _ st'); [|rewrite Hc; repeat (first [by apply set_at_rest|apply Hkeep; [done..|]])]).
  all: done.
Qed.

Lemma write_mutation_self st rs cf :
  Contributors st = rs -> Conflicts st = cf -> ContributorCount st = Z.of_nat (length rs) -> write_mutation st (Some rs) cf st = st.
Proof.
  intros <- <- Hn. destruct st as [ph cd pr cb cr bh u rv cl cc cfs]. unfold write_mutation. cbn in *. subst cc. f_equal.
  - by destruct cb.
  - by destruct cr.
  - by destruct (_ && _).
  - by destruct (String.eqb u "").
  - by destruct (String.eqb rv "").
Qed.

(** The last status write of a pass, made again. *)
Lemma finished_again now now' p q t :
  GetTrackerStatus t = finished_status now p -> ps_tracker q = t ->
  ps_records q = ps_records p -> ps_conflicts q = ps_conflicts p ->
  ps_anyConflict q = ps_anyConflict p -> ps_targetExists q = ps_targetExists p ->
  conclusion now' (ps_targetExists q) (ps_anyConflict q) (GetTrackerStatus t) = GetTrackerStatus t /\
  finished_status now' q = GetTrackerStatus t.
Proof.
  intros Ht Hq Hr Hc Ha He. unfold finished_status at 1. rewrite Hq, Ha, He, Hr, Hc.
  assert (conclusion now' (ps_targetExists p) (ps_anyConflict p) (GetTrackerStatus t) = GetTrackerStatus t) as E.
  { rewrite Ht. unfold finished_status. cbv zeta. eapply conclusion_rests; [done|done]. }
  rewrite !E. split; [done|]. rewrite Ht. by apply write_mutation_self.
Qed.

Lemma finished_fields now p :
  Contributors (finished_status now p) = ps_records p /\
  PromotedTo (finished_status now p) = PromotedTo (GetTrackerStatus (ps_tracker p)).
Proof.
  split; [done|]. unfold finished_status, conclusion. cbv zeta. cbn [PromotedTo write_mutation].
  by destruct (negb _), (ps_anyConflict p).
Qed.

Lemma finished_watched now p o :
  watched o (GetTrackerStatus (ps_tracker p)) -> watched o (finished_status now p).
Proof.
  unfold watched. set (st := GetTrackerStatus (ps_tracker p)).
  assert (ObservedResourceVersion (finished_status now p) = ObservedResourceVersion st /\
    ObservedTargetUID (finished_status now p) = ObservedTargetUID st) as [-> ->]; [|done].
  unfold finished_status. cbv zeta. fold st. set (c := conclusion _ _ _ _).
  assert (ObservedResourceVersion c = ObservedResourceVersion st /\ ObservedTargetUID c = ObservedTargetUID st) as [Hv Hu]
    by (unfold c, conclusion; by destruct (negb _), (ps_anyConflict p)).
  clearbody c. cbn [write_mutation ObservedResourceVersion ObservedTargetUID]. rewrite Hv, Hu. by split; case_match.
Qed.



(** ** Whole reconciles *)

Lemma Forall2_zip_l {A B C} (P : A -> C -> Prop) (l : list A) (k : list B) (r : list C) :
  length k = length l -> (Forall2 (fun x z => P x.1 z) (zip l k) r <-> Forall2 P l r).
Proof.
  revert k r. induction l as [|x l IH]; intros [|y k] r Hlen; try done.
  { split; intros H; inversion H; constructor. }
  apply (f_equal Nat.pred) in Hlen; cbn in Hlen. split; intros H; inversion H as [|? z ? r' H1 H2]; subst; (constructor; [done|]); by apply (IH k r' Hlen).
Qed.

Lemma NoDup_ordered cs : NoDup (map contributor_key cs) -> NoDup (ordered cs).
Proof. intros H. unfold ordered. rewrite sort_perm. by eapply NoDup_fmap_1. Qed.


Section Converging.
Context {JP : JsonPatch}.
Variable impersonation : bool.
Variable clients : string -> option goerror.
Variable listing : string -> option string -> option string -> list Contributor.
Variable accept : string -> option object -> object -> res goerror object.
Variable merge : string -> option object -> object -> string -> bool -> res goerror object.
Variable kind ns name : string.

Local Abbreviation serves now := (scene_serve clients listing accept merge now).
Local Abbreviation reconcile ro := (TrackerReconciler.Reconcile impersonation ro kind ns name).
Local Abbreviation records st cs := (map (record_of st) cs).
Local Abbreviation over_todo ro st t cs ks p :=
  (contribute_all impersonation ro (target_of t) (records st cs) (detectPathConflicts ks)
    (map (fun ck : Contributor * Contribution => (record_of st ck.1, ck.2)) (zip cs ks)) p).

(** A tracker at work: not fenced, not being deleted, holding its finalizer. *)
Definition at_work (t : Tracker) (s : scene) : Prop :=
  live (sc_store s) !! ((kind, ns, name) : objid) = Some t /\ id_of t = (kind, ns, name) /\ unfenced t /\
  deleting (tracker_meta t) = false /\ ContainsFinalizer TrackerFinalizer (tracker_meta t) = true.

(** The contributors that claim the target of [t], in order: there are some, under different names,
    none is leaving, and their patches render. *)
Record claimed_by (t : Tracker) (cs : list Contributor) (ks : list Contribution) : Prop := {
  cb_ordered : ordered (claimants listing t) = cs;
  cb_some : cs <> [];
  cb_keys : NoDup (map contributor_key (claimants listing t));
  cb_same : forall c d, c ∈ cs -> d ∈ cs -> SameContributor (ContributorRefOf d) (ContributorRefOf c) = true -> d = c;
  cb_staying : forall c, c ∈ cs -> deleting (c_meta c) = false;
  cb_rendered : renderAll (records empty_status cs) (target_of t) = Ok ks;
}.

Lemma at_work_ours t s : at_work t s -> ours t s.
Proof. intros (Hl & Hid & _). exists t. rewrite Hid. split; [done|]. by destruct t as [[]|[]]. Qed.

Lemma alike_same t t' : alike t t' ->
  target_of t' = target_of t /\ claimants listing t' = claimants listing t /\ id_of t' = id_of t /\
  deleting (tracker_meta t') = deleting (tracker_meta t) /\
  ContainsFinalizer TrackerFinalizer (tracker_meta t') = ContainsFinalizer TrackerFinalizer (tracker_meta t).
Proof. intros (rv & st & ->). by destruct t. Qed.

Lemma alike_claimed t t' cs ks : alike t t' -> claimed_by t cs ks -> claimed_by t' cs ks.
Proof. intros (Ht & Hc & _)%alike_same [H1 H2 H3 H4 H5 H6]. split; rewrite ?Ht, ?Hc; done. Qed.

Lemma zip_records st cs (ks : list Contribution) :
  zip (records st cs) ks = map (fun ck : Contributor * Contribution => (record_of st ck.1, ck.2)) (zip cs ks).
Proof. revert ks. induction cs as [|c cs IH]; intros [|k ks]; [done..|]. cbn. by rewrite IH. Qed.

Lemma run_conclude now p s :
  run (serves now) (conclude p) s =
    ((set_tracker_status (conclusion now (ps_targetExists p) (ps_anyConflict p) (GetTrackerStatus (ps_tracker p))) (ps_tracker p),
      if ps_targetExists p then 0%Z else 10000%Z), s).
Proof.
  unfold conclude, conclusion. rewrite run_bind. destruct (ps_targetExists p), (ps_anyConflict p); cbn [negb].
  all: repeat (rewrite run_bind, run_trackerCond); cbn [bind run]; rewrite ?run_bind, ?run_trackerCond; cbn [run].
  all: by rewrite !status_set_status, ?set_status_twice.
Qed.

Lemma records_nil st cs : cs <> [] -> Nat.eqb (length (records st cs)) 0 = false.
Proof. by destruct cs. Qed.

Lemma splitReleasing_staying st cs :
  (forall c, c ∈ cs -> deleting (c_meta c) = false) -> splitReleasing (records st cs) = ([], records st cs).
Proof.
  intros H. unfold splitReleasing. induction cs as [|c cs IH]; [done|]. cbn [map].
  rewrite !filter_cons. cbn [cr_obj record_of]. rewrite (H c) by left. cbn [negb].
  destruct (decide _) as [E|_]; [done|]. destruct (decide _) as [_|N]; [|by destruct N].
  injection (IH ltac:(intros; apply H; by right)) as -> ->. done.
Qed.

(** What a reconcile of a tracker at work comes down to. *)
Lemma run_Reconcile ro now t cs ks s :
  at_work t s -> claimed_by t cs ks ->
  run (serves now) (reconcile ro) s =
    (let '(v, s1) := run (serves now) (over_todo ro (GetTrackerStatus t) t cs ks (mkPass t [] [] false true)) s in
     match v with
     | Stop o => (o, s1)
     | Next p =>
         let '((_, e), s2) := run (serves now) (patchStatus
           (set_tracker_status (conclusion now (ps_targetExists p) (ps_anyConflict p) (GetTrackerStatus (ps_tracker p))) (ps_tracker p))
           (write_mutation (conclusion now (ps_targetExists p) (ps_anyConflict p) (GetTrackerStatus (ps_tracker p)))
              (Some (ps_records p)) (ps_conflicts p))) s1 in
         (mkOutcome false (if ps_targetExists p then 0 else 10000)%Z e, s2)
     end).
Proof.
  intros (Hl & Hid & Hf & Hd & Hfin) [<- Hne Hkeys _ Hstay Hr]. set (cs := ordered (claimants listing t)) in *.
  unfold TrackerReconciler.Reconcile. cbn [bind call run scene_serve serve].
  rewrite Hl, with_store_same. cbn iota beta.
  unfold IsFenced. unfold unfenced in Hf. rewrite Hf, Hd, Hfin. cbn [negb bind call run scene_serve serve].
  rewrite with_store_same, run_bind, run_listContributors, pair_sorted_records by done. fold cs.
  rewrite records_nil by done. unfold reconcileContributions. rewrite splitReleasing_staying by done.
  cbn [release_all bind run]. rewrite records_nil by done. cbn [andb bind run].
  unfold contribute_pass. rewrite (renderAll_records cs (GetTrackerStatus t) empty_status), Hr, zip_records, run_bind.
  destruct (run _ (contribute_all _ _ _ _ _ _ _) s) as [[p|o] s1]; [|done].
  rewrite run_bind, run_conclude, run_bind. unfold writeStatus. rewrite status_set_status.
  by destruct (run _ (patchStatus _ _) s1) as [[t' e] s2].
Qed.

Lemma elem_of_todo (cs : list Contributor) (ks : list Contribution) ck : ck ∈ zip cs ks -> ck.1 ∈ cs.
Proof. destruct ck as [c k]. intros H%elem_of_zip_l. done. Qed.

Local Abbreviation turns_of ro t cs ks rs :=
  (turns impersonation clients listing accept merge cs ks ro (zip cs ks) rs (mkPass t [] [] false true)).
Local Abbreviation left_by_of t cs ks := (left_by impersonation clients listing accept merge (target_of t) cs ks).
Local Abbreviation writes_in cs ks := (writes impersonation clients listing accept merge cs ks).
Local Abbreviation quiet_in cs ks := (quiet_for impersonation clients listing accept merge cs ks).

(** What a quiet one leaves behind. *)
Record rested (ro : ranging) (now : Z) (t t' : Tracker) (cs : list Contributor) (ks : list Contribution) (s s1 s' : scene)
    (p : pass) (rs : list ContributorStatus) : Prop := {
  rs_run : run (serves now) (over_todo ro (GetTrackerStatus t) t cs ks (mkPass t [] [] false true)) s = (Next p, s1);
  rs_found : ps_targetExists p = true;
  rs_pass : p = over (turns_of ro t cs ks rs) (ps_tracker p);
  rs_left : Forall2 (left_by_of t cs ks) (zip cs ks) rs;
  rs_work : at_work t' s';
  rs_alike : alike t t';
  rs_status : GetTrackerStatus t' = finished_status now p;
  rs_object : sc_object s' = sc_object s1;
  rs_objects : sc_objects s' = sc_objects s1;
  rs_record : on_record s -> on_record s';
  rs_present : is_Some (sc_object s) \/ existsb (fun ck => writes_in cs ks ck.1) (zip cs ks) = true -> is_Some (sc_object s');
}.

Lemma quiet_reconcile ro now t cs ks s o s' :
  fair ro ->
  at_work t s -> claimed_by t cs ks -> (forall c, c ∈ cs -> client_side c) ->
  run (serves now) (reconcile ro) s = (o, s') -> quiet o ->
  o = done_ /\ exists p s1 t' rs, rested ro now t t' cs ks s s1 s' p rs.
Proof.
  intros Hfair Hw Hcb Hm Hrun Hq. rewrite (run_Reconcile _ _ _ _ _ _ Hw Hcb) in Hrun.
  destruct (run _ (contribute_all _ _ _ _ _ _ _) s) as [[p|o1] s1] eqn:Epass.
  2: { injection Hrun as -> ->. destruct (run_exec (serves now) (over_todo ro (GetTrackerStatus t) t cs ks (mkPass t [] [] false true)) s) as [tr Hex].
       rewrite Epass in Hex. by destruct (wp_exec _ _ _ _ _ _ (contribute_all_loud impersonation ro _ _ _ _ _ []) Hex) as [_ H]. }
  assert (ps_targetExists p = true) as He.
  { destruct (ps_targetExists p) eqn:E; [done|]. destruct (run _ (patchStatus _ _) s1) as [[t' e] s2]. injection Hrun as <- <-.
    by destruct Hq as (_ & _ & ?). }
  assert (forall ck, ck ∈ zip cs ks -> client_side ck.1) as Hm' by (intros ck Hck%elem_of_todo; auto).
  pose proof Hw as (Hl & Hid & Hf & Hd & Hfin). pose proof (at_work_ours _ _ Hw) as Ho.
  destruct (any_pass impersonation clients listing accept merge (target_of t) cs ks ro now (GetTrackerStatus t) (zip cs ks) (mkPass t [] [] false true) s p s1
    (fun ck _ => fair_decides cs ks ro ck.1 Hfair) Hm' Ho Hf Epass He)
    as (rs & t1 & Hleft & Ep & Ho1 & Ha1 & Hf1 & Hrec & _ & Hobj).
  assert (ps_tracker p = t1) as Et by (by rewrite Ep). rewrite Et, He in Hrun.
  destruct (run_patchStatus clients listing accept merge now _ (write_mutation (conclusion now true (ps_anyConflict p) (GetTrackerStatus t1))
    (Some (ps_records p)) (ps_conflicts p)) s1 (ours_status (conclusion now true (ps_anyConflict p) (GetTrackerStatus t1)) _ _ Ho1))
    as (t' & s2 & Hpatch & Ho' & Hl' & Ha' & Hs' & Hob & Hobs & _).
  rewrite Hpatch in Hrun. injection Hrun as <- <-. split; [done|]. exists p, s1, t', rs.
  assert (alike t t') as Hal by (eapply alike_trans; [exact Ha1|]; eapply alike_trans; [apply alike_status|exact Ha']).
  assert (GetTrackerStatus t' = finished_status now p) as Hst.
  { rewrite Hs', status_set_status. unfold finished_status. by rewrite Et, He. }
  destruct (alike_same _ _ Hal) as (_ & _ & Hid' & Hd' & Hfin').
  split; [done|done| |done| |done|done|done|done| |].
  - by rewrite Et.
  - split; [by rewrite <- Hid, <- Hid'|]. split; [congruence|]. split; [|split; congruence].
    unfold unfenced. rewrite Hst. destruct (finished_fields now p) as [_ ->]. by rewrite Et.
  - unfold on_record. rewrite Hob, Hobs. exact Hrec.
  - by rewrite Hob.
Qed.

Local Abbreviation written cs ks := (written_paths impersonation clients listing accept merge cs ks (zip cs ks)).

(** The records a quiet reconcile stored are found again by the next. *)
Lemma rested_records ro now t t' cs ks s s1 s' p rs :
  claimed_by t cs ks -> rested ro now t t' cs ks s s1 s' p rs ->
  ps_records p = rs /\ Forall2 (fun (ck : Contributor * Contribution) r => recordFor ck.1 (GetTrackerStatus t') = r) (zip cs ks) rs.
Proof.
  intros [Ho Hne Hk Hsame Hst Hr] [_ _ Hp Hl _ _ Hs _ _ _ _].
  assert (length ks = length cs) as Hlen by (rewrite (renderAll_length _ _ _ Hr); apply length_map).
  destruct (turns_records impersonation clients listing accept merge cs ks ro (zip cs ks) rs (mkPass t [] [] false true)) as [Er _];
    [symmetry; by eapply Forall2_length|].
  assert (ps_records p = rs) as Hrs by (by rewrite Hp). split; [done|].
  assert (Forall2 keeps_up cs rs) as Hup.
  { apply (Forall2_zip_l keeps_up cs ks rs Hlen). eapply Forall2_impl; [exact Hl|]. by intros ck r [Hu _]. }
  destruct (finished_fields now p) as [Hc _]. rewrite <- Hs, Hrs in Hc.
  pose proof (records_found cs rs (GetTrackerStatus t') Hsame ltac:(rewrite <- Ho; by eapply NoDup_ordered) Hc Hup) as Hf.
  by apply (Forall2_zip_l (fun c r => recordFor c (GetTrackerStatus t') = r) cs ks rs Hlen).
Qed.

Lemma written_part cs ks ck (P : Path -> bool) :
  ck ∈ zip cs ks -> writes_in cs ks ck.1 = true -> forallb P (written cs ks) = true ->
  disjoint_paths (written cs ks) = true -> forallb P (Paths ck.2) = true /\ disjoint_paths (Paths ck.2) = true.
Proof.
  intros Hck Hw. revert Hck. generalize (zip cs ks). intros todo Hck.
  induction todo as [|x todo IH]; [by apply elem_of_nil in Hck|]. rewrite written_paths_cons, forallb_app, andb_true_iff.
  intros [H1 H2] (Hd1 & Hd2 & _)%disjoint_app. apply elem_of_cons in Hck as [->|Hck]; [by rewrite Hw in H1, Hd1|by apply IH].
Qed.

(** After two quiet reconciles the target holds what everybody claims, and the status knows it. *)
Lemma second_settles ro1 ro2 now1 now2 t t1 t2 cs ks s0 s0' s1 s1' s2 p1 p2 rs1 rs2 :
  fair ro2 -> rested ro1 now1 t t1 cs ks s0 s0' s1 p1 rs1 -> rested ro2 now2 t1 t2 cs ks s1 s1' s2 p2 rs2 ->
  claimed_by t cs ks -> (forall c, c ∈ cs -> client_side c) -> on_record s0 ->
  forallb claim_path (written cs ks) = true -> disjoint_paths (written cs ks) = true -> accepts accept (written cs ks) ->
  (forall ck, ck ∈ zip cs ks -> told_apart impersonation clients listing accept merge cs ks (sc_objects s2) ck) ->
  forall ck, ck ∈ zip cs ks -> quiet_in cs ks s2 t2 ck.
Proof.
  intros Hfair R1 [Hrun Hfound _ _ _ _ Hstatus Hobj Hobjs _ _] Hclaimed Hmode Hrec Hpaths Hdisj Haccepts Hapart.
  destruct (rested_records _ _ _ _ _ _ _ _ _ _ _ Hclaimed R1) as [_ Hfound1].
  destruct R1 as [_ _ _ Hleft Hwork1 _ _ _ _ Hrec1 Hpresent]. pose proof Hwork1 as (_ & _ & Hf1 & _).
  assert (forall ck, ck ∈ zip cs ks -> client_side ck.1) as Hm by (intros ck Hck%elem_of_todo; auto).
  assert (forall ck, ck ∈ zip cs ks -> recorded_in impersonation clients listing accept merge cs ks (GetTrackerStatus t1) ck) as Hst1.
  { intros ck [i Hi]%list_elem_of_lookup Hw. destruct (Forall2_lookup_l _ _ _ _ _ Hleft Hi) as (r & Hr & [_ Ha]).
    rewrite Hw in Ha. pose proof (Forall2_lookup_lr _ _ _ _ _ _ Hfound1 Hi Hr) as ->. by destruct Ha. }
  intros ck Hck Hw.
  assert (existsb (fun ck => writes_in cs ks ck.1) (zip cs ks) = true) as Hex.
  { apply existsb_exists. exists ck. split; [by apply list_elem_of_In|done]. }
  destruct (Hpresent (or_intror Hex)) as [live Hlive].
  destruct (recorded_pass impersonation clients listing accept merge (target_of t1) cs ks (written cs ks) Haccepts Hpaths
    ro2 now2 (GetTrackerStatus t1) (zip cs ks) (mkPass t1 [] [] false true) s1 p2 s1' live (fun ck _ => fair_decides cs ks ro2 ck.1 Hfair) Hm (at_work_ours _ _ Hwork1) Hf1 Hst1 Hdisj)
    as (o & Ho & Hh & Hwt & _); [done|by apply Hrec1|done|done|done|intros x Hx; rewrite <- Hobjs; by apply Hapart|].
  exists o. split; [by rewrite Hobj|]. split; [by apply Hh|].
  split; [rewrite Hstatus; by apply finished_watched, Hwt; right|]. by apply written_part with (1 := Hck) (2 := Hw).
Qed.

(** *** A tracker at rest

    Any pass, whatever orders it ranges in, finds these records, this conclusion and this target again. *)

Record resting (cs : list Contributor) (ks : list Contribution) (rs : list ContributorStatus) (t : Tracker) (s : scene) : Prop := {
  rg_work : at_work t s;
  rg_claimed : claimed_by t cs ks;
  rg_left : Forall2 (left_by_of t cs ks) (zip cs ks) rs;
  rg_again : Forall2 (fun (ck : Contributor * Contribution) r => recordFor ck.1 (GetTrackerStatus t) = r) (zip cs ks) rs;
  rg_quiet : forall ck, ck ∈ zip cs ks -> quiet_in cs ks s t ck;
  rg_concluded : forall now, conclusion now true (ps_anyConflict (turns_of canonical t cs ks rs)) (GetTrackerStatus t) = GetTrackerStatus t;
  rg_records : Contributors (GetTrackerStatus t) = rs;
  rg_count : ContributorCount (GetTrackerStatus t) = Z.of_nat (length rs);
  rg_conflicts : one_contested ks -> Conflicts (GetTrackerStatus t) = ps_conflicts (turns_of canonical t cs ks rs);
}.

Lemma turns_of_over ro t t' cs ks rs : turns_of ro t' cs ks rs = over (turns_of ro t cs ks rs) t'.
Proof. by rewrite <- turns_over. Qed.

Lemma turns_of_alike ro ro' t cs ks rs : fair ro -> fair ro' ->
  ps_anyConflict (turns_of ro t cs ks rs) = ps_anyConflict (turns_of ro' t cs ks rs).
Proof. intros H H'. apply turns_alike; [intros; by apply fair_decides..|done]. Qed.

(** After two quiet reconciles a tracker is at rest. *)
Lemma rested_rests ro1 ro2 now1 now2 t t1 t2 cs ks s0 s0' s1 s1' s2 p1 p2 rs1 rs2 :
  fair ro2 -> rested ro1 now1 t t1 cs ks s0 s0' s1 p1 rs1 -> rested ro2 now2 t1 t2 cs ks s1 s1' s2 p2 rs2 ->
  claimed_by t cs ks -> (forall ck, ck ∈ zip cs ks -> quiet_in cs ks s2 t2 ck) -> resting cs ks rs2 t2 s2.
Proof.
  intros Hfair R1 R2 Hclaimed Hquiet. pose proof (alike_claimed _ _ _ _ (rs_alike _ _ _ _ _ _ _ _ _ _ _ R1) Hclaimed) as Hclaimed1.
  destruct (rested_records _ _ _ _ _ _ _ _ _ _ _ Hclaimed1 R2) as [Hrs Hagain].
  destruct R2 as [_ Hfound Hpass Hleft Hwork Halike Hstatus _ _ _ _]. destruct (alike_same _ _ Halike) as (Htgt & _).
  assert (ps_anyConflict p2 = ps_anyConflict (turns_of canonical t2 cs ks rs2)) as Hany.
  { rewrite Hpass, (turns_of_over canonical t1 t2). cbn. by apply turns_of_alike. }
  split; [done|by eapply alike_claimed|by rewrite Htgt|done|done| | | |].
  - intros now. destruct (finished_again now2 now p2 (over p2 t2) t2 Hstatus) as [Hc _]; [done..|].
    cbn in Hc. by rewrite Hfound, Hany in Hc.
  - rewrite Hstatus, <- Hrs. done.
  - rewrite Hstatus, <- Hrs. done.
  - intros H1. rewrite Hstatus. change (Conflicts (finished_status now2 p2)) with (ps_conflicts p2).
    rewrite Hpass, (turns_of_over canonical t1 t2). cbn. by rewrite (turns_alone _ _ _ _ _ _ _ ro2 canonical) by done.
Qed.

Lemma write_mutation_conflicts st cf :
  ContributorCount st = Z.of_nat (length (Contributors st)) ->
  write_mutation st (Some (Contributors st)) cf st = with_conflicts cf st.
Proof.
  intros Hn. rewrite <- (write_mutation_self (with_conflicts cf st) (Contributors st) cf) by done. done.
Qed.

Lemma conclusion_conflicts now found any cf st :
  conclusion now found any (with_conflicts cf st) = with_conflicts cf (conclusion now found any st).
Proof. unfold conclusion. by destruct found, any. Qed.

Lemma same_conflicts st : with_conflicts (Conflicts st) st = st.
Proof. by destruct st. Qed.

(** What a pass may still change of a tracker: which path and holder a conflict names. *)
Definition same_but_conflicts (t t' : Tracker) : Prop :=
  alike t t' /\ exists cf, GetTrackerStatus t' = with_conflicts cf (GetTrackerStatus t).

Lemma same_but_refl t : same_but_conflicts t t.
Proof. split; [apply alike_refl|]. eexists. symmetry. apply same_conflicts. Qed.

Lemma same_but_trans t t' t'' : same_but_conflicts t t' -> same_but_conflicts t' t'' -> same_but_conflicts t t''.
Proof.
  intros [Ha [cf Hc]] [Ha' [cf' Hc']]. split; [by eapply alike_trans|]. exists cf'. by rewrite Hc', Hc.
Qed.

(** One more reconcile of a tracker at rest. *)
Lemma resting_step ro now cs ks rs t s :
  fair ro -> (forall c, c ∈ cs -> client_side c) -> resting cs ks rs t s ->
  exists t' s', run (serves now) (reconcile ro) s = (done_, s') /\ resting cs ks rs t' s' /\ same_but_conflicts t t' /\
    sc_object s' = sc_object s /\ sc_objects s' = sc_objects s /\ (one_contested ks -> s' = s).
Proof.
  intros Hfair Hmode [Hwork Hclaimed Hleft Hagain Hquiet Hconc Hrec Hcount Hconf].
  rewrite (run_Reconcile _ _ _ _ _ _ Hwork Hclaimed).
  rewrite (settled_pass impersonation clients listing accept merge (target_of t) cs ks ro now (GetTrackerStatus t) (zip cs ks) rs);
    [|intros; by apply fair_decides|intros ck Hck%elem_of_todo; auto|done..].
  set (q := turns_of ro t cs ks rs).
  destruct (turns_records impersonation clients listing accept merge cs ks ro (zip cs ks) rs (mkPass t [] [] false true)) as (Er & Ee & Et);
    [symmetry; by eapply Forall2_length|]. fold q in Er, Ee, Et. cbn in Er, Ee, Et.
  rewrite Er, Ee, Et. unfold q. rewrite (turns_of_alike ro canonical) by done. rewrite Hconc. fold q.
  replace (set_tracker_status (GetTrackerStatus t) t) with t by (by destruct t as [[]|[]]).
  assert (write_mutation (GetTrackerStatus t) (Some rs) (ps_conflicts q) (GetTrackerStatus t) =
    with_conflicts (ps_conflicts q) (GetTrackerStatus t)) as Emut.
  { rewrite <- Hrec. apply write_mutation_conflicts. by rewrite Hcount, Hrec. }
  destruct (run_patchStatus clients listing accept merge now t
    (write_mutation (GetTrackerStatus t) (Some rs) (ps_conflicts q)) s (at_work_ours _ _ Hwork))
    as (t' & s' & -> & _ & Hl' & Ha & Hst & Hob & Hobs & _ & Hsame).
  rewrite Emut in Hst, Hsame.
  destruct (alike_same _ _ Ha) as (Htgt & _ & Hid' & Hd' & Hfin'). pose proof Hwork as (Hl & Hid & Hf & Hd & Hfin).
  exists t', s'. split; [done|]. split; [|split; [split; [done|by eexists]|]].
  - split.
    + split; [by rewrite <- Hid, <- Hid'|]. split; [congruence|]. split; [|split; congruence]. unfold unfenced in *. by rewrite Hst.
    + by eapply alike_claimed.
    + by rewrite Htgt.
    + by rewrite Hst.
    + intros ck Hck Hw. destruct (Hquiet ck Hck Hw) as (o & Ho & Hh & Hwt & Hp). exists o. rewrite Hob. split; [done|]. split; [done|].
      split; [by rewrite Hst|done].
    + intros now'. rewrite Hst, conclusion_conflicts, (turns_of_over canonical t t'). cbn. by rewrite Hconc.
    + by rewrite Hst.
    + by rewrite Hst.
    + intros H1. rewrite Hst, (turns_of_over canonical t t'). cbn. unfold q. by rewrite (turns_alone _ _ _ _ _ _ _ ro canonical) by done.
  - split; [done|]. split; [done|]. intros H1. apply Hsame. rewrite Hid, Hl. f_equal.
    unfold q. rewrite (turns_alone _ _ _ _ _ _ _ ro canonical) by done. rewrite <- Hconf, same_conflicts by done. by destruct t as [[]|[]].
Qed.

(** Further reconciles, each at its time and ranging in its own orders. *)
Fixpoint reconciles (later : list (Z * ranging)) (s : scene) : list outcome * scene :=
  match later with
  | [] => ([], s)
  | (now, ro) :: rest =>
      let '(o, s') := run (serves now) (reconcile ro) s in
      let '(os, s'') := reconciles rest s' in (o :: os, s'')
  end.

Lemma resting_stays cs ks rs later : forall t s,
  Forall (fun x => fair x.2) later -> (forall c, c ∈ cs -> client_side c) -> resting cs ks rs t s ->
  exists t', (reconciles later s).1 = map (fun _ => done_) later /\ resting cs ks rs t' (reconciles later s).2 /\
    same_but_conflicts t t' /\ sc_object (reconciles later s).2 = sc_object s /\
    sc_objects (reconciles later s).2 = sc_objects s /\ (one_contested ks -> (reconciles later s).2 = s).
Proof.
  induction later as [|[now ro] later IH]; intros t s Hfair Hmode Hrest.
  { exists t. split; [done|]. split; [done|]. split; [apply same_but_refl|]. done. }
  apply Forall_cons in Hfair as [Hf Hfair]. cbn [reconciles].
  destruct (resting_step ro now cs ks rs t s Hf Hmode Hrest) as (t1 & s1 & -> & Hrest1 & Hs1 & Ho1 & Hos1 & H1).
  destruct (IH t1 s1 Hfair Hmode Hrest1) as (t' & Hd & Hrest' & Hs' & Ho' & Hos' & H').
  destruct (reconciles later s1) as [os s'']. cbn [fst snd map] in *. exists t'.
  split; [by rewrite Hd|]. split; [done|]. split; [by eapply same_but_trans|]. split; [congruence|]. split; [congruence|].
  intros H. by rewrite H', H1.
Qed.

(** (C24) The tracker's reconcile converges.  Against a server that answers faithfully, with contributors
    that apply on the client side and write different paths, and as long as contributors and server
    configuration stay as they are: once two reconciles in a row have ended quietly - no error, nothing
    to wait for - every further one, whatever time it is, ends quietly too, never writes the target, and
    leaves the tracker as it is but, at most, for its list of conflicts.  With at most one contested path
    it writes nothing at all.  (With several, the path and the holder reported for a superseded
    contributor are picked by ranging over a map, which Go does in a new order each time, so that the
    list of conflicts may change from pass to pass.)  Every loop of every pass over that map has an order
    of its own.  Superseded contributors and contributors whose client cannot be built are among the
    contributors allowed; the first of the two reconciles may create the target, withdraw paths that are
    no longer claimed, and start from any status. *)
Theorem tracker_settles (now1 now2 : Z) (ro1 ro2 : ranging) (later : list (Z * ranging))
    (t : Tracker) (cs : list Contributor) (ks : list Contribution) (s0 s1 s2 : scene) (o1 o2 : outcome)
    (Hfair1 : fair ro1) (Hfair2 : fair ro2) (Hfair : Forall (fun x => fair x.2) later)
    (Hwork : at_work t s0) (Hclaimed : claimed_by t cs ks) (Hmode : forall c, c ∈ cs -> client_side c)
    (Hrecord : on_record s0)
    (Hpaths : forallb claim_path (written cs ks) = true) (Hdisj : disjoint_paths (written cs ks) = true)
    (Haccepts : accepts accept (written cs ks))
    (Hapart : forall ck, ck ∈ zip cs ks -> told_apart impersonation clients listing accept merge cs ks (sc_objects s2) ck)
    (Hrun1 : run (serves now1) (reconcile ro1) s0 = (o1, s1)) (Hquiet1 : quiet o1)
    (Hrun2 : run (serves now2) (reconcile ro2) s1 = (o2, s2)) (Hquiet2 : quiet o2) :
  let '(outcomes, s) := reconciles later s2 in
  Forall (fun o => o = done_) outcomes /\ length outcomes = length later /\
  sc_object s = sc_object s2 /\ sc_objects s = sc_objects s2 /\
  (exists t2 t', live (sc_store s2) !! ((kind, ns, name) : objid) = Some t2 /\ live (sc_store s) !! ((kind, ns, name) : objid) = Some t' /\
     same_but_conflicts t2 t') /\
  (one_contested ks -> s = s2).
Proof.
  destruct (quiet_reconcile ro1 now1 t cs ks s0 o1 s1 Hfair1 Hwork Hclaimed Hmode Hrun1 Hquiet1) as (_ & p1 & s0' & t1 & rs1 & R1).
  pose proof (alike_claimed _ _ _ _ (rs_alike _ _ _ _ _ _ _ _ _ _ _ R1) Hclaimed) as Hclaimed1.
  destruct (quiet_reconcile ro2 now2 t1 cs ks s1 o2 s2 Hfair2 (rs_work _ _ _ _ _ _ _ _ _ _ _ R1) Hclaimed1 Hmode Hrun2 Hquiet2)
    as (_ & p2 & s1' & t2 & rs2 & R2).
  assert (resting cs ks rs2 t2 s2) as Hrest.
  { eapply rested_rests; [exact Hfair2|exact R1|exact R2|done|].
    exact (second_settles _ _ _ _ _ _ _ _ _ _ _ _ _ _ _ _ _ _ Hfair2 R1 R2 Hclaimed Hmode Hrecord Hpaths Hdisj Haccepts Hapart). }
  destruct (resting_stays cs ks rs2 later t2 s2 Hfair Hmode Hrest) as (t' & Hd & Hrest' & Hs' & Ho & Hos & H1).
  destruct (reconciles later s2) as [outcomes s]. cbn [fst snd] in *. subst outcomes.
  split; [apply Forall_fmap, Forall_true; done|]. split; [apply length_map|]. split; [done|]. split; [done|]. split; [|done].
  exists t2, t'. split; [apply Hrest|]. split; [apply Hrest'|done].
Qed.

End Converging.

(** ** At work

    Two contributors of one target that is not there yet: the first creates it, the second adds its
    field.  The server gives every version it stores a longer version number. *)

Definition contributor_of (name uid key : string) : Contributor :=
  ResourcePatch (mkPatchObject
    (mkObjectMeta name "team-a" uid "1" 1 0 None [ContributorFinalizer] ∅)
    (mkResourcePatchSpec (mkTargetRef "" "v1" "ConfigMap" "cm" "" None None 0)
       (mkLifecycleSpec OnMissingCreate OnReleaseRevert None "")
       (mkApplySpec ApplyModeClientSideApply "" "") 0 None None
       (mkPatchSpec "" (Some (RawJSON (VMap {["data" := VMap {[key := VStr "v"]}]}))) None []))
    (mkResourcePatchStatus [] [] [] 0 "" None)).

Definition both_listed (kind : string) (index _ : option string) : list Contributor :=
  if String.eqb kind KindResourcePatch && is_some index
  then [contributor_of "a" "u1" "k"; contributor_of "b" "u2" "l"] else [].

Definition store_next (_ : string) (old : option object) (sent : object) : res goerror object :=
  Ok (set_meta "resourceVersion" ("1" +:+ match old with Some o => meta_string "resourceVersion" o | None => "" end) sent).

Definition new_tracker : Tracker := server_tracker empty_status.

Definition empty_scene : scene := mkScene (only new_tracker) None [].

(** One order, and the other way round. *)
Definition forwards : ranging := fun _ => map_to_list.
Definition backwards : ranging := fun _ m => rev (map_to_list m).

Lemma backwards_fair : fair backwards.
Proof. intros site m. symmetry. apply Permutation_rev. Qed.

Definition no_merge (_ : string) (_ : option object) (_ : object) (_ : string) (_ : bool) : res goerror object :=
  Err (OtherError "no server-side apply").

Definition pass_at (now : Z) (ro : ranging) (s : scene) : outcome * scene :=
  run (scene_serve (fun _ => None) both_listed store_next no_merge now)
    (TrackerReconciler.Reconcile (JP := no_ops) false ro KindSharedResource "team-a" "t") s.

Definition second_pass : outcome * scene := pass_at 2 backwards (pass_at 1 forwards empty_scene).2.

Definition two_patches : list Contributor := ordered (claimants both_listed new_tracker).

Definition two_rendered : list Contribution :=
  match renderAll (JP := no_ops) (map (record_of empty_status) two_patches) (target_of new_tracker) with Ok ks => ks | Err _ => [] end.

Lemma two_claimed : claimed_by (JP := no_ops) both_listed new_tracker two_patches two_rendered.
Proof.
  split; [done|done| | | |].
  - apply (bool_decide_unpack _). vm_compute. exact I.
  - intros c d Hc%list_elem_of_In Hd%list_elem_of_In. vm_compute in Hc, Hd.
    destruct Hc as [<-|[<-|[]]], Hd as [<-|[<-|[]]]; first [by intros _|intros E; vm_compute in E; discriminate E].
  - intros c Hc%list_elem_of_In. vm_compute in Hc. by destruct Hc as [<-|[<-|[]]].
  - destruct (is_ok_inv (renderAll (JP := no_ops) (map (record_of empty_status) two_patches) (target_of new_tracker))) as [ks E]; [vm_refl|].
    unfold two_rendered. by rewrite E.
Qed.

Lemma two_settle_paths :
  written_paths false (fun _ => None) both_listed store_next no_merge
    two_patches two_rendered (zip two_patches two_rendered) =
  [[FieldSegment "data"; FieldSegment "k"]; [FieldSegment "data"; FieldSegment "l"]].
Proof. vm_refl. Qed.

Lemma Get_set_meta k v obj f p :
  IsField (FieldSegment f) = true -> f <> "metadata" ->
  Get (VMap (set_meta k v obj)) (FieldSegment f :: p) = Get (VMap obj) (FieldSegment f :: p).
Proof.
  intros E Hf. rewrite !Get_field by done. cbn [Field FieldSegment]. f_equal. unfold set_meta.
  destruct (obj !! "metadata") as [[]|]; try done; [by rewrite lookup_insert_ne|].
  destruct (String.eqb v ""); [done|]. by rewrite lookup_insert_ne.
Qed.

(** Whether an object has what a contribution claims, as a test. *)
Definition settled_at (live : object) (k : Contribution) (p : Path) : bool :=
  match Get (VMap (Object k)) p, Get (VMap live) p with Some v, Some w => sameValue w v | _, _ => false end.

Definition apart (k : Contribution) (live : object) : bool :=
  match write_claims live (Object k) (Paths k) with
  | Ok desired => if forallb (settled_at live k) (Paths k) then true else negb (equalContent live desired)
  | Err _ => true
  end.

Lemma apart_told imp cl li ad me cs ks objects ck :
  forallb (apart ck.2) objects = true -> told_apart imp cl li ad me cs ks objects ck.
Proof.
  intros H Hw live desired Hin Hwr Heq p Hp. rewrite forallb_forall in H.
  specialize (H live (proj1 (list_elem_of_In _ _) Hin)). unfold apart in H. rewrite Hwr, Heq in H.
  destruct (forallb (settled_at live ck.2) (Paths ck.2)) eqn:E; [|done]. rewrite forallb_forall in E.
  specialize (E p (proj1 (list_elem_of_In _ _) Hp)). unfold settled_at in E.
  destruct (Get (VMap (Object ck.2)) p) as [v|] eqn:Ev; [|done]. destruct (Get (VMap live) p) as [w|] eqn:Ew; [|done].
  by exists v, w.
Qed.

Definition quiet_b (o : outcome) : bool := negb (is_some (Err_of o)) && negb (Requeue o) && (RequeueAfter o =? 0)%Z.

Lemma quiet_b_ok o : quiet_b o = true -> quiet o.
Proof.
  unfold quiet_b. intros [[He Hr]%andb_prop Ha%Z.eqb_eq]%andb_prop. split; [by destruct (Err_of o)|]. split; [by destruct (Requeue o)|done].
Qed.

(** Both passes are quiet, leave two versions of the target, and compare no two with the same hash. *)
Definition two_quiet_passes : bool :=
  let '(o1, s1) := pass_at 1 forwards empty_scene in
  let '(o2, s2) := pass_at 2 backwards s1 in
  quiet_b o1 && quiet_b o2 && Nat.eqb (length (sc_objects s2)) 2 &&
  forallb (fun ck => forallb (apart ck.2) (sc_objects s2)) (zip two_patches two_rendered).

Definition further_passes (s : scene) : list outcome * scene :=
  reconciles (JP := no_ops) false (fun _ => None) both_listed store_next no_merge KindSharedResource "team-a" "t"
    [(3%Z, backwards); (4%Z, forwards)] s.

Lemma tracker_settles_witness :
  length (sc_objects second_pass.2) = 2%nat /\ (further_passes second_pass.2).2 = second_pass.2.
Proof.
  assert (two_quiet_passes = true) as Hfine by vm_refl. revert Hfine. unfold two_quiet_passes, second_pass.
  destruct (pass_at 1 forwards empty_scene) as [o1 s1] eqn:H1. cbn [snd]. destruct (pass_at 2 backwards s1) as [o2 s2] eqn:H2. cbn [snd].
  intros [[[Q1 Q2]%andb_prop Hl%Nat.eqb_eq]%andb_prop Hapart]%andb_prop. split; [exact Hl|]. unfold pass_at in *.
  enough (let '(outcomes, s) := further_passes s2 in
    Forall (fun o => o = done_) outcomes /\ length outcomes = 2%nat /\ sc_object s = sc_object s2 /\ sc_objects s = sc_objects s2 /\
    (exists t2 t', live (sc_store s2) !! ((KindSharedResource, "team-a", "t") : objid) = Some t2 /\
       live (sc_store s) !! ((KindSharedResource, "team-a", "t") : objid) = Some t' /\ same_but_conflicts t2 t') /\
    (one_contested two_rendered -> s = s2)) as H.
  { destruct (further_passes s2) as [outcomes s]. destruct H as (_ & _ & _ & _ & _ & H). apply H. apply (bool_decide_unpack _). vm_compute. exact I. }
  refine (tracker_settles (JP := no_ops) false (fun _ => None) both_listed store_next no_merge KindSharedResource "team-a" "t"
    1 2 forwards backwards [(3%Z, backwards); (4%Z, forwards)] new_tracker two_patches two_rendered empty_scene s1 s2 o1 o2
    (fun _ _ => Permutation_refl _) backwards_fair _ _ two_claimed _ _ _ _ _ _
    H1 (quiet_b_ok _ Q1) H2 (quiet_b_ok _ Q2)).
  - repeat constructor; [apply backwards_fair|intros ? ?; reflexivity].
  - split; [vm_refl|]. by repeat split.
  - intros c Hc%list_elem_of_In. vm_compute in Hc. by destruct Hc as [<-|[<-|[]]].
  - done.
  - rewrite two_settle_paths. vm_refl.
  - rewrite two_settle_paths. vm_refl.
  - rewrite two_settle_paths. intros user old sent o [= <-] p Hp%list_elem_of_In.
    destruct Hp as [<-|[<-|[]]]; by apply Get_set_meta.
  - intros ck Hck. apply apart_told. rewrite forallb_forall in Hapart. by apply Hapart, list_elem_of_In.
Defined.

End TrackerSettles.
