(* ===== verification/ContributorSettles.v ===== *)
(** Convergence of the contributor's reconcile: against a server that answers faithfully, a second
    reconcile changes nothing, whatever time it is. *)
From stdpp Require Import strings base list gmap fin_maps.
From S2P Require Import Prelude GoStrings Values ApiTypes Conditions Identity Scope Kube Render Client ProgramLogic TrackerLogic Controller Traces.
From S2P Require Import Promotion PromotionSpec ContributorReconciler ContributorGuarantees TrackerReconciler World TrackerStore Handover HandoverGuarantees.
Local Open Scope string_scope.
Local Open Scope list_scope.
Local Open Scope go_scope.

Module ContributorSettles.
Import GoStrings Values ApiTypes Conditions Identity Scope Kube Render Client ProgramLogic TrackerLogic Controller Traces.
Import Promotion PromotionSpec ContributorReconciler ContributorGuarantees World TrackerStore Handover HandoverGuarantees.

(** ** A cluster with one contributor *)

Record cluster := mkCluster { trackers : store; contributor : option Contributor }.

Definition contributor_id (c : Contributor) : string * string * string :=
  (ContributorKind c, Namespace (c_meta c), Name (c_meta c)).

(** The contributor the server has under a name. *)
Definition named (kind ns n : string) (s : cluster) : option Contributor :=
  c ← contributor s; if bool_decide (contributor_id c = (kind, ns, n)) then Some c else None.

Definition with_contributor (c : option Contributor) (s : cluster) : cluster := mkCluster (trackers s) c.

(** Of contributors the server stores status and finalizers separately, and one being deleted goes with
    its last finalizer.  [review] is what the authorizer finds of a user and a contributor. *)
Definition cluster_serve (review : UserInfo -> Contributor -> bool * string) (now : Z) (R : Type) (e : ctlE R)
    (s : cluster) : R * cluster :=
  match e in ctlE R return R * cluster with
  | GetContributor kind ns n =>
      (match named kind ns n s with Some c => Ok c | None => Err (missing (kind, ns, n)) end, s)
  | UpdateContributorStatus c =>
      let '(kind, ns, n) := contributor_id c in
      match named kind ns n s with
      | None => (Err (missing (kind, ns, n)), s)
      | Some cur => let c' := set_contributor_status (GetPatchStatus c) cur in (Ok c', with_contributor (Some c') s)
      end
  | UpdateContributor c =>
      let '(kind, ns, n) := contributor_id c in
      match named kind ns n s with
      | None => (Err (missing (kind, ns, n)), s)
      | Some cur =>
          let c' := set_contributor_meta (with_finalizers (Finalizers (c_meta c)) (c_meta cur)) cur in
          (Ok c', with_contributor
            (if deleting (c_meta cur) && bool_decide (Finalizers (c_meta c) = []) then None else Some c') s)
      end
  | AuthorizeAs user c => (Ok (review user c), s)
  | e => let '(r, st) := serve now _ e (trackers s) in (r, mkCluster st (contributor s))
  end.

(** The authorizer that allows everything. *)
Definition allows_all (user : UserInfo) (c : Contributor) : bool * string := (true, "").

(** *** Programs that only speak of trackers *)

Definition about_trackers (R : Type) (c : ctlE R) : Prop :=
  match c with GetTracker _ _ _ _ | CreateTracker _ | UpdateTrackerStatus _ | Now => True | _ => False end.

Definition any_answer (R : Type) (c : ctlE R) (r : R) : Prop := True.

Local Abbreviation tracker_program p := (typed about_trackers any_answer p (fun _ => True)).

Lemma run_lifted {A} review now (p : ctlM A) st c :
  tracker_program p ->
  run (cluster_serve review now) p (mkCluster st c) = let '(a, st') := run (serve now) p st in (a, mkCluster st' c).
Proof.
  revert st. induction p as [a|R e k IH]; intros st Hp; [done|]. destruct Hp as [He Hk]. cbn [run].
  destruct e; try done; cbn [cluster_serve trackers contributor]; destruct (serve now _ _ st) as [r st']; by apply IH, Hk.
Qed.

(** *** Reads *)

(** A program that leaves the store alone and answers the same at any time. *)
Definition reads {A} (p : ctlM A) (st : store) (a : A) : Prop := forall now, run (serve now) p st = (a, st).

Lemma reads_bind {A B} (p : ctlM A) (f : A -> ctlM B) st a b :
  reads p st a -> reads (f a) st b -> reads (bind p f) st b.
Proof. intros Hp Hf now. rewrite run_bind, Hp. apply Hf. Qed.

Lemma getTracker_reads ref st :
  exists r, reads (getTracker ref) st r /\ (TrackerRef_Kind ref = KindSharedResource \/ TrackerRef_Kind ref = KindClusterSharedResource ->
    r = match live st !! ((TrackerRef_Kind ref, TrackerRef_Namespace ref, TrackerRef_Name ref) : objid) with
        | Some t => Ok t
        | None => Err (missing (TrackerRef_Kind ref, TrackerRef_Namespace ref, TrackerRef_Name ref))
        end).
Proof.
  unfold getTracker. destruct (emptyTracker (TrackerRef_Kind ref)) as [t|e] eqn:E.
  - by eexists.
  - exists (Err e). split; [done|]. by intros [H|H]; rewrite H in E.
Qed.

Lemma observe_targets_read ref keys st : forall trs n, exists r, reads (observe_targets ref keys trs n) st r.
Proof.
  induction keys as [|key keys IH]; intros trs n; cbn [observe_targets]; [by eexists|].
  assert (forall trs t, exists r, reads (let '(ts, n) := observe_target ref key t n in
    try! (rest, n) <- observe_targets ref keys trs n in Ret (Ok (ts :: rest, n))) st r) as Hgo.
  { intros trs' t. destruct (observe_target ref key t n) as [ts n']. destruct (IH trs' n') as [[[rest m]|e] Hr].
    all: eexists; eapply reads_bind; [exact Hr|done]. }
  destruct trs as [|tr trs].
  - destruct (IH [] n) as [[[rest m]|e] Hr]; eexists; (eapply reads_bind; [exact Hr|done]).
  - destruct (getTracker_reads tr st) as (g & Hg & _).
    assert (exists r, reads (match g with
      | Ok t => let '(ts, n) := observe_target ref key (Some t) n in
          try! (rest, n) <- observe_targets ref keys trs n in Ret (Ok (ts :: rest, n))
      | Err e => if IsNotFound e then let '(ts, n) := observe_target ref key None n in
          try! (rest, n) <- observe_targets ref keys trs n in Ret (Ok (ts :: rest, n)) else Ret (Err e) end) st r) as [r Hr].
    { destruct g as [t|e]; [apply Hgo|]. destruct (IsNotFound e); [apply Hgo|by eexists]. }
    exists r. eapply reads_bind; [exact Hg|]. exact Hr.
Qed.

Lemma still_registered_reads ref trs st : forall acc, exists r, reads (still_registered ref trs acc) st r.
Proof.
  induction trs as [|tr trs IH]; intros acc; cbn [still_registered]; [by eexists|].
  destruct (getTracker_reads tr st) as (g & Hg & _). destruct g as [t|e].
  - destruct (IH (if is_some (FindContributor (GetTrackerStatus t) ref) then true else acc)) as [r Hr].
    exists r. by eapply reads_bind.
  - destruct (IsNotFound e) eqn:E; [destruct (IH acc) as [r Hr]; exists r|exists (Err e)];
      (eapply reads_bind; [exact Hg|]; cbn; by rewrite E).
Qed.

(** These only speak of trackers. *)
Lemma getTracker_trackers ref : tracker_program (getTracker ref).
Proof. unfold getTracker. by destruct (emptyTracker _). Qed.

Lemma observe_targets_trackers ref keys : forall trs n, tracker_program (observe_targets ref keys trs n).
Proof.
  induction keys as [|key keys IH]; intros [|tr trs] n; cbn [observe_targets]; try done.
  - eapply typed_use; [apply IH|]. by intros [[rest m]|e] _.
  - eapply typed_use; [apply getTracker_trackers|]. intros r _. cbv zeta.
    assert (forall t, tracker_program (let '(ts, n) := observe_target ref key t n in
      try! (rest, n) <- observe_targets ref keys trs n in Ret (Ok (ts :: rest, n)))) as Hgo.
    { intros t. destruct (observe_target ref key t n). eapply typed_use; [apply IH|]. by intros [[rest m]|e] _. }
    destruct r as [t|e]; [apply Hgo|]. by destruct (IsNotFound e).
Qed.

Lemma still_registered_trackers ref trs : forall acc, tracker_program (still_registered ref trs acc).
Proof.
  induction trs as [|tr trs IH]; intros acc; cbn [still_registered]; [done|].
  eapply typed_use; [apply getTracker_trackers|]. intros [t|e] _; [apply IH|]. by destruct (IsNotFound e).
Qed.

(** ** Trackers

    After a contributor has ensured its tracker it finds it again, and makes no further change. *)
Section Trackers.
Variable key : TargetKey.
Local Abbreviation old_id := (Handover.old_id key).
Local Abbreviation new_id := (Handover.new_id key).

(** A fence there may already be names the successor as a promotion does. *)
Definition fence_named (st : store) : Prop :=
  forall t p, live st !! old_id = Some t -> PromotedTo (GetTrackerStatus t) = Some p -> Promotion_Name p = TrackerName key.

(** No promotion is under way. *)
Definition rested (st : store) : Prop :=
  live st !! old_id = None \/ exists t, live st !! old_id = Some t /\ already_adopted (GetTrackerStatus t) = true.

Lemma promote_rested st : rested st -> reads (promoteIfNeeded true key) st None.
Proof.
  intros [Hl|(t & Hl & Ha)] now; unfold promoteIfNeeded, backoff_retries; cbv zeta; cbn [retry_on_conflict];
    unfold fence_attempt; cbn [bind call run].
  - by rewrite (serve_get_none _ _ _ _ _ _ Hl).
  - unfold already_adopted in Ha. destruct (PromotedTo (GetTrackerStatus t)) as [p|] eqn:Ep; [|done].
    rewrite (serve_get _ _ _ _ _ _ _ Hl). cbn iota beta. rewrite Ep. cbn [is_some bind call run].
    rewrite (serve_get _ _ _ _ _ _ _ Hl). cbn iota beta. unfold createSuccessor, already_adopted. rewrite Ep, Ha.
    cbn [bind]. unfold flag_attempt. cbn [bind call run]. rewrite (serve_get _ _ _ _ _ _ _ Hl). cbn iota beta.
    by rewrite Ep, Ha.
Qed.

Lemma promote_settles now st :
  wf st -> fence_named st ->
  exists st', run (serve now) (promoteIfNeeded true key) st = (None, st') /\ rested st'.
Proof.
  intros [Hw _] Hn. destruct (live st !! old_id) as [t|] eqn:Hl.
  2: { exists st. split; [apply promote_rested|]; by left. }
  destruct (already_adopted (GetTrackerStatus t)) eqn:Ha.
  { exists st. assert (rested st) as Hr by (right; by exists t). split; [by apply promote_rested|done]. }
  destruct (run_promote key now st t) as (st' & t' & c & Hrun & Hl' & _ & Hp & _); [naive_solver|done|done|by intros p; apply Hn|].
  exists st'. split; [done|]. right. exists t'. split; [done|]. unfold already_adopted. by rewrite Hp.
Qed.

Definition join_id (c : Contributor) : objid :=
  let kind := TrackerKindFor key (IsClusterScoped c) in (kind, TrackerNamespace kind key, TrackerName key).

(** What joining answers with once the tracker is there. *)
Definition joined (c : Contributor) (t : Tracker) : TrackerRef :=
  match PromotedTo (GetTrackerStatus t) with
  | Some p => mkTrackerRef KindClusterSharedResource (Promotion_Name p) ""
  | None => let '(kind, ns, name) := join_id c in mkTrackerRef kind name ns
  end.

Lemma join_kind c : (join_id c).1.1 = KindSharedResource \/ (join_id c).1.1 = KindClusterSharedResource.
Proof. unfold join_id, TrackerKindFor. cbn. destruct (_ || _); auto. Qed.

Lemma join_finds c st t : live st !! join_id c = Some t -> reads (join_tracker c key) st (Ok (joined c t)).
Proof.
  intros Hl now. unfold join_tracker. cbv zeta. set (kind := TrackerKindFor key (IsClusterScoped c)). set (ref := mkTrackerRef kind _ _).
  destruct (getTracker_reads ref st) as (g & Hg & Eg). specialize (Eg (join_kind c)).
  change (_, _, _) with (join_id c) in Eg. rewrite Hl in Eg. subst g.
  rewrite run_bind, (Hg now). unfold joined. by destruct (PromotedTo (GetTrackerStatus t)).
Qed.

(** Without one, joining creates it, holding its finalizer. *)
Lemma join_creates c now st :
  live st !! join_id c = None ->
  exists created, newTracker (join_id c).1.1 (TrackerName key) (join_id c).1.2 key = Ok created /\ id_of created = join_id c /\
    let t := with_version (next_version st) (set_tracker_status empty_status
      (set_tracker_meta (AddFinalizer TrackerFinalizer (tracker_meta created)) created)) in
    id_of t = join_id c /\ run (serve now) (join_tracker c key) st = (Ok (joined c t), commit t st).
Proof.
  intros Hl. assert (exists created, newTracker (join_id c).1.1 (TrackerName key) (join_id c).1.2 key = Ok created /\
    id_of created = join_id c) as (created & Ec & Hid).
  { unfold join_id. destruct (join_kind c) as [E|E]; unfold join_id in E; cbn in E; cbn; rewrite E; by eexists. }
  exists created. split; [done|]. split; [done|]. cbv zeta.
  set (t := set_tracker_meta (AddFinalizer TrackerFinalizer (tracker_meta created)) created).
  assert (id_of t = join_id c) as Hidt by (rewrite <- Hid; unfold t, AddFinalizer; destruct (ContainsFinalizer _ _);
    [by destruct created|apply id_of_finalizers]).
  split; [by autorewrite with trackers|]. unfold join_tracker. cbv zeta.
  set (ref := mkTrackerRef _ _ _). destruct (getTracker_reads ref st) as (g & Hg & Eg). specialize (Eg (join_kind c)).
  change (_, _, _) with (join_id c) in Eg. rewrite Hl in Eg. subst g. rewrite run_bind, Hg. cbn iota beta.
  change (IsNotFound (missing _)) with true. cbn iota. unfold create_tracker. cbn [TrackerRef_Kind TrackerRef_Name TrackerRef_Namespace ref].
  change (newTracker _ _ _ key) with (newTracker (join_id c).1.1 (TrackerName key) (join_id c).1.2 key). rewrite Ec.
  cbn [bind call run]. unfold serve at 1. fold t. rewrite Hidt, Hl. unfold joined. by rewrite status_version, status_set_status.
Qed.

Lemma join_settles c now st :
  exists ref st', run (serve now) (join_tracker c key) st = (Ok ref, st') /\ reads (join_tracker c key) st' (Ok ref) /\
    same_but (join_id c) st st'.
Proof.
  destruct (live st !! join_id c) as [t|] eqn:Hl.
  { exists (joined c t), st. split; [by apply join_finds|]. split; [by apply join_finds|done]. }
  destruct (join_creates c now st Hl) as (created & _ & _ & Hid & Hrun). cbv zeta in Hid, Hrun.
  eexists _, _. split; [exact Hrun|]. split; [|rewrite <- Hid; apply same_commit].
  apply join_finds. cbn. rewrite Hid. apply lookup_insert_eq.
Qed.

Lemma ensure_settles c now st :
  wf st -> fence_named st ->
  exists ref st', run (serve now) (ensureTracker true c key) st = (Ok ref, st') /\
    reads (ensureTracker true c key) st' (Ok ref).
Proof.
  intros Hw Hn. unfold ensureTracker. destruct (IsClusterScoped c) eqn:Ec; cbn [negb andb].
  - destruct (IsClusterScopedTarget key) eqn:Ek; cbn [negb].
    + destruct (join_settles c now st) as (ref & st' & Hrun & Hr & _). by exists ref, st'.
    + destruct (promote_settles now st Hw Hn) as (st1 & Hrun1 & Hrest).
      destruct (join_settles c now st1) as (ref & st2 & Hrun2 & Hr & Hsame). exists ref, st2.
      split; [by rewrite run_bind, Hrun1|]. apply (reads_bind _ _ _ None); [|exact Hr]. apply promote_rested.
      assert (live st2 !! old_id = live st1 !! old_id) as El.
      { apply Hsame. unfold join_id, TrackerKindFor. rewrite Ec, orb_true_r. intros [=]. }
      unfold rested in *. by rewrite El.
  - destruct (IsClusterScopedTarget key) eqn:Ek; cbn [negb bind].
    + destruct (join_settles c now st) as (ref & st' & Hrun & Hr & _). by exists ref, st'.
    + cbn [call bind run]. destruct (live st !! new_id) as [t|] eqn:Hl.
      { exists (cluster_ref key), st. rewrite (serve_get _ _ _ _ _ _ _ Hl). split; [done|]. intros now'. cbn [run].
        by rewrite (serve_get _ _ _ _ _ _ _ Hl). }
      rewrite (serve_get_none _ _ _ _ _ _ Hl). cbn iota beta. change (IsNotFound (missing _)) with true. cbn iota.
      destruct (join_settles c now st) as (ref & st' & Hrun & Hr & Hsame). exists ref, st'. split; [done|].
      intros now'. cbn [run].
      assert (live st' !! new_id = None) as El.
      { rewrite Hsame; [done|]. unfold join_id, TrackerKindFor. rewrite Ec, Ek. intros [=]. }
      rewrite (serve_get_none _ _ _ _ _ _ El). apply Hr.
Qed.

End Trackers.

Lemma retry_trackers {S} (attempt : S -> ctlM (S * option goerror)) n :
  (forall s, tracker_program (attempt s)) -> forall s, tracker_program (retry_on_conflict n attempt s).
Proof.
  intros Ha. induction n as [|n IH]; intros s; cbn [retry_on_conflict]; [apply Ha|].
  eapply typed_use; [apply Ha|]. intros [s' [e|]] _; [|done]. by destruct (IsConflict e).
Qed.

Lemma promoteIfNeeded_trackers uncached key : tracker_program (promoteIfNeeded uncached key).
Proof.
  unfold promoteIfNeeded. cbv zeta. eapply typed_use.
  { apply retry_trackers. intros []. unfold fence_attempt. repeat (first [typed_step|exact I|done]). }
  intros [[] [e|]] _; [by destruct (IsNotFound e)|]. typed_step; [exact I|]. destruct r as [old|e]; [|done].
  eapply (typed_use _ _ _ _ (fun _ => True)).
  - unfold createSuccessor. typed_step; [done|]. typed_step; [exact I|].
    eapply (typed_use _ _ _ _ (fun _ => True)); [repeat (first [typed_step|exact I|done])|].
    intros [e|] _; [done|]. eapply typed_use; [|by intros [[] e]].
    apply retry_trackers. intros []. unfold adopt_attempt. repeat (first [typed_step|exact I|done]).
  - intros [e|] _; [done|]. eapply typed_use; [|by intros [[] e]].
    apply retry_trackers. intros []. unfold flag_attempt. repeat (first [typed_step|exact I|done]).
Qed.

Lemma ensureTracker_trackers uncached c key : tracker_program (ensureTracker uncached c key).
Proof.
  assert (tracker_program (join_tracker c key)) as Hj.
  { unfold join_tracker, create_tracker. cbv zeta. eapply typed_use; [apply getTracker_trackers|].
    intros r _. repeat (first [typed_step|exact I|done]). }
  unfold ensureTracker. eapply (typed_use _ _ _ _ (fun _ => True)); [destruct (_ && _); [apply promoteIfNeeded_trackers|done]|].
  intros [e|] _; [done|]. destruct (negb _ && _); [|exact Hj]. typed_step; [exact I|].
  destruct r as [t|e]; [done|]. by destruct (IsNotFound e).
Qed.

(** ** Statuses *)

Section Statuses.
Variable review : UserInfo -> Contributor -> bool * string.
Variable now : Z.

(** The status [syncStatus] stores, given what it observed. *)
Definition synced (c : Contributor) (total : Z) (trs : list TrackerRef) (observed : list TargetStatus) (n : tally)
    : ResourcePatchStatus :=
  let '(s, reason, msg) := ready_verdict total n in
  let st := setCond now "Ready" s reason msg (with_targets observed trs (GetPatchStatus c)) in
  let st := if String.eqb s ConditionTrue then with_applied_generation (Generation (c_meta c)) st else st in
  setCond now "Synced" ConditionTrue "ReconcileSuccess" (text "")
    (setCond now "Conflict" (boolCondition (0 <? n_conflicted n)%Z) "Conflict" (text "") st).

Definition erred (c : Contributor) (reason : string) (msg : message) : ResourcePatchStatus :=
  setCond now "Synced" ConditionFalse reason msg (setCond now "Ready" ConditionFalse reason msg (GetPatchStatus c)).

Lemma run_status c c' kind ns n st :
  contributor_id c = (kind, ns, n) -> contributor_id c' = (kind, ns, n) ->
  cluster_serve review now _ (UpdateContributorStatus c') (mkCluster st (Some c)) =
    (Ok (set_contributor_status (GetPatchStatus c') c),
     mkCluster st (Some (set_contributor_status (GetPatchStatus c') c))).
Proof. intros Hc Hc'. unfold cluster_serve. rewrite Hc'. unfold named. cbn. rewrite Hc. by rewrite bool_decide_true. Qed.

Lemma id_set_status s c : contributor_id (set_contributor_status s c) = contributor_id c.
Proof. by destruct c. Qed.

Lemma run_cond c ty s reason msg x :
  run (cluster_serve review now) (contributorCond c ty s reason msg) x =
    (set_contributor_status (setCond now ty s reason msg (GetPatchStatus c)) c, x).
Proof. by destruct x. Qed.

Lemma set_status_set s s' c : set_contributor_status s (set_contributor_status s' c) = set_contributor_status s c.
Proof. by destruct c. Qed.

Lemma meta_set_status_c s c : c_meta (set_contributor_status s c) = c_meta c.
Proof. by destruct c. Qed.

Lemma run_syncStatus c keys trs st observed n :
  reads (observe_targets (ContributorRefOf c) keys trs (mkTally 0 0 0 0)) st (Ok (observed, n)) ->
  run (cluster_serve review now) (syncStatus c keys trs) (mkCluster st (Some c)) =
    (None, mkCluster st (Some (set_contributor_status (synced c (Z.of_nat (length keys)) trs observed n) c))).
Proof.
  intros Hr. unfold syncStatus, synced. rewrite run_bind, run_lifted by apply observe_targets_trackers. rewrite Hr.
  destruct (ready_verdict _ n) as [[s reason] msg]. destruct (contributor_id c) as [[kind ns] name] eqn:Hid.
  rewrite run_bind, run_cond, run_bind. rewrite !status_set_contributor.
  cbv zeta. destruct (String.eqb s ConditionTrue).
  all: rewrite run_cond, run_bind, run_cond, ?status_set_contributor, ?set_status_set, ?meta_set_status_c.
  all: cbn [bind call run]; rewrite (run_status c _ kind ns name) by (done || by rewrite id_set_status).
  all: by rewrite status_set_contributor.
Qed.

Lemma run_setStatusError c reason msg st :
  run (cluster_serve review now) (setStatusError c reason msg) (mkCluster st (Some c)) =
    (None, mkCluster st (Some (set_contributor_status (erred c reason msg) c))).
Proof.
  unfold setStatusError. destruct (contributor_id c) as [[kind ns] name] eqn:Hid.
  rewrite run_bind, run_cond, run_bind, run_cond. rewrite !status_set_contributor, !set_status_set.
  cbn [bind call run]. rewrite (run_status c _ kind ns name) by (done || by rewrite id_set_status).
  by rewrite status_set_contributor.
Qed.

End Statuses.

(** *** Computed again from the status it led to, a status stays as it is *)

Lemma setCond_rest now ty s reason msg st :
  at_rest (Conditions st) (mkCondition ty s 0 None reason msg) -> setCond now ty s reason msg st = st.
Proof. intros H. unfold setCond. rewrite H. by destruct st. Qed.

Lemma with_targets_same st : with_targets (ObservedTargets st) (SharedResourceRefs st) st = st.
Proof. by destruct st. Qed.

Lemma with_generation_same st : with_applied_generation (AppliedGeneration st) st = st.
Proof. by destruct st. Qed.

(** The status is the one synchronising with these targets leads to. *)
Definition in_sync (c : Contributor) (total : Z) (trs : list TrackerRef) (observed : list TargetStatus) (n : tally) : Prop :=
  let st := GetPatchStatus c in
  let '(s, reason, msg) := ready_verdict total n in
  ObservedTargets st = observed /\ SharedResourceRefs st = trs /\
  (String.eqb s ConditionTrue = true -> AppliedGeneration st = Generation (c_meta c)) /\
  at_rest (Conditions st) (mkCondition "Ready" s 0 None reason msg) /\
  at_rest (Conditions st) (mkCondition "Conflict" (boolCondition (0 <? n_conflicted n)%Z) 0 None "Conflict" (text "")) /\
  at_rest (Conditions st) (mkCondition "Synced" ConditionTrue 0 None "ReconcileSuccess" (text "")).

Lemma synced_in_sync now c total trs observed n :
  in_sync (set_contributor_status (synced now c total trs observed n) c) total trs observed n.
Proof.
  unfold in_sync. cbv zeta. rewrite status_set_contributor, meta_set_status_c. unfold synced.
  destruct (ready_verdict total n) as [[s reason] msg].
  set (st1 := if String.eqb s ConditionTrue then _ else _).
  assert (ObservedTargets st1 = observed /\ SharedResourceRefs st1 = trs /\
    (String.eqb s ConditionTrue = true -> AppliedGeneration st1 = Generation (c_meta c)) /\
    at_rest (Conditions st1) (mkCondition "Ready" s 0 None reason msg)) as (Ho & Hr & Hg & Hc).
  { unfold st1. destruct (String.eqb s ConditionTrue); (split; [done|split; [done|split; [done|]]]); by apply set_at_rest. }
  clearbody st1. split; [done|]. split; [done|]. split; [done|]. unfold setCond. cbn [Conditions].
  split; [|split].
  - apply set_keeps_rest; [done..|]. by apply set_keeps_rest.
  - apply set_keeps_rest; [done..|]. by apply set_at_rest.
  - by apply set_at_rest.
Qed.

Lemma synced_rests now c total trs observed n :
  in_sync c total trs observed n -> synced now c total trs observed n = GetPatchStatus c.
Proof.
  unfold in_sync. cbv zeta. set (st := GetPatchStatus c). intros H. unfold synced. fold st.
  destruct (ready_verdict total n) as [[s reason] msg].
  destruct H as (<- & <- & Hg & Hr & Hc & Hs). rewrite with_targets_same, (setCond_rest _ _ _ _ _ st Hr).
  replace (if String.eqb s ConditionTrue then _ else st) with st.
  2: { destruct (String.eqb s ConditionTrue); [|done]. by rewrite <- Hg, with_generation_same. }
  by rewrite (setCond_rest _ _ _ _ _ st Hc), (setCond_rest _ _ _ _ _ st Hs).
Qed.

Lemma erred_rests now now' c reason msg :
  let c' := set_contributor_status (erred now c reason msg) c in erred now' c' reason msg = GetPatchStatus c'.
Proof.
  cbv zeta. rewrite status_set_contributor. unfold erred at 1. rewrite status_set_contributor.
  rewrite (setCond_rest _ "Ready"), (setCond_rest _ "Synced"); [done|..]; unfold erred, setCond; cbn [Conditions].
  - by apply set_at_rest.
  - apply set_keeps_rest; [done..|]. by apply set_at_rest.
Qed.

(** ** The whole reconcile *)

Section Settling.
Context {K : KubeLib}.
Variable authorizer : bool.
Variable ReauthorizeAfter : Z.
Variable review : UserInfo -> Contributor -> bool * string.
Variable kind ns name : string.

Local Abbreviation reconcile := (ContributorReconciler.Reconcile true authorizer ReauthorizeAfter kind ns name).
Local Abbreviation conclude_ d trackers obj keys :=
  (match trackers with
   | Err e => Ret (failed e)
   | Ok trs =>
       do! e <- syncStatus obj keys trs in
       match e with Some e => Ret (failed e) | None => Ret (requeue_after d) end
   end).

(** *** Checking the authorization again *)

(** Whose authorization is to be checked: that of the recorded writer, if there is an authorizer and the
    last check is too long ago, or there was none. *)
Definition due (now : Z) (c : Contributor) : option UserInfo :=
  if negb authorizer || (ReauthorizeAfter <=? 0)%Z then None
  else
    match IdentityFromAnnotations (c_meta c), LastAuthorizedTime (GetPatchStatus c) with
    | Some user, Some last => if (now - last <? ReauthorizeAfter)%Z then None else Some user
    | writer, _ => writer
    end.

(** What a check records: in whose name, its verdict as a condition, and when, if it was allowed. *)
Definition rechecked (now : Z) (user : UserInfo) (c : Contributor) : Contributor :=
  let '(allowed, reason) := review user c in
  let st := GetPatchStatus c in
  set_contributor_status
    (setCond now "Authorized" (if allowed then ConditionTrue else ConditionFalse) (if allowed then "Authorized" else "Unauthorized")
       (text (if allowed then "" else reason))
       (with_authorization (User_Username user) (if allowed then Some now else LastAuthorizedTime st) st)) c.

Definition checked (now : Z) (c : Contributor) : Contributor :=
  match due now c with Some user => rechecked now user c | None => c end.

(** When to check next. *)
Definition until_check (now : Z) (c : Contributor) : Z :=
  if negb authorizer || (ReauthorizeAfter <=? 0)%Z then 0%Z
  else
    match IdentityFromAnnotations (c_meta c), LastAuthorizedTime (GetPatchStatus c) with
    | Some _, Some last => if (now - last <? ReauthorizeAfter)%Z then (ReauthorizeAfter - (now - last))%Z else ReauthorizeAfter
    | _, _ => ReauthorizeAfter
    end.

(** Nothing is ever to be checked: there is no authorizer, no period, or nobody on record. *)
Definition nothing_to_check (c : Contributor) : Prop :=
  authorizer = false \/ (ReauthorizeAfter <= 0)%Z \/ IdentityFromAnnotations (c_meta c) = None.

Lemma rechecked_status now user c : exists st, rechecked now user c = set_contributor_status st c.
Proof. unfold rechecked. destruct (review user c). by eexists. Qed.

Lemma set_status_self c : set_contributor_status (GetPatchStatus c) c = c.
Proof. by destruct c as [[]|[]]. Qed.

Lemma checked_status now c : exists st, checked now c = set_contributor_status st c.
Proof.
  unfold checked. destruct (due now c); [apply rechecked_status|]. exists (GetPatchStatus c). by rewrite set_status_self.
Qed.

Lemma checked_in_sync now c total trs observed n : in_sync c total trs observed n -> in_sync (checked now c) total trs observed n.
Proof.
  unfold checked. destruct (due now c) as [user|]; [|done]. unfold rechecked. destruct (review user c) as [allowed reason].
  unfold in_sync. cbv zeta. rewrite status_set_contributor, meta_set_status_c. destruct (ready_verdict total n) as [[s r] msg].
  intros (Ho & Ht & Hg & H1 & H2 & H3). split; [done|]. split; [done|]. split; [done|]. unfold setCond. cbn [Conditions].
  split; [by apply set_keeps_rest|]. split; by apply set_keeps_rest.
Qed.

Lemma run_recheck now user c trs :
  run (cluster_serve review now) (recheck ReauthorizeAfter user c) (mkCluster trs (Some c)) =
    ((rechecked now user c, ReauthorizeAfter, None), mkCluster trs (Some (rechecked now user c))).
Proof.
  unfold recheck, rechecked. destruct (contributor_id c) as [[k n] m] eqn:Hid. cbn [bind call run cluster_serve].
  destruct (review user c) as [[|] reason]; cbn [bind call run cluster_serve serve trackers contributor]; cbv zeta.
  all: rewrite run_bind, run_cond, ?status_set_contributor, ?set_status_set; cbn [bind call run].
  all: rewrite (run_status review now c _ k n m) by (done || by rewrite id_set_status).
  all: by rewrite status_set_contributor.
Qed.

Lemma run_reauthorize now c trs :
  run (cluster_serve review now) (reauthorize authorizer ReauthorizeAfter c) (mkCluster trs (Some c)) =
    ((checked now c, until_check now (checked now c), None), mkCluster trs (Some (checked now c))).
Proof.
  assert (forall user, (ReauthorizeAfter <=? 0)%Z = false -> negb authorizer = false -> IdentityFromAnnotations (c_meta c) = Some user ->
    due now c = Some user -> until_check now (rechecked now user c) = ReauthorizeAfter) as Hnext.
  { intros user Hp Ha Hi Hdue. unfold until_check, rechecked. rewrite Ha, Hp. destruct (review user c) as [[|] reason];
      rewrite meta_set_status_c, status_set_contributor, Hi; cbn [orb LastAuthorizedTime setCond with_authorization].
    - rewrite Z.sub_diag. apply Z.leb_gt, Z.ltb_lt in Hp. rewrite Hp. lia.
    - unfold due in Hdue. rewrite Ha, Hp, Hi in Hdue. cbn in Hdue. destruct (LastAuthorizedTime (GetPatchStatus c)) as [last|]; [|done].
      by destruct (_ <? _)%Z. }
  unfold reauthorize, checked. destruct (negb authorizer || (ReauthorizeAfter <=? 0)%Z) eqn:E.
  { assert (due now c = None) as -> by (unfold due; by rewrite E). unfold until_check. by rewrite E. }
  pose proof (proj1 (orb_false_iff _ _) E) as [Ea Ep].
  destruct (IdentityFromAnnotations (c_meta c)) as [user|] eqn:Hi.
  2: { assert (due now c = None) as -> by (unfold due; by rewrite E, Hi). unfold until_check. by rewrite E, Hi. }
  specialize (Hnext user Ep Ea eq_refl). unfold due in *. rewrite E, Hi in *.
  destruct (LastAuthorizedTime (GetPatchStatus c)) as [last|] eqn:Hlast.
  - cbn [bind call run cluster_serve serve trackers contributor]. destruct (now - last <? ReauthorizeAfter)%Z eqn:Et.
    + unfold until_check. rewrite E, Hi, Hlast, Et. done.
    + rewrite run_recheck. by rewrite Hnext.
  - rewrite run_recheck. by rewrite Hnext.
Qed.

Section Branches.
Variable now : Z.
Variable s : cluster.
Variable c : Contributor.
Hypothesis Hnamed : named kind ns name s = Some c.

Lemma run_deleting :
  deleting (c_meta c) = true ->
  run (cluster_serve review now) reconcile s = run (cluster_serve review now) (ContributorReconciler.reconcileDelete c) s.
Proof.
  intros Hd. unfold ContributorReconciler.Reconcile. cbn [bind call run cluster_serve]. rewrite Hnamed. cbn iota beta. by rewrite Hd.
Qed.

Lemma run_invalid e es :
  deleting (c_meta c) = false -> Validate c (Some isNamespacedKind) = e :: es ->
  run (cluster_serve review now) reconcile s =
    (let '(r, s') := run (cluster_serve review now) (setInvalid c (text (aggregate_error (e :: es)))) s in (finished r, s')).
Proof.
  intros Hd Hv. unfold ContributorReconciler.Reconcile. cbn [bind call run cluster_serve]. rewrite Hnamed. cbn iota beta.
  rewrite Hd, Hv, run_bind. by destruct (run _ (setInvalid _ _) _).
Qed.

Lemma run_unheld :
  deleting (c_meta c) = false -> Validate c (Some isNamespacedKind) = [] ->
  ContainsFinalizer ContributorFinalizer (c_meta c) = false ->
  Requeue (run (cluster_serve review now) reconcile s).1 = true \/ Err_of (run (cluster_serve review now) reconcile s).1 <> None.
Proof.
  intros Hd Hv Hf. unfold ContributorReconciler.Reconcile. cbn [bind call run cluster_serve]. rewrite Hnamed. cbn iota beta.
  rewrite Hd, Hv, Hf. cbn [negb bind call run]. destruct (cluster_serve _ _ _ _ _) as [[u|e] s']; [by left|by right].
Qed.

Lemma run_live trs :
  s = mkCluster trs (Some c) -> deleting (c_meta c) = false -> Validate c (Some isNamespacedKind) = [] ->
  ContainsFinalizer ContributorFinalizer (c_meta c) = true -> effective_mode (GetPatchSpec c) = TargetModeSingle ->
  let c0 := checked now c in
  run (cluster_serve review now) reconcile s =
    (let '(r, s') := run (cluster_serve review now) (ensureTracker true c (TargetKeyFor c)) (mkCluster trs (Some c0)) in
     run (cluster_serve review now) (conclude_ (until_check now c0) (match r with Ok ref => Ok [ref] | Err e => Err e end) c0 [TargetKeyFor c]) s').
Proof.
  intros -> Hd Hv Hf Hm. cbv zeta. unfold ContributorReconciler.Reconcile. cbn [bind call run cluster_serve]. rewrite Hnamed. cbn iota beta.
  rewrite Hd, Hv, Hf. cbn [negb]. rewrite run_bind, run_reauthorize.
  destruct (checked_status now c) as [st ->].
  replace (ensureTracker true c) with (ensureTracker true (set_contributor_status st c)) by (by destruct c).
  replace (TargetKeyFor c) with (TargetKeyFor (set_contributor_status st c)) by (by destruct c).
  replace (GetPatchSpec c) with (GetPatchSpec (set_contributor_status st c)) in Hm by (by destruct c).
  unfold resolveTargets. rewrite Hm.
  change (String.eqb TargetModeSingle TargetModeSingle) with true. cbn [bind ensure_all]. rewrite !run_bind.
  by destruct (run _ (ensureTracker _ _ _) _) as [[ref|e] s'].
Qed.

End Branches.

(** A version of the contributor with another status is the same contributor. *)
Section Same.
Variable st : ResourcePatchStatus.
Variable c : Contributor.
Local Abbreviation c' := (set_contributor_status st c).

Lemma ensureTracker_same key : ensureTracker true c' key = ensureTracker true c key.
Proof. by destruct c. Qed.

Lemma Validate_same look : Validate c' look = Validate c look.
Proof. by destruct c. Qed.

Lemma ref_same : ContributorRefOf c' = ContributorRefOf c.
Proof. by destruct c. Qed.

Lemma key_same : TargetKeyFor c' = TargetKeyFor c.
Proof. by destruct c. Qed.

Lemma spec_same : GetPatchSpec c' = GetPatchSpec c.
Proof. by destruct c. Qed.

Lemma named_same trs trs' c0 :
  named kind ns name (mkCluster trs (Some c0)) = Some c -> named kind ns name (mkCluster trs' (Some c')) = Some c'.
Proof.
  unfold named. cbn. case_bool_decide as E; [|done]. intros [= ->]. rewrite id_set_status. by rewrite bool_decide_true.
Qed.

End Same.

Lemma named_contributor s c : named kind ns name s = Some c -> contributor s = Some c /\ contributor_id c = (kind, ns, name).
Proof. unfold named. destruct (contributor s) as [c0|]; [|done]. cbn. case_bool_decide; [|done]. by intros [= ->]. Qed.

Lemma run_retries_nothing now s :
  named kind ns name s = None -> run (cluster_serve review now) reconcile s = (done_, s).
Proof. intros Hn. unfold ContributorReconciler.Reconcile. cbn [bind call run cluster_serve]. by rewrite Hn. Qed.

(** *** Each branch settles *)

Definition settles (o : outcome) (s : cluster) : Prop := forall now, run (cluster_serve review now) reconcile s = (o, s).

Lemma delete_settles now trs c o s1 :
  named kind ns name (mkCluster trs (Some c)) = Some c -> deleting (c_meta c) = true ->
  run (cluster_serve review now) (ContributorReconciler.reconcileDelete c) (mkCluster trs (Some c)) = (o, s1) -> Err_of o = None ->
  settles o s1.
Proof.
  intros Hn Hd Hrun Hok. assert (forall x o s, run (cluster_serve review x) (ContributorReconciler.reconcileDelete c) (mkCluster trs (Some c)) = (o, s) ->
    s = mkCluster trs (Some c) -> run (cluster_serve review x) reconcile s = (o, s)) as Hsame.
  { intros x o' s' Hr ->. by rewrite (run_deleting _ _ c). }
  unfold ContributorReconciler.reconcileDelete in Hrun.
  destruct (ContainsFinalizer ContributorFinalizer (c_meta c)) eqn:Ef; cbn [negb] in Hrun.
  2: { injection Hrun as <- <-. intros x. apply Hsame; [|done]. unfold ContributorReconciler.reconcileDelete. by rewrite Ef. }
  destruct (still_registered_reads (ContributorRefOf c) (SharedResourceRefs (GetPatchStatus c)) trs false) as [r Hr].
  rewrite run_bind, run_lifted, Hr in Hrun by apply still_registered_trackers. destruct r as [[|]|e].
  - injection Hrun as <- <-. intros x. apply Hsame; [|done]. unfold ContributorReconciler.reconcileDelete. rewrite Ef.
    cbn [negb]. by rewrite run_bind, run_lifted, Hr by apply still_registered_trackers.
  - cbn [bind call run] in Hrun. destruct (named_contributor _ _ Hn) as [_ Hid].
    set (c1 := set_contributor_meta (RemoveFinalizer ContributorFinalizer (c_meta c)) c) in *.
    assert (contributor_id c1 = (kind, ns, name)) as Hid1 by (rewrite <- Hid; unfold c1; by destruct c).
    unfold cluster_serve in Hrun. rewrite Hid1, Hn in Hrun. cbn [trackers contributor with_contributor] in Hrun.
    set (c2 := set_contributor_meta _ c) in Hrun.
    assert (ContainsFinalizer ContributorFinalizer (c_meta c2) = false) as Hf2.
    { unfold c2, c1. destruct c; cbn; apply bool_decide_eq_false; by intros [? _]%list_elem_of_filter. }
    assert (contributor_id c2 = (kind, ns, name) /\ deleting (c_meta c2) = true) as [Hid2 Hd2]
      by (rewrite <- Hid, <- Hd; unfold c2; by destruct c).
    clearbody c2. destruct (deleting (c_meta c) && _); cbn in Hrun; injection Hrun as <- <-; intros x.
    + by apply run_retries_nothing.
    + rewrite (run_deleting _ _ c2); [|unfold named; cbn; by rewrite Hid2, bool_decide_true|done].
      unfold ContributorReconciler.reconcileDelete. by rewrite Hf2.
  - by injection Hrun as <- <-.
Qed.

Lemma invalid_settles now trs c e es :
  named kind ns name (mkCluster trs (Some c)) = Some c -> deleting (c_meta c) = false ->
  Validate c (Some isNamespacedKind) = e :: es ->
  exists c', run (cluster_serve review now) reconcile (mkCluster trs (Some c)) = (done_, mkCluster trs (Some c')) /\
    settles done_ (mkCluster trs (Some c')).
Proof.
  intros Hn Hd Hv. set (c' := set_contributor_status (erred now c "InvalidSpec" (text (aggregate_error (e :: es)))) c).
  exists c'. split.
  - rewrite (run_invalid _ _ c Hn _ _ Hd Hv). unfold setInvalid. by rewrite run_setStatusError.
  - intros x. rewrite (run_invalid _ _ c' (named_same _ _ _ _ _ Hn) e es); [|unfold c'; by rewrite meta_set_status_c|unfold c'; by rewrite Validate_same].
    unfold setInvalid. rewrite run_setStatusError. unfold c' at 1. rewrite erred_rests. unfold c'.
    by rewrite status_set_contributor, set_status_set.
Qed.

Lemma live_settles now trs c o s1 :
  named kind ns name (mkCluster trs (Some c)) = Some c -> deleting (c_meta c) = false ->
  Validate c (Some isNamespacedKind) = [] -> ContainsFinalizer ContributorFinalizer (c_meta c) = true ->
  effective_mode (GetPatchSpec c) = TargetModeSingle ->
  wf trs -> fence_named (TargetKeyFor c) trs ->
  run (cluster_serve review now) reconcile (mkCluster trs (Some c)) = (o, s1) -> Err_of o = None ->
  exists c1, contributor s1 = Some c1 /\ c_meta c1 = c_meta c /\ o = requeue_after (until_check now (checked now c)) /\
    forall now', run (cluster_serve review now') reconcile s1 =
      (requeue_after (until_check now' (checked now' c1)), mkCluster (trackers s1) (Some (checked now' c1))).
Proof.
  intros Hn Hd Hv Hf Hm Hw Hfence Hrun Hok. rewrite (run_live _ _ c Hn trs) in Hrun by done.
  destruct (ensure_settles (TargetKeyFor c) c now trs Hw Hfence) as (ref & trs' & Hens & Hread).
  destruct (checked_status now c) as [st0 Ec0]. set (c0 := checked now c) in *.
  rewrite run_lifted, Hens in Hrun by apply ensureTracker_trackers. rewrite run_bind in Hrun.
  destruct (observe_targets_read (ContributorRefOf c) [TargetKeyFor c] trs' [ref] (mkTally 0 0 0 0)) as [[[observed n]|e] Hobs].
  2: { unfold syncStatus in Hrun. rewrite run_bind, run_lifted in Hrun by apply observe_targets_trackers.
       rewrite Ec0, ref_same, Hobs in Hrun. by injection Hrun as <- <-. }
  rewrite (run_syncStatus _ _ _ _ _ _ observed n) in Hrun by (by rewrite Ec0, ref_same). injection Hrun as <- <-. cbn [length].
  set (c1 := set_contributor_status (synced now c0 _ _ _ _) c0).
  assert (exists st1, c1 = set_contributor_status st1 c) as [st1 E1] by (unfold c1; rewrite Ec0, set_status_set; by eexists).
  exists c1. split; [done|]. split; [by rewrite E1, meta_set_status_c|]. split; [done|]. intros now'. cbn [trackers].
  assert (named kind ns name (mkCluster trs' (Some c1)) = Some c1) as Hn1 by (rewrite E1; apply (named_same _ _ _ _ _ Hn)).
  rewrite (run_live _ _ c1 Hn1 trs') by (by rewrite ?E1, ?meta_set_status_c, ?Validate_same, ?spec_same).
  rewrite run_lifted by apply ensureTracker_trackers.
  assert (in_sync (checked now' c1) (Z.of_nat 1) [ref] observed n) as Hsync by apply checked_in_sync, synced_in_sync.
  destruct (checked_status now' c1) as [st2 E2].
  assert (ContributorRefOf (checked now' c1) = ContributorRefOf c) as Href by (by rewrite E2, E1, !ref_same).
  assert (TargetKeyFor c1 = TargetKeyFor c /\ ensureTracker true c1 (TargetKeyFor c) = ensureTracker true c (TargetKeyFor c)) as [-> ->]
    by (rewrite E1; by destruct c).
  rewrite Hread, run_bind, (run_syncStatus _ _ _ _ _ _ observed n) by (by rewrite Href).
  cbn [length]. rewrite synced_rests by done. by rewrite set_status_self.
Qed.

(** (C25) A contributor's reconcile converges in one pass.  Against a server that answers faithfully, once
    a reconcile of a single-target contributor has succeeded without asking to run again at once, a
    second one, at any later time, succeeds too and writes no tracker.  It leaves the contributor as it is,
    the transition times of its conditions included, unless the writer on record is due to be authorized
    again; then it asks the authorizer, records the answer, the time if it was allowed and its name, and
    changes nothing else.  It returns what the first one returned, but for the delay until the next check
    of the authorization where there is one to wait for.  All this whether the contributor was new,
    waiting, applied, invalid or being deleted, and whether or not its reconcile had to promote a
    tracker. *)
Theorem contributor_settles (now now' : Z) (s s1 : cluster) (o : outcome)
    (Hwf : wf (trackers s))
    (Hc : forall c, contributor s = Some c ->
       effective_mode (GetPatchSpec c) = TargetModeSingle /\ fence_named (TargetKeyFor c) (trackers s))
    (Hrun : run (cluster_serve review now) reconcile s = (o, s1))
    (Hok : Err_of o = None) (Hdone : Requeue o = false) :
  let '(o', s') := run (cluster_serve review now') reconcile s1 in
  Err_of o' = None /\ Requeue o' = false /\ trackers s' = trackers s1 /\
  (s' = s1 \/ exists c1 user, contributor s1 = Some c1 /\ due now' c1 = Some user /\ contributor s' = Some (rechecked now' user c1)) /\
  (o' = o \/ exists c', contributor s' = Some c' /\ ~ nothing_to_check c' /\ o' = requeue_after (until_check now' c')).
Proof.
  assert (settles o s1 -> let '(o', s') := run (cluster_serve review now') reconcile s1 in
    Err_of o' = None /\ Requeue o' = false /\ trackers s' = trackers s1 /\
    (s' = s1 \/ exists c1 user, contributor s1 = Some c1 /\ due now' c1 = Some user /\ contributor s' = Some (rechecked now' user c1)) /\
    (o' = o \/ exists c', contributor s' = Some c' /\ ~ nothing_to_check c' /\ o' = requeue_after (until_check now' c'))) as Hsame
    by (intros H; rewrite (H now'); auto 6).
  destruct (named kind ns name s) as [c|] eqn:Hn.
  2: { apply Hsame. rewrite run_retries_nothing in Hrun by done. injection Hrun as <- <-. intros x. by apply run_retries_nothing. }
  destruct (named_contributor _ _ Hn) as [Es _]. destruct s as [trs c0]. cbn in Es, Hwf, Hc. subst c0.
  destruct (Hc _ eq_refl) as (Hm & Hfence).
  destruct (deleting (c_meta c)) eqn:Hd.
  { apply Hsame. rewrite (run_deleting _ _ c) in Hrun by done. by eapply delete_settles. }
  destruct (Validate c (Some isNamespacedKind)) as [|e es] eqn:Hv.
  2: { apply Hsame. destruct (invalid_settles now trs c e es Hn Hd Hv) as (c' & Hr & Hs). rewrite Hrun in Hr. by injection Hr as -> ->. }
  destruct (ContainsFinalizer ContributorFinalizer (c_meta c)) eqn:Hf.
  2: { destruct (run_unheld now _ c Hn Hd Hv Hf) as [H|H]; rewrite Hrun in H; cbn in H; congruence. }
  destruct (live_settles now trs c o s1 Hn Hd Hv Hf Hm Hwf Hfence Hrun Hok) as (c1 & Hc1 & Hmeta & Ho & ->).
  split; [done|]. split; [done|]. split; [done|]. cbn [contributor]. split.
  - unfold checked. destruct (due now' c1) as [user|] eqn:Edue; [right; by exists c1, user|left]. by destruct s1; cbn in *; subst.
  - assert (forall x, c_meta x = c_meta c -> nothing_to_check c -> until_check now' x = until_check now (checked now c)) as Hidle.
    { intros x E Hno. destruct (checked_status now c) as [st ->]. unfold until_check. rewrite meta_set_status_c, E.
      destruct Hno as [->|[Hle| ->]]; [done|by rewrite (proj2 (Z.leb_le _ _) Hle), orb_true_r|done]. }
    destruct (checked_status now' c1) as [st E].
    assert (c_meta (checked now' c1) = c_meta c) as Hmeta' by (by rewrite E, meta_set_status_c).
    assert (nothing_to_check c \/ ~ nothing_to_check c) as [Hno|Hno].
    { unfold nothing_to_check. destruct authorizer; [|auto]. destruct (Z.leb_spec ReauthorizeAfter 0); [auto|].
      destruct (IdentityFromAnnotations (c_meta c)); [right|auto]. intros [?|[?|?]]; (done || lia). }
    + left. rewrite Ho. f_equal. by apply Hidle.
    + right. eexists. split; [done|]. split; [|done]. unfold nothing_to_check. by rewrite Hmeta'.
Qed.

End Settling.

(** ** At work

    A contributor that has just come, its writer on record, nothing else there: its first reconcile has
    the writer authorized and creates the tracker.  While that authorization lasts a reconcile changes
    nothing; once it has run out the time of the last check changes. *)

Definition annotated (c : Contributor) : Contributor :=
  let m := c_meta c in
  set_contributor_meta (mkObjectMeta (Name m) (Namespace m) (UID m) (ResourceVersion m) (Generation m) (CreationTimestamp m)
    (DeletionTimestamp m) (Finalizers m) {[AuthorizedIdentityAnnotation := marshal_identity sample_identity]}) c.

Definition fresh : cluster := mkCluster (mkStore ∅ []) (Some (annotated new_patch)).

Definition passes (now : Z) (s : cluster) : outcome * cluster :=
  run (cluster_serve allows_all now)
    (ContributorReconciler.Reconcile (K := plain_library) true true 100 KindResourcePatch "team-a" "a") s.

Lemma nothing_there id : live (trackers fresh) !! id = None.
Proof. apply lookup_empty. Qed.

Definition authorized_at (s : cluster) : option Z := c ← contributor s; LastAuthorizedTime (GetPatchStatus c).

Lemma contributor_settles_witness :
  size (live (trackers (passes 5 fresh).2)) = 1%nat /\
  (passes 9 (passes 5 fresh).2).2 = (passes 5 fresh).2 /\
  trackers (passes 200 (passes 5 fresh).2).2 = trackers (passes 5 fresh).2 /\
  authorized_at (passes 5 fresh).2 = Some 5%Z /\ authorized_at (passes 200 (passes 5 fresh).2).2 = Some 200%Z.
Proof.
  assert (forall now', let '(o', s') := passes now' (passes 5 fresh).2 in
    Err_of o' = None /\ Requeue o' = false /\ trackers s' = trackers (passes 5 fresh).2 /\
    (s' = (passes 5 fresh).2 \/ exists c1 user, contributor (passes 5 fresh).2 = Some c1 /\ due true 100 now' c1 = Some user /\
       contributor s' = Some (rechecked allows_all now' user c1)) /\
    (o' = (passes 5 fresh).1 \/ exists c', contributor s' = Some c' /\ ~ nothing_to_check true 100 c' /\
       o' = requeue_after (until_check true 100 now' c'))) as H.
  { intros now'. apply (contributor_settles (K := plain_library) true 100 allows_all KindResourcePatch "team-a" "a" 5 now' fresh).
    - split; [intros id t Hl; by rewrite nothing_there in Hl|]. by intros t t' ?%elem_of_nil.
    - intros c [= <-]. split; [vm_refl|]. intros t p Hl. by rewrite nothing_there in Hl.
    - apply surjective_pairing.
    - vm_refl.
    - vm_refl. }
  split; [vm_refl|]. split; [|split; [|split; vm_refl]].
  - specialize (H 9%Z). destruct (passes 9 (passes 5 fresh).2) as [o' s']. destruct H as (_ & _ & _ & [->|(c1 & user & Hc & Hd & _)] & _); [done|].
    assert (match contributor (passes 5 fresh).2 with Some c => is_some (due true 100 9 c) | None => false end = false) as E by vm_refl.
    revert E. by rewrite Hc, Hd.
  - specialize (H 200%Z). destruct (passes 200 (passes 5 fresh).2) as [o' s']. by destruct H as (_ & _ & ? & _).
Defined.

End ContributorSettles.
