(* ===== verification/HandoverCompletes.v ===== *)
(** A promotion gets done from whatever earlier attempts left: promotions and passes of the old tracker
    may have crashed at any call, worked from stale caches and lost replies, and one undisturbed
    promotion and one undisturbed pass still end it. *)
From stdpp Require Import strings base list gmap fin_maps relations.
From S2P Require Import Prelude GoStrings Values ApiTypes Scope Render Client ProgramLogic Applier TrackerLogic TrackerSpec Controller Traces.
From S2P Require Import Promotion PromotionSpec TrackerReconciler World TrackerStore Handover HandoverSpec HandoverGuarantees ContributorSettles.
Local Open Scope string_scope.
Local Open Scope list_scope.
Local Open Scope go_scope.

Module HandoverCompletes.
Import GoStrings Values ApiTypes Scope Render Client ProgramLogic Applier TrackerLogic TrackerSpec Controller Traces.
Import Promotion PromotionSpec TrackerReconciler World TrackerStore Handover HandoverSpec HandoverGuarantees ContributorSettles.

Section Completion.
Variable key : TargetKey.
Variable origin : SharedResourceStatus.
Local Abbreviation old_id := (Handover.old_id key).
Local Abbreviation new_id := (Handover.new_id key).
Local Abbreviation al := (Handover.policy_ key).
Local Abbreviation absorbs := (Handover.absorbs origin).
Local Abbreviation took_over := (Handover.took_over key origin).

(** ** The others

    They write and remove other objects, write the successor without undoing what it took over, and
    delete the old tracker; they do not remove the successor. *)
Inductive bystanders (s : store) : store -> Prop :=
| bystander_writes t : id_of t <> old_id -> id_of t <> new_id -> unused s (id_of t) (version_of t) ->
    bystanders s (commit t s)
| bystander_removes id : id <> old_id -> id <> new_id -> bystanders s (forget id s)
| bystander_keeps c t : live s !! new_id = Some c -> id_of t = new_id -> unused s (id_of t) (version_of t) ->
    (absorbs (GetTrackerStatus c) -> absorbs (GetTrackerStatus t)) -> bystanders s (commit t s)
| bystander_deletes s' : deleted old_id s s' -> bystanders s s'.

Lemma bystanders_environment s s' : bystanders s s' -> environment key s s'.
Proof.
  intros []; [by apply others_write|by apply others_remove| |by apply others_delete].
  apply others_write; [|done]. intros E. by rewrite E in *.
Qed.

(** ** What is left

    A successor that took over is there with it; and a version of the old tracker has its one
    finalizer or none, and names the successor if anything. *)
Definition version_fit (t : Tracker) : Prop :=
  (Finalizers (tracker_meta t) = [TrackerFinalizer] \/ Finalizers (tracker_meta t) = []) /\
  forall p, PromotedTo (GetTrackerStatus t) = Some p -> Promotion_Name p = TrackerName key.

Definition delivered (s : store) : Prop :=
  took_over s -> exists c, live s !! new_id = Some c /\ absorbs (GetTrackerStatus c).

Definition intact (s : store) : Prop :=
  store_ok key origin s /\ delivered s /\ forall t, t ∈ past s -> id_of t = old_id -> version_fit t.

Lemma old_not_new : old_id <> new_id.
Proof. intros [=]. Qed.

(** Nothing happened to the successor. *)
Lemma delivered_same s s' :
  live s' !! new_id = live s !! new_id -> adds s s' (fun t => id_of t <> new_id) -> delivered s -> delivered s'.
Proof.
  intros El Hadd Hd (t & Ht & Hid & Habs). rewrite El. apply Hd. exists t.
  destruct (Hadd _ Ht) as [?|?]; [by split|done].
Qed.

Lemma delivered_commit t s : id_of t <> new_id -> delivered s -> delivered (commit t s).
Proof. intros Hid. apply delivered_same; [by apply same_commit|by apply adds_commit]. Qed.

Lemma delivered_forget id s : id <> new_id -> delivered s -> delivered (forget id s).
Proof. intros Hid. apply delivered_same; [by apply same_forget|]. by left. Qed.

(** The successor is written, and keeps what it had. *)
Lemma delivered_new t s :
  id_of t = new_id -> (took_over s -> absorbs (GetTrackerStatus t)) -> delivered (commit t s).
Proof.
  intros Hid Ha (t' & [->|Ht']%elem_of_cons & Hid' & Habs); exists t; cbn; rewrite Hid, lookup_insert_eq; [done|].
  split; [done|]. apply Ha. by exists t'.
Qed.

Lemma fit_commit t s :
  (id_of t = old_id -> version_fit t) -> (forall x, x ∈ past s -> id_of x = old_id -> version_fit x) ->
  forall x, x ∈ past (commit t s) -> id_of x = old_id -> version_fit x.
Proof. intros Ht Hs x [->|Hx]%elem_of_cons; auto. Qed.

(** *** A deletion of the old tracker *)

Lemma intact_deleted s s' : intact s -> deleted old_id s s' -> intact s'.
Proof.
  intros (Hs & Hd & Hf) H. split; [by eapply store_ok_deleted|]. destruct H as (cur & Hcur & H).
  pose proof Hs as ((Hlive & _) & _). destruct (Hlive _ _ Hcur) as [Hpast Hid].
  case_bool_decide; [subst s'; split; [by apply delivered_forget|done]|].
  destruct H as [[_ ->]|(rv & z & _ & ->)]; [done|]. split.
  - apply delivered_commit; [|done]. autorewrite with trackers. by rewrite Hid.
  - apply fit_commit; [|done]. intros _. destruct (Hf _ Hpast Hid). unfold version_fit. by autorewrite with trackers.
Qed.

(** *** The calls *)

Lemma intact_writes_old s s' h t t' :
  intact s -> knows key origin s h -> writes_old key h t -> status_updated t t' s s' -> intact s'.
Proof.
  intros (Hs & Hd & Hf) Hk Hw Hu.
  destruct (writes_old_ok _ _ _ _ _ _ _ Hs Hk Hw Hu) as (Hs' & _ & Hid' & t0 & Hl0 & _ & _ & Hm).
  split; [done|]. pose proof Hs as ((Hlive & _) & _). destruct (Hlive _ _ Hl0) as [Hpast Hid0].
  destruct Hu as (cur & rv & Hcur & _ & _ & Et' & ->).
  assert (id_of t = old_id) as Hid by (destruct Hw as (x & st & _ & ? & -> & _); by rewrite id_of_status).
  rewrite Hid, Hl0 in Hcur. injection Hcur as <-. split; [apply delivered_commit; [by rewrite Hid'|done]|].
  apply fit_commit; [|done]. intros _. destruct (Hf _ Hpast Hid0) as [Hfin Hname]. split.
  - rewrite Et'. by autorewrite with trackers.
  - intros p' Ep'. rewrite Ep' in Hm. destruct (PromotedTo (GetTrackerStatus t0)) as [p|]; cbn in Hm.
    + destruct Hm as (_ & _ & -> & _). by apply Hname.
    + by destruct Hm.
Qed.

Lemma intact_writes_new s s' h t t' :
  intact s -> knows key origin s h -> writes_new key h t -> status_updated t t' s s' -> intact s'.
Proof.
  intros (Hs & Hd & Hf) Hk Hw Hu. pose proof (writes_new_absorbs _ _ _ _ _ Hs Hk Hw) as Habs.
  destruct (writes_new_ok _ _ _ _ _ _ _ Hs Hk Hw Hu) as (Hs' & _ & _ & Hid' & _). split; [done|].
  destruct Hu as (cur & rv & _ & _ & _ & Et' & ->). split.
  - apply delivered_new; [done|]. intros _. rewrite Et'. by autorewrite with trackers.
  - apply fit_commit; [|done]. rewrite Hid'. intros [=].
Qed.

Lemma intact_retires s s' h t t' :
  intact s -> knows key origin s h -> participant key h _ (UpdateTracker t) -> updated t t' s s' -> intact s'.
Proof.
  intros (Hs & Hd & Hf) Hk (t0 & Hr & Hid & Had & ->) Hu.
  destruct (retires_ok _ _ _ _ _ _ _ Hs Hk Hr Hid Had Hu) as (Hs' & _ & _ & Hid' & Hl0 & _). split; [done|].
  pose proof Hs as ((Hlive & _) & _). destruct (Hlive _ _ Hl0) as [Hpast _].
  assert (id_of (drop_tracker_finalizer t0) = old_id) as Hdrop.
  { unfold drop_tracker_finalizer, RemoveFinalizer. by rewrite id_of_finalizers. }
  destruct Hu as (cur & rv & Hcur & _ & _ & Et' & ->). rewrite Hdrop in *. rewrite Hl0 in Hcur. injection Hcur as <-.
  assert (version_fit t') as Hfit.
  { destruct (Hf _ Hpast Hid) as [Hfin Hname]. split.
    - right. rewrite Et'. autorewrite with trackers. unfold drop_tracker_finalizer. rewrite meta_set_meta. cbn.
      by destruct Hfin as [->| ->].
    - rewrite Et'. by autorewrite with trackers. }
  assert (delivered (commit t' s)) as Hd' by (apply delivered_commit; [by rewrite Hid'|done]).
  destruct (_ && _); [split; [by apply delivered_forget|]|split; [done|]]; by apply fit_commit.
Qed.

Lemma intact_creates s s' t :
  intact s -> store_ok key origin s' -> id_of t = new_id -> created t s s' -> intact s'.
Proof.
  intros (Hs & Hd & Hf) Hs' Hid (Hn & rv & _ & ->). split; [done|]. rewrite Hid in Hn. split.
  - apply delivered_new; [by autorewrite with trackers|]. intros Ht. destruct (Hd Ht) as (c & Hc & _). by rewrite Hn in Hc.
  - apply fit_commit; [|done]. autorewrite with trackers. rewrite Hid. intros [=].
Qed.

Lemma intact_call s h R (c : ctlE R) r s' :
  intact s -> knows key origin s h -> al h R c -> answers R s c r s' -> intact s'.
Proof.
  intros Hi Hk Hal Ha. destruct (call_ok _ _ _ _ _ _ _ _ (proj1 Hi) Hk Hal Ha) as (Hs' & _ & _).
  specialize (Hal (proj1 (proj2 Hk))).
  destruct c; try done; cbn in Ha, Hal; try (by subst s').
  - by destruct Ha as [-> _].
  - destruct Ha as [[_ ->]|Hc]; [done|]. by eapply intact_creates.
  - assert (forall t', updated t t' s s' -> intact s') as H by (intros t'; by eapply intact_retires).
    destruct r as [t'|e]; [by eapply H|]. destruct Ha as [->|[t' ?]]; [done|]. by eapply H.
  - assert (forall t', status_updated t t' s s' -> intact s') as H.
    { intros t'. destruct Hal; [by eapply intact_writes_old|by eapply intact_writes_new]. }
    destruct r as [t'|e]; [by eapply H|]. destruct Ha as [->|[t' ?]]; [done|]. by eapply H.
  - destruct Ha as [[_ ->]|Hd]; [done|]. rewrite Hal in Hd. by eapply intact_deleted.
Qed.

Lemma intact_bystanders s s' : intact s -> bystanders s s' -> intact s'.
Proof.
  intros Hi Hb. destruct (environment_ok _ _ _ _ (proj1 Hi) (bystanders_environment _ _ Hb)) as [Hs' _].
  destruct Hb as [t Ho Hn Hu|id Ho Hn|c t Hc Hid Hu Hkeep|s' Hdel]; [..|by eapply intact_deleted];
    destruct Hi as (Hs & Hd & Hf); split; try done.
  - split; [by apply delivered_commit|]. by apply fit_commit.
  - by split; [apply delivered_forget|].
  - split; [|apply fit_commit; [|done]; rewrite Hid; intros [=]]. apply delivered_new; [done|]. intros Ht. apply Hkeep.
    destruct (Hd Ht) as (c' & Hc' & Ha). rewrite Hc in Hc'. by injection Hc' as ->.
Qed.

Lemma intact_sound : sound_policy (anyone answers) bystanders (takes_part key) al intact (anyone (knows key origin)).
Proof.
  destruct (participants_sound key origin) as [Hst Hnil Hcall Henv]. split.
  - exact Hst.
  - intros i s (Hs & _). by apply Hnil.
  - intros i s h R c r s' Hi Hk Hal Ha. destruct (Hcall i _ _ _ _ _ _ (proj1 Hi) Hk Hal Ha) as (_ & ? & ?).
    split; [by eapply intact_call|done].
  - intros s s' Hi Hb. split; [by eapply intact_bystanders|].
    by apply (Henv _ _ (proj1 Hi)), bystanders_environment.
Qed.

(** ** The end of it *)

Lemma same_book_absorbs st st' : same_book origin st -> Handover.absorbs st st' -> absorbs st'.
Proof. intros (Hc & Hcr & Hp). unfold Handover.absorbs. by rewrite Hc, Hcr, Hp. Qed.

(** The promotion, with the old tracker there or gone. *)
Lemma promotion_runs now s :
  intact s ->
  exists s1 c, run (serve now) (promoteIfNeeded true key) s = (None, s1) /\
    live s1 !! new_id = Some c /\ absorbs (GetTrackerStatus c) /\
    (live s1 !! old_id = None \/ exists t, live s1 !! old_id = Some t /\ id_of t = old_id /\
      PromotedTo (GetTrackerStatus t) = Some (mkPromotionRef (TrackerName key) true) /\
      (Finalizers (tracker_meta t) = [TrackerFinalizer] \/ Finalizers (tracker_meta t) = [])).
Proof.
  intros ((Hw & Hp & Hl) & Hd & Hf). pose proof Hw as [Hlive _]. destruct (live s !! old_id) as [t|] eqn:Et.
  2: { destruct (Hd (Hl eq_refl)) as (c & Hc & Ha). exists s, c. split; [by apply promote_rested; left|auto]. }
  destruct (Hlive _ _ Et) as [Hpast Hid]. destruct (Hf _ Hpast Hid) as [Hfin Hname].
  destruct (Hp _ Hpast Hid) as (Hbook & Hto & _). destruct (already_adopted (GetTrackerStatus t)) eqn:Ea.
  - destruct (Hd (Hto eq_refl)) as (c & Hc & Ha). exists s, c.
    split; [apply promote_rested; right; by exists t|]. split; [done|]. split; [done|]. right. exists t.
    split; [done|]. split; [done|]. split; [|done]. unfold already_adopted in Ea.
    destruct (PromotedTo _) as [[n a]|]; [|done]. cbn in Ea. subst a. by rewrite <- (Hname _ eq_refl).
  - destruct (run_promote key now s t) as (s1 & t1 & c & Hrun & Hl1 & Hid1 & Hp1 & Hf1 & Hc & Habs);
      [intros id x ?; by apply Hlive|done..|].
    exists s1, c. split; [done|]. split; [done|]. split; [by eapply same_book_absorbs|]. right. exists t1.
    split; [done|]. split; [done|]. split; [done|]. by rewrite Hf1.
Qed.

(** The old tracker's pass when it has no finalizer any more: it is deleted. *)
Lemma run_delete now s t c :
  live s !! old_id = Some t -> id_of t = old_id ->
  PromotedTo (GetTrackerStatus t) = Some (mkPromotionRef (TrackerName key) true) ->
  Finalizers (tracker_meta t) = [] -> live s !! new_id = Some c ->
  exists s', run (serve now) (retire key) s = (done_, s') /\ live s' !! old_id = None /\ live s' !! new_id = Some c.
Proof.
  intros Hl Hid Hp Hf Hc. unfold retire. cbn [bind call run]. rewrite (serve_get _ _ _ _ _ _ _ Hl). cbn iota beta.
  unfold IsFenced, finishPromotion. rewrite Hp. cbn [Promotion_Name Adopted negb bind call run].
  rewrite (serve_get _ _ _ _ _ _ _ Hc). cbn iota beta. unfold release_finalizer, ContainsFinalizer. rewrite Hf.
  rewrite bool_decide_false by apply not_elem_of_nil. cbn [bind call run]. unfold serve. rewrite Hid, Hl, Hf.
  cbn. eexists. split; [reflexivity|]. cbn. split; [by rewrite lookup_delete_eq|]. by rewrite lookup_delete_ne.
Qed.

Lemma retire_runs now s c :
  live s !! new_id = Some c ->
  (live s !! old_id = None \/ exists t, live s !! old_id = Some t /\ id_of t = old_id /\
      PromotedTo (GetTrackerStatus t) = Some (mkPromotionRef (TrackerName key) true) /\
      (Finalizers (tracker_meta t) = [TrackerFinalizer] \/ Finalizers (tracker_meta t) = [])) ->
  exists s', run (serve now) (retire key) s = (done_, s') /\ live s' !! old_id = None /\ live s' !! new_id = Some c.
Proof.
  intros Hc [Hl|(t & Hl & Hid & Hp & [Hf|Hf])].
  - exists s. split; [|done]. unfold retire. cbn [bind call run]. by rewrite (serve_get_none _ _ _ _ _ _ Hl).
  - by eapply run_retire.
  - by eapply run_delete.
Qed.

Lemma initial_intact s :
  initial key origin s -> (forall t, live s !! old_id = Some t -> Finalizers (tracker_meta t) = [TrackerFinalizer]) ->
  (forall t, t ∈ past s -> id_of t = new_id -> live s !! new_id = Some t) -> intact s.
Proof.
  intros Hi Hfin Hnew. split; [by apply initial_ok|]. destruct Hi as (_ & t & Hl & Hst & _ & Hf & Hv). split.
  - intros (x & Hx & Hid & Ha). exists x. by rewrite (Hnew _ Hx Hid).
  - intros x Hx Hid. rewrite (Hv _ Hx Hid). split; [left; by apply Hfin|]. rewrite Hst. intros p Ep.
    unfold IsFenced in Hf. by rewrite Ep in Hf.
Qed.

End Completion.

(** (C20) A promotion gets done.  Start with the old tracker unfenced, with its one finalizer, and let
    any number of promotions and passes of the fenced tracker run interleaved and crash after any of
    their calls, over caches that lag and writes whose reply is lost, while others write the
    successor without undoing what it took over and delete the old tracker.  From every state this
    can leave - nothing written yet, fenced, successor created, state handed over, flagged, unfenced
    again by a stale pass, finalizer released, marked for deletion, or gone - one undisturbed promotion
    and one undisturbed pass of the old tracker finish without error: the old tracker is gone, and
    the successor is there with everything a revert needs of what the old one had at the start. *)
Theorem promotion_completes (key : TargetKey) (origin : SharedResourceStatus) (s : store) (w : world ctlE store) (now1 now2 : Z)
    (Hinit : initial key origin s)
    (Hfin : forall t, live s !! old_id key = Some t -> Finalizers (tracker_meta t) = [TrackerFinalizer])
    (Hnew : forall t, t ∈ past s -> id_of t = new_id key -> live s !! new_id key = Some t)
    (Hreach : reachable (anyone answers) (bystanders key origin) (takes_part key) s w) :
  exists s1 s2 c, run (serve now1) (promoteIfNeeded true key) w.2 = (None, s1) /\
    run (serve now2) (retire key) s1 = (done_, s2) /\
    live s2 !! old_id key = None /\ live s2 !! new_id key = Some c /\ absorbs origin (GetTrackerStatus c).
Proof.
  destruct (consistent_reachable _ _ _ _ _ _ (intact_sound key origin) _ _ (initial_intact _ _ _ Hinit Hfin Hnew) Hreach)
    as [Hi _].
  destruct (promotion_runs key origin now1 _ Hi) as (s1 & c & R1 & Hc & Ha & Hold).
  destruct (retire_runs key now2 s1 c Hc Hold) as (s2 & R2 & Hgone & Hc2). by exists s1, s2, c.
Qed.

(** ** At work

    The first promotion crashes having flagged the handover, the pass of the fenced tracker having
    released its finalizer. *)
Definition crashed_world : world ctlE store :=
  schedule (total (serve 0)) (replicate 12 0 ++ replicate 3 1)%nat
    ([([], as_thread (promoteIfNeeded true sample_key)); ([], as_thread (retire sample_key))], sample_start).

Lemma crashed_threads :
  attained (anyone answers) (bystanders sample_key (GetTrackerStatus sample_old)) (takes_part sample_key) wf sample_start
    ([([], as_thread (promoteIfNeeded true sample_key)); ([], as_thread (retire sample_key))], sample_start).
Proof.
  apply (start_attained _ _ _ _ _ [_]); [by right|]. apply (start_attained _ _ _ _ _ []); [by left|].
  apply attained_start, only_wf.
Qed.

(** At that point the old tracker is flagged and holds no finalizer, but is still there. *)
Example crashed_late :
  option_map (fun t => (already_adopted (GetTrackerStatus t), Finalizers (tracker_meta t)))
    (live crashed_world.2 !! old_id sample_key) = Some (true, []).
Proof. vm_refl. Qed.

Lemma promotion_completes_witness :
  exists s1 s2 c, run (serve 7) (promoteIfNeeded true sample_key) crashed_world.2 = (None, s1) /\
    run (serve 8) (retire sample_key) s1 = (done_, s2) /\ live s2 !! old_id sample_key = None /\
    live s2 !! new_id sample_key = Some c /\ absorbs (GetTrackerStatus sample_old) (GetTrackerStatus c).
Proof.
  apply (promotion_completes sample_key (GetTrackerStatus sample_old) sample_start crashed_world 7 8).
  - apply sample_initial.
  - intros t E. assert (live sample_start !! old_id sample_key = Some sample_old) as E' by vm_refl.
    rewrite E' in E. by injection E as <-.
  - intros t ->%list_elem_of_singleton [=].
  - apply (schedule_attained _ _ _ (total (serve 0)) wf (total_answers _ _ _ (anyone (serve_sound 0)))), crashed_threads.
Defined.

End HandoverCompletes.
