(* ===== verification/Lifecycle.v ===== *)
(** The life of a contributor, from its creation to its deletion: its own reconcile and its tracker's,
    one after the other, on one cluster. *)
From stdpp Require Import strings base list gmap fin_maps.
From S2P Require Import Prelude GoStrings Values ApiTypes Conditions Identity Scope Kube FieldPath FieldPathNotation FieldPathUpdate FieldPathRoundTrip FieldPathPresence RenderSpec.
From S2P Require Import Render Client Applier CsaSpec CsaSettles TrackerLogic TrackerSpec Controller TrackerTraces Promotion PromotionSpec.
From S2P Require Import ContributorReconciler ContributorGuarantees ProgramLogic TrackerReconciler TrackerOutcomes Traces TrackerStore Handover HandoverGuarantees.
From S2P Require Import ContributorSettles Scene TrackerSettles.
Local Open Scope string_scope.
Local Open Scope list_scope.
Local Open Scope go_scope.

Module Lifecycle.
Import GoStrings Values ApiTypes Conditions Identity Scope Kube FieldPath FieldPathNotation FieldPathUpdate FieldPathRoundTrip FieldPathPresence RenderSpec.
Import Render Client Applier CsaSpec CsaSettles TrackerLogic TrackerSpec Controller TrackerTraces Promotion PromotionSpec.
Import ContributorReconciler ContributorGuarantees ProgramLogic TrackerReconciler TrackerOutcomes Traces TrackerStore Handover HandoverGuarantees.
Import ContributorSettles Scene TrackerSettles.

(** ** Versions of a contributor *)

(** [c'] is [c] at another time: status, finalizers and the deletion mark may differ. *)
Definition later (c c' : Contributor) : Prop :=
  ContributorRefOf c' = ContributorRefOf c /\ GetPatchSpec c' = GetPatchSpec c /\ IsClusterScoped c' = IsClusterScoped c /\
  Generation (c_meta c') = Generation (c_meta c) /\ CreationTimestamp (c_meta c') = CreationTimestamp (c_meta c) /\
  Annotations (c_meta c') = Annotations (c_meta c).

Lemma later_refl c : later c c.
Proof. done. Qed.

Lemma later_trans c c' c'' : later c c' -> later c' c'' -> later c c''.
Proof. intros (? & ? & ? & ? & ? & ?) (? & ? & ? & ? & ? & ?). repeat split; congruence. Qed.

Lemma later_status st c : later c (set_contributor_status st c).
Proof. by destruct c. Qed.

Lemma later_finalizers l c : later c (set_contributor_meta (with_finalizers l (c_meta c)) c).
Proof. by destruct c as [[[] ? ?]|[[] ? ?]]. Qed.

(** The object somebody has asked to delete. *)
Definition deleted_at (z : Z) (c : Contributor) : Contributor := set_contributor_meta (with_deletion z (c_meta c)) c.

Lemma later_deletion z c : later c (deleted_at z c).
Proof. by destruct c as [[[] ? ?]|[[] ? ?]]. Qed.

Section Later.
Variable c c' : Contributor.
Hypothesis Hlater : later c c'.

Lemma later_fields : Namespace (c_meta c') = Namespace (c_meta c) /\ Name (c_meta c') = Name (c_meta c) /\
  ContributorKind c' = ContributorKind c /\ UID (c_meta c') = UID (c_meta c).
Proof. destruct Hlater as ([= ? ? ? ?] & _). done. Qed.

Lemma later_key : TargetKeyFor c' = TargetKeyFor c.
Proof.
  destruct Hlater as (_ & Hs & Hc & _). destruct later_fields as (Hn & _). unfold TargetKeyFor, ResolveTargetNamespace. by rewrite Hs, Hc, Hn.
Qed.

Lemma later_index : targetKeysFor c' = targetKeysFor c.
Proof. unfold targetKeysFor. rewrite later_key. by destruct Hlater as (_ & -> & _). Qed.

Lemma later_valid look : Validate c' look = Validate c look.
Proof.
  destruct Hlater as (Hr & Hs & Hc & _). destruct later_fields as (Hn & _).
  unfold Validate. cbv zeta. by rewrite Hs, Hc, Hn.
Qed.

Lemma later_identity : identity_of c' = identity_of c.
Proof. destruct Hlater as (_ & Hs & Hc & _). destruct later_fields as (Hn & _). unfold identity_of. by rewrite Hs, Hc, Hn. Qed.

Lemma later_record st : recordFor c' st = recordFor c st.
Proof.
  destruct Hlater as (Hr & Hs & Hc & Hg & Ht & _). destruct later_fields as (Hn & Hm & Hk & _).
  unfold recordFor. by rewrite Hr, Hs, Hg, Ht, Hn, Hm, Hk.
Qed.

Lemma later_base : baseFor c' = baseFor c.
Proof. destruct Hlater as (_ & Hs & _). unfold baseFor. by rewrite Hs. Qed.

Lemma later_contributor_key : contributor_key c' = contributor_key c.
Proof. unfold contributor_key. by destruct Hlater as (-> & _). Qed.

End Later.

(** ** The system

    The scene of the tracker, and the contributor if there still is one. *)

Record system := mkSystem { sys_scene : scene; sys_contributor : option Contributor }.

(** What a listing of contributors finds. *)
Definition listing_of (c : option Contributor) (kind : string) (index ns : option string) : list Contributor :=
  match c with
  | None => []
  | Some c =>
      if String.eqb kind (ContributorKind c) &&
         match index with Some i => bool_decide (i ∈ targetKeysFor c) | None => true end &&
         match ns with Some n => String.eqb n (Namespace (c_meta c)) | None => true end
      then [c] else []
  end.

(** Whose turn it is to reconcile. *)
Inductive turn := OfContributor | OfTracker.

#[export] Instance turn_eq_dec : EqDecision turn.
Proof. solve_decision. Defined.

Section System.
Context {K : KubeLib} {JP : JsonPatch}.
Variable impersonation : bool.
(** The orders the loops of the tracker's pass of a given time range in. *)
Variable range_order : Z -> ranging.
(** The authorizer, if there is one, how long its word lasts, and what it finds. *)
Variable authorizer : bool.
Variable ReauthorizeAfter : Z.
Variable review : UserInfo -> Contributor -> bool * string.
Variable accept : string -> option object -> object -> res goerror object.
Variable merge : string -> option object -> object -> string -> bool -> res goerror object.

(** Every client can be built. *)
Definition contributor_pass (id : objid) (now : Z) (S : system) : outcome * system :=
  let '(o, cl) := run (cluster_serve review now)
    (ContributorReconciler.Reconcile true authorizer ReauthorizeAfter id.1.1 id.1.2 id.2)
    (mkCluster (sc_store (sys_scene S)) (sys_contributor S)) in
  (o, mkSystem (with_store (trackers cl) (sys_scene S)) (contributor cl)).

Definition tracker_pass (id : objid) (now : Z) (S : system) : outcome * system :=
  let '(o, sc) := run (scene_serve (fun _ => None) (listing_of (sys_contributor S)) accept merge now)
    (TrackerReconciler.Reconcile impersonation (range_order now) id.1.1 id.1.2 id.2) (sys_scene S) in
  (o, mkSystem sc (sys_contributor S)).

Local Abbreviation serves c now := (scene_serve (fun _ => None) (listing_of c) accept merge now).
Local Abbreviation serves_target := (target_serve accept merge).

(** ** One namespaced contributor of one namespaced target *)

Variable c : Contributor.
Local Abbreviation key := (TargetKeyFor c).
Local Abbreviation cid := ((ContributorKind c, Namespace (c_meta c), Name (c_meta c)) : objid).
Local Abbreviation tid := ((KindSharedResource, Key_Namespace key, TrackerName key) : objid).
Local Abbreviation tref := (mkTrackerRef KindSharedResource (TrackerName key) (Key_Namespace key)).

Hypothesis Hscope : IsClusterScoped c = false.
Hypothesis Htarget : IsClusterScopedTarget key = false.
Hypothesis Hmode : effective_mode (GetPatchSpec c) = TargetModeSingle.
Hypothesis Hnamed : Target_Name (Target (GetPatchSpec c)) <> "".
Hypothesis Hvalid : Validate c (Some isNamespacedKind) = [].
Hypothesis Hclient : client_side c.
Variable user : string.
Hypothesis Huser : identity_of c = Ok user.
Variable base : option object.
Hypothesis Hbase : baseFor c = Ok base.

Lemma kind_of : ContributorKind c = KindResourcePatch.
Proof. revert Hscope. by destruct c. Qed.

Lemma joins_at c' : later c c' -> join_id key c' = tid.
Proof.
  intros (_ & _ & Hc & _). unfold join_id, TrackerKindFor. rewrite Hc, Hscope, Htarget. cbn [orb].
  by unfold TrackerNamespace.
Qed.

Lemma index_of_contributor : targetKeysFor c = [TargetKey_String key].
Proof.
  unfold targetKeysFor. cbv zeta. rewrite Hmode. cbn. by apply String.eqb_neq in Hnamed as ->.
Qed.

(** The tracker of the contributor. *)
Definition tracks (t : Tracker) : Prop := id_of t = tid /\ targetRef t = mkTrackerTargetRef (Key_APIVersion key) (Key_Kind key) (Key_Name key) (Key_Namespace key).

Lemma tracks_key t : tracks t -> key_of t = key.
Proof. intros [_ H]. unfold key_of. rewrite H. by destruct key. Qed.

(** It finds its contributor and nobody else. *)
Lemma claimants_one t c' : tracks t -> later c c' -> claimants (listing_of (Some c')) t = [c'].
Proof.
  intros Ht Hl. destruct (later_fields _ _ Hl) as (Hn & _ & Hk & _). pose proof (tracks_key _ Ht) as Hkey. destruct Ht as [Hid Href].
  assert (TrackerIsClusterScoped t = false) as Hts by (by destruct t).
  assert (own_namespace t = Some (Namespace (c_meta c))) as Hns.
  { unfold own_namespace. rewrite Hts. f_equal. injection Hid as _ -> _. unfold TargetKeyFor, ResolveTargetNamespace. by rewrite Hscope. }
  assert (listing_of (Some c') KindResourcePatch (Some (TargetKey_String key)) (Some (Namespace (c_meta c))) = [c']) as Hfound.
  { unfold listing_of. rewrite Hk, kind_of, (later_index _ _ Hl), index_of_contributor, Hn, !String.eqb_refl.
    by rewrite bool_decide_true by (by left). }
  assert (forall self seen kind i n, filter (fun d => selects self seen d) (listing_of (Some c') kind i n) = []) as Hbound.
  { intros self seen kind i n. assert (selects self seen c' = false) as Hs.
    { unfold selects. destruct Hl as (_ & -> & _). unfold effective_mode in Hmode.
      destruct (String.eqb_spec (Target_Mode (Target (GetPatchSpec c))) TargetModeSelector) as [E|]; [by rewrite E in Hmode|].
      by rewrite andb_false_r. }
    unfold listing_of. destruct (_ && _); [|done]. rewrite filter_cons_False; [done|]. rewrite Hs. by intros []. }
  unfold claimants. cbv zeta. by rewrite Hts, Hns, Hkey, Hbound, Hfound.
Qed.

(** As whom it writes. *)
Definition who : string := if impersonation then user else "".

Lemma client_alone c' listing : later c c' -> client_of (fun _ => None) listing accept merge impersonation c' = Ok (ClientSideApplier, who).
Proof.
  intros Hl. pose proof (later_identity _ _ Hl) as Hi. destruct Hl as (_ & Hs & _). unfold client_side in Hclient.
  unfold client_of, applierFor, Factory_For, who. rewrite Hs, Hclient.
  destruct impersonation; [|done]. rewrite Hi, Huser. destruct (String.eqb_spec user "") as [->|N]; cbn [bind run call]; [done|].
  cbn [scene_serve]. done.
Qed.

(** Alone, a contributor loses to nobody. *)
Lemma holder_alone ro c' ks : holder_of [c'] ks ro c' = None.
Proof.
  unfold holder_of, isSupersededOn. destruct (negb _); [done|]. cbn [map index_of record_of cr_obj cr_status].
  rewrite (ku_ref c' (recordFor c' empty_status)) by apply recordFor_keeps_up. rewrite SameContributor_refl.
  generalize (ro (Superseding (ContributorRefOf c')) (detectPathConflicts ks)). intros order. induction order as [|[path claimants] rest IH]; [done|].
  cbn [find_holder]. destruct (existsb _ _); [|exact IH].
  replace (List.find _ claimants) with (@None nat); [exact IH|]. symmetry. clear. induction claimants as [|i l IH]; [done|].
  cbn. destruct i as [|i]; [exact IH|]. cbn. exact IH.
Qed.

Lemma decides_alone ro c' ks : decides [c'] ks ro c'.
Proof. unfold decides, superseded. by rewrite !holder_alone. Qed.

Lemma stance_alone ro c' listing ks :
  later c c' -> stance_of impersonation (fun _ => None) listing accept merge [c'] ks ro c' = Writing ClientSideApplier who base.
Proof. intros Hl. unfold stance_of. by rewrite client_alone, holder_alone, (later_base _ _ Hl), Hbase. Qed.

(** *** What it contributes *)

Variable k : Contribution.
Hypothesis Hrender : Render.Render (Some (Patch (GetPatchSpec c)))
  (mkRenderTarget (Key_APIVersion key) (Key_Kind key) (Key_Name key) (Key_Namespace key)) = Ok k.
Hypothesis Hclaims : forallb claim_path (Paths k) = true.
Hypothesis Hdisj : disjoint_paths (Paths k) = true.

Lemma tracks_target t : tracks t -> target_of t = mkRenderTarget (Key_APIVersion key) (Key_Kind key) (Key_Name key) (Key_Namespace key).
Proof. intros [_ H]. unfold target_of. by rewrite H. Qed.

Lemma claimed_alone t c' :
  tracks t -> later c c' -> deleting (c_meta c') = false -> claimed_by (listing_of (Some c')) t [c'] [k].
Proof.
  intros Ht Hl Hd. pose proof (claimants_one _ _ Ht Hl) as Hc. split; rewrite ?Hc; [done|done| | | |].
  - apply NoDup_singleton.
  - by intros a b ->%list_elem_of_singleton ->%list_elem_of_singleton.
  - by intros a ->%list_elem_of_singleton.
  - cbn [map renderAll record_of cr_obj]. destruct Hl as (_ & -> & _). rewrite (tracks_target _ Ht), Hrender. done.
Qed.

(** ** The contributor's passes *)

Lemma named_later trs c' : later c c' -> named cid.1.1 cid.1.2 cid.2 (mkCluster trs (Some c')) = Some c'.
Proof.
  intros Hl. destruct (later_fields _ _ Hl) as (Hn & Hm & Hk & _). unfold named, contributor_id. cbn.
  by rewrite Hn, Hm, Hk, bool_decide_true.
Qed.

Lemma serve_update now c1 c' trs :
  later c c' -> later c c1 ->
  cluster_serve review now _ (UpdateContributor c1) (mkCluster trs (Some c')) =
    (let u := set_contributor_meta (with_finalizers (Finalizers (c_meta c1)) (c_meta c')) c' in
     (Ok u, mkCluster trs (if deleting (c_meta c') && bool_decide (Finalizers (c_meta c1) = []) then None else Some u))).
Proof.
  intros Hl H1. destruct (later_fields _ _ H1) as (Hn & Hm & Hk & _). unfold cluster_serve, contributor_id.
  rewrite Hn, Hm, Hk. pose proof (named_later trs _ Hl) as E. cbn [fst snd] in E. by rewrite E.
Qed.

(** Its first pass only asks for the finalizer. *)
Lemma pass_unheld now sc c' :
  later c c' -> deleting (c_meta c') = false -> ContainsFinalizer ContributorFinalizer (c_meta c') = false ->
  contributor_pass cid now (mkSystem sc (Some c')) =
    (requeue, mkSystem sc (Some (set_contributor_meta
      (with_finalizers (Finalizers (c_meta c') ++ [ContributorFinalizer]) (c_meta c')) c'))).
Proof.
  intros Hl Hd Hf. unfold contributor_pass, ContributorReconciler.Reconcile. cbn [sys_scene sys_contributor].
  cbn [bind call run cluster_serve]. rewrite (named_later _ _ Hl). cbn iota beta.
  rewrite Hd, (later_valid _ _ Hl), Hvalid, Hf. cbn [negb bind call run].
  unfold AddFinalizer. rewrite Hf, serve_update;
    [|done|eapply later_trans; [exact Hl|apply (later_finalizers (Finalizers (c_meta c') ++ [ContributorFinalizer]))]].
  cbv zeta. rewrite Hd. cbn [andb run trackers contributor]. rewrite with_store_same. by destruct c'.
Qed.

(** What the contributor sees of its tracker. *)
Lemma observe_one st t n :
  live st !! tid = Some t ->
  reads (observe_targets (ContributorRefOf c) [key] [tref] n) st
    (let '(ts, n') := observe_target (ContributorRefOf c) key (Some t) n in Ok ([ts], n')).
Proof.
  intros Hl. cbn [observe_targets]. destruct (getTracker_reads tref st) as (g & Hg & Eg). specialize (Eg (or_introl eq_refl)).
  cbn [TrackerRef_Kind TrackerRef_Namespace TrackerRef_Name] in Eg. rewrite Hl in Eg. subst g.
  eapply reads_bind; [exact Hg|]. cbn iota beta. by destruct (observe_target _ _ _ _).
Qed.

(** The contributor after a pass that found its tracker as [t]. *)
Definition synced_with (now : Z) (t : Tracker) (c' : Contributor) : Contributor :=
  let c0 := checked authorizer ReauthorizeAfter review now c' in
  let '(ts, n) := observe_target (ContributorRefOf c) key (Some t) (mkTally 0 0 0 0) in
  set_contributor_status (synced now c0 1 [tref] [ts] n) c0.

Lemma synced_with_later now t c' : later c c' -> later c (synced_with now t c').
Proof.
  intros Hl. unfold synced_with. cbv zeta. destruct (observe_target _ _ _ _).
  destruct (checked_status authorizer ReauthorizeAfter review now c') as [st ->].
  eapply later_trans; [exact Hl|]. eapply later_trans; apply later_status.
Qed.

Lemma pass_held now sc c' :
  later c c' -> deleting (c_meta c') = false -> ContainsFinalizer ContributorFinalizer (c_meta c') = true ->
  live (sc_store sc) !! (Handover.new_id key) = None ->
  exists t st, match live (sc_store sc) !! tid with
               | Some t0 => t = t0 /\ st = sc_store sc
               | None => t = with_version (next_version (sc_store sc)) (SharedResource (mkTrackerObject
                   (mkObjectMeta (TrackerName key) (Key_Namespace key) "" "" 0 0 None [TrackerFinalizer] ∅)
                   (mkTrackerTargetRef (Key_APIVersion key) (Key_Kind key) (Key_Name key) (Key_Namespace key)) empty_status)) /\
                   st = commit t (sc_store sc)
               end /\
    (unfenced t -> (contributor_pass cid now (mkSystem sc (Some c'))).2 =
       mkSystem (with_store st sc) (Some (synced_with now t c'))).
Proof.
  intros Hl Hd Hf Hnew. pose proof (joins_at _ Hl) as Hj. pose proof (later_key _ _ Hl) as Hkey.
  assert (exists t st, match live (sc_store sc) !! tid with
      | Some t0 => t = t0 /\ st = sc_store sc
      | None => t = with_version (next_version (sc_store sc)) (SharedResource (mkTrackerObject
          (mkObjectMeta (TrackerName key) (Key_Namespace key) "" "" 0 0 None [TrackerFinalizer] ∅)
          (mkTrackerTargetRef (Key_APIVersion key) (Key_Kind key) (Key_Name key) (Key_Namespace key)) empty_status)) /\
          st = commit t (sc_store sc) end /\
      run (serve now) (join_tracker c' key) (sc_store sc) = (Ok (joined key c' t), st) /\ live st !! tid = Some t)
    as (t & st & Hcase & Hjoin & Hlive).
  { destruct (live (sc_store sc) !! tid) as [t|] eqn:El.
    - exists t, (sc_store sc). split; [done|]. split; [|done]. apply (join_finds key c' (sc_store sc) t). by rewrite Hj.
    - destruct (join_creates key c' now (sc_store sc)) as (created & Ec & _ & Hid & Hrun); [by rewrite Hj|].
      cbv zeta in Hid, Hrun. rewrite Hj in Ec. injection Ec as <-. eexists _, _. split; [split; reflexivity|].
      split; [exact Hrun|]. apply lookup_insert_Some. left. split; [by rewrite <- Hj|done]. }
  exists t, st. split; [exact Hcase|]. intros Hun.
  unfold contributor_pass. cbn [sys_scene sys_contributor].
  rewrite (run_live (K := K) authorizer ReauthorizeAfter review cid.1.1 cid.1.2 cid.2 now _ c' (named_later _ _ Hl) (sc_store sc));
    [|done|done|by rewrite (later_valid _ _ Hl)|done|by destruct Hl as (_ & -> & _)].
  rewrite run_lifted by apply ensureTracker_trackers. rewrite Hkey. unfold ensureTracker.
  assert (IsClusterScoped c' = false) as Hs' by (by destruct Hl as (_ & _ & -> & _)).
  rewrite Hs', Htarget. cbn [negb andb bind call run]. rewrite (serve_get_none _ _ _ _ _ _ Hnew). cbn iota beta.
  change (IsNotFound (missing _)) with true. cbn iota. rewrite Hjoin.
  assert (joined key c' t = tref) as -> by (unfold joined; unfold unfenced in Hun; by rewrite Hun, Hj).
  rewrite run_bind. pose proof (observe_one st t (mkTally 0 0 0 0) Hlive) as Hobs.
  unfold synced_with. cbv zeta. destruct (observe_target _ _ _ _) as [ts n].
  rewrite (run_syncStatus _ _ _ _ _ _ [ts] n); [done|].
  destruct (checked_status authorizer ReauthorizeAfter review now c') as [s0 ->]. rewrite ref_same. by destruct Hl as (-> & _).
Qed.

(** ** The tracker's passes *)

(** What a first apply plans for an object: what to store, and the values it takes the place of. *)
Definition first_plan (o : object) : res goerror (object * gmap string value) :=
  let! desired := write_claims o (Object k) (Paths k) in
  Ok (desired, foldl (capture o (Object k)) ∅ (Paths k)).

(** What is there after the server has been sent [desired] for [o], or nothing if that has the same hash. *)
Definition written_over (o desired o' : object) : Prop :=
  if equalContent o desired then o' = o else accept who (Some o) desired = Ok o'.

(** The tracker after a pass. *)
Record tracked (t : Tracker) (sc : scene) : Prop := {
  tr_tracks : tracks t;
  tr_work : at_work tid.1.1 tid.1.2 tid.2 t sc;
  tr_held : Finalizers (tracker_meta t) = [TrackerFinalizer];
  tr_ours : CreatedByOperator (GetTrackerStatus t) = false;
  tr_alone : live (sc_store sc) !! Handover.new_id key = None;
}.

Lemma new_id_ne : Handover.new_id key <> tid.
Proof. by intros [=]. Qed.

Lemma alike_tracks t t' : alike t t' -> tracks t -> tracks t'.
Proof. intros (rv & st & ->). unfold tracks. by destruct t. Qed.

Lemma written_created now p : CreatedByOperator (finished_status now p) = CreatedByOperator (GetTrackerStatus (ps_tracker p)).
Proof.
  unfold finished_status, conclusion. cbv zeta. cbn [CreatedByOperator write_mutation].
  destruct (negb _), (ps_anyConflict p); cbn; by destruct (CreatedByOperator _).
Qed.

(** The last write of a pass that found its target. *)
Lemma run_last_write now t sc c' (p : pass) o l :
  tracked t sc -> ps_tracker p = set_tracker_status (GetTrackerStatus (ps_tracker p)) t -> unfenced (ps_tracker p) ->
  CreatedByOperator (GetTrackerStatus (ps_tracker p)) = false -> ps_targetExists p = true ->
  exists t' sc', 
    (let '((_, e), s2) := run (serves c' now) (patchStatus
       (set_tracker_status (conclusion now (ps_targetExists p) (ps_anyConflict p) (GetTrackerStatus (ps_tracker p))) (ps_tracker p))
       (write_mutation (conclusion now (ps_targetExists p) (ps_anyConflict p) (GetTrackerStatus (ps_tracker p)))
          (Some (ps_records p)) (ps_conflicts p))) (mkScene (sc_store sc) o l) in
     (mkOutcome false (if ps_targetExists p then 0 else 10000)%Z e, s2)) = (done_, sc') /\
    tracked t' sc' /\ GetTrackerStatus t' = finished_status now p /\ sc_object sc' = o.
Proof.
  intros [Ht Hw Hheld Hcr Hn] Hp Hu Hpc He. destruct Hw as (Hl & Hid & Hf & Hd & Hfin). rewrite He.
  set (st := conclusion now true (ps_anyConflict p) (GetTrackerStatus (ps_tracker p))).
  assert (ours (set_tracker_status st (ps_tracker p)) (mkScene (sc_store sc) o l)) as Ho.
  { exists t. rewrite Hid. split; [exact Hl|]. by rewrite status_set_status, Hp, set_status_twice. }
  destruct (run_patchStatus (fun _ => None) (listing_of c') accept merge now _ (write_mutation st (Some (ps_records p)) (ps_conflicts p)) _ Ho)
    as (t' & sc' & -> & Ho' & Hl' & Ha & Hs' & Hob & _ & Hsame & _).
  assert (GetTrackerStatus t' = finished_status now p) as Hst.
  { rewrite Hs', status_set_status. unfold finished_status. by rewrite He. }
  assert (alike t t') as Hal.
  { eapply alike_trans; [|exact Ha]. rewrite Hp, set_status_twice. apply alike_status. }
  destruct (alike_same (listing_of c') _ _ Hal) as (_ & _ & Hid' & Hd' & Hfin').
  exists t', sc'. split; [done|]. split; [|done]. split.
  - by eapply alike_tracks.
  - split; [by rewrite <- Hid, <- Hid'|]. split; [congruence|]. split; [|split; congruence].
    unfold unfenced. rewrite Hst. destruct (finished_fields now p) as [_ ->]. done.
  - rewrite <- Hheld. destruct Hal as (rv & st' & ->). by destruct t.
  - by rewrite Hst, written_created.
  - rewrite Hsame; [done|]. rewrite Hp, set_status_twice, id_of_status, Hid. exact new_id_ne.
Qed.

(** It knows the contributor by a record that has the priors of the first apply. *)
Definition remembers (t : Tracker) (priors : gmap string value) : Prop :=
  exists r, Contributors (GetTrackerStatus t) = [r] /\ keeps_up c r /\ applied k r /\ PriorValues r = encodePriorValues priors.

Lemma run_first_apply now c' t sc o0 desired priors o1 :
  let rec := recordFor c' (GetTrackerStatus t) in
  OwnedPaths rec = [] -> PriorValues rec = None -> PriorValuesCaptured rec = false ->
  later c c' -> tracks t -> sc_object sc = Some o0 -> first_plan o0 = Ok (desired, priors) -> written_over o0 desired o1 ->
  exists l r, keeps_up c r /\ applied k r /\ PriorValues r = encodePriorValues priors /\ State r = ContributorStateApplied /\
    run (serves (Some c') now)
      (contribute_all impersonation (range_order now) (target_of t) (map (record_of (GetTrackerStatus t)) [c']) (detectPathConflicts [k])
        (map (fun ck : Contributor * Contribution => (record_of (GetTrackerStatus t) ck.1, ck.2)) (zip [c'] [k])) (mkPass t [] [] false true)) sc =
      (Next (mkPass (observe (Some o1) t) [r] [] false true), mkScene (sc_store sc) (Some o1) l).
Proof.
  intros rec Hown Hpri Hcap Hl Ht Hobj Hplan Hwr. set (result := mkResult false (negb (equalContent o0 desired)) (Some o1) (Paths k) priors true None).
  assert (exists l, run (serves_target who) (csa_Apply (request (target_of t) c' k rec ∅ base)) sc =
    (Ok result, mkScene (sc_store sc) (Some o1) l)) as [l Hcsa].
  { unfold csa_Apply. cbn [Req_Contribution request apply_request bind call run target_serve]. rewrite Hobj.
    unfold csa_update, plan_update. cbn [Req_PriorValuesCaptured Req_PriorValues Req_PreviousPaths request apply_request cr_status].
    rewrite Hcap, Hown. cbn [ParsePaths foldl]. unfold first_plan in Hplan.
    destruct (write_claims o0 (Object k) (Paths k)) as [d|e]; [|done]. injection Hplan as -> ->. cbn [res_bind].
    unfold written_over, result in *. destruct (equalContent o0 desired).
    - subst o1. exists (sc_objects sc). cbn. by destruct sc as [? ? ?]; cbn in Hobj; rewrite Hobj.
    - cbn [bind call run target_serve]. rewrite Hobj. unfold stored. rewrite Hwr. by eexists. }
  assert (keeps_up c rec) as Hu by (unfold rec; rewrite (later_record _ _ Hl); apply recordFor_keeps_up).
  assert (keeps_up c' rec) as Hu' by apply recordFor_keeps_up.
  exists l, (applied_record rec k result). split; [by apply applied_keeps_up|]. split; [by apply applied_record_applied|].
  split; [done|]. split; [done|].
  pose proof (writing_turn_ok impersonation (fun _ => None) (listing_of (Some c')) accept merge (target_of t) [c'] [k] (range_order now) now
    (GetTrackerStatus t) c' k rec (mkPass t [] [] false true) sc ClientSideApplier who base ∅ result _
    (stance_alone _ _ _ _ Hl) ltac:(unfold client_side; by destruct Hl as (_ & -> & _)) Hu' ltac:(by rewrite Hpri) Hcsa eq_refl) as Hturn.
  change (mkRecord c' rec) with (record_of (GetTrackerStatus t) c') in Hturn.
  cbn [zip_with contribute_all fst snd map] in *. rewrite run_bind, Hturn. cbn [run]. do 2 f_equal.
  unfold turned. by rewrite stance_alone.
Qed.

Lemma remembers_found t priors : remembers t priors ->
  exists r, FindContributor (GetTrackerStatus t) (ContributorRefOf c) = Some r /\ keeps_up c r /\ applied k r /\
    PriorValues r = encodePriorValues priors /\ Contributors (GetTrackerStatus t) = [r].
Proof.
  intros (r & Hc & Hu & Ha & Hp). exists r. split; [|done]. unfold FindContributor. rewrite Hc. cbn.
  by rewrite (ku_ref _ _ Hu), SameContributor_refl.
Qed.

Lemma record_again t priors c' : remembers t priors -> later c c' ->
  exists r, recordFor c' (GetTrackerStatus t) = r /\ keeps_up c r /\ applied k r /\ PriorValues r = encodePriorValues priors.
Proof.
  intros (r & Hf & Hu & Ha & Hp & _)%remembers_found Hl. exists r. split; [|done]. rewrite (later_record _ _ Hl). by apply recordFor_found.
Qed.

(** The contribution is in effect: on record, and the target seen to hold it. *)
Definition in_effect (t : Tracker) (sc : scene) (o : object) (priors : gmap string value) : Prop :=
  tracked t sc /\ remembers t priors /\ watched o (GetTrackerStatus t) /\ sc_object sc = Some o.

(** The end of a pass in which the contributor had its turn. *)
Lemma pass_concludes now c' t sc o l r st priors :
  later c c' -> deleting (c_meta c') = false -> tracked t sc ->
  keeps_up c r -> applied k r -> PriorValues r = encodePriorValues priors ->
  PromotedTo st = None -> CreatedByOperator st = false -> watched o st ->
  run (serves (Some c') now)
    (contribute_all impersonation (range_order now) (target_of t) (map (record_of (GetTrackerStatus t)) [c']) (detectPathConflicts [k])
      (map (fun ck : Contributor * Contribution => (record_of (GetTrackerStatus t) ck.1, ck.2)) (zip [c'] [k])) (mkPass t [] [] false true)) sc =
    (Next (mkPass (set_tracker_status st t) [r] [] false true), mkScene (sc_store sc) (Some o) l) ->
  exists t' sc', tracker_pass tid now (mkSystem sc (Some c')) = (done_, mkSystem sc' (Some c')) /\ in_effect t' sc' o priors.
Proof.
  intros Hl Hd Ht Hu Ha Hp Hpr Hcr Hwt Hrun. set (p := mkPass (set_tracker_status st t) [r] [] false true) in *.
  destruct (run_last_write now t sc (Some c') p (Some o) l Ht) as (t' & sc' & Hlast & Ht' & Hst & Hob).
  - cbn [ps_tracker p]. by rewrite status_set_status.
  - unfold unfenced. cbn [ps_tracker p]. by rewrite status_set_status.
  - cbn [ps_tracker p]. by rewrite status_set_status.
  - done.
  - exists t', sc'. split.
    + unfold tracker_pass. cbn [sys_scene sys_contributor].
      rewrite (run_Reconcile impersonation (fun _ => None) (listing_of (Some c')) accept merge _ _ _ (range_order now) now t [c'] [k] sc (tr_work _ _ Ht)
        (claimed_alone _ _ (tr_tracks _ _ Ht) Hl Hd)), Hrun, Hlast. done.
    + split; [done|]. split; [|split; [|done]].
      * exists r. rewrite Hst. by destruct (finished_fields now p) as [-> _].
      * rewrite Hst. apply finished_watched. cbn [ps_tracker p]. by rewrite status_set_status.
Qed.

(** The tracker applies the contribution, and records it. *)
Lemma pass_applies now c' t sc o0 desired priors o1 :
  later c c' -> deleting (c_meta c') = false -> tracked t sc -> Contributors (GetTrackerStatus t) = [] ->
  sc_object sc = Some o0 -> first_plan o0 = Ok (desired, priors) -> written_over o0 desired o1 ->
  exists t' sc', tracker_pass tid now (mkSystem sc (Some c')) = (done_, mkSystem sc' (Some c')) /\ in_effect t' sc' o1 priors.
Proof.
  intros Hl Hd Ht Hno Hobj Hplan Hwr. pose proof (tr_tracks _ _ Ht) as Htr. pose proof (tr_work _ _ Ht) as (_ & _ & Hun & _).
  assert (FindContributor (GetTrackerStatus t) (ContributorRefOf c') = None) as Hnone by (unfold FindContributor; by rewrite Hno).
  destruct (run_first_apply now c' t sc o0 desired priors o1) as (l & r & Hu & Ha & Hp & _ & Hrun);
    [unfold recordFor; by rewrite Hnone..|done|done|done|done|done|].
  eapply pass_concludes; [done..| | | |exact Hrun].
  - done.
  - by apply (tr_ours _ _ Ht).
  - pose proof (observe_watched o1 t) as H. unfold observe in H. by rewrite status_set_status in H.
Qed.

(** Applied again, it stays as it is. *)
Lemma pass_reapplies now c' t sc o priors :
  later c c' -> deleting (c_meta c') = false -> in_effect t sc o priors -> (forall p, p ∈ Paths k -> settled o (Object k) p) ->
  exists t' sc', tracker_pass tid now (mkSystem sc (Some c')) = (done_, mkSystem sc' (Some c')) /\ in_effect t' sc' o priors.
Proof.
  intros Hl Hd (Ht & Hrem & Hwt & Hobj) Hset. pose proof (tr_work _ _ Ht) as (_ & _ & Hun & _).
  destruct (record_again _ _ _ Hrem Hl) as (r & Hr & Hu & Ha & Hp).
  assert (writes impersonation (fun _ => None) (listing_of (Some c')) accept merge [c'] [k] c' = true) as Hw
    by (rewrite (stance_writes _ _ _ _ _ _ _ canonical) by apply decides_alone; by rewrite stance_alone).
  pose proof (settled_pass impersonation (fun _ => None) (listing_of (Some c')) accept merge (target_of t) [c'] [k] (range_order now) now
    (GetTrackerStatus t) [(c', k)] [r] (mkPass t [] [] false true) sc) as Hrun.
  eapply (pass_concludes now c' t sc o (sc_objects sc) r (GetTrackerStatus t) priors); [done..|by apply (tr_ours _ _ Ht)|done|].
  cbn [zip_with]. rewrite Hrun.
  - unfold turns. cbn [zip_with foldl fst snd]. unfold turned. rewrite stance_alone by done. unfold add_record. cbn.
    rewrite <- Hobj. by destruct sc, t as [[]|[]].
  - intros ck ->%list_elem_of_singleton. apply decides_alone.
  - intros ck ->%list_elem_of_singleton. cbn [fst]. unfold client_side. by destruct Hl as (_ & -> & _).
  - constructor; [|constructor]. split; cbn [fst snd]; [rewrite <- Hr; apply recordFor_keeps_up|]. by rewrite Hw.
  - by constructor.
  - intros ck ->%list_elem_of_singleton _. cbn [ps_tracker fst snd]. exists o. split; [done|]. split; [by intros _|]. done.
Qed.

(** *** Ready *)

Definition is_ready (c' : Contributor) : Prop :=
  exists cond, GetCondition (Conditions (GetPatchStatus c')) "Ready" = Some cond /\ Cond_Status cond = ConditionTrue.

Lemma setCond_ready now ty s reason msg st : 
  (exists cond, GetCondition (Conditions st) "Ready" = Some cond /\ Cond_Status cond = ConditionTrue) \/ ty = "Ready" /\ s = ConditionTrue ->
  ty <> "Ready" \/ s = ConditionTrue ->
  exists cond, GetCondition (Conditions (setCond now ty s reason msg st)) "Ready" = Some cond /\ Cond_Status cond = ConditionTrue.
Proof.
  intros H Hs. unfold setCond. cbn [Conditions].
  destruct (GetCondition_set now (Conditions st) (mkCondition ty s 0 None reason msg) "Ready") as (d & Hd & _ & ->). cbn [Cond_Type Cond_Status] in *.
  destruct (String.eqb_spec "Ready" ty) as [<-|N].
  - exists d. split; [done|]. rewrite Hd. by destruct Hs.
  - destruct H as [H|[-> _]]; [exact H|done].
Qed.

(** Once its record says so, the contributor's status is ready. *)
Lemma synced_ready now t priors c' : remembers t priors -> is_ready (synced_with now t c').
Proof.
  intros (r & Hf & Hu & Ha & _)%remembers_found. unfold synced_with, observe_target. rewrite Hf. cbv zeta.
  generalize (checked authorizer ReauthorizeAfter review now c'). clear c'. intros c'.
  rewrite (ap_state _ _ Ha). unfold is_ready. rewrite status_set_contributor. unfold synced.
  change (count_state ContributorStateApplied (mkTally 0 0 0 0)) with (mkTally 1 0 0 0).
  change (ready_verdict 1 (mkTally 1 0 0 0)) with (ConditionTrue, "Applied", Msg "applied to %d target(s)" [AInt 1]).
  cbv beta iota zeta. change (String.eqb ConditionTrue ConditionTrue) with true. cbv iota.
  apply setCond_ready; [left|by left]. apply setCond_ready; [left|by left].
  pose proof (setCond_ready now "Ready" ConditionTrue "Applied" (Msg "applied to %d target(s)" [AInt 1])
    (with_targets [mkTargetStatus (Key_APIVersion key) (Key_Kind key) (Key_Name key) (Key_Namespace key) (ObservedTargetUID (GetTrackerStatus t)) ContributorStateApplied]
      [tref] (GetPatchStatus c')) (or_intror (conj eq_refl eq_refl)) (or_intror eq_refl)) as H. exact H.
Qed.

Lemma synced_refs now t c' : SharedResourceRefs (GetPatchStatus (synced_with now t c')) = [tref].
Proof.
  unfold synced_with. cbv zeta. destruct (observe_target _ _ _ _) as [ts n].
  pose proof (synced_in_sync now (checked authorizer ReauthorizeAfter review now c') 1 [tref] [ts] n) as H. unfold in_sync in H. cbv zeta in H.
  destruct (ready_verdict 1 n) as [[s reason] msg]. by destruct H as (_ & -> & _).
Qed.

Lemma synced_meta now t c' : c_meta (synced_with now t c') = c_meta c'.
Proof.
  unfold synced_with. cbv zeta. destruct (observe_target _ _ _ _). rewrite meta_set_status_c.
  destruct (checked_status authorizer ReauthorizeAfter review now c') as [st ->]. apply meta_set_status_c.
Qed.

(** ** Leaving *)

(** The tracker's pass over a contributor that is leaving: its fields are withdrawn and its record goes. *)
Lemma pass_withdraws now c' t sc o1 ps priors o2 :
  later c c' -> deleting (c_meta c') = true -> OnRelease (Lifecycle (GetPatchSpec c)) <> OnReleaseOrphan ->
  tracked t sc -> forallb claim_path ps = true ->
  OwnedPaths (recordFor c' (GetTrackerStatus t)) = PathStrings ps ->
  decodePriorValues (PriorValues (recordFor c' (GetTrackerStatus t))) = Ok priors ->
  sc_object sc = Some o1 ->
  (forall manager, written_over o1 (plan_revert (mkRevertRequest (target_of t) manager ps priors) o1) o2) ->
  exists t' sc', tracker_pass tid now (mkSystem sc (Some c')) = (done_, mkSystem sc' (Some c')) /\
    tracked t' sc' /\ Contributors (GetTrackerStatus t') = [] /\ Phase (GetTrackerStatus t') = TrackerPhaseApplied /\ sc_object sc' = Some o2.
Proof.
  intros Hl Hd Hrel Ht Hps Hown Hdec Hobj Hwr. pose proof (tr_tracks _ _ Ht) as Htr. pose proof (tr_work _ _ Ht) as (Hlive & Hid & Hun & Hdel & Hfin).
  assert (exists l, run (serves (Some c') now) (releaseContributor impersonation (record_of (GetTrackerStatus t) c') (target_of t)) sc =
    (None, mkScene (sc_store sc) (Some o2) l)) as [l Hrelease].
  { unfold releaseContributor, record_of. cbn [cr_obj cr_status]. destruct Hl as (Hl1 & Hsp & Hl2). rewrite Hsp.
    apply String.eqb_neq in Hrel as ->. rewrite run_bind, run_applierFor, client_alone by (by split).
    rewrite Hown, ParsePaths_strings, Hdec by done.
    unfold revert_as. rewrite run_bind, run_translate. change (Revert ClientSideApplier) with csa_Revert.
    unfold csa_Revert. cbn [bind call run target_serve Rev_Target]. rewrite Hobj.
    specialize (Hwr (CS_FieldManager (recordFor c' (GetTrackerStatus t)))). unfold written_over in Hwr. destruct (equalContent _ _).
    - subst o2. cbn [bind run err_of]. exists (sc_objects sc). by destruct sc as [? ? ?]; cbn in Hobj; rewrite Hobj.
    - cbn [bind call run target_serve]. rewrite Hobj. unfold stored. rewrite Hwr. by eexists. }
  set (p := mkPass t [] [] false true).
  destruct (run_last_write now t sc (Some c') p (Some o2) l Ht) as (t' & sc' & Hlast & Ht' & Hst & Hob);
    [by destruct t as [[]|[]]|done|apply (tr_ours _ _ Ht)|done|].
  exists t', sc'. split; [|split; [done|split; [|split; [|done]]]].
  - unfold tracker_pass. cbn [sys_scene sys_contributor fst snd]. unfold TrackerReconciler.Reconcile.
    cbn [bind call run scene_serve serve fst snd] in *. rewrite Hlive, with_store_same. cbn iota beta.
    unfold IsFenced. unfold unfenced in Hun. rewrite Hun, Hdel, Hfin. cbn [negb bind call run scene_serve serve].
    rewrite with_store_same, run_bind, run_listContributors, (claimants_one _ _ Htr Hl), pair_sorted_records by apply NoDup_singleton.
    change (ordered [c']) with [c']. cbn [map length Nat.eqb]. unfold reconcileContributions.
    assert (splitReleasing [record_of (GetTrackerStatus t) c'] = ([record_of (GetTrackerStatus t) c'], [])) as ->.
    { unfold splitReleasing. rewrite !filter_cons. cbn [cr_obj record_of]. rewrite Hd. done. }
    cbn [release_all]. rewrite !run_bind, Hrelease. cbn [run length Nat.eqb negb andb].
    unfold maybeDeleteTarget, wantsDelete. rewrite (tr_ours _ _ Ht). cbn [andb negb bind run].
    unfold contribute_pass. cbn [renderAll contribute_all zip_with bind run]. rewrite run_bind, run_conclude, run_bind.
    unfold writeStatus. rewrite status_set_status. cbn [ps_records ps_conflicts p] in *. fold p.
    change (detectPathConflicts []) with (∅ : gmap string (list nat)). revert Hlast.
    destruct (run _ (patchStatus _ _) _) as [[t2 e] s2]. by intros [= -> ->].
  - rewrite Hst. by destruct (finished_fields now p) as [-> _].
  - by rewrite Hst.
Qed.

(** Where its finalizer is concerned, the trackers are those its status names. *)
Definition asks (refs : list TrackerRef) : Prop := refs = [] \/ refs = [tref].

Lemma still_registered_one sc c' (refs : list TrackerRef) x :
  later c c' -> asks refs ->
  run (serve x) (still_registered (ContributorRefOf c') refs false) (sc_store sc) =
    (Ok match refs, live (sc_store sc) !! tid with
        | _ :: _, Some t => is_some (FindContributor (GetTrackerStatus t) (ContributorRefOf c))
        | _, _ => false
        end, sc_store sc).
Proof.
  intros (Hr & _) [->| ->]; [done|]. rewrite Hr.
  cbn [still_registered]. destruct (getTracker_reads tref (sc_store sc)) as (g & Hg & Eg). specialize (Eg (or_introl eq_refl)).
  cbn [TrackerRef_Kind TrackerRef_Namespace TrackerRef_Name] in Eg. subst g. rewrite run_bind, (Hg x).
  destruct (live (sc_store sc) !! tid) as [t|]; [|done]. by destruct (is_some _).
Qed.

Lemma run_leaving now sc c' :
  later c c' -> deleting (c_meta c') = true -> Finalizers (c_meta c') = [ContributorFinalizer] -> asks (SharedResourceRefs (GetPatchStatus c')) ->
  contributor_pass cid now (mkSystem sc (Some c')) =
    if match SharedResourceRefs (GetPatchStatus c'), live (sc_store sc) !! tid with
       | _ :: _, Some t => is_some (FindContributor (GetTrackerStatus t) (ContributorRefOf c))
       | _, _ => false
       end
    then (requeue_after 2000, mkSystem sc (Some c')) else (done_, mkSystem sc None).
Proof.
  intros Hl Hd Hf Hrefs. unfold contributor_pass. cbn [sys_scene sys_contributor].
  rewrite (run_deleting (K := K) authorizer ReauthorizeAfter review cid.1.1 cid.1.2 cid.2 now _ c' (named_later _ _ Hl) Hd).
  unfold ContributorReconciler.reconcileDelete. unfold ContainsFinalizer at 1. rewrite Hf, bool_decide_true by (by left). cbn [negb].
  rewrite run_bind, run_lifted, still_registered_one by (done || apply still_registered_trackers).
  destruct (match SharedResourceRefs _ with [] => _ | _ => _ end); cbn iota beta.
  { cbn [run trackers contributor]. by rewrite with_store_same. }
  cbn [bind call run]. rewrite serve_update; [|done|eapply later_trans; [exact Hl|unfold RemoveFinalizer; apply later_finalizers]].
  cbv zeta. rewrite Hd. rewrite bool_decide_true.
  - cbn [andb run trackers contributor]. by rewrite with_store_same.
  - destruct c' as [[m ? ?]|[m ? ?]]; cbn in Hf |- *; rewrite Hf; done.
Qed.

(** With no contributor left, the tracker goes too. *)
Lemma pass_retires now t sc :
  tracked t sc -> Contributors (GetTrackerStatus t) = [] -> Phase (GetTrackerStatus t) <> TrackerPhaseReleasing ->
  exists sc', tracker_pass tid now (mkSystem sc None) = (done_, mkSystem sc' None) /\
    live (sc_store sc') !! tid = None /\ sc_object sc' = sc_object sc.
Proof.
  intros Ht Hno Hph. pose proof (tr_held _ _ Ht) as Hf. pose proof (tr_work _ _ Ht) as (Hlive & Hid & Hun & Hdel & Hfin). cbn [fst snd] in Hlive, Hid.
  unfold tracker_pass, TrackerReconciler.Reconcile. cbn [sys_scene sys_contributor bind call run scene_serve serve fst snd].
  rewrite Hlive, with_store_same. cbn iota beta. unfold IsFenced. unfold unfenced in Hun. rewrite Hun, Hdel, Hfin.
  cbn [negb bind call run scene_serve serve]. rewrite with_store_same, run_bind, run_listContributors.
  assert (claimants (listing_of None) t = []) as ->.
  { unfold claimants, listing_of. cbv zeta. by destruct (TrackerIsClusterScoped t). }
  change (pair_sorted (map (record_of (GetTrackerStatus t)) [])) with (@nil contributorRecord). cbn [length Nat.eqb]. unfold reconcileEmpty. apply String.eqb_neq in Hph. rewrite Hno, Hph. cbn [length Nat.eqb andb negb].
  unfold update_and_delete. cbn [bind call run scene_serve]. unfold drop_tracker_finalizer, RemoveFinalizer.
  set (t1 := set_tracker_meta (with_finalizers (filter (fun x => x <> TrackerFinalizer) (Finalizers (tracker_meta t))) (tracker_meta t)) t).
  assert (id_of t1 = id_of t /\ version_of t1 = version_of t /\ Finalizers (tracker_meta t1) = []) as (Hid1 & Hv1 & Hf1).
  { unfold t1. rewrite Hf. by destruct t. }
  clearbody t1. unfold serve at 1. unfold current. rewrite Hid1, Hid, Hlive, Hv1, String.eqb_refl, Hdel, Hf1. cbn [andb].
  set (t2 := with_version _ _). assert (id_of t2 = tid /\ Finalizers (tracker_meta t2) = []) as [Hid2 Hf2].
  { unfold t2. autorewrite with trackers. split; [by rewrite <- Hid; destruct t|by destruct t]. }
  clearbody t2. cbn [bind call run scene_serve]. unfold serve at 1. rewrite Hid2. cbn [sc_store with_store commit live].
  rewrite Hid2, lookup_insert_eq, Hf2, bool_decide_true by done. cbn [run].
  eexists. split; [done|]. split; [|done]. cbn [sc_store with_store forget live]. apply lookup_delete_eq.
Qed.

(** A tracker that is not there is nobody's. *)
Lemma pass_untracked now sc mc :
  live (sc_store sc) !! tid = None -> tracker_pass tid now (mkSystem sc mc) = (done_, mkSystem sc mc).
Proof.
  intros Hno. unfold tracker_pass, TrackerReconciler.Reconcile. cbn [sys_scene sys_contributor bind call run scene_serve fst snd].
  unfold serve at 1. rewrite Hno. cbn iota beta. by rewrite with_store_same.
Qed.

Lemma pass_gone now sc : contributor_pass cid now (mkSystem sc None) = (done_, mkSystem sc None).
Proof.
  unfold contributor_pass, ContributorReconciler.Reconcile. cbn [sys_scene sys_contributor bind call run cluster_serve named contributor mbind option_bind].
  cbn iota beta. cbn. by rewrite with_store_same.
Qed.

(** ** The target through all this *)

Lemma ends_in_field_carries p v : Forall (fun s => proper s = true) p -> ends_in_field p = true -> carries_key p v = true.
Proof.
  induction p as [|s rest IH]; [done|]. intros Hp. inversion_clear Hp as [|? ? Hs Hr]. destruct rest as [|next rest].
  - unfold ends_in_field. cbn. intros Hf. destruct (IsKeyMatch s) eqn:Ek; [|done].
    exfalso. unfold proper, IsKeyMatch in *. rewrite Hf in Hs. by rewrite Hs in Ek.
  - rewrite ends_in_field_cons. intros H. cbn [carries_key]. by apply IH.
Qed.

(** Paths the server stores as it is sent them. *)
Variable kept : Path -> Prop.
Hypothesis Hkept : forall p, p ∈ Paths k -> kept p.
Hypothesis Haccept : forall old sent, exists o, accept who (Some old) sent = Ok o /\ forall q, kept q -> Get (VMap o) q = Get (VMap sent) q.

Lemma write_over o desired : exists o', written_over o desired o' /\
  (equalContent o desired = true /\ o' = o \/ forall q, kept q -> Get (VMap o') q = Get (VMap desired) q).
Proof.
  unfold written_over. destruct (equalContent o desired); [exists o; eauto|].
  destruct (Haccept o desired) as (o' & Ha & Hk). exists o'. eauto.
Qed.

Lemma first_plan_inv o desired priors :
  first_plan o = Ok (desired, priors) -> write_claims o (Object k) (Paths k) = Ok desired /\
    forall p, p ∈ Paths k -> priors !! Path_String p = prior_of o (Object k) p.
Proof.
  unfold first_plan. intros (d & Hw & [= <- <-])%res_bind_ok. split; [done|]. intros p Hp.
  apply capture_spec; [done|done| |done]. rewrite forallb_forall in Hclaims. by apply Hclaims, list_elem_of_In.
Qed.

(** The object with the contribution applied. *)
Lemma applied_object o0 desired priors :
  first_plan o0 = Ok (desired, priors) ->
  (equalContent o0 desired = true -> forall p, p ∈ Paths k -> settled o0 (Object k) p) ->
  exists o1, written_over o0 desired o1 /\ (forall p, p ∈ Paths k -> settled o1 (Object k) p) /\
    forall q, readable q = true -> kept q -> (forall p, p ∈ Paths k -> diverge p q = true) -> Get (VMap o1) q = Get (VMap o0) q.
Proof.
  intros [Hw _]%first_plan_inv Hapart. destruct (write_claims_spec _ _ _ _ Hclaims Hdisj Hw) as [Wc Wf].
  destruct (write_over o0 desired) as (o1 & Hwr & [[Heq ->]|Hget]); [by exists o0; auto|]. exists o1. split; [done|]. split.
  - intros p Hp. destruct (Wc p Hp) as (v & Hv & Hv'). exists v, v. split; [done|]. split; [|by apply sameValue_marshal].
    rewrite Hget; [done|by apply Hkept].
  - intros q Hq Hk Hall. rewrite Hget by done. by apply Wf.
Qed.

(** What is at a path of two objects, up to encoding. *)
Definition same_at (a b : object) (p : Path) : Prop :=
  match Get (VMap a) p, Get (VMap b) p with
  | Some v, Some w => sameValue v w = true
  | None, None => True
  | _, _ => False
  end.

(** The object the contribution has been withdrawn from. *)
Definition withdrawn_object (priors : gmap string value) (o1 : object) : object :=
  plan_revert (mkRevertRequest (mkRenderTarget "" "" "" "") "" (Paths k) (decoded_map priors)) o1.

Lemma withdrawn_object_at o0 desired priors o1 :
  first_plan o0 = Ok (desired, priors) -> (forall p, p ∈ Paths k -> settled o1 (Object k) p) ->
  (forall p, p ∈ Paths k -> ends_in_field p = true) ->
  (equalContent o1 (withdrawn_object priors o1) = true -> forall p, p ∈ Paths k -> same_at o1 (withdrawn_object priors o1) p) ->
  exists o2, written_over o1 (withdrawn_object priors o1) o2 /\
    (forall q, readable q = true -> kept q -> (forall p, p ∈ Paths k -> diverge p q = true) -> Get (VMap o2) q = Get (VMap o1) q) /\
    (forall p old new, p ∈ Paths k -> Get (VMap o0) p = Some old -> Get (VMap (Object k)) p = Some new -> sameValue old new = false ->
       exists w, Get (VMap o2) p = Some w /\ sameValue w (json_decoded old) = true) /\
    (forall p, p ∈ Paths k -> Get (VMap o0) p = None -> Get (VMap o2) p = None).
Proof.
  intros [_ Hprior]%first_plan_inv Hset Hends Hapart.
  destruct (revert_fold_spec (Paths k) o1 (decoded_map priors)) as (Rf & Rr & Rg); [done|done| | |].
  { intros p Hp. destruct (Hset p Hp) as (v & w & _ & -> & _). by eexists. }
  { intros p v Hp _. apply ends_in_field_carries; [|by apply Hends]. rewrite forallb_forall in Hclaims.
    specialize (Hclaims p (proj1 (list_elem_of_In _ _) Hp)). by apply claim_path_inv in Hclaims as (_ & ? & _). }
  change (foldl _ o1 (Paths k)) with (withdrawn_object priors o1) in Rf, Rr, Rg. set (r := withdrawn_object priors o1) in *.
  destruct (write_over o1 r) as (o2 & Hwr & Hcase). exists o2. split; [done|].
  assert (forall p, p ∈ Paths k -> same_at o2 r p) as Hsame.
  { intros p Hp. destruct Hcase as [[Heq ->]|Hget]; [by apply Hapart|]. unfold same_at. rewrite Hget by (by apply Hkept).
    destruct (Get (VMap r) p); [by apply sameValue_marshal|done]. }
  split; [|split].
  - intros q Hq Hk Hall. destruct Hcase as [[_ ->]|Hget]; [done|]. rewrite Hget by done. by apply Rf.
  - intros p old new Hp Hold Hnew Hne. specialize (Hsame p Hp). unfold same_at in Hsame.
    rewrite (Rr p (json_decoded old) Hp) in Hsame.
    + destruct (Get (VMap o2) p) as [w|]; [by exists w|done].
    + unfold decoded_map. rewrite lookup_fmap, Hprior by done. unfold prior_of. by rewrite Hold, Hnew, Hne.
  - intros p Hp Hnone. specialize (Hsame p Hp). unfold same_at in Hsame. rewrite (Rg p Hp) in Hsame; [by destruct (Get (VMap o2) p)| |by apply Hends].
    unfold decoded_map. rewrite lookup_fmap, Hprior by done. unfold prior_of. by rewrite Hnone.
Qed.

(** ** Schedules *)

Definition take_turn (party : turn) (now : Z) (S : system) : system :=
  match party with OfContributor => (contributor_pass cid now S).2 | OfTracker => (tracker_pass tid now S).2 end.

(** Reconciles of the two, in some order, each at its time. *)
Fixpoint play (turns : list (turn * Z)) (S : system) : system :=
  match turns with [] => S | (party, now) :: rest => play rest (take_turn party now S) end.

(** Somebody asks to delete the contributor: without a finalizer it is gone at once. *)
Definition asked_to_delete (z : Z) (S : system) : system :=
  mkSystem (sys_scene S)
    match sys_contributor S with
    | Some c' => if bool_decide (Finalizers (c_meta c') = []) then None else Some (deleted_at z c')
    | None => None
    end.

(** Progress by stages: in each some party's turn leads to the next, and the other's changes nothing that matters. *)
Section Stages.
Variable stage : nat -> system -> Prop.
Variable wanted : list turn.
Hypothesis Hnext : forall i party now S, wanted !! i = Some party -> stage i S -> stage (Datatypes.S i) (take_turn party now S).
Hypothesis Hstay : forall i party now S, wanted !! i <> Some party -> stage i S -> stage i (take_turn party now S).

Lemma play_stages turns : forall i S,
  stage i S -> i <= length wanted -> drop i wanted `sublist_of` map fst turns -> stage (length wanted) (play turns S).
Proof.
  induction turns as [|[party now] turns IH]; intros i S HS Hi Hsub.
  - apply sublist_nil_r in Hsub. apply (f_equal length) in Hsub. rewrite length_drop in Hsub. cbn in Hsub.
    by replace (length wanted) with i by lia.
  - cbn [play]. cbn [map fst] in Hsub. destruct (wanted !! i) as [w|] eqn:Ew.
    + pose proof (lookup_lt_Some _ _ _ Ew). rewrite (drop_S _ _ _ Ew) in Hsub.
      destruct (decide (w = party)) as [->|N].
      * apply (IH (Datatypes.S i)); [by apply Hnext|lia|]. inversion Hsub; subst; [done|]. etrans; [|done]. by constructor.
      * apply (IH i); [apply Hstay; congruence|done|]. rewrite (drop_S _ _ _ Ew). by inversion Hsub.
    + apply lookup_ge_None in Ew. apply (IH i); [apply Hstay; [|done]|done|].
      * by rewrite (proj2 (lookup_ge_None _ _) Ew).
      * rewrite drop_ge by done. apply sublist_nil_l.
Qed.

Lemma play_some_stage turns : forall i S, stage i S -> exists j, stage j (play turns S).
Proof.
  induction turns as [|[party now] turns IH]; intros i S HS; [by exists i|]. cbn [play].
  destruct (decide (wanted !! i = Some party)); [apply (IH (Datatypes.S i)); auto|apply (IH i); auto].
Qed.

End Stages.

(** *** Coming *)

(** Nobody tracks the target yet. *)
Definition untracked (sc : scene) : Prop :=
  live (sc_store sc) !! tid = None /\ live (sc_store sc) !! Handover.new_id key = None.

(** The contributor at a later time, holding its finalizer. *)
Definition holding (c' : Contributor) : Prop := later c c' /\ Finalizers (c_meta c') = [ContributorFinalizer].

(** A tracker with nobody on record. *)
Definition empty_handed (t : Tracker) (sc : scene) : Prop :=
  tracked t sc /\ Contributors (GetTrackerStatus t) = [] /\ Phase (GetTrackerStatus t) <> TrackerPhaseReleasing.

Inductive coming (o0 o1 : object) (priors : gmap string value) : nat -> system -> Prop :=
| Coming_fresh sc : untracked sc -> sc_object sc = Some o0 -> coming o0 o1 priors 0 (mkSystem sc (Some c))
| Coming_held sc c' : holding c' -> deleting (c_meta c') = false -> SharedResourceRefs (GetPatchStatus c') = [] ->
    untracked sc -> sc_object sc = Some o0 -> coming o0 o1 priors 1 (mkSystem sc (Some c'))
| Coming_joined sc c' t : holding c' -> deleting (c_meta c') = false -> SharedResourceRefs (GetPatchStatus c') = [tref] ->
    empty_handed t sc -> sc_object sc = Some o0 -> coming o0 o1 priors 2 (mkSystem sc (Some c'))
| Coming_applied sc c' t : holding c' -> deleting (c_meta c') = false -> SharedResourceRefs (GetPatchStatus c') = [tref] ->
    in_effect t sc o1 priors -> coming o0 o1 priors 3 (mkSystem sc (Some c'))
| Coming_ready sc c' t : holding c' -> deleting (c_meta c') = false -> SharedResourceRefs (GetPatchStatus c') = [tref] ->
    in_effect t sc o1 priors -> is_ready c' -> coming o0 o1 priors 4 (mkSystem sc (Some c')).

(** The turns a contributor waits for: it asks for its finalizer, makes the tracker, is applied, reports. *)
Definition arrival : list turn := [OfContributor; OfContributor; OfTracker; OfContributor].

Section Coming.
Variable o0 desired priors o1 : object.
Hypothesis Hlive : deleting (c_meta c) = false.
Hypothesis Hfresh : Finalizers (c_meta c) = [].
Hypothesis Hnew : SharedResourceRefs (GetPatchStatus c) = [].
Hypothesis Hplan : first_plan o0 = Ok (desired, priors).
Hypothesis Hwritten : written_over o0 desired o1.
Hypothesis Hset : forall p, p ∈ Paths k -> settled o1 (Object k) p.

Lemma holding_holds c' : holding c' -> ContainsFinalizer ContributorFinalizer (c_meta c') = true.
Proof. intros [_ H]. unfold ContainsFinalizer. rewrite H, bool_decide_true by (by left). done. Qed.

Lemma synced_holding now t c' : holding c' -> deleting (c_meta c') = false ->
  holding (synced_with now t c') /\ deleting (c_meta (synced_with now t c')) = false /\
  SharedResourceRefs (GetPatchStatus (synced_with now t c')) = [tref].
Proof.
  intros [Hl Hf] Hd. unfold holding. rewrite synced_meta, synced_refs. split; [|done]. split; [by apply synced_with_later|done].
Qed.

(** A contributor that has a tracker reports what it sees of it. *)
Lemma pass_reports now sc c' t :
  holding c' -> deleting (c_meta c') = false -> tracked t sc ->
  (contributor_pass cid now (mkSystem sc (Some c'))).2 = mkSystem sc (Some (synced_with now t c')).
Proof.
  intros [Hl Hf] Hd Ht. pose proof (tr_work _ _ Ht) as (Hlt & _ & Hun & _). cbn [fst snd] in Hlt.
  destruct (pass_held now sc c' Hl Hd ltac:(by apply holding_holds) (tr_alone _ _ Ht)) as (t' & st & Hcase & Hrun).
  rewrite Hlt in Hcase. destruct Hcase as [-> ->]. rewrite Hrun by done. by rewrite with_store_same.
Qed.

(** Without one, it makes it. *)
Lemma pass_joins now sc c' :
  holding c' -> deleting (c_meta c') = false -> untracked sc ->
  exists t sc', (contributor_pass cid now (mkSystem sc (Some c'))).2 = mkSystem sc' (Some (synced_with now t c')) /\
    empty_handed t sc' /\ sc_object sc' = sc_object sc.
Proof.
  intros [Hl Hf] Hd [Hno Hnone]. destruct (pass_held now sc c' Hl Hd ltac:(by apply holding_holds) Hnone) as (t & st & Hcase & Hrun).
  rewrite Hno in Hcase. destruct Hcase as [Et Est]. assert (tracks t) as Htr by (by rewrite Et).
  exists t, (with_store st sc). split; [apply Hrun; by rewrite Et|]. split; [|done]. split; [|by rewrite Et].
  split; [done| |by rewrite Et|by rewrite Et|].
  - split; [rewrite Est; cbn [sc_store with_store]; apply lookup_insert_Some; left; by split; [destruct Htr|]|].
    split; [by destruct Htr|]. rewrite Et. unfold ContainsFinalizer. cbn [tracker_meta]. by repeat split.
  - rewrite Est. cbn [sc_store with_store live commit]. rewrite lookup_insert_ne; [done|]. destruct Htr as [-> _]. by apply not_eq_sym, new_id_ne.
Qed.

Lemma coming_next i party now S :
  arrival !! i = Some party -> coming o0 o1 priors i S -> coming o0 o1 priors (Datatypes.S i) (take_turn party now S).
Proof.
  intros Hw HS. destruct HS as [sc Hun Ho|sc c' Hh Hd Hr Hun Ho|sc c' t Hh Hd Hr (Ht & Hno & Hph) Ho|sc c' t Hh Hd Hr He|]; [| | | |done];
    injection Hw as <-; cbn [take_turn].
  - rewrite pass_unheld by (done || (unfold ContainsFinalizer; by rewrite Hfresh)). cbn [snd]. rewrite Hfresh. cbn [app].
    apply Coming_held; [| | |done|done].
    + split; [apply later_finalizers|by destruct c as [[[] ? ?]|[[] ? ?]]].
    + rewrite <- Hlive. by destruct c as [[[] ? ?]|[[] ? ?]].
    + rewrite <- Hnew. by destruct c as [[[] ? ?]|[[] ? ?]].
  - destruct (pass_joins now sc c' Hh Hd Hun) as (t & sc' & -> & Ht & Hob). cbn [snd].
    destruct (synced_holding now t c' Hh Hd) as (? & ? & ?). apply (Coming_joined _ _ _ _ _ t); [done..|]. by rewrite Hob.
  - destruct (pass_applies now c' t sc o0 desired priors o1 (proj1 Hh) Hd Ht Hno Ho Hplan Hwritten) as (t' & sc' & -> & He).
    cbn [snd]. by apply (Coming_applied _ _ _ _ _ t').
  - rewrite (pass_reports now sc c' t Hh Hd (proj1 He)). cbn [snd]. destruct (synced_holding now t c' Hh Hd) as (? & ? & ?).
    apply (Coming_ready _ _ _ _ _ t); [done..|]. by eapply synced_ready, He.
Qed.

Lemma coming_stay i party now S :
  arrival !! i <> Some party -> coming o0 o1 priors i S -> coming o0 o1 priors i (take_turn party now S).
Proof.
  intros Hw HS. destruct HS as [sc Hun Ho|sc c' Hh Hd Hr Hun Ho|sc c' t Hh Hd Hr (Ht & Hno & Hph) Ho|sc c' t Hh Hd Hr He|sc c' t Hh Hd Hr He Hrd];
    destruct party; try (by destruct Hw); cbn [take_turn].
  - rewrite pass_untracked by apply Hun. by constructor.
  - rewrite pass_untracked by apply Hun. by constructor.
  - rewrite (pass_reports now sc c' t Hh Hd Ht). cbn [snd]. destruct (synced_holding now t c' Hh Hd) as (? & ? & ?).
    by apply (Coming_joined _ _ _ _ _ t).
  - destruct (pass_reapplies now c' t sc o1 priors (proj1 Hh) Hd He Hset) as (t' & sc' & -> & He'). cbn [snd].
    by apply (Coming_applied _ _ _ _ _ t').
  - rewrite (pass_reports now sc c' t Hh Hd (proj1 He)). cbn [snd]. destruct (synced_holding now t c' Hh Hd) as (? & ? & ?).
    apply (Coming_ready _ _ _ _ _ t); [done..|]. by eapply synced_ready, He.
  - destruct (pass_reapplies now c' t sc o1 priors (proj1 Hh) Hd He Hset) as (t' & sc' & -> & He'). cbn [snd].
    by apply (Coming_ready _ _ _ _ _ t').
Qed.

End Coming.

(** *** Leaving *)

(** The target is what it was: values the contribution had overwritten are back, as they were or as JSON
    stores them, fields it had introduced are gone, and everything else is untouched. *)
Definition as_before (o0 o : object) : Prop :=
  (forall q, readable q = true -> kept q -> (forall p, p ∈ Paths k -> diverge p q = true) -> Get (VMap o) q = Get (VMap o0) q) /\
  (forall p old new, p ∈ Paths k -> Get (VMap o0) p = Some old -> Get (VMap (Object k)) p = Some new -> sameValue old new = false ->
     exists w, Get (VMap o) p = Some w /\ (w = old \/ sameValue w (json_decoded old) = true)) /\
  (forall p, p ∈ Paths k -> Get (VMap o0) p = None -> Get (VMap o) p = None).

Lemma as_before_refl o : as_before o o.
Proof. split; [done|]. split; [|done]. intros p old new _ -> _ _. exists old. auto. Qed.

Definition idle (sc : scene) : Prop := live (sc_store sc) !! tid = None \/ exists t, empty_handed t sc.

(** On its way out: deleted, and still held by its finalizer. *)
Definition departing (c' : Contributor) : Prop :=
  holding c' /\ deleting (c_meta c') = true /\ asks (SharedResourceRefs (GetPatchStatus c')).

Inductive leaving (o0 o1 : object) (priors : gmap string value) : nat -> system -> Prop :=
| Leaving_asked sc c' t : departing c' -> SharedResourceRefs (GetPatchStatus c') = [tref] -> in_effect t sc o1 priors ->
    leaving o0 o1 priors 0 (mkSystem sc (Some c'))
| Leaving_withdrawn sc c' o : departing c' -> idle sc -> sc_object sc = Some o -> as_before o0 o ->
    leaving o0 o1 priors 1 (mkSystem sc (Some c'))
| Leaving_gone sc o : idle sc -> sc_object sc = Some o -> as_before o0 o -> leaving o0 o1 priors 2 (mkSystem sc None)
| Leaving_over sc o : live (sc_store sc) !! tid = None -> sc_object sc = Some o -> as_before o0 o ->
    leaving o0 o1 priors 3 (mkSystem sc None).

(** The turns it takes to leave: the contribution is withdrawn, the contributor goes, its tracker after it. *)
Definition departure : list turn := [OfTracker; OfContributor; OfTracker].

Section Leaving.
Variable o0 o1 o2 : object.
Variable priors : gmap string value.
Hypothesis Hrelease : OnRelease (Lifecycle (GetPatchSpec c)) <> OnReleaseOrphan.
Hypothesis Hwithdrawn : written_over o1 (withdrawn_object priors o1) o2.
Hypothesis Hbefore : as_before o0 o2.

Lemma departing_away c' now sc : departing c' -> idle sc -> contributor_pass cid now (mkSystem sc (Some c')) = (done_, mkSystem sc None).
Proof.
  intros ([Hl Hf] & Hd & Hr) Hi. rewrite run_leaving by done.
  destruct (SharedResourceRefs _) as [|ref refs]; [done|]. destruct Hi as [-> |(t & Ht & Hno & _)]; [done|].
  destruct (tr_work _ _ Ht) as (Hlt & _). cbn [fst snd] in Hlt. rewrite Hlt. unfold FindContributor. by rewrite Hno.
Qed.

(** With nothing on record there is nothing to withdraw. *)
Lemma pass_idle c' now sc o :
  departing c' -> idle sc -> sc_object sc = Some o ->
  exists sc', tracker_pass tid now (mkSystem sc (Some c')) = (done_, mkSystem sc' (Some c')) /\ idle sc' /\ sc_object sc' = Some o.
Proof.
  intros ([Hl Hf] & Hd & Hr) [Hno|(t & Ht & Hno & Hph)] Ho.
  { exists sc. split; [by apply pass_untracked|]. split; [by left|done]. }
  assert (FindContributor (GetTrackerStatus t) (ContributorRefOf c') = None) as Hnone by (unfold FindContributor; by rewrite Hno).
  destruct (pass_withdraws now c' t sc o [] ∅ o Hl Hd Hrelease Ht) as (t' & sc' & -> & Ht' & Hno' & Hph' & Ho'); [done|..].
  - unfold recordFor. by rewrite Hnone.
  - unfold recordFor. by rewrite Hnone.
  - done.
  - intros m. unfold written_over, equalContent. cbn [plan_revert foldl Rev_OwnedPaths]. by rewrite String.eqb_refl.
  - exists sc'. split; [done|]. split; [|done]. right. exists t'. split; [done|]. split; [done|]. by rewrite Hph'.
Qed.

Lemma leaving_next i party now S :
  departure !! i = Some party -> leaving o0 o1 priors i S -> leaving o0 o1 priors (Datatypes.S i) (take_turn party now S).
Proof.
  intros Hw HS. destruct HS as [sc c' t Hdep Hr (Ht & Hrem & _ & Ho)|sc c' o Hdep Hi Ho Hb|sc o Hi Ho Hb|]; [| | |done];
    injection Hw as <-; cbn [take_turn].
  - pose proof Hdep as ([Hl _] & Hd & _). destruct (record_again _ _ _ Hrem Hl) as (r & Hrec & _ & Ha & Hp).
    destruct (pass_withdraws now c' t sc o1 (Paths k) (decoded_map priors) o2 Hl Hd Hrelease Ht Hclaims) as (t' & sc' & -> & Ht' & Hno' & Hph' & Ho').
    + rewrite Hrec. apply (ap_paths _ _ Ha).
    + rewrite Hrec, Hp. apply priors_roundtrip.
    + done.
    + by intros m.
    + apply (Leaving_withdrawn _ _ _ _ _ o2); [done| |done|done]. right. exists t'. split; [done|]. split; [done|]. by rewrite Hph'.
  - rewrite departing_away by done. by apply (Leaving_gone _ _ _ _ o).
  - destruct Hi as [Hno|(t & Ht & Hno & Hph)].
    + rewrite pass_untracked by done. by apply (Leaving_over _ _ _ _ o).
    + destruct (pass_retires now t sc Ht Hno Hph) as (sc' & -> & Hgone & Hob). apply (Leaving_over _ _ _ _ o); [done|by cbn [snd]; rewrite Hob|done].
Qed.

Lemma leaving_stay i party now S :
  departure !! i <> Some party -> leaving o0 o1 priors i S -> leaving o0 o1 priors i (take_turn party now S).
Proof.
  intros Hw HS. destruct HS as [sc c' t Hdep Hr He|sc c' o Hdep Hi Ho Hb|sc o Hi Ho Hb|sc o Hno Ho Hb];
    destruct party; try (by destruct Hw); cbn [take_turn].
  - pose proof Hdep as ([Hl Hf] & Hd & Hasks). rewrite run_leaving by done. rewrite Hr.
    pose proof He as (Ht & (r & Hfind & _)%remembers_found & _). destruct (tr_work _ _ Ht) as (Hlt & _). cbn [fst snd] in Hlt.
    rewrite Hlt, Hfind. by apply (Leaving_asked _ _ _ _ _ t).
  - destruct (pass_idle c' now sc o Hdep Hi Ho) as (sc' & -> & Hi' & Ho'). by apply (Leaving_withdrawn _ _ _ _ _ o).
  - rewrite pass_gone. by apply (Leaving_gone _ _ _ _ o).
  - rewrite pass_gone. by apply (Leaving_over _ _ _ _ o).
  - rewrite pass_untracked by done. by apply (Leaving_over _ _ _ _ o).
Qed.

(** Wherever it had got to when it was asked to leave. *)
Lemma asked_leaving z i S :
  Finalizers (c_meta c) = [] -> coming o0 o1 priors i S -> exists j, j <= 3 /\ leaving o0 o1 priors j (asked_to_delete z S).
Proof.
  intros Hfresh HS. pose proof (as_before_refl o0) as Hb.
  assert (forall c', holding c' -> asks (SharedResourceRefs (GetPatchStatus c')) ->
    Finalizers (c_meta c') = [ContributorFinalizer] /\ departing (deleted_at z c') /\
    SharedResourceRefs (GetPatchStatus (deleted_at z c')) = SharedResourceRefs (GetPatchStatus c')) as Hdep.
  { intros c' [Hl Hf] Ha. split; [done|]. unfold departing, holding. rewrite <- Hf.
    assert (later c (deleted_at z c')) as Hl' by (eapply later_trans; [exact Hl|apply later_deletion]).
    by destruct c' as [[[] ? ?]|[[] ? ?]]. }
  unfold asked_to_delete. destruct HS as [sc [Hun _] Ho|sc c' Hh Hd Hr [Hun _] Ho|sc c' t Hh Hd Hr Ht Ho|sc c' t Hh Hd Hr He|sc c' t Hh Hd Hr He _];
    cbn [sys_scene sys_contributor].
  1: { rewrite Hfresh, bool_decide_true by done. exists 3. split; [done|]. by apply (Leaving_over _ _ _ _ o0). }
  all: destruct (Hdep c' Hh) as (Hf & Hdp & Hrefs); [unfold asks; rewrite Hr; auto|]; rewrite Hf, bool_decide_false by done.
  - exists 1. split; [lia|]. apply (Leaving_withdrawn _ _ _ _ _ o0); [done|by left|done|done].
  - exists 1. split; [lia|]. apply (Leaving_withdrawn _ _ _ _ _ o0); [done|right; by exists t|done|done].
  - exists 0. split; [lia|]. apply (Leaving_asked _ _ _ _ _ t); [done|by rewrite Hrefs|done].
  - exists 0. split; [lia|]. apply (Leaving_asked _ _ _ _ _ t); [done|by rewrite Hrefs|done].
Qed.

End Leaving.

(** ** Properties *)

Section Outcome.
Variable sc : scene.
Variable o0 desired priors : object.
Hypothesis Hlive : deleting (c_meta c) = false.
Hypothesis Hfresh : Finalizers (c_meta c) = [].
Hypothesis Hnew : SharedResourceRefs (GetPatchStatus c) = [].
Hypothesis Hfree : untracked sc.
Hypothesis Hobject : sc_object sc = Some o0.
Hypothesis Hplan : first_plan o0 = Ok (desired, priors).
(** If what is about to be written has the hash of what is there, it is there already. *)
Hypothesis Hapart : equalContent o0 desired = true -> forall p, p ∈ Paths k -> settled o0 (Object k) p.



End Outcome.

End System.

(** ** At work

    A ConfigMap holds an old value where the contributor has its own to put, next to one it introduces. *)

Definition newcomer : Contributor :=
  ResourcePatch (mkPatchObject
    (mkObjectMeta "a" "team-a" "u1" "1" 1 0 None [] {[AuthorizedIdentityAnnotation := marshal_identity sample_identity]})
    (mkResourcePatchSpec (mkTargetRef "" "v1" "ConfigMap" "cm" "" None None 0)
       (mkLifecycleSpec OnMissingWait OnReleaseRevert None "")
       (mkApplySpec ApplyModeClientSideApply "" "") 0 None None
       (mkPatchSpec "" (Some (RawJSON (VMap {["data" := VMap {["k" := VStr "mine"; "l" := VStr "too"]}]}))) None []))
    (mkResourcePatchStatus [] [] [] 0 "" None)).

Definition old_map : object := {["apiVersion" := VStr "v1"; "kind" := VStr "ConfigMap"; "data" := VMap {["k" := VStr "old"; "m" := VStr "kept"]}]}.

Definition at_rest : scene := mkScene (mkStore ∅ []) (Some old_map) [].

Definition data (f : string) : Path := [FieldSegment "data"; FieldSegment f].

(** Whether the plan differs from the object, and its withdrawal from the result, by hash. *)
Definition told_apart_by (k : Contribution) (desired priors : object) : bool :=
  negb (equalContent old_map desired) &&
  match store_next "" (Some old_map) desired with
  | Ok o1 => negb (equalContent o1 (withdrawn_object k priors o1))
  | Err _ => false
  end.

Definition newcomer_rendered : res goerror Contribution :=
  let key := TargetKeyFor newcomer in
  Render.Render (H := no_ops) (Some (Patch (GetPatchSpec newcomer)))
    (mkRenderTarget (Key_APIVersion key) (Key_Kind key) (Key_Name key) (Key_Namespace key)).

Definition newcomer_fine : bool :=
  match newcomer_rendered with
  | Ok k => bool_decide (Paths k = [data "k"; data "l"]) &&
      match first_plan k old_map with Ok (desired, priors) => told_apart_by k desired priors | Err _ => false end
  | Err _ => false
  end.

Definition below_data (q : Path) : Prop := exists q', q = FieldSegment "data" :: q'.

Lemma store_next_keeps old sent :
  exists o, store_next (who false "") (Some old) sent = Ok o /\ forall q, below_data q -> Get (VMap o) q = Get (VMap sent) q.
Proof.
  unfold store_next. eexists. split; [reflexivity|]. intros q [q' ->]. apply Get_set_meta; [reflexivity|discriminate].
Qed.

Lemma newcomer_plan : exists k desired priors,
  newcomer_rendered = Ok k /\ Paths k = [data "k"; data "l"] /\ first_plan k old_map = Ok (desired, priors) /\ told_apart_by k desired priors = true.
Proof.
  assert (newcomer_fine = true) as H by vm_refl. revert H. unfold newcomer_fine.
  destruct newcomer_rendered as [k|]; [|done]. intros [Hp%bool_decide_eq_true H]%andb_prop. revert H.
  destruct (first_plan k old_map) as [[desired priors]|] eqn:E; [|intros [=]]. intros Ht. exists k, desired, priors.
  exact (conj eq_refl (conj Hp (conj E Ht))).
Qed.

Definition newcomer_plays (turns : list (turn * Z)) (S : system) : system :=
  play (K := plain_library) (JP := no_ops) false (fun _ _ => map_to_list) true 100 allows_all store_next no_merge newcomer turns S.

Lemma in_two {P : Path -> Prop} k : Paths k = [data "k"; data "l"] -> P (data "k") -> P (data "l") -> forall p, p ∈ Paths k -> P p.
Proof. intros -> H1 H2 p Hp%list_elem_of_In. destruct Hp as [<-|[<-|[]]]; assumption. Qed.

Lemma data_below_data f : below_data (data f).
Proof. by eexists. Qed.

Lemma newcomer_valid : Validate newcomer (Some (isNamespacedKind (K := plain_library))) = [].
Proof. vm_refl. Qed.

Lemma newcomer_claims k : Paths k = [data "k"; data "l"] -> forallb claim_path (Paths k) = true /\ disjoint_paths (Paths k) = true.
Proof. intros ->. split; reflexivity. Qed.

(** A busy queue: both are woken more often than they need. *)
Definition busy : list (turn * Z) :=
  [(OfTracker, 1); (OfContributor, 2); (OfTracker, 3); (OfContributor, 4); (OfContributor, 5); (OfTracker, 6); (OfTracker, 7); (OfContributor, 8); (OfTracker, 9)]%Z.

Lemma busy_arrival : arrival `sublist_of` map fst busy.
Proof. repeat first [apply sublist_nil_l|apply sublist_skip|apply sublist_cons]. Qed.


Lemma newcomer_takes_k k : newcomer_rendered = Ok k ->
  exists new, Get (VMap (Object k)) (data "k") = Some new /\ sameValue (VStr "old") new = false.
Proof.
  assert (match newcomer_rendered with
    | Ok k => match Get (VMap (Object k)) (data "k") with Some new => negb (sameValue (VStr "old") new) | None => false end
    | Err _ => false end = true) as H by vm_refl. revert H.
  destruct newcomer_rendered as [k'|]; [|intros [=]]. intros H [= <-]. revert H.
  destruct (Get _ _) as [new|]; [|intros [=]]. intros H. exists new. split; [reflexivity|]. by apply negb_true_iff.
Qed.

Lemma told_apart_result k desired priors :
  equalContent old_map desired = false ->
  match store_next "" (Some old_map) desired with
  | Ok o1 => negb (equalContent o1 (withdrawn_object k priors o1))
  | Err _ => false
  end = true ->
  forall o1, written_over false store_next "" old_map desired o1 -> equalContent o1 (withdrawn_object k priors o1) = true ->
    forall p, p ∈ Paths k -> same_at o1 (withdrawn_object k priors o1) p.
Proof.
  intros Ha Hb o1. unfold written_over. rewrite Ha. change (who false "") with "". intros E. rewrite E in Hb.
  apply negb_true_iff in Hb. rewrite Hb. discriminate.
Qed.

Lemma busy_departure : departure `sublist_of` map fst busy.
Proof. repeat first [apply sublist_nil_l|apply sublist_skip|apply sublist_cons]. Qed.


End Lifecycle.
