(* ===== verification/Wakeups.v ===== *)
(** What wakes a tracker: the target watches ([ensureTargetWatch] of
    [internal/controller/tracker_controller.go]) and the mapping functions of both kinds of event, and
    that a tracker made for a contributor is one that its target, its contributor and the moves of a
    promotion wake. *)
From stdpp Require Import strings base list gmap fin_maps relations.
From Stdlib Require Import Lia.
From S2P Require Import Prelude GoStrings Values ApiTypes Identity Scope Kube Client ProgramLogic TrackerLogic Controller Traces.
From S2P Require Import Promotion ContributorReconciler ContributorSpec ContributorGuarantees TrackerReconciler TargetCache.
From S2P Require Import World TrackerStore Handover HandoverSpec HandoverGuarantees.
Local Open Scope string_scope.
Local Open Scope list_scope.
Local Open Scope go_scope.

Module Wakeups.
Import GoStrings Values ApiTypes Identity Scope Kube Client ProgramLogic TrackerLogic Controller Traces.
Import Promotion ContributorReconciler ContributorSpec ContributorGuarantees TrackerReconciler TargetCache.
Import World TrackerStore Handover HandoverSpec HandoverGuarantees.

(** ** Target watches *)

(** The function a watch is registered with: the tracker an object of the watched kind, given by its
    key, belongs to, if there is one. *)
Definition map_target (trackerKind : string) (key : TargetKey) : ctlM (list NamespacedName) :=
  match watch_request trackerKind key with
  | None => Ret []
  | Some req =>
      match emptyTracker trackerKind with
      | Err _ => Ret []
      | Ok _ =>
          do! g <- call (GetTracker false trackerKind (nn_Namespace req) (nn_Name req)) in
          match g with Err _ => Ret [] | Ok _ => Ret [req] end
      end
  end.

Section Watching.
Context {K : KubeLib}.

(** [ensureTargetWatch]: the registrations afterwards; [configured] tells whether there is a cache and
    a controller, [watchFn] is what registering the watch would return.  An error is only logged. *)
Definition ensureTargetWatch (configured : bool) (tracker : Tracker) (watchFn : option goerror) (m : Manager) : Manager :=
  if negb configured then m
  else
    match ParseGroupVersion (TT_APIVersion (targetRef tracker)) with
    | Err _ => m
    | Ok (group, version) =>
        (Ensure (TrackerKind tracker) (mkGVK group version (TT_Kind (targetRef tracker))) watchFn m).1
    end.

(** ** Where events of a tracker's target and of its contributors go *)

Definition request_of (t : Tracker) : NamespacedName :=
  mkNamespacedName (Namespace (tracker_meta t)) (Name (tracker_meta t)).

(** The tracker's listing finds the contributor: it is indexed under the tracker's target, and within
    the kinds and namespaces the tracker lists. *)
Definition listed_by (t : Tracker) (c : Contributor) : Prop :=
  TargetKey_String (key_of t) ∈ targetKeysFor c /\
  if IsClusterScoped c then TrackerIsClusterScoped t = true
  else own_namespace t = None \/ own_namespace t = Some (Namespace (c_meta c)).

(** Events of [t]'s target, and of nothing with another tracker, go to [t]. *)
Definition target_wakes (t : Tracker) : Prop :=
  watch_request (TrackerKind t) (key_of t) = Some (request_of t).

Definition contributor_wakes (c : Contributor) (t : Tracker) : Prop :=
  (forall ref, ref ∈ SharedResourceRefs (GetPatchStatus c) -> TrackerRef_Kind ref <> TrackerKind t) ->
  trackersOfContributor (TrackerKind t) c = [request_of t].

(** What a single-target contributor can count on of the tracker made for it. *)
Definition routed (c : Contributor) (t : Tracker) : Prop :=
  key_of t = TargetKeyFor c /\ (Target_Name (Target (GetPatchSpec c)) <> "" -> listed_by t c) /\ contributor_wakes c t.

Lemma map_target_wakes t :
  target_wakes t ->
  map_target (TrackerKind t) (key_of t) =
    do! g <- call (GetTracker false (TrackerKind t) (Namespace (tracker_meta t)) (Name (tracker_meta t))) in
    match g with Err _ => Ret [] | Ok _ => Ret [request_of t] end.
Proof. unfold target_wakes, map_target. intros ->. by destruct t. Qed.

(** A tracker of the kind and under the name of its target. *)
Definition placed (t : Tracker) (key : TargetKey) (hasCluster : bool) : Prop :=
  key_of t = key /\ TrackerKind t = TrackerKindFor key hasCluster /\
  request_of t = mkNamespacedName (TrackerNamespace (TrackerKind t) key) (TrackerName key).

Lemma placed_wakes t key b : placed t key b -> target_wakes t.
Proof.
  intros (Hk & Hkind & Hreq). unfold target_wakes, watch_request. rewrite Hk, Hreq.
  replace (existsb _ _) with true; [done|]. symmetry. apply existsb_exists. exists b.
  split; [destruct b; cbn; auto|]. by rewrite Hkind, String.eqb_refl.
Qed.

Lemma single_mode c : effective_mode (GetPatchSpec c) = TargetModeSingle -> Target_Mode (Target (GetPatchSpec c)) <> TargetModeSelector.
Proof. unfold effective_mode. cbv zeta. destruct (String.eqb_spec (Target_Mode (Target (GetPatchSpec c))) "") as [->|_]; [done|]. by intros ->. Qed.

Lemma no_refs kind (l : list TrackerRef) :
  (forall ref, ref ∈ l -> TrackerRef_Kind ref <> kind) -> filter (fun r => String.eqb (TrackerRef_Kind r) kind) l = [].
Proof.
  induction l as [|r l IH]; intros H; [done|]. rewrite filter_cons_False; [apply IH; intros ref ?; apply H; by right|].
  intros E%Is_true_true%String.eqb_eq. by apply (H r); [left|].
Qed.

Lemma placed_routed c t :
  effective_mode (GetPatchSpec c) = TargetModeSingle -> placed t (TargetKeyFor c) (IsClusterScoped c) -> routed c t.
Proof.
  intros Hm (Hk & Hkind & Hreq). split; [done|]. split.
  - intros Hn%String.eqb_neq. split.
    + unfold targetKeysFor. rewrite Hm, Hn, Hk. by left.
    + destruct (IsClusterScoped c) eqn:Ec.
      * revert Hkind. unfold TrackerKindFor. rewrite orb_true_r. by destruct t.
      * destruct t as [o|o]; [|by left]. right. unfold own_namespace. cbn [TrackerIsClusterScoped]. f_equal.
        apply (f_equal nn_Namespace) in Hreq. cbn in Hreq. rewrite Hreq. cbn. unfold ResolveTargetNamespace. by rewrite Ec.
  - intros Hrefs. unfold trackersOfContributor.
    rewrite (no_refs _ _ Hrefs).
    pose proof (single_mode _ Hm) as Hne%String.eqb_neq. rewrite Hne. cbn. rewrite <- Hkind, String.eqb_refl. by rewrite Hreq.
Qed.

(** *** The trackers a contributor's reconcile makes

    [V] are the contributors the server has returned. *)
Section Made.
Variable V : Contributor -> Prop.

Definition made_for (t : Tracker) : Prop :=
  target_wakes t /\ exists c, V c /\ (effective_mode (GetPatchSpec c) = TargetModeSingle -> routed c t).

Definition ask (R : Type) (c : ctlE R) : Prop := match c with CreateTracker t => made_for t | _ => True end.

Definition ans (R : Type) (c : ctlE R) : R -> Prop :=
  match c in ctlE R return R -> Prop with
  | GetContributor _ _ _ | UpdateContributorStatus _ => fun r => match r with Ok c => V c | Err _ => True end
  | _ => fun _ => True
  end.

Local Abbreviation typed := (typed ask ans).

Variable uncached authorizer : bool.
Variable ReauthorizeAfter : Z.

(** The key is one the contributor resolves to. *)
Definition resolved (c : Contributor) (key : TargetKey) : Prop :=
  effective_mode (GetPatchSpec c) = TargetModeSingle -> key = TargetKeyFor c.

Lemma placed_made c key t : V c -> resolved c key -> placed t key (IsClusterScoped c) -> made_for t.
Proof.
  intros Hc Hk Hp. split; [by eapply placed_wakes|]. exists c. split; [done|]. intros Hm. apply placed_routed; [done|].
  by rewrite <- (Hk Hm).
Qed.

Lemma create_tracker_made c key :
  V c -> resolved c key ->
  let kind := TrackerKindFor key (IsClusterScoped c) in
  typed (create_tracker (mkTrackerRef kind (TrackerName key) (TrackerNamespace kind key)) key) (fun _ => True).
Proof.
  intros Hc Hk. cbv zeta. unfold create_tracker, newTracker, TrackerKindFor, TrackerNamespace. cbv zeta.
  destruct key as [api kind ns name]. destruct (IsClusterScopedTarget _ || _) eqn:E; cbn [TrackerRef_Kind TrackerRef_Name TrackerRef_Namespace].
  all: cbn; split; [|by intros [e|] _; [destruct (IsAlreadyExists e)|]].
  all: apply (placed_made c (mkTargetKey api kind ns name)); [done..|]; unfold placed, TrackerKindFor; by rewrite E.
Qed.

Lemma getTracker_made ref : typed (getTracker ref) (fun _ => True).
Proof. unfold getTracker. by destruct (emptyTracker _). Qed.

Lemma join_tracker_made c key : V c -> resolved c key -> typed (join_tracker c key) (fun _ => True).
Proof.
  intros Hc Hk. unfold join_tracker. cbv zeta. eapply typed_use; [apply getTracker_made|]. intros [t|e] _.
  - by destruct (PromotedTo _).
  - destruct (IsNotFound e); [by apply create_tracker_made|done].
Qed.

Lemma retry_made {S} (attempt : S -> ctlM (S * option goerror)) n :
  (forall s, typed (attempt s) (fun _ => True)) -> forall s, typed (retry_on_conflict n attempt s) (fun _ => True).
Proof.
  intros Ha. induction n as [|n IH]; intros s; cbn [retry_on_conflict]; [apply Ha|].
  eapply typed_use; [apply Ha|]. intros [s' [e|]] _; [|done]. by destruct (IsConflict e).
Qed.

Lemma promoteIfNeeded_made c key :
  V c -> resolved c key -> IsClusterScoped c = true -> typed (promoteIfNeeded uncached key) (fun _ => True).
Proof.
  intros Hc Hk Hcs. unfold promoteIfNeeded. cbv zeta. eapply typed_use.
  { apply retry_made. intros []. unfold fence_attempt. repeat (first [typed_step|exact I|done]). }
  intros [[] [e|]] _; [by destruct (IsNotFound e)|]. typed_step; [exact I|]. destruct r as [old|e]; [|done].
  eapply (typed_use _ _ _ _ (fun _ => True)).
  - unfold createSuccessor. typed_step; [done|]. typed_step; [exact I|].
    eapply (typed_use _ _ _ _ (fun _ => True)).
    + destruct r as [t|e]; [done|]. destruct (IsNotFound e); [|done]. typed_step; [|by destruct r as [e'|]; [destruct (IsAlreadyExists e')|]].
      apply (placed_made c key); [done..|]. destruct key. rewrite Hcs. unfold placed, TrackerKindFor. by rewrite orb_true_r.
    + intros [e|] _; [done|]. eapply typed_use; [|by intros [[] e]].
      apply retry_made. intros []. unfold adopt_attempt. repeat (first [typed_step|exact I|done]).
  - intros [e|] _; [done|]. eapply typed_use; [|by intros [[] e]].
    apply retry_made. intros []. unfold flag_attempt. repeat (first [typed_step|exact I|done]).
Qed.

Lemma ensureTracker_made c key : V c -> resolved c key -> typed (ensureTracker uncached c key) (fun _ => True).
Proof.
  intros Hc Hk. unfold ensureTracker. eapply (typed_use _ _ _ _ (fun _ => True)).
  { destruct (IsClusterScoped c) eqn:Ec; [|done]. cbn [andb]. destruct (negb _); [by apply (promoteIfNeeded_made c)|done]. }
  intros [e|] _; [done|]. destruct (negb _ && _); [|by apply join_tracker_made].
  typed_step; [exact I|]. destruct r as [t|e]; [done|]. destruct (IsNotFound e); [by apply join_tracker_made|done].
Qed.

Lemma ensure_all_made c keys : V c -> Forall (resolved c) keys -> typed (ensure_all uncached c keys) (fun _ => True).
Proof.
  intros Hc. induction 1 as [|key keys Hk _ IH]; cbn [ensure_all]; [done|].
  eapply typed_use; [by apply ensureTracker_made|]. intros [ref|e] _; [|done].
  eapply typed_use; [exact IH|]. by intros [refs|e] _.
Qed.

Lemma list_targets_made spec ns : forall keys, typed (list_targets spec ns keys) (fun _ => True).
Proof.
  induction ns as [|n ns IH]; intros keys; cbn [list_targets]; [done|]. typed_step; [exact I|].
  destruct r as [items|e]; [|done]. by destruct (add_keys _ _ _).
Qed.

Lemma resolveTargets_made c : typed (resolveTargets c) (fun r => forall keys, r = Ok keys -> Forall (resolved c) keys).
Proof.
  unfold resolveTargets. destruct (String.eqb_spec (effective_mode (GetPatchSpec c)) TargetModeSingle) as [E|E].
  - intros keys [= <-]. by constructor.
  - eapply typed_post with (post := fun _ => True).
    2: { intros r _ keys _. apply Forall_true. intros key. by unfold resolved. }
    unfold resolveSelector. cbv zeta. typed_step; [|done]. typed_step; [done|].
    eapply (typed_use _ _ _ _ (fun _ => True)).
    + unfold selectorNamespaces. repeat (first [typed_step|exact I|done]).
    + intros [namespaces|e] _; [apply list_targets_made|done].
Qed.

Lemma contributorCond_made c ty s reason msg : typed (contributorCond c ty s reason msg) (fun _ => True).
Proof. unfold contributorCond. by typed_step; [exact I|]. Qed.

Lemma observe_targets_made ref keys : forall trackers n, typed (observe_targets ref keys trackers n) (fun _ => True).
Proof.
  induction keys as [|key keys IH]; intros trackers n; cbn [observe_targets]; [done|].
  destruct trackers as [|tr trackers]; [eapply typed_use; [apply IH|]; by intros [[rest m]|e] _|].
  eapply typed_use; [apply getTracker_made|]. intros r _. cbv zeta.
  assert (forall t, typed (let '(ts, n) := observe_target ref key t n in
    try! (rest, n) <- observe_targets ref keys trackers n in Ret (Ok (ts :: rest, n))) (fun _ => True)) as Hgo.
  { intros t. destruct (observe_target ref key t n). eapply typed_use; [apply IH|]. by intros [[rest m]|e] _. }
  destruct r as [t|e]; [apply Hgo|]. by destruct (IsNotFound e).
Qed.

Lemma setStatusError_made c reason msg : typed (setStatusError c reason msg) (fun _ => True).
Proof.
  unfold setStatusError. do 2 (eapply typed_use; [apply contributorCond_made|]; intros ? _).
  by typed_step; [exact I|].
Qed.

Lemma recheck_made user c : typed (recheck ReauthorizeAfter user c) (fun r => r.2 = None -> V r.1.1).
Proof.
  unfold recheck. cbv zeta. typed_step; [exact I|]. typed_step; [|done]. destruct a as [allowed reason].
  typed_step; [exact I|]. eapply (typed_use _ _ _ _ (fun _ => True)); [destruct allowed; apply contributorCond_made|].
  intros c' _. typed_step; [exact I|]. destruct r1; [by intros _|done].
Qed.

Lemma reauthorize_made c : V c -> typed (reauthorize authorizer ReauthorizeAfter c) (fun r => r.2 = None -> V r.1.1).
Proof.
  intros Hc. unfold reauthorize. typed_step; [by intros _|]. typed_step; [|by intros _]. typed_step; [|apply recheck_made].
  typed_step; [exact I|]. typed_step; [|apply recheck_made]. typed_step; [exact I|]. by intros _.
Qed.

Lemma still_registered_made ref trs : forall acc, typed (still_registered ref trs acc) (fun _ => True).
Proof.
  induction trs as [|tr trs IH]; intros acc; cbn [still_registered]; [done|]. eapply typed_use; [apply getTracker_made|].
  intros [t|e] _; [apply IH|]. by destruct (IsNotFound e).
Qed.

Lemma contributor_Reconcile_made kind ns name :
  typed (ContributorReconciler.Reconcile uncached authorizer ReauthorizeAfter kind ns name) (fun _ => True).
Proof.
  unfold ContributorReconciler.Reconcile. typed_step; [exact I|]. destruct r as [c|e]; [|done]. cbn in H.
  typed_step.
  { unfold ContributorReconciler.reconcileDelete. typed_step; [done|]. eapply typed_use; [apply still_registered_made|].
    intros [[|]|e] _; [done| |done]. by typed_step; [exact I|]. }
  typed_step; [|unfold setInvalid; eapply typed_use; [apply setStatusError_made|]; done].
  typed_step; [by typed_step; [exact I|destruct r]|].
  eapply typed_use; [by apply reauthorize_made|]. intros [[c1 after] [e|]] Hc1; [done|]. specialize (Hc1 eq_refl).
  eapply typed_use; [apply resolveTargets_made|]. intros [keys|e] Hkeys.
  2: { eapply typed_use; [apply setStatusError_made|]. done. }
  eapply typed_use; [apply ensure_all_made; [done|by apply Hkeys]|]. intros [trackers|e] _; [|done].
  unfold syncStatus. eapply (typed_use _ _ _ _ (fun _ => True)); [|by intros [e|]].
  eapply typed_use; [apply observe_targets_made|]. intros [[observed n]|e] _; [|done]. cbv zeta.
  destruct (ready_verdict _ _) as [[s reason] msg].
  do 3 (eapply typed_use; [apply contributorCond_made|]; intros ? _). by typed_step; [exact I|].
Qed.

End Made.

End Watching.

(** ** The trackers a contributor makes *)

(** A tracker is made where everything that concerns it will find it.  Whatever the API server
    answers, each tracker a contributor's reconcile creates, in a promotion too, bears the name its
    target's watch maps events to, so that a change of the target reads that tracker and, if it is
    there, wakes it and nothing else; and if the contributor has a single target, the tracker is for
    that target, its index query lists the contributor, and until the contributor has recorded a
    tracker of that kind its own events wake the new one. *)
Theorem created_tracker_is_routed {K : KubeLib} (uncached authorizer : bool) (after : Z) (kind namespace name : string)
    (tr pre suf : list (event ctlE)) (o : outcome) (t : Tracker) (r : option goerror)
    (Hexec : exec (ContributorReconciler.Reconcile uncached authorizer after kind namespace name) tr o)
    (Htr : tr = pre ++ mkEvent _ (CreateTracker t) r :: suf) :
  map_target (TrackerKind t) (key_of t) =
    (do! g <- call (GetTracker false (TrackerKind t) (Namespace (tracker_meta t)) (Name (tracker_meta t))) in
     match g with Err _ => Ret [] | Ok _ => Ret [request_of t] end) /\
  exists c, returned_c pre c /\
    (effective_mode (GetPatchSpec c) = TargetModeSingle ->
     key_of t = TargetKeyFor c /\ (Target_Name (Target (GetPatchSpec c)) <> "" -> listed_by t c) /\ contributor_wakes c t).
Proof.
  pose proof (typed_wp _ _ _ _ [] (fun _ => contributor_Reconcile_made (returned_c pre) uncached authorizer after kind namespace name)) as Hwp.
  destruct (wp_exec _ _ _ _ _ _ Hwp Hexec) as [Ho _]. destruct (Ho _ _ _ Htr) as [Hw Hc].
  - apply Forall_forall. intros [R c x] He. destruct c; try done; destruct x as [c0|]; try done; cbn; by eexists.
  - split; [by apply map_target_wakes|]. destruct Hc as (c & Hc & Hr). by exists c.
Qed.

(** ** The moves of a promotion *)

Lemma filter_shorter (f : string) l : f ∈ l -> length (filter (fun x => x <> f) l) <> length l.
Proof. intros Hin E. pose proof (length_filter_lt (fun x => x <> f) l f Hin ltac:(by intros H)). lia. Qed.

(** Any change of the fence passes the filter, whatever else changed. *)
Lemma fence_wakes key h t t' :
  fence_moves key h (PromotedTo (GetTrackerStatus t)) (PromotedTo (GetTrackerStatus t')) -> trackerChanged t t' = true.
Proof.
  unfold trackerChanged, fence_moves, IsFenced. cbv zeta.
  destruct (negb _); [done|]. destruct (negb _); [done|]. destruct (negb _); [done|].
  destruct (PromotedTo (GetTrackerStatus t)) as [p|], (PromotedTo (GetTrackerStatus t')) as [p'|]; cbn; try done.
  by intros (-> & -> & _).
Qed.

Lemma release_wakes t t' :
  holds t = true -> Finalizers (tracker_meta t') = filter (fun x => x <> TrackerFinalizer) (Finalizers (tracker_meta t)) ->
  trackerChanged t t' = true.
Proof.
  unfold holds, ContainsFinalizer, tracker_meta, trackerChanged. cbv zeta. intros Hin%bool_decide_eq_true E.
  destruct (negb (_ =? _)%Z); [done|]. destruct (negb (Bool.eqb _ _)); [done|]. rewrite E.
  by apply filter_shorter, not_eq_sym, Nat.eqb_neq in Hin as ->.
Qed.

Section Moves.
Variable key : TargetKey.
Variable origin : SharedResourceStatus.
Local Abbreviation old_id := (Handover.old_id key).
Local Abbreviation al := (Handover.policy_ key).

(** The stage is as it was, or the change is one that passes. *)
Definition noticed (s s' : store) : Prop :=
  stage_of key s' = stage_of key s \/
  forall t t', live s !! old_id = Some t -> live s' !! old_id = Some t' -> trackerChanged t t' = true.

Lemma status_noticed s s' h t t' :
  store_ok key origin s -> knows key origin s h -> participant key h _ (UpdateTrackerStatus t) ->
  status_updated t t' s s' -> noticed s s'.
Proof.
  intros Hs Hk [Ho|Hn] Hu.
  - right. destruct (writes_old_ok _ _ _ _ _ _ _ Hs Hk Ho Hu) as (_ & _ & _ & t0 & Hl & Hl' & _ & Hm).
    intros x x'. rewrite Hl, Hl'. intros [= <-] [= <-]. by eapply fence_wakes.
  - left. destruct (writes_new_ok _ _ _ _ _ _ _ Hs Hk Hn Hu) as (_ & _ & _ & _ & El). by apply stage_live.
Qed.

Lemma update_noticed s s' h t t' :
  store_ok key origin s -> knows key origin s h -> participant key h _ (UpdateTracker t) -> updated t t' s s' -> noticed s s'.
Proof.
  intros Hs Hk (t0 & Hret & Hid & Had & ->) Hu.
  destruct (retires_ok _ _ _ _ _ _ _ Hs Hk Hret Hid Had Hu) as (_ & _ & _ & _ & Hl & Hl').
  destruct (holds t0) eqn:Eh.
  2: { left. unfold stage_of. rewrite Hl, Eh. by destruct Hl' as [->|[-> ->]]. }
  right. intros x x'. rewrite Hl. intros [= <-]. destruct Hl' as [->|[-> _]]; [done|]. intros [= <-].
  apply release_wakes; [done|]. destruct Hu as (cur & rv & Hcur & _ & _ & -> & _). autorewrite with trackers. cbn.
  unfold drop_tracker_finalizer. by rewrite meta_set_meta.
Qed.

Lemma call_noticed s h R (c : ctlE R) r s' :
  store_ok key origin s -> knows key origin s h -> al h R c -> answers R s c r s' -> noticed s s'.
Proof.
  intros Hs Hk Hal Ha. pose proof (proj1 Hs) as Hw. specialize (Hal (proj1 (proj2 Hk))).
  assert (noticed s s) as Hstay by by left.
  destruct c; try done; cbn in Ha, Hal; try (by subst s').
  - by destruct Ha as [-> _].
  - destruct Ha as [[_ ->]|(_ & rv & _ & ->)]; [done|]. left. apply stage_live. cbn. autorewrite with trackers.
    rewrite Hal. by rewrite lookup_insert_ne.
  - destruct r as [t'|e]; [by eapply update_noticed|]. destruct Ha as [->|[t' ?]]; [done|]. by eapply update_noticed.
  - destruct r as [t'|e]; [by eapply status_noticed|]. destruct Ha as [->|[t' ?]]; [done|]. by eapply status_noticed.
  - destruct Ha as [[_ ->]|Hd]; [done|]. left. rewrite Hal in Hd. by apply deleted_stage.
Qed.

Lemma environment_noticed s s' : store_ok key origin s -> environment key s s' -> noticed s s'.
Proof.
  intros Hs He. left. destruct He as [t Hid Hu|id Hid|s' Hd].
  - apply stage_live. by apply same_commit.
  - apply stage_live. by apply same_forget.
  - apply deleted_stage; [apply Hs|done].
Qed.

(** (C27) No move of a promotion goes unnoticed.  Interleave promotions of a target and passes of its
    fenced tracker in any way, over lagging caches and failing calls: whenever a step changes the
    stage of the handover - the fence committed, the adoption flagged, the fence taken back, the
    finalizer let go - and the old tracker is still there, the event filter of the tracker's
    controller passes the change, so that the old tracker reconciles again. *)
Theorem handover_moves_wake (s : store) (w w' : world ctlE store) (t t' : Tracker)
    (Hinit : initial key origin s)
    (Hreach : reachable (anyone answers) (environment key) (takes_part key) s w)
    (Hstep : step (anyone answers) (environment key) (takes_part key) w w')
    (Hold : live w.2 !! old_id = Some t) (Hnew : live w'.2 !! old_id = Some t')
    (Hmoved : stage_of key w'.2 <> stage_of key w.2) :
  trackerChanged t t' = true.
Proof.
  enough (noticed w.2 w'.2) as [E|H] by (done || by apply H).
  pose proof (consistent_reachable _ _ _ _ _ _ (participants_sound key origin) _ _ (proj1 (initial_ok _ _ _ Hinit)) Hreach) as Hc.
  destruct Hstep as [ts s1 p Hp|ts s1 s2 i h R c k r Hi Ha|ts s1 s2 He]; [by left| |].
  - destruct (consistent_call _ _ _ _ _ _ _ _ _ _ Hc Hi) as (Hs & Hk & Hal & _). by eapply call_noticed.
  - destruct Hc as [Hs _]. by apply environment_noticed.
Qed.

End Moves.

(** ** At work *)

(** The promotion of [HandoverGuarantees], about to commit its fence. *)
Definition fencing_world : world ctlE store :=
  schedule (total (serve 0)) [0; 0]%nat
    ([([], as_thread (promoteIfNeeded true sample_key)); ([], as_thread (retire sample_key))], sample_start).

Definition live_old (w : world ctlE store) : Tracker := default sample_old (live w.2 !! Handover.old_id sample_key).

Lemma handover_moves_wake_witness :
  trackerChanged (live_old fencing_world) (live_old (turn (total (serve 0)) 0 fencing_world)) = true.
Proof.
  pose proof (total_answers (anyone answers) _ _ (anyone (serve_sound 0))) as Hserve.
  destruct (schedule_attained (anyone answers) (environment sample_key) (takes_part sample_key) (total (serve 0)) wf Hserve _ [0; 0]%nat _ sample_threads) as [Hr Hwf].
  destruct (turn_step (anyone answers) (environment sample_key) (takes_part sample_key) (total (serve 0)) wf Hserve 0 fencing_world Hwf) as [_ [E|Hs]].
  - enough (Fenced = Open) by done. etrans; [|etrans; [exact (f_equal (fun w => stage_of sample_key w.2) E)|]]; vm_refl.
  - apply (handover_moves_wake sample_key (GetTrackerStatus sample_old) sample_start fencing_world (turn (total (serve 0)) 0 fencing_world)).
    + apply sample_initial.
    + exact Hr.
    + exact Hs.
    + vm_refl.
    + vm_refl.
    + intros H. enough (Fenced = Open) by done. etrans; [|etrans; [exact H|]]; vm_refl.
Defined.

End Wakeups.
