(* ===== verification/Races.v ===== *)
(** An interleaving in which a promotion loses bookkeeping: a pass of the old tracker that was under
    way when the fence landed. *)
From stdpp Require Import strings base list gmap fin_maps relations.
From S2P Require Import Prelude GoStrings Values ApiTypes Scope Render RenderSpec Client Applier TrackerLogic Controller Promotion TrackerReconciler TrackerGuarantees World TrackerStore Handover HandoverGuarantees.
Local Open Scope string_scope.
Local Open Scope list_scope.
Local Open Scope go_scope.

Module Races.
Import GoStrings Values ApiTypes Scope Render RenderSpec Client Applier TrackerLogic Controller Promotion TrackerReconciler TrackerGuarantees World TrackerStore Handover HandoverGuarantees.

(** A server with one contributor and a target yet to be created, over the store of trackers. *)
Definition busy_serve (R : Type) (c : ctlE R) (s : store) : R * store :=
  match c in ctlE R return R * store with
  | OnTarget _ _ e =>
      (match e in targetE R return R with
       | GetTarget _ => Err (NewNotFound "" "configmaps" "cm")
       | CreateTarget o | UpdateTarget o | ApplyTarget o _ _ => Ok o
       end, s)
  | ListContributors kind index _ =>
      (Ok (if String.eqb kind KindResourcePatch && is_some index then [server_patch None OnReleaseRevert] else []), s)
  | c => serve 0 _ c s
  end.

Lemma busy_sound (R : Type) (c : ctlE R) (s : store) :
  wf s -> answers R s c (busy_serve R c s).1 (busy_serve R c s).2 /\ wf (busy_serve R c s).2.
Proof. intros Hw. destruct c; try exact (serve_sound _ _ _ _ Hw); by split. Qed.

(** The old tracker before its first pass. *)
Definition new_tracker : Tracker := set_tracker_status empty_status sample_old.

Definition old_pass : ctlM outcome :=
  Reconcile (JP := no_ops) true (fun _ => map_to_list) KindSharedResource "team-a" (TrackerName sample_key).

Definition takes_part (p : prog ctlE unit) : Prop :=
  p = as_thread (promoteIfNeeded true sample_key) \/ p = as_thread old_pass.

(** The pass gets as far as creating the target; the promotion runs from beginning to end; the pass
    goes on. *)
Definition overtaken : world ctlE store :=
  schedule (total busy_serve) (replicate 6 0 ++ replicate 12 1 ++ replicate 30 0)%nat
    ([([], as_thread old_pass); ([], as_thread (promoteIfNeeded true sample_key))], only new_tracker).

Definition status_at (id : objid) (s : store) : SharedResourceStatus :=
  match live s !! id with Some t => GetTrackerStatus t | None => empty_status end.

(** The old tracker is flagged as handed over, and what the pass recorded, that it created the target,
    for whom, and that the contributor's prior values are captured, reached the old tracker only. *)
Lemma pass_in_flight_is_lost :
  reachable (anyone answers) (fun _ _ => False) takes_part (only new_tracker) overtaken /\
  stage_of sample_key overtaken.2 = HandedOver /\
  (let old := status_at (old_id sample_key) overtaken.2 in
   CreatedByOperator old = true /\ is_some (CreatorPatchRef old) = true /\
   map PriorValuesCaptured (Contributors old) = [true]) /\
  (let new := status_at (new_id sample_key) overtaken.2 in
   CreatedByOperator new = false /\ CreatorPatchRef new = None /\ Contributors new = []).
Proof.
  split; [|split; [vm_refl|split; (split; [vm_refl|split; vm_refl])]].
  apply (schedule_attained _ _ _ (total busy_serve) wf (total_answers _ _ _ (anyone busy_sound))).
  apply (start_attained _ _ _ _ _ [_]); [by left|]. apply (start_attained _ _ _ _ _ []); [by right|].
  apply attained_start, only_wf.
Qed.

End Races.
