(* ===== verification/Divergences.v ===== *)
(** Where the code and what is written about it differ, each on a concrete input or trace. *)
From stdpp Require Import strings base list gmap fin_maps.
From Stdlib Require Import Ascii ZArith Lia.
From S2P Require Import Prelude GoStrings Values ApiTypes Identity Scope Kube Containment FieldPath Render RenderSpec Client ProgramLogic Applier TrackerLogic TrackerSpec Controller Traces TrackerReconciler TrackerTraces TrackerGuarantees TrackerOutcomes ContributorReconciler ContributorGuarantees Webhook WebhookSpec.
Local Open Scope string_scope.
Local Open Scope list_scope.
Local Open Scope go_scope.

Module Divergences.
Import GoStrings Values ApiTypes Identity Scope Kube Containment FieldPath Render RenderSpec Client ProgramLogic Applier TrackerLogic TrackerSpec Controller Traces TrackerReconciler TrackerTraces TrackerGuarantees TrackerOutcomes Webhook WebhookSpec.

(** ** Paths and lists *)

(** Printing a path does not always parse back: an annotation key has dots. *)
Example dotted_key_does_not_round_trip :
  Parse (Path_String [FieldSegment "metadata"; FieldSegment "annotations"; FieldSegment "a.b/c"]) =
  Ok [FieldSegment "metadata"; FieldSegment "annotations"; FieldSegment "a"; FieldSegment "b/c"].
Proof. vm_refl. Qed.

(** A key match for the text Go prints for nil selects an element without the key. *)
Example nil_text_matches_absent_key :
  findByKey [VMap {["port" := VInt 80]}] "host" "<nil>" = Some 0.
Proof. vm_refl. Qed.

(** A merge key taken from a rendered patch, where numbers are float64, does not find the element of
    the live object, where they are int64, once the number prints in exponent form. *)
Example large_number_key_is_not_found :
  sprint_v (VFloat (flt_of_Z 21000000)) = "2.1e+07" /\
  findByKey [VMap {["id" := VInt 21000000]}] "id" (sprint_v (VFloat (flt_of_Z 21000000))) = None.
Proof. split; vm_refl. Qed.

(** ** Stored values *)

(** Two integers an object can hold are stored as the same prior value. *)
Example prior_values_lose_precision :
  decodePriorValues (encodePriorValues {["a" := VInt 9007199254740993]}) =
  decodePriorValues (encodePriorValues {["a" := VInt 9007199254740992]}).
Proof. vm_refl. Qed.

(** ** Names *)

(** A tracker name with a label that starts with a dash, which is not a DNS-1123 subdomain. *)
Example tracker_name_with_bad_label :
  stake 12 (TrackerName (mkTargetKey "v1" "Role" "ns" "a.:b")) = "role-ns-a.-b".
Proof. vm_refl. Qed.

(** A contribution that writes a map under a path and one that writes a scalar at it are not seen to
    conflict: only equal paths are compared. *)
Example nested_claims_do_not_conflict :
  detectPathConflicts
    [mkContribution {["data" := VStr "x"]} [[FieldSegment "data"]] "";
     mkContribution {["data" := VMap {["k" := VStr "y"]}]} [[FieldSegment "data"; FieldSegment "k"]] ""] = ∅.
Proof. vm_refl. Qed.

(** With several contested paths, the one reported for a superseded contributor is the one the map's
    range happens to give first. *)
Example reported_path_depends_on_order (c : contributorRecord) (holder : string) :
  appendConflict [] [("spec.a", [0; 1]); ("spec.b", [0; 1])] c holder <>
  appendConflict [] [("spec.b", [0; 1]); ("spec.a", [0; 1])] c holder.
Proof. intros E. injection E. discriminate. Qed.

(** ** Appliers *)

Definition data_path (k : string) : Path := [FieldSegment "data"; FieldSegment k].

Definition data_of (m : gmap string value) : gmap string value := {["data" := VMap m]}.

Definition data_request (c : Contribution) (previous : list Path) : Applier.Request :=
  Applier.mkRequest (mkRenderTarget "v1" "ConfigMap" "cm" "team-a") (Some c) "patch-operator/team-a/a" "" previous ∅ true None false.

(** Prior values are captured on the first apply only: a path the contribution claims later on takes
    the place of a value that is not recorded, and reverting deletes it instead of putting it back. *)
Example later_claim_is_not_restored :
  let c := mkContribution (data_of {["k" := VStr "v"; "l" := VStr "mine"]}) [data_path "k"; data_path "l"] "" in
  match plan_update (data_request c [data_path "k"]) c (data_of {["k" := VStr "v"; "l" := VStr "theirs"]}) with
  | Ok (desired, priors) =>
      Get (VMap (plan_revert (mkRevertRequest (Req_Target (data_request c [])) "patch-operator/team-a/a"
        [data_path "k"; data_path "l"] priors) desired)) (data_path "l")
  | Err _ => Some VNil
  end = None.
Proof. cbv zeta. vm_refl. Qed.

(** A path that passes from one contributor to another of higher priority, which is applied before it,
    is written by the new owner and then withdrawn by the old one, in the same pass. *)
Example moved_path_is_withdrawn :
  let winner := mkContribution (data_of {["k" := VStr "new"]}) [data_path "k"] "" in
  let former := mkContribution (data_of {["l" := VStr "other"]}) [data_path "l"] "" in
  match plan_update (data_request winner []) winner (data_of {["k" := VStr "old"; "l" := VStr "other"]}) with
  | Ok (first, _) =>
      match plan_update (data_request former [data_path "k"; data_path "l"]) former first with
      | Ok (second, _) => (Get (VMap first) (data_path "k"), Get (VMap second) (data_path "k"))
      | Err _ => (None, Some VNil)
      end
  | Err _ => (None, Some VNil)
  end = (Some (VStr "new"), None).
Proof. cbv zeta. vm_refl. Qed.

(** The UID of the target a tracker has observed is kept up to date and read by nothing: after the
    target has been deleted and created anew, a contributor's record is the same as before, and
    releasing it restores into the new object the value the old one had. *)
Lemma replaced_target_keeps_bookkeeping c st uid rv : recordFor c (with_observed uid rv st) = recordFor c st.
Proof. done. Qed.

Example replaced_target_gets_old_value :
  let rev := mkRevertRequest (mkRenderTarget "v1" "ConfigMap" "cm" "team-a") "patch-operator/team-a/a"
    [data_path "k"] {[Path_String (data_path "k") := VStr "of the old object"]} in
  Get (VMap (plan_revert rev (data_of ∅))) (data_path "k") = Some (VStr "of the old object").
Proof. cbv zeta. vm_refl. Qed.

(** Reverting a server-side apply is itself an apply, sent without looking whether the target exists;
    the server creates what an apply finds missing. *)
Lemma ssa_revert_applies_unseen (req : RevertRequest) (tr : list (event targetE)) (r : res goerror unit) :
  exec (ssa_Revert req) tr r -> Rev_FieldManager req <> "" ->
  exists reply rest, tr = mkEvent _ (ApplyTarget (Identity (Rev_Target req)) (Rev_FieldManager req) false) reply :: rest.
Proof.
  unfold ssa_Revert. intros Hx Hne. apply String.eqb_neq in Hne. rewrite Hne in Hx. cbv zeta in Hx.
  apply exec_vis_inv in Hx as (reply & rest & -> & _). by exists reply, rest.
Qed.

(** ** The tracker *)

(** A contributor whose authorization has been found lost. *)
Definition unauthorized_patch : Contributor :=
  set_contributor_status
    (setCond 0 "Authorized" ConditionFalse "Unauthorized" (text "may no longer patch configmaps") (GetPatchStatus (server_patch None OnReleaseRevert)))
    (server_patch None OnReleaseRevert).

Definition creates_target (e : event ctlE) : bool :=
  match ev_call e with
  | OnTarget _ _ c => match c with CreateTarget _ => true | _ => false end
  | _ => false
  end.

(** The operator goes on writing for it. *)
Example unauthorized_contributor_is_applied :
  is_some (List.find (fun c => String.eqb (Cond_Type c) "Authorized" && String.eqb (Cond_Status c) ConditionFalse)
    (Conditions (GetPatchStatus unauthorized_patch))) = true /\
  existsb creates_target
    (behaviour (sample_server (server_tracker empty_status) unauthorized_patch)
      (Reconcile (JP := no_ops) true (fun _ => map_to_list) KindSharedResource "team-a" "t") tt).1 = true.
Proof. split; vm_refl. Qed.

(** A status write that empties the contributor list of a tracker that has one. *)
Definition written_lists (tr : list (event ctlE)) : list nat :=
  omap (fun e => match ev_call e with
                 | UpdateTrackerStatus t => Some (length (Contributors (GetTrackerStatus t)))
                 | _ => None
                 end) tr.

Example render_error_empties_contributors :
  length (Contributors status_a) = 1 /\
  written_lists
    (behaviour (sample_server (server_tracker status_a) unrenderable_patch)
      (Reconcile (JP := no_ops) true (fun _ => map_to_list) KindSharedResource "team-a" "t") tt).1 = [0].
Proof. split; vm_refl. Qed.

(** An impersonating client that could not be built: the contribution is not applied and its record says
    Conflicted, while the phase says Applied and nothing asks for another run. *)
Definition no_client_server (R : Type) (e : ctlE R) (s : unit) : R * unit :=
  match e in ctlE R return R * unit with
  | BuildClient _ => (Some (OtherError "connection refused"), s)
  | e => sample_server (server_tracker empty_status) (server_patch None OnReleaseRevert) _ e s
  end.

Definition no_client_run : list (event ctlE) * outcome :=
  behaviour no_client_server (Reconcile (JP := no_ops) true (fun _ => map_to_list) KindSharedResource "team-a" "t") tt.

Example client_failure_is_quiet :
  no_client_run.2 = done_ /\ last_phase no_client_run.1 = Some TrackerPhaseApplied /\
  existsb (fun e => touches_target (ev_call e)) no_client_run.1 = false /\
  omap (fun e => match ev_call e with
                 | UpdateTrackerStatus t => Some (map State (Contributors (GetTrackerStatus t)))
                 | _ => None
                 end) no_client_run.1 = [[ContributorStateConflicted]].
Proof. split; [vm_refl|]. split; [vm_refl|]. split; vm_refl. Qed.

(** A tracker nobody claims any more whose status still lists somebody, because its contributor was
    pointed at another target: every call of the reconcile only writes [Releasing] over and over; no
    field is withdrawn and the tracker is never retired. *)
Definition only_marks_releasing : policy ctlE := fun h R c =>
  match c with
  | GetTracker _ _ _ _ => True
  | UpdateTrackerStatus t => Phase (GetTrackerStatus t) = TrackerPhaseReleasing
  | _ => False
  end.

Lemma stale_tracker_is_stuck (t : Tracker) (tr pre suf : list (event ctlE)) (o : outcome) R (c : ctlE R) r :
  Contributors (GetTrackerStatus t) <> [] -> exec (reconcileEmpty t) tr o -> tr = pre ++ mkEvent R c r :: suf ->
  only_marks_releasing pre R c.
Proof.
  intros Hne Hx Htr.
  assert (wp only_marks_releasing (reconcileEmpty t) [] (fun _ _ => True)) as Hwp.
  { unfold reconcileEmpty. cbv zeta. destruct (Contributors (GetTrackerStatus t)) as [|d l] eqn:E; [done|]. cbn [length Nat.eqb andb].
    eapply (wp_use _ _ _ _ (fun _ _ => True)); [|by intros h [t' e] _ _].
    unfold writeStatus. cbv zeta. eapply wp_post.
    - apply (patchStatus_wp _ _ (fun _ _ => True)); try done.
      intros h t1 _. cbn. by rewrite !status_set_status.
    - by intros h [].  }
  destruct (wp_exec _ _ _ _ _ _ Hwp Hx) as [H _]. exact (H _ _ _ Htr).
Qed.

(** ** The contributor *)

(** A tracker's pass counts and applies whoever the index lists, whether or not the contributor has got
    round to recording the tracker.  Deleted at that point, the contributor asks no tracker and drops
    its finalizer, with its fields on the target and the tracker still listing it. *)
Definition applied_tracker : Tracker :=
  match List.find (fun e => match ev_call e with UpdateTrackerStatus t => negb (Nat.eqb (length (Contributors (GetTrackerStatus t))) 0) | _ => false end)
    (sample_run empty_status None OnReleaseRevert).1 with
  | Some e => match ev_call e with UpdateTrackerStatus t => t | _ => server_tracker empty_status end
  | None => server_tracker empty_status
  end.

Definition unrecorded_run : list (event ctlE) * outcome :=
  behaviour (sample_server applied_tracker (server_patch (Some 5%Z) OnReleaseRevert))
    (ContributorReconciler.Reconcile (K := plain_library) true false 0 KindResourcePatch "team-a" "a") tt.

Example finalizer_released_while_applied :
  map (fun r => (Ref_Name (PatchRef r), State r, OwnedPaths r)) (Contributors (GetTrackerStatus applied_tracker)) =
    [("a", ContributorStateApplied, ["data.k"])] /\
  omap (fun e => match ev_call e with
                 | GetTracker _ _ _ n => Some ("asks " +:+ n)
                 | UpdateContributor c => Some (if ContainsFinalizer ContributorFinalizer (c_meta c) then "keeps" else "drops")
                 | _ => None
                 end) unrecorded_run.1 = ["drops"] /\
  unrecorded_run.2 = done_.
Proof. split; [vm_refl|]. split; vm_refl. Qed.

(** ** Admission *)

(** A cluster-scoped contributor that selects by label and names a namespace is reviewed there, and
    lists its targets everywhere. *)
Definition selecting_patch : Contributor :=
  ClusterResourcePatch (mkPatchObject (mkObjectMeta "p" "" "u1" "1" 1 0 None [] ∅)
    (mkResourcePatchSpec
       (mkTargetRef TargetModeSelector "v1" "ConfigMap" "" "team-a" (Some (mkLabelSelector {["app" := "x"]} [])) None 0)
       (mkLifecycleSpec "" "" None "") (mkApplySpec "" "" "") 0 None None (Patch (p_spec (sample_patch ""))))
    (mkResourcePatchStatus [] [] [] 0 "" None)).

Example selection_wider_than_review :
  match ChecksFor (K := plain_library) OperationCreate (Some selecting_patch) None None with
  | Ok checks => map Check_String checks
  | Err _ => []
  end = ["patch configmaps in namespace team-a"; "update configmaps in namespace team-a"] /\
  ContributorReconciler.selectorNamespaces (K := plain_library) selecting_patch = Ret (Ok [""]).
Proof. split; vm_refl. Qed.

(** Two questions that print alike, of which one is dropped: a resource of the core group with a dot,
    and one of another group. *)
Example checks_print_alike :
  let a := mkCheck VerbPatch "" "a.b" "ns" "n" in let b := mkCheck VerbPatch "b" "a" "ns" "n" in
  a <> b /\ dedupeChecks [a; b] = [b].
Proof. split; [done|vm_refl]. Qed.

(** An update that leaves the spec alone but names somebody else in the annotation is let through. *)
Definition forged_patch : Contributor :=
  set_annotations {[AuthorizedAsAnnotation := "system:admin"]} admitted_patch.

Example metadata_update_forges_principal :
  recorder_Handle (K := plain_library) Ok
    (mkRequest OperationUpdate (Some forged_patch) (Some admitted_patch) tenant) = Allowed /\
  IdentityFromAnnotations (c_meta forged_patch) = Some (mkUserInfo "system:admin" "" [] ∅).
Proof. split; vm_refl. Qed.

End Divergences.
